(* ===== verification/_CoqProject ===== *)
-Q . S2P
Prelude.v
Strings.v
Ids.v
Paths.v
Mounts.v
Filesystem.v
Platform.v
HostApi.v
Scoped.v
Cas.v
Composition.v
RunState.v
RunStateFacts.v
RunStateFs.v
RunStateDemo.v
Period.v
Tally.v
LimitCheck.v
BudgetGate.v
Governor.v
GovernorSnapshot.v
CasSnapshot.v
GateStore.v
GovernorFs.v
PersistentGovernor.v
Demo.v
GovernorFacts.v
GovernorSafety.v
GovernorLedger.v
PersistentFacts.v
Capability.v
Obligations.v
Trust.v
Authorize.v
AuthorizeFacts.v
TrustFacts.v
AuthorizeDemo.v
Leases.v
LeaseFacts.v
LeaseAuthority.v
Actions.v
Approvals.v
ApprovalFacts.v
LeaseFs.v
LeaseFsFacts.v
LeaseFsDemo.v
RuntimePolicy.v
Network.v
NetworkFacts.v
Programs.v
Dispatch.v
Processes.v
ProcessFacts.v
CapabilityHost.v
HostFlows.v
HostFacts.v
HostOutcomes.v
HostPool.v
HostDemo.v
Collections.v
Turns.v
TurnLimiter.v
TurnEvents.v
TurnStore.v
TurnOps.v
TurnRunner.v
TurnSnapshot.v
TurnWf.v
TurnRestore.v
TurnMoves.v
TurnOpsFacts.v
TurnSubmits.v
TurnCalls.v
TurnSafety.v
TurnLog.v
TurnGuards.v
TurnCoordinator.v
TurnPublish.v
TurnDelivery.v
TurnDemo.v
