(* ===== verification/Prelude.v ===== *)
(** * IronClaw control plane: a verification library

    This library models the authority and storage core of IronClaw Reborn, the Rust
    workspace under [src/ironclaw/crates], and proves what its other crates rely on.
    All paths below are relative to that directory.

    ** The program

    A capability call carries a [ResourceScope] (tenant, user, agent, project, mission,
    thread, invocation) and an execution context with grants.  The capability host asks an
    authorizer, which compares grants and leases with the trust the host has in the
    package; a call that needs approval is parked in the run-state store, and an approval
    issues a one-use lease that a resumption claims.  What an allowing decision obliges to
    is prepared before and concluded after the dispatch, which runs in the foreground or
    as a background process.  Before work starts, the resource governor reserves an
    estimate against every account the scope falls under; afterwards the reservation is
    reconciled with the actual usage or released.

    A conversation turn is submitted to the turn coordinator, queued in the turn store,
    claimed by a runner under a lease, and moved by the runner, by approvals and by
    cancellations until it ends; every move is logged and published to subscribers.

    Durable records are stored through a scoped filesystem: the scope's mount view maps
    the caller's path to a virtual path of the shared root filesystem and limits the
    operations, and records are updated by a bounded compare-and-swap loop.

    ** The files

    Shared: this file (results, the state-and-error monad, saturating integers, maps,
    sums over maps, tactics); [Strings] (splitting, joining, prefixes); [Platform] (the
    class of what is not Rust source of the repository: [rust_decimal], [chrono] and its
    time zones, with the laws the code relies on); [Programs] (programs as trees of calls,
    reasoning over every answer, undisturbed runs, pools of interleaved programs);
    [Collections] (record updates, stable sorting, maps bounded by insertion order).

    Host API ([ironclaw_host_api/src]): [HostApi] ([resource.rs]), [Ids] ([ids.rs],
    [dotted_id.rs], [error.rs]), [Paths] ([path.rs]), [Mounts] ([mount.rs]), [Capability]
    ([capability.rs], [runtime.rs], [scope.rs]), [Obligations] ([decision.rs]), [Actions]
    ([action.rs], [approval.rs], [audit.rs]), [Dispatch] ([dispatch.rs]); [RuntimePolicy]
    also has [runtime_policy.rs].

    Storage ([ironclaw_filesystem/src]): [Filesystem] (entries, versions, capabilities,
    the [RootFilesystem] and [IndexedFilesystem] classes; [Module InMemory] is
    [in_memory.rs]), [Scoped] ([scoped.rs]), [Cas] ([cas.rs]), [Composition] (the
    production mount views of [ironclaw_reborn_composition/src/lib.rs]).

    Run state ([ironclaw_run_state/src/lib.rs]): [RunState] (records, the in-memory
    stores, storage paths, the filesystem stores), [RunStateFacts] (the in-memory
    contract), [RunStateFs] (storage paths are valid and injective; the filesystem stores
    refine the in-memory ones), [RunStateDemo] (the production mount views satisfy the
    refinement's interface; concrete runs).

    Resources ([ironclaw_resources/src]): [Period] ([period.rs]), [Tally], [LimitCheck],
    [Governor] (state, operations and the in-memory governor of [lib.rs]), [BudgetGate]
    ([gate.rs], [event.rs]), [GovernorSnapshot] (the persisted form, its migrations, the
    store interface and the JSON file store), [PersistentGovernor] (the durable governor
    and its fast path), [CasSnapshot] ([cas_snapshot.rs]), [GateStore] and [GovernorFs]
    (the filesystem-backed stores of [filesystem_store.rs]), [Demo] (concrete runs);
    theorems in [GovernorFacts], [GovernorSafety], [GovernorLedger] and
    [PersistentFacts].

    Authority: [Trust] ([ironclaw_trust/src]), [Authorize], [Leases] and [LeaseFs]
    ([ironclaw_authorization/src/lib.rs]: the grant loop, the lease life cycle with the
    in-memory store, the filesystem store), [Approvals] ([ironclaw_approvals/src/lib.rs]),
    [RuntimePolicy] ([ironclaw_runtime_policy/src]), [Network] ([ironclaw_network/src]);
    theorems in [AuthorizeFacts], [TrustFacts], [LeaseFacts], [LeaseAuthority],
    [ApprovalFacts], [LeaseFsFacts], [NetworkFacts]; concrete runs in [AuthorizeDemo] and
    [LeaseFsDemo].

    Execution: [Processes] and [ProcessFacts] ([ironclaw_processes/src]: the in-memory
    stores, the detached task, the host operations); [CapabilityHost] and [HostFlows]
    ([ironclaw_capabilities/src]: calls, errors, helpers, then the five methods of
    [host.rs]), with [HostFacts] (what a method guarantees), [HostOutcomes] (how it ends),
    [HostPool] (many of them over the in-memory stores) and [HostDemo].

    Turns ([ironclaw_turns/src]): [Turns] (data), [TurnLimiter]
    ([memory/concurrency_limiter.rs]), [TurnEvents] ([events.rs]), [TurnStore], [TurnOps]
    and [TurnRunner] ([memory/mod.rs]: state and private methods, the operations of
    submitters, those of runners), [TurnSnapshot] (the persisted form), [TurnCalls] (the
    store as a shared object; [reachable]), [TurnCoordinator] ([lifecycle.rs],
    [coordinator.rs]); the invariant in [TurnWf], kept by restarts ([TurnRestore]), by
    each kind of change ([TurnMoves]) and each operation ([TurnOpsFacts], [TurnSubmits]);
    theorems in [TurnSafety], [TurnLog], [TurnGuards], [TurnPublish] and [TurnDelivery];
    concrete runs in [TurnDemo].

    ** How code becomes definitions

    A method under a mutex is a function from state to result and state.  [Result] is
    the type of that name; the governor's state functions use the monad of this file.
    A [HashMap] is a [gmap]; where the code iterates over one, either the order does
    not matter to the statement or it is the order of [map_to_list].  Counters are
    [N] with the saturation of [u64] written out; dates are numbers; doubles are
    IEEE binary64 values of the standard library.  Strings are byte strings; the
    control characters beyond ASCII that [char::is_control] knows are recognised by
    their UTF-8 bytes.  Clock readings and fresh ids are arguments.

    An async function is split at its await points.  [Cas], [LeaseFs] and [Approvals]
    take as arguments what other tasks do to the stores at each of them, so that their
    theorems hold for every interleaving.  The capability host, processes, submissions,
    the publishing store and the coordinator are programs of [Programs]: each call of a
    trait object or each region under a mutex is one call, answered by a relation, and a
    pool interleaves any number of programs call by call.

    Interfaces are classes: [Platform]; [RootFilesystem] and [IndexedFilesystem] with the
    laws [VersionedStore] and [IndexedStore] (discharged by the in-memory backend);
    [ResourceGovernorStore] with its transaction laws (discharged by the file store when
    no fault occurs and by the filesystem-backed store when undisturbed); [UuidText],
    [JsonCodec], [SerdeJson], [LimitOrder] and [InvocationCode] (text of ids, text of
    records, values, the order of limits, fingerprints); [StoreMounts] (what a store asks
    of the mount views, discharged by the production views for every alias in use);
    [ResolverStores] (what the approval resolver asks of the approval and lease stores,
    discharged by the in-memory ones); [TurnPayload] (resolved profiles and the route
    validator); [TurnStateStore], [TurnRunTransitionPort] and
    [LifecyclePublicationErrorPort] (what the coordinator and the runner ask of a turn
    store, instantiated by the plain and by the publishing store).

    ** What is proved

    Governor: a granted reservation keeps every account of its cascade within every
    integer limit below [u64::MAX] (there the sums saturate and the limit never refuses),
    and it is granted exactly when each account admits it; the holds an
    account shows are at most, and while nothing saturates exactly, the sum of its
    active reservations; a reservation closes once; refusals change nothing; the event
    log balances.  Durability: snapshots round-trip and migrate, a file transaction
    fails closed at every fault, and the durable governor, without
    the fast path, refines the in-memory one (a refused call leaves the two apart by
    period rollovers); with it, a reservation can be reconciled twice.  A decided gate
    keeps its decision.

    Storage: accepted ids and paths are safe segments in normal form; resolution stays
    inside the longest matching grant; an attenuated view grants nothing more; scopes
    with disjoint views do not interfere; the production views keep tenants and users
    apart, with one exception that is stated (the literal id [__system__]).  As long as no
    task re-creates a record under a version another has read, the compare-and-swap
    update is atomic; it writes at most once, gives up only under contention in all its
    attempts, and its back-off fits its deadline.  Under the same condition the filesystem
    run, approval, gate and lease stores are linearizable to the in-memory ones, and the
    filesystem governor's transactions are atomic.

    Authority: the grant loop computes the declarative verdict, and what it allows is
    covered by one unexpired grant and by the trust ceiling; trust is never
    self-asserted; a lease is claimed and consumed at most once; an issued lease is backed
    by an approval decided at one instant, also when the store lost the answer; egress goes only to allowed public targets
    within the limits; a resolved runtime policy stays within its ceilings.

    Execution: a capability acts only as authorized, under prepared obligations that are
    concluded exactly once; a resumption acts only on an approval of this very input; the
    calls that claimed one lease have at most one effect, whatever hosts share the
    in-memory stores; a lease is settled by the method that dispatched under it, and runs
    are settled on every path; every method ends within a fixed number of calls.  A process has its
    result before its final status, and a final status stays.

    Turns: every store that tasks and restarts can reach satisfies [turns_wf]; from it, a
    thread of an owner has at most one run that has not ended (the lock is kept per owner,
    and an expired lease ends the run, where the contracts under [docs/reborn] say
    otherwise), caps on running runs hold, a run only
    moves along the allowed moves, a stale lease is fenced, admission stays within its
    limits, a submission is accepted once per key while its reply is remembered, the event log is gap-free and can be
    paged, and a snapshot is read back to the same store, its queue in the order of the snapshot.  Coordination: each operation
    logs exactly the event it announces; subscribers see only what was announced; a
    cursor is delivered only when every required observer took its event, and an
    undisturbed success is delivered (a cancellation answered [already_terminal] publishes
    nothing); prepared run ids are bounded and used once.

    ** Bounds and fuel

    The compare-and-swap loop recurses on the code's own bound of 32 attempts, a lease
    call on [CAS_RETRY_ATTEMPTS] (3); both bounds are the code's, and running out is the
    code's own error.  [await_result] polls without end in the code: the model polls a
    given number of times and the theorems hold for every number.  The methods of the
    capability host make at most 7, 11 or 12 calls, a submission at most 6, a child
    submission at most 7; these are theorems.  The loop that draws an unused run id takes
    the drawn ids as a list, and has no answer while none is unused.  The pass over the
    claim queue is bounded by its length, as in the code.  All other recursion is on
    lists, strings or maps.

    [ledger_exact] assumes that the sums it speaks of fit the counters, [log_replay] that
    the log has fewer than [u64::MAX] records, [event_log_complete] and restarts that the
    64-bit event cursor is not used up, [submitted_once] that the store keeps replies at
    all; these are hypotheses of the statements.

    ** Not modelled

    JSON text, UUID text, decimal arithmetic, time zones, fingerprints and cryptography
    are parameters.  Mutex poisoning, tracing and latency logs, [Display] and most [serde]
    derives, queries (text and vector search), the SQL and local-disk backends, the tokio
    broadcast event sink, and Windows path handling are left out.  Of the trust policy,
    the local development override and the locks per owner; of the network crate, the URL
    parser, DNS and the HTTP client, which are arguments; of the capability host, the
    redaction of shell commands, an argument too; of the turn store, the sink that writes
    snapshots of blocked runs out and the waiting of a duplicate submission (it is
    answered once the first is done); of turns, profile resolution and the payloads of checkpoints.  The durable
    process and turn stores, the journalling governor and the approval policies are not
    modelled.  Outside the chosen core: the language-model providers, the agent loop, the
    web, terminal and chat front ends, the WASM and script runtimes, and the Python
    benchmark harness.

    ** Plan

    Next, in this order: the durable turn store ([filesystem_store.rs] of
    [ironclaw_turns]) as a refinement of [TurnStore] through [TurnSnapshot]; the
    journalling governor ([filesystem_governor.rs]); the approval policies
    ([ironclaw_approvals/src/policy.rs], [auto_approve.rs], [capability_permission.rs]);
    the process filesystem store and wrappers. *)

From Stdlib Require Export SpecFloat.
From stdpp Require Export base gmap sets list strings fin_maps relations.

(** ** Results: Rust's [Result<T, E>] *)

Inductive Result (T E : Type) : Type :=
  | Ok (v : T)
  | Err (e : E).
Global Arguments Ok {T E} v.
Global Arguments Err {T E} e.

#[export] Instance Result_eq_dec {T E} `{!EqDecision T, !EqDecision E} :
  EqDecision (Result T E).
Proof. solve_decision. Defined.

Definition is_ok {T E} (r : Result T E) : bool :=
  match r with Ok _ => true | Err _ => false end.

Definition result_map {T U E} (f : T -> U) (r : Result T E) : Result U E :=
  match r with Ok v => Ok (f v) | Err e => Err e end.

Definition ok_or {T E} (o : option T) (e : E) : Result T E :=
  match o with Some v => Ok v | None => Err e end.

(** ** State-and-error monad

    A Rust method that takes [&mut S] and returns [Result<T, E>]: an early
    [return Err(..)] or [?] keeps the mutations made so far, so the state is
    part of both outcomes. *)

Definition ST (S E T : Type) : Type := S -> Result T E * S.

Section st_monad.
Context {S E : Type}.

Definition st_ret {T} (v : T) : ST S E T := fun s => (Ok v, s).
Definition st_err {T} (e : E) : ST S E T := fun s => (Err e, s).
Definition st_bind {T U} (m : ST S E T) (k : T -> ST S E U) : ST S E U :=
  fun s => match m s with
           | (Ok v, s') => k v s'
           | (Err e, s') => (Err e, s')
           end.
Definition st_get : ST S E S := fun s => (Ok s, s).
Definition st_put (s' : S) : ST S E unit := fun _ => (Ok tt, s').
Definition st_modify (f : S -> S) : ST S E unit := fun s => (Ok tt, f s).
Definition st_lift {T} (r : Result T E) : ST S E T := fun s => (r, s).
Definition st_gets {T} (f : S -> T) : ST S E T := fun s => (Ok (f s), s).

Fixpoint st_iter {X} (f : X -> ST S E unit) (xs : list X) : ST S E unit :=
  match xs with
  | [] => st_ret tt
  | x :: xs' => st_bind (f x) (fun _ => st_iter f xs')
  end.
End st_monad.

Declare Scope st_scope.
Delimit Scope st_scope with st.
Notation "'let!' x ':=' m 'in' k" := (st_bind m (fun x => k))
  (at level 10, x pattern, m at level 100, k at level 200) : st_scope.
Notation "m ';!' k" := (st_bind m (fun _ => k))
  (at level 199, right associativity) : st_scope.

Section st_laws.
Context {S E : Type}.

Lemma st_bind_ret {T U} (v : T) (k : T -> ST S E U) s :
  st_bind (st_ret v) k s = k v s.
Proof. reflexivity. Qed.

Lemma st_bind_assoc {T U V} (m : ST S E T) (k : T -> ST S E U)
    (h : U -> ST S E V) s :
  st_bind (st_bind m k) h s = st_bind m (fun x => st_bind (k x) h) s.
Proof. unfold st_bind. by destruct (m s) as [[v | e] s']. Qed.

Lemma st_bind_Ok_inv {T U} (m : ST S E T) (k : T -> ST S E U) s u s' :
  st_bind m k s = (Ok u, s') ->
  exists v s1, m s = (Ok v, s1) /\ k v s1 = (Ok u, s').
Proof.
  unfold st_bind. destruct (m s) as [[v | e] s1] eqn:Hm; [eauto | done].
Qed.

Lemma st_iter_modify {X} (f : X -> S -> S) (xs : list X) s :
  st_iter (E := E) (fun x => st_modify (f x)) xs s =
  (Ok tt, foldl (fun s x => f x s) s xs).
Proof.
  revert s. induction xs as [| x xs IH]; intros s; [done |].
  simpl. unfold st_bind at 1. simpl. apply IH.
Qed.
End st_laws.

(** ** Machine integers

    [u64] and [u32] values are natural numbers ([N]) below the type's bound;
    Rust's [saturating_add] and [saturating_sub] with their clamping written
    out. *)

Definition u64_max : N := 18446744073709551615.
Definition u32_max : N := 4294967295.

Definition sat_add (max a b : N) : N := N.min (a + b) max.
Definition sat_add64 : N -> N -> N := sat_add u64_max.
Definition sat_add32 : N -> N -> N := sat_add u32_max.
Definition sat_sub (a b : N) : N := (a - b)%N.

(** [a.checked_add(b)] *)
Definition checked_add (max a b : N) : option N :=
  if (a + b <=? max)%N then Some (a + b)%N else None.

Lemma sat_add_le max a b : (sat_add max a b <= max)%N.
Proof. unfold sat_add. lia. Qed.

Lemma sat_add_exact max a b : (a + b <= max)%N -> sat_add max a b = (a + b)%N.
Proof. unfold sat_add. lia. Qed.

Lemma sat_add_le_sum max a b : (sat_add max a b <= a + b)%N.
Proof. unfold sat_add. lia. Qed.

Lemma sat_add_0_l max a : (a <= max)%N -> sat_add max 0 a = a.
Proof. unfold sat_add. lia. Qed.

Lemma sat_add_assoc max a b c :
  sat_add max (sat_add max a b) c = sat_add max a (sat_add max b c).
Proof. unfold sat_add. lia. Qed.

Lemma sat_add_mono max a a' b b' :
  (a <= a')%N -> (b <= b')%N -> (sat_add max a b <= sat_add max a' b')%N.
Proof. unfold sat_add. lia. Qed.

Create HintDb u64.
Create Rewrite HintDb u64.
#[export] Hint Resolve sat_add_le sat_add_le_sum : u64.
#[export] Hint Rewrite sat_add_exact sat_add_0_l using lia : u64.

(** Unfolds the saturating operations and finishes with [lia]. *)
Ltac sat_lia :=
  unfold sat_add64, sat_add32, sat_add, sat_sub, checked_add,
    u64_max, u32_max in *; lia.

(** ** IEEE 754 doubles

    Rust's [f64] as the Standard Library's executable [spec_float] at the
    binary64 format. *)

Abbreviation f64 := spec_float.

Definition f64_of_Z (z : Z) : f64 := binary_normalize 53 1024 z 0 false.

(** [x as f64] for [x : u64]: rounded to nearest, ties to even. *)
Definition u64_as_f64 (n : N) : f64 := f64_of_Z (Z.of_N n).
Definition f64_div : f64 -> f64 -> f64 := SFdiv 53 1024.
Definition f64_lt (x y : f64) : bool := SFltb x y.
Definition f64_ge (x y : f64) : bool := SFleb y x.
Definition f64_zero : f64 := S754_zero false.
Definition f64_one : f64 := f64_of_Z 1.
Definition f64_is_finite (x : f64) : bool :=
  match x with
  | S754_zero _ | S754_finite _ _ _ => true
  | S754_infinity _ | S754_nan => false
  end.

(** ** Maps as Rust's [HashMap] *)

Create Rewrite HintDb maps.

Section map_helpers.
Context {K V : Type} `{!EqDecision K, !Countable K}.
Implicit Types m : gmap K V.

(** [m.entry(k).or_insert(d)] followed by an in-place update. *)
Definition entry_update (m : gmap K V) (k : K) (d : V) (f : V -> V) : gmap K V :=
  <[k := f (default d (m !! k))]> m.

Lemma entry_update_eq m k d f :
  entry_update m k d f !! k = Some (f (default d (m !! k))).
Proof. apply lookup_insert_eq. Qed.

Lemma entry_update_ne m k k' d f :
  k <> k' -> entry_update m k d f !! k' = m !! k'.
Proof. intros. by apply lookup_insert_ne. Qed.

(** The value an absent key reads as. *)
Lemma entry_update_default m k k' d f :
  default d (entry_update m k d f !! k') =
  if decide (k = k') then f (default d (m !! k)) else default d (m !! k').
Proof.
  case_decide as Hk; [subst; by rewrite entry_update_eq |].
  by rewrite entry_update_ne.
Qed.
Lemma elem_of_map_values (m : gmap K V) v :
  v ∈ (map_to_list m).*2 <-> exists k, m !! k = Some v.
Proof.
  rewrite list_elem_of_fmap. split.
  - intros ([k v'] & -> & Hk). exists k. by apply elem_of_map_to_list.
  - intros [k Hk]. exists (k, v). split; [done | by apply elem_of_map_to_list].
Qed.
End map_helpers.

#[export] Hint Rewrite @entry_update_eq : maps.
#[export] Hint Rewrite @entry_update_ne using congruence : maps.

(** ** Sums over a list *)

Definition sum_N {A} (f : A -> N) (l : list A) : N :=
  foldr (fun x acc => (f x + acc)%N) 0%N l.

Lemma sum_N_app {A} (f : A -> N) l1 l2 :
  sum_N f (l1 ++ l2) = (sum_N f l1 + sum_N f l2)%N.
Proof. induction l1 as [| x l1 IH]; simpl; [done | rewrite IH; lia]. Qed.

#[export] Instance sum_N_Permutation {A} (f : A -> N) :
  Proper ((≡ₚ) ==> (=)) (sum_N f).
Proof.
  intros l1 l2 Hp. induction Hp as [| x l1 l2 _ IH | x y l | l1 l2 l3 _ IH1 _ IH2];
    simpl; [done | by rewrite IH | lia | congruence].
Qed.

Lemma sum_N_ext {A} (f g : A -> N) l :
  (forall x, x ∈ l -> f x = g x) -> sum_N f l = sum_N g l.
Proof.
  induction l as [| x l IH]; intros Hfg; simpl; [done |].
  rewrite (Hfg x) by set_solver. rewrite IH; [done | set_solver].
Qed.

Section map_sum.
Context {K V : Type} `{!EqDecision K, !Countable K}.
Implicit Types m : gmap K V.

(** The sum of [f] over the values of a map. *)
Definition map_sum (f : V -> N) (m : gmap K V) : N :=
  sum_N (fun kv => f kv.2) (map_to_list m).

Lemma map_sum_empty f : map_sum f (∅ : gmap K V) = 0%N.
Proof. unfold map_sum. by rewrite map_to_list_empty. Qed.

Lemma map_sum_insert_None f m k v :
  m !! k = None -> map_sum f (<[k := v]> m) = (f v + map_sum f m)%N.
Proof. intros Hk. unfold map_sum. by rewrite map_to_list_insert. Qed.

Lemma map_sum_lookup f m k v :
  m !! k = Some v -> map_sum f m = (f v + map_sum f (delete k m))%N.
Proof.
  intros Hk. rewrite <- (map_sum_insert_None f (delete k m) k v)
    by apply lookup_delete_eq.
  by rewrite insert_delete_id.
Qed.

Lemma map_sum_update f m k v w :
  m !! k = Some v ->
  (map_sum f (<[k := w]> m) + f v = map_sum f m + f w)%N.
Proof.
  intros Hk. rewrite (map_sum_lookup f m k v Hk).
  rewrite (map_sum_lookup f (<[k := w]> m) k w) by apply lookup_insert_eq.
  rewrite delete_insert_eq. lia.
Qed.

Lemma map_sum_le_lookup f m k v :
  m !! k = Some v -> (f v <= map_sum f m)%N.
Proof. intros Hk. rewrite (map_sum_lookup f m k v Hk). lia. Qed.
End map_sum.

#[export] Hint Rewrite @map_sum_empty : maps.

(** ** Shared tactics *)

(** Splits every match and conditional of the context and the goal. *)
Ltac split_matches :=
  repeat (case_match; simplify_eq/=; try done).

(** One step of case analysis on a hypothesis about a monadic run. *)
Ltac st_simpl :=
  unfold st_bind, st_ret, st_err, st_get, st_put, st_modify, st_lift, st_gets in *;
  simpl in *.

(** Closes an equation of closed terms in the virtual machine, without reading
    normal forms (and the map instances in their types) back. *)
Ltac vm_refl := lazymatch goal with |- ?x = _ => vm_cast_no_check (@eq_refl _ x) end.
