(* ===== verification/Strings.v ===== *)
(** * Strings as Rust's [str]

    A [&str] is its UTF-8 bytes.  The searching, splitting and trimming methods
    the control plane uses, executable, and the lemmas that relate splitting and
    joining. *)

From S2P Require Import Prelude.
From Stdlib Require Import Ascii Lia.

(** ** Methods of [str] *)

(** [s.split(c)]: never empty; the empty string splits into one empty part. *)
Fixpoint split_on (c : ascii) (s : string) : list string :=
  match s with
  | "" => [""]
  | String a s' =>
      let parts := split_on c s' in
      if Ascii.eqb a c then "" :: parts
      else match parts with
           | [] => [String a ""]
           | p :: ps => String a p :: ps
           end
  end.

(** [parts.join(sep)] *)
Definition join (sep : string) (parts : list string) : string := String.concat sep parts.

(** [s.bytes().any(f)] *)
Fixpoint any_byte (f : ascii -> bool) (s : string) : bool :=
  match s with
  | "" => false
  | String a s' => f a || any_byte f s'
  end.

Definition contains_char (c : ascii) (s : string) : bool := any_byte (Ascii.eqb c) s.

(** [s.starts_with(p)] *)
Fixpoint starts_with (p s : string) : bool :=
  match p, s with
  | "", _ => true
  | String a p', String b s' => Ascii.eqb a b && starts_with p' s'
  | String _ _, "" => false
  end.

(** [s.contains(sub)] *)
Fixpoint contains_str (sub s : string) : bool :=
  starts_with sub s ||
  match s with
  | "" => false
  | String _ s' => contains_str sub s'
  end.

(** [s.strip_prefix(p)] *)
Fixpoint strip_prefix (p s : string) : option string :=
  match p, s with
  | "", _ => Some s
  | String a p', String b s' => if Ascii.eqb a b then strip_prefix p' s' else None
  | String _ _, "" => None
  end.

(** [s.strip_suffix(p)] *)
Fixpoint strip_suffix (suffix s : string) : option string :=
  if String.eqb s suffix then Some ""
  else match s with "" => None | String c s' => String c <$> strip_suffix suffix s' end.

(** [s.trim_start_matches(c)] *)
Fixpoint trim_start_matches (c : ascii) (s : string) : string :=
  match s with
  | "" => ""
  | String a s' => if Ascii.eqb a c then trim_start_matches c s' else s
  end.

(** [s.trim_end_matches(c)] *)
Fixpoint trim_end_matches (c : ascii) (s : string) : string :=
  match s with
  | "" => ""
  | String a s' =>
      match trim_end_matches c s' with
      | "" => if Ascii.eqb a c then "" else String a ""
      | t => String a t
      end
  end.

(** [s.ends_with(c)] for a character *)
Fixpoint ends_with_char (c : ascii) (s : string) : bool :=
  match s with
  | "" => false
  | String a "" => Ascii.eqb a c
  | String _ s' => ends_with_char c s'
  end.

(** [s.ends_with(suffix)] *)
Fixpoint ends_with (suffix s : string) : bool :=
  String.eqb suffix s ||
  match s with
  | "" => false
  | String _ s' => ends_with suffix s'
  end.

Definition byte_in (lo hi : N) (a : ascii) : bool :=
  (lo <=? N_of_ascii a)%N && (N_of_ascii a <=? hi)%N.

Lemma byte_in_false lo hi a :
  byte_in lo hi a = false <-> (N_of_ascii a < lo \/ hi < N_of_ascii a)%N.
Proof.
  unfold byte_in. rewrite andb_false_iff, !N.leb_gt. done.
Qed.

Lemma byte_in_true lo hi a :
  byte_in lo hi a = true <-> (lo <= N_of_ascii a <= hi)%N.
Proof. unfold byte_in. by rewrite andb_true_iff, !N.leb_le. Qed.

(** [s.chars().any(char::is_control)]: the category [Cc] is U+0000 to U+001F,
    U+007F and U+0080 to U+009F, the latter encoded as C2 80 to C2 9F. *)
Fixpoint has_control (s : string) : bool :=
  match s with
  | "" => false
  | String a s' =>
      byte_in 0 31 a || byte_in 127 127 a
      || (byte_in 194 194 a
          && match s' with String b _ => byte_in 128 159 b | "" => false end)
      || has_control s'
  end.

Definition is_ascii_lowercase : ascii -> bool := byte_in 97 122.
Definition is_ascii_uppercase : ascii -> bool := byte_in 65 90.
Definition is_ascii_digit : ascii -> bool := byte_in 48 57.
Definition is_ascii_alphanumeric (a : ascii) : bool :=
  is_ascii_lowercase a || is_ascii_uppercase a || is_ascii_digit a.

(** ** Appending *)

Lemma app_assoc_s (a b c : string) : (a +:+ b) +:+ c = a +:+ (b +:+ c).
Proof. induction a as [| x a IH]; [done | exact (f_equal (String x) IH)]. Qed.

Lemma app_nil_r_s (a : string) : a +:+ "" = a.
Proof. induction a as [| x a IH]; [done | exact (f_equal (String x) IH)]. Qed.

Lemma app_inj_l_s (a b c : string) : a +:+ b = a +:+ c -> b = c.
Proof. induction a as [| x a IH]; simpl; [done | intros [= H]; auto]. Qed.

Lemma length_app_s (a b : string) : String.length (a +:+ b) = String.length a + String.length b.
Proof. induction a as [| c a IH]; [done | exact (f_equal S IH)]. Qed.

Lemma app_inj_r_s (a b c : string) : a +:+ c = b +:+ c -> a = b.
Proof.
  revert b. induction a as [| x a IH]; intros [| y b] Heq; [done | | |].
  1,2: apply (f_equal String.length) in Heq; rewrite !length_app_s in Heq; simpl in Heq;
    rewrite ?length_app_s in Heq; lia.
  injection Heq as -> Heq. f_equal. by apply IH.
Qed.

Lemma app_eq_nil_s (a b : string) : a +:+ b = "" -> a = "" /\ b = "".
Proof. by destruct a. Qed.

Lemma any_byte_app f a b : any_byte f (a +:+ b) = any_byte f a || any_byte f b.
Proof. induction a as [| x a IH]; simpl; [done | by rewrite IH, orb_assoc]. Qed.

Lemma contains_char_app c a b :
  contains_char c (a +:+ b) = contains_char c a || contains_char c b.
Proof. apply any_byte_app. Qed.

Lemma contains_char_cons c a s :
  contains_char c (String a s) = Ascii.eqb c a || contains_char c s.
Proof. done. Qed.

(** Two strings without [c] that agree up to a [c] agree. *)
Lemma split_first_sep c a b a' b' :
  contains_char c a = false -> contains_char c a' = false ->
  a +:+ String c b = a' +:+ String c b' -> a = a' /\ b = b'.
Proof.
  revert a'. induction a as [| x a IH]; intros [| y a']; simpl;
    unfold contains_char; simpl.
  - by intros _ _ [= ->].
  - intros _ Hy [= <- _]. by rewrite Ascii.eqb_refl in Hy.
  - intros Hx _ [= -> _]. by rewrite Ascii.eqb_refl in Hx.
  - intros [_ Ha]%orb_false_iff [_ Ha']%orb_false_iff [= -> Heq].
    destruct (IH a' Ha Ha' Heq) as [-> ->]. done.
Qed.

(** ** Prefixes *)

Lemma starts_with_iff p s : starts_with p s = true <-> exists t, s = p +:+ t.
Proof.
  revert s. induction p as [| a p IH]; intros s; simpl.
  - split; eauto.
  - destruct s as [| b s]; [by split; [| intros [t Ht]] |].
    destruct (Ascii.eqb_spec a b) as [-> | Hne]; simpl.
    + rewrite IH. split; intros [t Ht]; exists t; [by subst | by injection Ht].
    + split; [done | intros [t Ht]; injection Ht; congruence].
Qed.

Lemma strip_prefix_iff p s t : strip_prefix p s = Some t <-> s = p +:+ t.
Proof.
  revert s. induction p as [| a p IH]; intros s; simpl.
  - split; [by intros [= ->] | by intros ->].
  - destruct s as [| b s]; [done |].
    destruct (Ascii.eqb_spec a b) as [-> | Hne]; [rewrite IH |].
    + split; [by intros -> | intros Ht; by injection Ht].
    + split; [done | intros Ht; injection Ht; congruence].
Qed.

(** ** Splitting and joining *)

Lemma strip_suffix_iff suffix s prefix : strip_suffix suffix s = Some prefix <-> s = prefix +:+ suffix.
Proof.
  revert prefix. induction s as [| c s IH]; intros prefix.
  - change (strip_suffix suffix "") with (if String.eqb "" suffix then Some "" else None).
    destruct (String.eqb_spec "" suffix) as [<- | Hne].
    + split; [by intros [= <-] |]. intros Heq. symmetry in Heq. by apply app_eq_nil_s in Heq as [-> _].
    + split; [done |]. intros Heq. symmetry in Heq. apply app_eq_nil_s in Heq as [_ ?]. congruence.
  - change (strip_suffix suffix (String c s)) with
      (if String.eqb (String c s) suffix then Some "" else String c <$> strip_suffix suffix s).
    destruct (String.eqb_spec (String c s) suffix) as [<- | Hne].
    + split; [by intros [= <-] |]. destruct prefix as [| c' prefix]; [done |].
      intros Heq. exfalso. apply (f_equal String.length) in Heq. rewrite length_app_s in Heq.
      simpl in Heq. lia.
    + rewrite fmap_Some. split.
      * intros (t & Ht & ->). apply IH in Ht as ->. done.
      * destruct prefix as [| c' prefix]; [by intros Heq; destruct Hne |]. intros [= -> ->].
        exists prefix. split; [by apply IH | done].
Qed.

Lemma split_on_cons c s : exists p ps, split_on c s = p :: ps.
Proof.
  destruct s as [| a s]; simpl; [eauto |].
  destruct (Ascii.eqb a c); [eauto |]. destruct (split_on c s); eauto.
Qed.

Lemma join_cons2 sep p q ps : join sep (p :: q :: ps) = p +:+ sep +:+ join sep (q :: ps).
Proof. done. Qed.

Lemma join_cons_c c p q ps :
  join (String c "") (p :: q :: ps) = p +:+ String c (join (String c "") (q :: ps)).
Proof. done. Qed.

(** Joining the parts gives the string back. *)
Lemma join_split_on c s : join (String c "") (split_on c s) = s.
Proof.
  induction s as [| a s IH]; [done |]; simpl.
  destruct (split_on_cons c s) as (p & ps & Hs). rewrite Hs in *.
  destruct (Ascii.eqb_spec a c) as [-> | Hne].
  - rewrite join_cons2, IH. done.
  - destruct ps as [| q ps].
    + exact (f_equal (String a) IH).
    + rewrite join_cons2 in *. exact (f_equal (String a) IH).
Qed.

(** No part contains the separator. *)
Lemma split_on_free c s : Forall (fun p => contains_char c p = false) (split_on c s).
Proof.
  induction s as [| a s IH]; simpl; [by repeat constructor |].
  destruct (Ascii.eqb_spec a c) as [-> | Hne]; [by constructor |].
  destruct (split_on c s) as [| p ps]; inversion IH; subst; constructor; try done;
    rewrite contains_char_cons; apply orb_false_iff; split; try done;
    apply Ascii.eqb_neq; congruence.
Qed.

Lemma split_on_no_sep c p : contains_char c p = false -> split_on c p = [p].
Proof.
  induction p as [| a p IH]; [done |]. rewrite contains_char_cons.
  intros [Ha Hp]%orb_false_iff. simpl. rewrite (IH Hp).
  by rewrite Ascii.eqb_sym, Ha.
Qed.

Lemma split_on_app c p s :
  contains_char c p = false -> split_on c (p +:+ String c s) = p :: split_on c s.
Proof.
  induction p as [| a p IH]; simpl; [by rewrite Ascii.eqb_refl |].
  rewrite contains_char_cons. intros [Ha Hp]%orb_false_iff. rewrite (IH Hp).
  by rewrite Ascii.eqb_sym, Ha.
Qed.

(** Splitting a joined list gives the list back. *)
Lemma split_on_join c ps :
  ps <> [] -> Forall (fun p => contains_char c p = false) ps ->
  split_on c (join (String c "") ps) = ps.
Proof.
  induction ps as [| p ps IH]; [done |]. intros _ Hf. inversion Hf; subst.
  destruct ps as [| q ps]; [by apply split_on_no_sep |].
  rewrite join_cons_c, split_on_app by done. by rewrite IH.
Qed.

Lemma join_inj c ps qs :
  ps <> [] -> qs <> [] ->
  Forall (fun p => contains_char c p = false) ps ->
  Forall (fun p => contains_char c p = false) qs ->
  join (String c "") ps = join (String c "") qs -> ps = qs.
Proof.
  intros Hp Hq Hfp Hfq Heq. rewrite <- (split_on_join c ps), <- (split_on_join c qs) by done.
  by rewrite Heq.
Qed.

Lemma join_app sep ps qs :
  ps <> [] -> qs <> [] -> join sep (ps ++ qs) = join sep ps +:+ sep +:+ join sep qs.
Proof.
  induction ps as [| p ps IH]; [done |]. intros _ Hq.
  destruct ps as [| p' ps]; [by destruct qs |].
  cbn [app]. rewrite !join_cons2. rewrite <- app_comm_cons in IH. rewrite IH by done.
  by rewrite !app_assoc_s.
Qed.

(** ** Trimming *)

Lemma trim_start_id c a s : Ascii.eqb a c = false -> trim_start_matches c (String a s) = String a s.
Proof. simpl. by intros ->. Qed.

Lemma trim_end_id c s : ends_with_char c s = false -> trim_end_matches c s = s.
Proof.
  induction s as [| a s IH]; [done |]. intros He.
  destruct s as [| b s]; simpl in *; [by rewrite He |].
  rewrite (IH He). done.
Qed.

(** ** Control characters *)

(** Joining with a separator that is neither a control character nor a
    continuation byte adds none. *)
Lemma has_control_sep c a b :
  byte_in 0 31 c = false -> byte_in 127 255 c = false ->
  has_control (a +:+ String c b) = has_control a || has_control b.
Proof.
  intros Hlo Hhi.
  assert (forall lo hi, (127 <= lo)%N -> (hi <= 255)%N -> byte_in lo hi c = false) as Hc.
  { intros lo hi Hl Hh. apply byte_in_false in Hhi. apply byte_in_false. lia. }
  induction a as [| x a IH]; simpl.
  - change ("" +:+ String c b) with (String c b). cbn [has_control].
    by rewrite Hlo, !Hc by lia.
  - destruct a as [| y a].
    + clear IH. change (String x "" +:+ String c b) with (String x (String c b)).
      cbn [has_control]. change ("" +:+ String c b) with (String c b).
      cbn [has_control]. rewrite Hlo, !Hc by lia. by rewrite !andb_false_r, !orb_false_r.
    + change (String x (String y a) +:+ String c b)
        with (String x (String y (a +:+ String c b))).
      cbn [has_control] in *. rewrite IH. by rewrite !orb_assoc.
Qed.

Lemma has_control_join c ps :
  byte_in 0 31 c = false -> byte_in 127 255 c = false ->
  has_control (join (String c "") ps) = false <-> Forall (fun p => has_control p = false) ps.
Proof.
  intros Hlo Hhi. induction ps as [| p ps IH]; [by split; constructor |].
  destruct ps as [| q ps].
  - simpl. split; [intros; by repeat constructor | by intros [? _]%Forall_cons].
  - rewrite join_cons_c, has_control_sep by done.
    rewrite orb_false_iff, Forall_cons, <- IH. done.
Qed.

Lemma contains_char_join c c' ps :
  Ascii.eqb c c' = false ->
  contains_char c (join (String c' "") ps) = false <->
  Forall (fun p => contains_char c p = false) ps.
Proof.
  intros Hne. induction ps as [| p ps IH]; [by split; constructor |].
  destruct ps as [| q ps].
  - simpl. split; [intros; by repeat constructor | by intros [? _]%Forall_cons].
  - rewrite join_cons_c, contains_char_app, contains_char_cons, Hne. cbn [orb].
    rewrite orb_false_iff, Forall_cons, <- IH. done.
Qed.
