(* ===== verification/Ids.v ===== *)
(** * Host API identifiers

    Models [ironclaw_host_api/src/ids.rs], [dotted_id.rs] and the error type of
    [error.rs]: the validators behind the [string_id!] newtypes, provider tool
    names, capability ids and dotted profile ids.  A constructed id is its string;
    [from_trusted] is the identity and has no validator. *)

From S2P Require Import Prelude Strings.
From Stdlib Require Import Ascii Lia.

Inductive HostApiError :=
  | InvalidId (kind value reason : string)
  | InvalidPath (value reason : string)
  | InvalidCapability (value reason : string)
  | InvalidMount (value reason : string)
  | InvalidNetworkTarget (value reason : string)
  | InvalidRuntimeCredentialTarget (value reason : string)
  | InvariantViolation (reason : string).

#[export] Instance HostApiError_eq_dec : EqDecision HostApiError.
Proof. solve_decision. Defined.

(** [Display], as [thiserror] writes it. *)
Definition host_error_text (e : HostApiError) : string :=
  match e with
  | InvalidId kind value reason => "invalid " +:+ kind +:+ " id '" +:+ value +:+ "': " +:+ reason
  | InvalidPath value reason => "invalid path '" +:+ value +:+ "': " +:+ reason
  | InvalidCapability value reason => "invalid capability '" +:+ value +:+ "': " +:+ reason
  | InvalidMount value reason => "invalid mount '" +:+ value +:+ "': " +:+ reason
  | InvalidNetworkTarget value reason => "invalid network target '" +:+ value +:+ "': " +:+ reason
  | InvalidRuntimeCredentialTarget value reason =>
      "invalid runtime credential target '" +:+ value +:+ "': " +:+ reason
  | InvariantViolation reason => "host API invariant violation: " +:+ reason
  end.

(** [a?; b] for checks that return nothing. *)
Definition and_then {T U E} (r : Result T E) (k : T -> Result U E) : Result U E :=
  match r with Ok v => k v | Err e => Err e end.

(** [if cond { return Err(e) }] *)
Definition reject_if {E} (cond : bool) (e : E) (k : Result unit E) : Result unit E :=
  if cond then Err e else k.

Definition has_forbidden_control (value : string) : bool := has_control value.

Definition RESERVED_SENTINEL_PREFIX : string := "__ironclaw_".

Definition str_len (s : string) : nat := String.length s.

(** ** Scope ids: tenants, users, agents, projects, missions, threads *)

Definition validate_scope_id (kind value : string) : Result unit HostApiError :=
  reject_if (String.eqb value "") (InvalidId kind value "must not be empty") (
  reject_if (Nat.ltb 256 (str_len value))
    (InvalidId kind value "must be at most 256 bytes") (
  reject_if (String.eqb value "." || String.eqb value "..")
    (InvalidId kind value "dot segments are not allowed") (
  reject_if (contains_char "/" value || contains_char "\" value)
    (InvalidId kind value "path separators are not allowed") (
  reject_if (has_forbidden_control value)
    (InvalidId kind value "NUL/control characters are not allowed") (
  reject_if (starts_with RESERVED_SENTINEL_PREFIX value)
    (InvalidId kind value
      "the `__ironclaw_` prefix is reserved for host sentinel identities")
  (Ok tt)))))).

(** ** Name segments: extensions, packages, secrets *)

Definition is_name_char (byte : ascii) : bool :=
  is_ascii_lowercase byte || is_ascii_digit byte || Ascii.eqb byte "_" || Ascii.eqb byte "-".

Definition starts_lower_or_digit (value : string) : bool :=
  match value with
  | String first _ => is_ascii_lowercase first || is_ascii_digit first
  | "" => false
  end.

Definition validate_name_segment (kind value : string) : Result unit HostApiError :=
  reject_if (String.eqb value "") (InvalidId kind value "must not be empty") (
  reject_if (Nat.ltb 128 (str_len value))
    (InvalidId kind value "must be at most 128 bytes") (
  reject_if (negb (starts_lower_or_digit value))
    (InvalidId kind value "must start with lowercase ASCII letter or digit") (
  reject_if (String.eqb value "." || String.eqb value ".." || contains_str ".." value)
    (InvalidId kind value "dot-dot segments are not allowed") (
  reject_if (any_byte (fun b => negb (is_name_char b || Ascii.eqb b ".")) value)
    (InvalidId kind value
      "only lowercase ASCII letters, digits, '_', '-', and '.' are allowed") (
  reject_if (existsb (String.eqb "") (split_on "." value))
    (InvalidId kind value "empty dot segments are not allowed")
  (Ok tt)))))).

(** ** Provider tool names *)

Definition MAX_BYTES : nat := 64.

Definition validate_provider_tool_name (value : string) : Result unit HostApiError :=
  reject_if (String.eqb value "")
    (InvalidId "provider_tool_name" value "must not be empty") (
  reject_if (Nat.ltb MAX_BYTES (str_len value))
    (InvalidId "provider_tool_name" value "must be at most 64 bytes") (
  reject_if (any_byte (fun c => negb (is_ascii_alphanumeric c || Ascii.eqb c "_"
                                      || Ascii.eqb c "-")) value)
    (InvalidId "provider_tool_name" value
      "only ASCII letters, digits, '_', and '-' are allowed")
  (Ok tt))).

(** ** Capability ids *)

(** [for segment in value.split('.') { validate_name_segment(..)?; }] *)
Fixpoint validate_segments (kind : string) (segments : list string) : Result unit HostApiError :=
  match segments with
  | [] => Ok tt
  | s :: rest => and_then (validate_name_segment kind s) (fun _ => validate_segments kind rest)
  end.

(** [CapabilityId::new] *)
Definition capability_id_new (value : string) : Result string HostApiError :=
  and_then
    (reject_if (String.eqb value "" || negb (contains_char "." value))
      (InvalidId "capability" value "must be '<extension>.<capability>[.<sub>...]'") (
     reject_if (Nat.ltb (length (split_on "." value)) 2
                || existsb (String.eqb "") (split_on "." value))
      (InvalidId "capability" value "empty dot segments are not allowed")
     (validate_segments "capability" (split_on "." value))))
    (fun _ => Ok value).

(** [string_id!]: [$name::new] with its validator. *)
Definition string_id_new (validator : string -> string -> Result unit HostApiError)
    (kind value : string) : Result string HostApiError :=
  and_then (validator kind value) (fun _ => Ok value).

(** ** Dotted ids *)

Inductive VersionRule := Versioned | Unversioned.
Inductive PrefixRule := AnyPrefix | Required (prefix : string).

Definition valid_segment_char (byte : ascii) : bool :=
  is_ascii_lowercase byte || is_ascii_digit byte || Ascii.eqb byte "_" || Ascii.eqb byte "-".

Definition starts_lower (s : string) : bool :=
  match s with String a _ => is_ascii_lowercase a | "" => false end.

Fixpoint check_dotted_segments (kind value : string) (segments : list string)
    (k : Result unit HostApiError) : Result unit HostApiError :=
  match segments with
  | [] => k
  | s :: rest =>
      reject_if (String.eqb s "")
        (InvalidId kind value "empty dot segments are not allowed") (
      reject_if (negb (starts_lower s))
        (InvalidId kind value "segments must start with a lowercase ASCII letter") (
      reject_if (any_byte (fun b => negb (valid_segment_char b)) s)
        (InvalidId kind value
          "only lowercase ASCII letters, digits, '_', '-', and '.' are allowed")
      (check_dotted_segments kind value rest k)))
  end.

Definition validate_dotted_id (kind value : string) (min_segments : nat)
    (min_segments_reason : string) (prefix : PrefixRule) (version : VersionRule) :
    Result unit HostApiError :=
  reject_if (String.eqb value "") (InvalidId kind value "must not be empty") (
  reject_if (Nat.ltb 128 (str_len value))
    (InvalidId kind value "must be at most 128 bytes") (
  reject_if (match prefix with
             | Required p => negb (starts_with p value)
             | AnyPrefix => false
             end)
    (InvalidId kind value
      ("must start with '" +:+ match prefix with Required p => p | AnyPrefix => "" end
       +:+ "'")) (
  let segments := split_on "." value in
  reject_if (Nat.ltb (length segments) min_segments)
    (InvalidId kind value min_segments_reason) (
  check_dotted_segments kind value segments
    match version with
    | Unversioned => Ok tt
    | Versioned =>
        match strip_prefix "v" (List.last segments "") with
        | None => Err (InvalidId kind value "last segment must be a version like v1")
        | Some rest =>
            reject_if (String.eqb rest "" || any_byte (fun b => negb (is_ascii_digit b)) rest)
              (InvalidId kind value "last segment must be a version like v1") (Ok tt)
        end
    end)))).

(** ** Facts *)

Lemma reject_if_Ok {E} cond (e : E) k :
  reject_if cond e k = Ok tt <-> cond = false /\ k = Ok tt.
Proof. destruct cond; simpl; intuition congruence. Qed.

Lemma and_then_Ok {T U E} (r : Result T E) (k : T -> Result U E) u :
  and_then r k = Ok u <-> exists v, r = Ok v /\ k v = Ok u.
Proof. destruct r; simpl; split; [eauto | naive_solver | done | naive_solver]. Qed.

(** A path segment that names neither this directory nor its parent, has no
    separator and no control character. *)
Record segment_ok (s : string) : Prop := {
  seg_nonempty : s <> "";
  seg_not_dot : s <> ".";
  seg_not_dotdot : s <> "..";
  seg_no_slash : contains_char "/" s = false;
  seg_no_backslash : contains_char "\" s = false;
  seg_no_control : has_control s = false;
}.

Lemma scope_id_spec kind value :
  validate_scope_id kind value = Ok tt <->
  segment_ok value /\ str_len value <= 256
  /\ starts_with RESERVED_SENTINEL_PREFIX value = false.
Proof.
  unfold validate_scope_id, has_forbidden_control. rewrite !reject_if_Ok.
  rewrite !orb_false_iff, !String.eqb_neq, Nat.ltb_ge. split.
  - intros (? & ? & [? ?] & [? ?] & ? & ? & _). repeat split; done.
  - intros ([] & ? & ?). repeat split; done.
Qed.

(** A validated scope id is safe to embed in a storage path and cannot name
    a host identity: it is a single path segment (not empty, not [.] or [..], no
    separator, no control character) of at most 256 bytes, its kind does not
    matter, and no string with the reserved prefix or a control character, so
    neither sentinel, passes. *)
Theorem scope_id_safe kind value id :
  string_id_new validate_scope_id kind value = Ok id ->
  id = value /\ segment_ok id /\ str_len id <= 256
  /\ (forall kind', validate_scope_id kind' id = Ok tt)
  /\ (forall rest, id <> RESERVED_SENTINEL_PREFIX +:+ rest).
Proof.
  unfold string_id_new. intros ([] & Hv & [= <-])%and_then_Ok.
  pose proof (proj1 (scope_id_spec kind value) Hv) as (Hs & Hl & Hp).
  split; [done |]. split; [done |]. split; [done |]. split.
  - intros kind'. by apply scope_id_spec.
  - intros rest Heq. assert (starts_with RESERVED_SENTINEL_PREFIX value = true); [| congruence].
    apply starts_with_iff. eauto.
Qed.

(** Characters of a validated name. *)
Lemma name_segment_spec kind value :
  validate_name_segment kind value = Ok tt ->
  value <> "" /\ starts_lower_or_digit value = true
  /\ any_byte (fun b => negb (is_name_char b || Ascii.eqb b ".")) value = false.
Proof.
  unfold validate_name_segment. rewrite !reject_if_Ok, String.eqb_neq.
  intros (? & _ & ?%negb_false_iff & _ & ? & _). done.
Qed.

Lemma validate_segments_Ok kind segments :
  validate_segments kind segments = Ok tt <->
  Forall (fun s => validate_name_segment kind s = Ok tt) segments.
Proof.
  induction segments as [| s rest IH]; simpl; [by split; intros; constructor |].
  rewrite and_then_Ok, Forall_cons, <- IH. split; [| eauto].
  by intros ([] & Hs & Hrest).
Qed.

(** The kind only labels the error. *)
Lemma name_segment_kind kind kind' value :
  validate_name_segment kind value = Ok tt -> validate_name_segment kind' value = Ok tt.
Proof. unfold validate_name_segment. by rewrite !reject_if_Ok. Qed.

(** A capability id always names its extension: an accepted id is an
    extension id that its own validator accepts, a dot, and at least one more
    segment, and every dot-separated segment is a valid name. *)
Theorem capability_id_prefix value id :
  capability_id_new value = Ok id ->
  exists extension rest,
    rest <> [] /\ id = value /\ value = join "." (extension :: rest)
    /\ string_id_new validate_name_segment "extension" extension = Ok extension
    /\ contains_char "." extension = false
    /\ Forall (fun s => validate_name_segment "capability" s = Ok tt) rest.
Proof.
  unfold capability_id_new. intros ([] & Hv & [= <-])%and_then_Ok.
  rewrite !reject_if_Ok, !orb_false_iff, Nat.ltb_ge in Hv.
  destruct Hv as (_ & (Hlen & _) & Hseg). apply validate_segments_Ok in Hseg.
  pose proof (split_on_free "." value) as Hfree.
  pose proof (join_split_on "." value) as Hjoin.
  destruct (split_on "." value) as [| extension rest]; [simpl in Hlen; lia |].
  inversion Hseg; subst. inversion Hfree; subst.
  exists extension, rest. split; [destruct rest; [simpl in Hlen; lia | done] |].
  repeat split; try done. unfold string_id_new.
  by rewrite (name_segment_kind "capability" "extension").
Qed.

(** ** Witnesses *)

Lemma scope_id_safe_witness :
  string_id_new validate_scope_id "tenant" "acme" = Ok "acme" /\ segment_ok "acme".
Proof.
  split; [reflexivity |].
  exact (proj1 (proj2 (scope_id_safe "tenant" "acme" "acme" eq_refl))).
Defined.

Lemma capability_id_prefix_witness :
  capability_id_new "github.issues.search" = Ok "github.issues.search"
  /\ exists extension rest, "github.issues.search" = join "." (extension :: rest)
       /\ Forall (fun s => validate_name_segment "capability" s = Ok tt) rest.
Proof.
  split; [reflexivity |].
  destruct (capability_id_prefix "github.issues.search" "github.issues.search" eq_refl)
    as (extension & rest & _ & _ & Hjoin & _ & _ & Hrest).
  exact (ex_intro _ extension (ex_intro _ rest (conj Hjoin Hrest))).
Defined.
