(* ===== verification/Paths.v ===== *)
(** * Virtual and scoped paths

    Models [ironclaw_host_api/src/path.rs]: the lexical normaliser and the
    constructors of [VirtualPath], [ScopedPath] and [MountAlias].  A path value is
    its normalised string.  [HostPath] wraps a [std] path and is not modelled. *)

From S2P Require Import Prelude Strings Ids.
From Stdlib Require Import Ascii Lia.

Abbreviation VirtualPath := string.
Abbreviation ScopedPath := string.
Abbreviation MountAlias := string.

Definition VIRTUAL_ROOTS : list string := [
  "/engine"; "/system/settings"; "/system/extensions"; "/system/skills"; "/users";
  "/projects"; "/memory"; "/artifacts"; "/tmp"; "/secrets"; "/events"; "/processes";
  "/authorization"; "/outbound"; "/run-state"; "/approvals"; "/threads";
  "/conversations"; "/turns"; "/checkpoint-state"; "/resources"; "/tenant-shared";
  "/tenants"
].

Definition RAW_HOST_PREFIXES : list string := [
  "/Users/"; "/home/"; "/root/"; "/etc/"; "/var/"; "/private/"; "/Volumes/";
  "/Library/"; "/usr/"; "/opt/"; "/tmp/"; "/proc/"; "/sys/"
].

Definition REDACTED_PATH_VALUE : string := "<redacted path>".

Inductive PathKind := Virtual | Scoped | Alias.

Definition invalid_path_error_value (raw : string) (kind : PathKind) : string :=
  match kind with
  | Scoped => REDACTED_PATH_VALUE
  | Virtual | Alias => raw
  end.

(** The loop over [raw.split('/')]: [None] is the early return at [..]. *)
Fixpoint collect_parts (segments : list string) : option (list string) :=
  match segments with
  | [] => Some []
  | s :: rest =>
      if String.eqb s "" || String.eqb s "." then collect_parts rest
      else if String.eqb s ".." then None
      else cons s <$> collect_parts rest
  end.

Definition normalize_absolute_path (raw : string) (kind : PathKind) :
    Result string HostApiError :=
  let invalid_value := invalid_path_error_value raw kind in
  if String.eqb raw "" then Err (InvalidPath invalid_value "path must not be empty")
  else if has_control raw then
    Err (InvalidPath invalid_value "NUL/control characters are not allowed")
  else if contains_char "\" raw then
    Err (InvalidPath invalid_value "backslashes are not allowed")
  else if negb (starts_with "/" raw) then
    Err (InvalidPath invalid_value "path must be absolute")
  else
    match collect_parts (split_on "/" raw) with
    | None => Err (InvalidPath invalid_value "`..` segments are not allowed")
    | Some [] => Err (InvalidPath invalid_value "root path is not valid here")
    | Some parts =>
        let normalized := "/" +:+ join "/" parts in
        match kind with
        | Alias =>
            if ends_with_char "/" normalized
            then Err (InvalidPath normalized "mount alias must not end with slash")
            else Ok normalized
        | _ => Ok normalized
        end
    end.

Definition path_matches_alias (alias path : string) : bool :=
  String.eqb path alias || starts_with (alias +:+ "/") path.

Definition under_root (path : string) : bool :=
  existsb (fun root => String.eqb path root || starts_with (root +:+ "/") path) VIRTUAL_ROOTS.

(** [VirtualPath::new] *)
Definition virtual_path_new (value : string) : Result VirtualPath HostApiError :=
  and_then (normalize_absolute_path value Virtual) (fun normalized =>
    if under_root normalized then Ok normalized
    else Err (InvalidPath normalized "virtual path must begin with a known root")).

(** [VirtualPath::join_tail] *)
Definition join_tail (path : VirtualPath) (tail : string) : Result VirtualPath HostApiError :=
  if String.eqb tail "" then Ok path
  else virtual_path_new (trim_end_matches "/" path +:+ "/" +:+ tail).

Definition looks_like_url (value : string) : bool := contains_str "://" value.

Definition looks_like_windows_path (value : string) : bool :=
  match value with
  | String _ (String b1 (String b2 _)) =>
      Ascii.eqb b1 ":" && (Ascii.eqb b2 "\" || Ascii.eqb b2 "/")
  | _ => false
  end.

(** [ScopedPath::new_with_allowed_raw_host_aliases] *)
Definition scoped_path_with_aliases (raw : string) (raw_host_aliases : list string) :
    Result ScopedPath HostApiError :=
  if looks_like_url raw then
    Err (InvalidPath REDACTED_PATH_VALUE "URLs are not scoped paths")
  else if looks_like_windows_path raw then
    Err (InvalidPath REDACTED_PATH_VALUE "Windows host paths are not scoped paths")
  else if existsb (fun prefix => starts_with prefix raw) RAW_HOST_PREFIXES
          && negb (existsb (fun alias => path_matches_alias alias raw) raw_host_aliases) then
    Err (InvalidPath REDACTED_PATH_VALUE "raw host paths are not scoped paths")
  else normalize_absolute_path raw Scoped.

(** [ScopedPath::new] *)
Definition scoped_path_new (value : string) : Result ScopedPath HostApiError :=
  scoped_path_with_aliases value [].

(** [MountAlias::new] *)
Definition mount_alias_new (value : string) : Result MountAlias HostApiError :=
  normalize_absolute_path value Alias.

(** ** Normal paths *)

(** The path with the given segments. *)
Definition path_of (parts : list string) : string := "/" +:+ join "/" parts.

(** A path in normal form: one or more safe segments. *)
Definition normal_path (p : string) : Prop :=
  exists parts, parts <> [] /\ Forall segment_ok parts /\ p = path_of parts.

Lemma segments_no_slash parts :
  Forall segment_ok parts -> Forall (fun p => contains_char "/" p = false) parts.
Proof. intros H. eapply Forall_impl; [exact H |]. by intros p []. Qed.

Lemma path_of_inj ps qs :
  Forall segment_ok ps -> Forall segment_ok qs -> ps <> [] -> qs <> [] ->
  path_of ps = path_of qs -> ps = qs.
Proof.
  intros Hp Hq Hnp Hnq [= Heq]. apply (join_inj "/" ps qs); auto using segments_no_slash.
Qed.

Lemma path_of_app ps qs :
  ps <> [] -> qs <> [] -> path_of (ps ++ qs) = path_of ps +:+ path_of qs.
Proof.
  intros Hp Hq. unfold path_of. rewrite join_app by done. by rewrite app_assoc_s.
Qed.

(** What the normaliser's loop keeps. *)
Lemma collect_parts_spec segments parts :
  collect_parts segments = Some parts ->
  Forall (fun s => contains_char "/" s = false) segments ->
  Forall (fun s => contains_char "\" s = false) segments ->
  Forall (fun s => has_control s = false) segments ->
  Forall segment_ok parts.
Proof.
  revert parts. induction segments as [| s rest IH]; intros parts; simpl.
  - by intros [= <-].
  - intros Hc [H1 H1']%Forall_cons [H2 H2']%Forall_cons [H3 H3']%Forall_cons.
    destruct (String.eqb_spec s "") as [-> | He]; simpl in Hc; [eauto |].
    destruct (String.eqb_spec s ".") as [-> | Hd]; simpl in Hc; [eauto |].
    destruct (String.eqb_spec s "..") as [-> | Hdd]; [done |].
    destruct (collect_parts rest) as [ps |] eqn:Hr; simplify_eq/=.
    constructor; [by constructor | eauto].
Qed.

Lemma collect_parts_ok segments :
  Forall segment_ok segments -> collect_parts segments = Some segments.
Proof.
  induction segments as [| s rest IH]; [done |]. intros [[] Hr]%Forall_cons. simpl.
  rewrite (proj2 (String.eqb_neq s "")), (proj2 (String.eqb_neq s ".")),
    (proj2 (String.eqb_neq s "..")) by done. simpl. by rewrite IH.
Qed.

Lemma split_path_of parts :
  parts <> [] -> Forall segment_ok parts -> split_on "/" (path_of parts) = "" :: parts.
Proof.
  intros Hne Hok. unfold path_of.
  change ("/" +:+ join "/" parts) with ("" +:+ String "/" (join "/" parts)).
  rewrite split_on_app by done. f_equal. by apply split_on_join, segments_no_slash.
Qed.

(** ** Normal paths have no trailing slash *)

Lemma ends_with_char_app c a b : b <> "" -> ends_with_char c (a +:+ b) = ends_with_char c b.
Proof.
  intros Hb. induction a as [| x a IH]; [done |].
  change (String x a +:+ b) with (String x (a +:+ b)).
  destruct (a +:+ b) as [| y t] eqn:Ht.
  - by apply app_eq_nil_s in Ht as [_ ->].
  - rewrite <- IH. done.
Qed.

Lemma ends_with_char_free c s : contains_char c s = false -> ends_with_char c s = false.
Proof.
  induction s as [| a s IH]; [done |]. rewrite contains_char_cons.
  intros [Ha Hs]%orb_false_iff. destruct s as [| b s]; simpl; [by rewrite Ascii.eqb_sym |].
  by apply IH.
Qed.

Lemma join_nonempty parts : parts <> [] -> Forall segment_ok parts -> join "/" parts <> "".
Proof.
  destruct parts as [| p [| q ps]]; [done | |]; intros _ [[Hp _] _]%Forall_cons.
  - done.
  - rewrite join_cons_c. intros [-> _]%app_eq_nil_s. done.
Qed.

Lemma path_of_no_trailing_slash parts :
  parts <> [] -> Forall segment_ok parts -> ends_with_char "/" (path_of parts) = false.
Proof.
  intros Hne Hok. unfold path_of.
  rewrite ends_with_char_app by (by apply join_nonempty).
  induction parts as [| p ps IH]; [done |].
  destruct ps as [| q ps].
  - apply ends_with_char_free. by inversion Hok as [| ? ? []].
  - inversion Hok; subst. rewrite join_cons_c.
    change (p +:+ String "/" ?x) with (p +:+ (String "/" "" +:+ x)).
    rewrite <- app_assoc_s, ends_with_char_app by (by apply join_nonempty).
    by apply IH.
Qed.

(** ** The normaliser *)

Lemma normalize_normal raw kind p :
  normalize_absolute_path raw kind = Ok p -> normal_path p.
Proof.
  unfold normalize_absolute_path.
  destruct (String.eqb raw ""); [done |].
  destruct (has_control raw) eqn:Hc; [done |].
  destruct (contains_char "\" raw) eqn:Hb; [done |].
  destruct (negb (starts_with "/" raw)); [done |].
  destruct (collect_parts (split_on "/" raw)) as [[| p0 ps] |] eqn:Hp; [done | | done].
  intros Hk. assert (p = path_of (p0 :: ps)) as ->.
  { destruct kind; [by injection Hk | by injection Hk |].
    destruct (ends_with_char _ _); [done | by injection Hk]. }
  exists (p0 :: ps). split; [done |]. split; [| done].
  apply (collect_parts_spec _ _ Hp).
  - apply split_on_free.
  - apply (contains_char_join "\" "/"); [done |]. by rewrite join_split_on.
  - apply (has_control_join "/"); [done | done |]. by rewrite join_split_on.
Qed.

Lemma normalize_id p kind : normal_path p -> normalize_absolute_path p kind = Ok p.
Proof.
  intros (parts & Hne & Hok & ->). unfold normalize_absolute_path.
  assert (has_control (path_of parts) = false) as ->.
  { unfold path_of. change ("/" +:+ join "/" parts) with ("" +:+ String "/" (join "/" parts)).
    rewrite has_control_sep by done. simpl. apply (has_control_join "/"); [done | done |].
    eapply Forall_impl; [exact Hok |]. by intros ? []. }
  assert (contains_char "\" (path_of parts) = false) as ->.
  { unfold path_of. rewrite contains_char_app. simpl. apply (contains_char_join "\" "/"); [done |].
    eapply Forall_impl; [exact Hok |]. by intros ? []. }
  rewrite split_path_of by done. simpl. rewrite collect_parts_ok by done.
  destruct parts as [| p0 ps]; [done |].
  pose proof (path_of_no_trailing_slash (p0 :: ps) Hne Hok) as Htr. unfold path_of in *.
  simpl in *. destruct kind; [done | done |]. by rewrite Htr.
Qed.

(** [C30] Lexical containment of virtual paths: a constructed virtual path is in
    normal form (no empty, [.] or [..] segment, no backslash, no control
    character, no trailing slash) and lies at or under one of the known roots; and
    construction is idempotent, so re-parsing a stored path gives it back. *)
Theorem virtual_path_sound value p :
  virtual_path_new value = Ok p ->
  normal_path p
  /\ (exists root tail, root ∈ VIRTUAL_ROOTS /\ (p = root \/ p = root +:+ "/" +:+ tail))
  /\ virtual_path_new p = Ok p.
Proof.
  unfold virtual_path_new at 1. intros (n & Hn & Hu)%and_then_Ok.
  destruct (under_root n) eqn:Hroot; [| done]. injection Hu as <-.
  pose proof (normalize_normal _ _ _ Hn) as Hnormal. split; [done |]. split.
  - unfold under_root in Hroot. apply existsb_exists in Hroot as (root & Hin & Hm).
    apply orb_true_iff in Hm as [->%String.eqb_eq | (tail & ->)%starts_with_iff].
    + exists root, "". split; [by apply list_elem_of_In | by left].
    + exists root, tail. split; [by apply list_elem_of_In |]. right. apply app_assoc_s.
  - unfold virtual_path_new. rewrite normalize_id by done. simpl. by rewrite Hroot.
Qed.

(** A scoped path is in normal form, so it cannot traverse upwards, whatever
    raw-host aliases its mount view allows; but the raw-host check looks at the
    text before normalisation, so a doubled or dotted leading slash yields the very
    path that is refused when it is written plainly. *)
Theorem scoped_path_normal_but_raw_host :
  (forall raw aliases p, scoped_path_with_aliases raw aliases = Ok p -> normal_path p)
  /\ scoped_path_new "/etc/passwd"
     = Err (InvalidPath REDACTED_PATH_VALUE "raw host paths are not scoped paths")
  /\ scoped_path_new "//etc/passwd" = Ok "/etc/passwd"
  /\ scoped_path_new "/./etc/passwd" = Ok "/etc/passwd".
Proof.
  split; [| by vm_compute].
  intros raw aliases p. unfold scoped_path_with_aliases.
  repeat (case_match; [done |]). apply normalize_normal.
Qed.

(** ** Witness *)

Lemma virtual_path_sound_witness :
  virtual_path_new "/projects//./p1/" = Ok "/projects/p1"
  /\ virtual_path_new "/projects/p1" = Ok "/projects/p1".
Proof.
  split; [reflexivity |].
  exact (proj2 (proj2 (virtual_path_sound "/projects//./p1/" "/projects/p1" eq_refl))).
Defined.
