(* ===== verification/Mounts.v ===== *)
(** * Mount views

    Models [ironclaw_host_api/src/mount.rs]: permissions, grants, the view an
    invocation sees and its longest-alias resolution. *)

From S2P Require Import Prelude Strings Ids Paths.
From Stdlib Require Import Ascii Lia.

Record MountPermissions := {
  p_read : bool;
  p_write : bool;
  p_delete : bool;
  p_list : bool;
  p_execute : bool;
}.

#[export] Instance MountPermissions_eq_dec : EqDecision MountPermissions.
Proof. solve_decision. Defined.

Definition permissions_none : MountPermissions := {|
  p_read := false; p_write := false; p_delete := false; p_list := false; p_execute := false |}.

Definition read_only : MountPermissions := {|
  p_read := true; p_write := false; p_delete := false; p_list := true; p_execute := false |}.

Definition read_write : MountPermissions := {|
  p_read := true; p_write := true; p_delete := false; p_list := true; p_execute := false |}.

Definition read_write_list_delete : MountPermissions := {|
  p_read := true; p_write := true; p_delete := true; p_list := true; p_execute := false |}.

(** [MountPermissions::is_subset_of] *)
Definition permissions_subset (child parent : MountPermissions) : bool :=
  (negb (p_read child) || p_read parent)
  && (negb (p_write child) || p_write parent)
  && (negb (p_delete child) || p_delete parent)
  && (negb (p_list child) || p_list parent)
  && (negb (p_execute child) || p_execute parent).

Record MountGrant := {
  alias : MountAlias;
  target : VirtualPath;
  permissions : MountPermissions;
}.

#[export] Instance MountGrant_eq_dec : EqDecision MountGrant.
Proof. solve_decision. Defined.

(** [MountView]: its grants. *)
Abbreviation MountView := (list MountGrant).

(** The loop of [MountView::validate], with the set of aliases seen. *)
Fixpoint validate_from (seen : gset string) (mounts : MountView) : Result unit HostApiError :=
  match mounts with
  | [] => Ok tt
  | m :: rest =>
      if decide (alias m ∈ seen) then Err (InvalidMount (alias m) "duplicate mount alias")
      else validate_from ({[alias m]} ∪ seen) rest
  end.

Definition mount_view_validate (mounts : MountView) : Result unit HostApiError :=
  validate_from ∅ mounts.

(** [MountView::new] *)
Definition mount_view_new (mounts : MountView) : Result MountView HostApiError :=
  and_then (mount_view_validate mounts) (fun _ => Ok mounts).

(** [Iterator::max_by_key]: the last of the elements with the greatest key. *)
Fixpoint max_by_key {A} (key : A -> nat) (xs : list A) : option A :=
  match xs with
  | [] => None
  | x :: rest =>
      match max_by_key key rest with
      | None => Some x
      | Some y => if Nat.leb (key x) (key y) then Some y else Some x
      end
  end.

Definition resolve_with_grant (view : MountView) (path : ScopedPath) :
    Result (VirtualPath * MountGrant) HostApiError :=
  match max_by_key (fun m => str_len (alias m))
          (List.filter (fun m => path_matches_alias (alias m) path) view) with
  | None => Err (InvalidMount path "no mount alias matches scoped path")
  | Some mount =>
      let tail := trim_start_matches "/" (default "" (strip_prefix (alias mount) path)) in
      and_then (join_tail (target mount) tail) (fun vp => Ok (vp, mount))
  end.

(** [MountView::resolve] *)
Definition mount_resolve (view : MountView) (path : ScopedPath) :
    Result VirtualPath HostApiError :=
  result_map fst (resolve_with_grant view path).

(** [MountView::scoped_path] *)
Definition view_scoped_path (view : MountView) (value : string) :
    Result ScopedPath HostApiError :=
  scoped_path_with_aliases value (map alias view).

(** [MountView::is_subset_of] *)
Definition view_subset (child parent : MountView) : bool :=
  forallb (fun c => existsb (fun p =>
    String.eqb (alias c) (alias p) && String.eqb (target c) (target p)
    && permissions_subset (permissions c) (permissions p)) parent) child.

(** ** Well-formed views

    Grants are built from [MountAlias] and [VirtualPath] values and the view
    through [MountView::new]. *)

Record grant_wf (g : MountGrant) : Prop := {
  alias_normal : normal_path (alias g);
  target_normal : normal_path (target g);
  target_rooted : under_root (target g) = true;
}.

Definition view_wf (view : MountView) : Prop :=
  Forall grant_wf view /\ NoDup (map alias view).

Lemma validate_from_spec seen mounts :
  validate_from seen mounts = Ok tt ->
  NoDup (map alias mounts) /\ forall m, m ∈ mounts -> alias m ∉ seen.
Proof.
  revert seen. induction mounts as [| m rest IH]; intros seen; simpl.
  - intros _. split; [constructor | by intros m ?%not_elem_of_nil].
  - case_decide as Hm; [done |]. intros [Hnd Hin]%IH. split.
    + constructor; [| done]. intros (m' & Heq & Hm')%list_elem_of_fmap.
      apply (Hin m' Hm'). rewrite <- Heq. set_solver.
    + intros m' [-> | Hm']%elem_of_cons; [done |]. specialize (Hin m' Hm'). set_solver.
Qed.

Lemma mount_view_new_wf mounts view :
  Forall grant_wf mounts -> mount_view_new mounts = Ok view -> view_wf view.
Proof.
  unfold mount_view_new. intros Hwf ([] & Hv & [= <-])%and_then_Ok. split; [done |].
  by apply validate_from_spec in Hv as [? _].
Qed.

(** ** Resolution *)

Lemma max_by_key_spec {A} (key : A -> nat) xs x :
  max_by_key key xs = Some x -> x ∈ xs /\ forall y, y ∈ xs -> key y <= key x.
Proof.
  revert x. induction xs as [| a xs IH]; intros x; simpl; [done |].
  destruct (max_by_key key xs) as [b |] eqn:Hb.
  - destruct (IH b eq_refl) as [Hin Hmax].
    destruct (Nat.leb_spec (key a) (key b)); intros [= <-];
      (split; [rewrite elem_of_cons; tauto |]);
      intros y [-> | Hy]%elem_of_cons; try specialize (Hmax y Hy); lia.
  - intros [= <-]. split; [left |]. intros y [-> | Hy]%elem_of_cons; [lia |].
    destruct xs as [| z xs]; [by apply not_elem_of_nil in Hy |]. simpl in Hb.
    by destruct (max_by_key key xs); [case_match |].
Qed.

Lemma max_by_key_None {A} (key : A -> nat) xs : max_by_key key xs = None <-> xs = [].
Proof.
  destruct xs as [| a xs]; [done |]. simpl.
  destruct (max_by_key key xs); [case_match |]; done.
Qed.

Lemma elem_of_matching view path m :
  m ∈ List.filter (fun m => path_matches_alias (alias m) path) view <->
  m ∈ view /\ path_matches_alias (alias m) path = true.
Proof. rewrite !list_elem_of_In. apply filter_In. Qed.

(** A normal path matches a normal alias exactly when the alias's segments are a
    prefix of the path's. *)
Lemma path_matches_alias_iff alias_parts parts :
  alias_parts <> [] -> parts <> [] ->
  Forall segment_ok alias_parts -> Forall segment_ok parts ->
  path_matches_alias (path_of alias_parts) (path_of parts) = true <->
  exists tail, parts = alias_parts ++ tail.
Proof.
  intros Hna Hnp Ha Hp. unfold path_matches_alias. rewrite orb_true_iff, String.eqb_eq.
  split.
  - intros [Heq | (t & Ht)%starts_with_iff].
    + exists []. rewrite app_nil_r. by apply path_of_inj.
    + assert (split_on "/" (path_of parts) = "" :: alias_parts ++ split_on "/" t) as Hs.
      { rewrite Ht. unfold path_of.
        change ("/" +:+ join "/" alias_parts) with ("" +:+ String "/" (join "/" alias_parts)).
        rewrite !app_assoc_s. change (String "/" ?a +:+ ?b) with (String "/" (a +:+ b)).
        rewrite split_on_app by done. f_equal.
        change ("/" +:+ t) with (String "/" t). clear Ht Hnp Hp.
        induction alias_parts as [| p ps IH]; [done |].
        apply Forall_cons in Ha as [[] Hps]. destruct ps as [| q ps].
        - by apply split_on_app.
        - rewrite join_cons_c, app_assoc_s.
          change (String "/" ?a +:+ ?b) with (String "/" (a +:+ b)).
          rewrite split_on_app by done. simpl. f_equal. by apply IH. }
      rewrite split_path_of in Hs by done. injection Hs as ->. eauto.
  - intros [tail ->]. destruct tail as [| t0 ts].
    + left. by rewrite app_nil_r.
    + right. apply starts_with_iff. exists (join "/" (t0 :: ts)).
      rewrite path_of_app by done. unfold path_of. by rewrite !app_assoc_s.
Qed.

Lemma trim_path_of parts :
  trim_start_matches "/" (path_of parts) = trim_start_matches "/" (join "/" parts).
Proof. done. Qed.

(** The tail below the matching alias. *)
Lemma resolve_tail alias_parts tail :
  alias_parts <> [] -> Forall segment_ok (alias_parts ++ tail) ->
  trim_start_matches "/"
    (default "" (strip_prefix (path_of alias_parts) (path_of (alias_parts ++ tail))))
  = join "/" tail.
Proof.
  intros Hna [Ha Ht]%Forall_app. destruct tail as [| t0 ts].
  - rewrite app_nil_r.
    by rewrite (proj2 (strip_prefix_iff _ _ "") (eq_sym (app_nil_r_s _))).
  - rewrite path_of_app by done.
    rewrite (proj2 (strip_prefix_iff _ _ _) eq_refl). cbn [default from_option].
    unfold id. rewrite trim_path_of.
    assert (exists a s, join "/" (t0 :: ts) = String a s /\ Ascii.eqb a "/" = false)
      as (a & s & Heq & Hneq); [| rewrite Heq; by apply trim_start_id].
    apply Forall_cons in Ht as [[Hne _ _ Hns _ _] _].
    destruct t0 as [| a t0]; [done |]. rewrite contains_char_cons in Hns.
    apply orb_false_iff in Hns as [Hns _]. rewrite Ascii.eqb_sym in Hns.
    destruct ts as [| t1 ts]; [by exists a, t0 |].
    exists a, (t0 +:+ String "/" (join "/" (t1 :: ts))). split; [by rewrite join_cons_c | done].
Qed.

Lemma under_root_app p q : under_root p = true -> under_root (p +:+ "/" +:+ q) = true.
Proof.
  unfold under_root. rewrite !existsb_exists. intros (root & Hin & Hr). exists root.
  split; [done |]. apply orb_true_iff. right. apply starts_with_iff.
  apply orb_true_iff in Hr as [->%String.eqb_eq | (t & ->)%starts_with_iff].
  - exists q. by rewrite app_assoc_s.
  - exists (t +:+ "/" +:+ q). by rewrite !app_assoc_s.
Qed.

Lemma join_tail_ok target_parts tail :
  target_parts <> [] -> Forall segment_ok (target_parts ++ tail) ->
  under_root (path_of target_parts) = true ->
  join_tail (path_of target_parts) (join "/" tail) = Ok (path_of (target_parts ++ tail)).
Proof.
  intros Hnt [Ht Htl]%Forall_app Hroot. unfold join_tail. destruct tail as [| t0 ts].
  - by rewrite app_nil_r.
  - rewrite (proj2 (String.eqb_neq _ _)) by (by apply join_nonempty).
    rewrite trim_end_id by (by apply path_of_no_trailing_slash).
    change ("/" +:+ join "/" (t0 :: ts)) with (path_of (t0 :: ts)).
    rewrite <- path_of_app by done. unfold virtual_path_new. rewrite normalize_id.
    + simpl. rewrite path_of_app by done.
      change (path_of (t0 :: ts)) with ("/" +:+ join "/" (t0 :: ts)).
      by rewrite under_root_app.
    + exists (target_parts ++ t0 :: ts). split; [by destruct target_parts |].
      split; [by apply Forall_app | done].
Qed.

(** The winning grant of a resolution: it matches, and no other matching grant
    has a longer alias. *)
Definition best_match (view : MountView) (path : ScopedPath) (m : MountGrant) : Prop :=
  m ∈ view /\ path_matches_alias (alias m) path = true
  /\ forall m', m' ∈ view -> path_matches_alias (alias m') path = true ->
       str_len (alias m') <= str_len (alias m).

(** Resolution of a normal path: the tail below the winning alias, under the
    winning target. *)
Lemma resolve_spec view path :
  Forall grant_wf view -> normal_path path ->
  match resolve_with_grant view path with
  | Ok (vp, m) =>
      best_match view path m /\ normal_path vp /\ under_root vp = true
      /\ exists tail, (tail = "" /\ path = alias m /\ vp = target m)
                    \/ (tail <> "" /\ path = alias m +:+ "/" +:+ tail
                        /\ vp = target m +:+ "/" +:+ tail)
  | Err _ => forall m, m ∈ view -> path_matches_alias (alias m) path = false
  end.
Proof.
  intros Hwf (parts & Hnp & Hp & ->). unfold resolve_with_grant.
  destruct (max_by_key _ _) as [m |] eqn:Hmax.
  - apply max_by_key_spec in Hmax as [[Hin Hm]%elem_of_matching Hbest].
    assert (best_match view (path_of parts) m) as Hbm.
    { split; [done |]. split; [done |]. intros m' Hin' Hm'. apply Hbest.
      by apply elem_of_matching. }
    pose proof (proj1 (Forall_forall _ _) Hwf m Hin)
      as [(al & Hnal & Hal & Heqa) (tg & Hntg & Htg & Heqt) Hrt].
    rewrite Heqa in Hm. apply path_matches_alias_iff in Hm as [tail ->]; [| done..].
    rewrite Heqa, resolve_tail by done. apply Forall_app in Hp as [_ Htl].
    rewrite Heqt, join_tail_ok; [| done | by apply Forall_app | by rewrite <- Heqt].
    simpl. split; [done |].
    assert (normal_path (path_of (tg ++ tail))) as Hn.
    { exists (tg ++ tail). split; [by destruct tg | by split; [apply Forall_app |]]. }
    split; [done |]. destruct tail as [| t0 ts].
    + rewrite !app_nil_r in *. rewrite <- Heqt. split; [done |]. exists "". by left.
    + rewrite (path_of_app tg), (path_of_app al) by done.
      change (path_of (t0 :: ts)) with ("/" +:+ join "/" (t0 :: ts)).
      split; [apply under_root_app; by rewrite <- Heqt |].
      exists (join "/" (t0 :: ts)). right. rewrite Heqa, Heqt.
      split; [by apply join_nonempty | done].
  - apply max_by_key_None in Hmax. intros m Hin.
    destruct (path_matches_alias (alias m) (path_of parts)) eqn:Hm; [| done].
    assert (m ∈ List.filter (fun m => path_matches_alias (alias m) (path_of parts)) view)
      as Hf by (by apply elem_of_matching).
    rewrite Hmax in Hf. by apply not_elem_of_nil in Hf.
Qed.

(** [resolve_spec] for a successful resolution. *)
Lemma resolve_inside view path vp m :
  view_wf view -> normal_path path ->
  resolve_with_grant view path = Ok (vp, m) ->
  best_match view path m /\ normal_path vp /\ under_root vp = true
  /\ ((path = alias m /\ vp = target m)
      \/ exists tail, path = alias m +:+ "/" +:+ tail /\ vp = target m +:+ "/" +:+ tail).
Proof.
  intros [Hwf _] Hp Hr. pose proof (resolve_spec view path Hwf Hp) as Hs. rewrite Hr in Hs.
  destruct Hs as (? & ? & ? & tail & [(_ & ? & ?) | (_ & ? & ?)]); eauto 10.
Qed.

(** [C28] Mount containment: resolving a scoped path against a well-formed view
    yields a path at or below the target of a grant of that view, namely the path
    with the grant's alias replaced by its target; the grant is one whose alias
    contains the path segment-wise, with the longest alias of all that do. *)
Theorem resolve_contained view path vp m :
  view_wf view -> normal_path path ->
  resolve_with_grant view path = Ok (vp, m) ->
  best_match view path m /\ normal_path vp /\ under_root vp = true
  /\ ((path = alias m /\ vp = target m)
      \/ exists tail, path = alias m +:+ "/" +:+ tail /\ vp = target m +:+ "/" +:+ tail).
Proof. apply resolve_inside. Qed.

(** Resolution is total on what the view covers and fails closed elsewhere: a
    normal path resolves exactly when some alias of the view contains it, and an
    alias is never matched by a mere textual prefix (an alias [a] covers [a] and
    [a/...] only). *)
Theorem resolve_total view path :
  view_wf view -> normal_path path ->
  is_ok (resolve_with_grant view path) = true <->
  exists m, m ∈ view /\ (path = alias m \/ exists tail, path = alias m +:+ "/" +:+ tail).
Proof.
  intros [Hwf _] Hp. pose proof (resolve_spec view path Hwf Hp) as Hs.
  assert (forall m, path_matches_alias (alias m) path = true <->
    (path = alias m \/ exists tail, path = alias m +:+ "/" +:+ tail)) as Hpm.
  { intros m. unfold path_matches_alias.
    rewrite orb_true_iff, String.eqb_eq, starts_with_iff.
    split; (intros [Heq | [t ->]]; [by left | right; exists t; by rewrite app_assoc_s]). }
  setoid_rewrite <- Hpm. destruct (resolve_with_grant view path) as [[vp m] | e]; simpl.
  - destruct Hs as ((Hin & Hm & _) & _). split; [eauto | done].
  - split; [done |]. intros (m & Hin & Hm). by rewrite (Hs m Hin) in Hm.
Qed.

(** ** Delegation *)

Lemma permissions_subset_refl p : permissions_subset p p = true.
Proof. by destruct p as [[] [] [] [] []]. Qed.

(** A path resolves to the same place in two views that agree on the winner. *)
Lemma resolve_same_grant view view' path vp vp' m m' :
  resolve_with_grant view path = Ok (vp, m) ->
  resolve_with_grant view' path = Ok (vp', m') ->
  alias m = alias m' -> target m = target m' -> vp = vp'.
Proof.
  unfold resolve_with_grant.
  destruct (max_by_key _ _) as [n |]; [| done].
  intros (v & Hv & [= -> ->])%and_then_Ok.
  destruct (max_by_key _ _) as [n' |]; [| done].
  intros (v' & Hv' & [= -> ->])%and_then_Ok Ha Ht. rewrite Ha, Ht in Hv. congruence.
Qed.

(** Two aliases of one length that both contain a path are equal. *)
Lemma matching_alias_unique path m m' :
  path_matches_alias (alias m) path = true -> path_matches_alias (alias m') path = true ->
  str_len (alias m) = str_len (alias m') -> alias m = alias m'.
Proof.
  assert (forall m, path_matches_alias (alias m) path = true ->
    exists t, path = alias m +:+ t) as Hpre.
  { intros n. unfold path_matches_alias. rewrite orb_true_iff, String.eqb_eq, starts_with_iff.
    intros [-> | [t ->]]; [exists ""; by rewrite app_nil_r_s | exists ("/" +:+ t)].
    by rewrite app_assoc_s. }
  intros (t & ->)%Hpre (t' & Heq)%Hpre. clear Hpre. unfold str_len.
  generalize dependent (alias m'). generalize (alias m).
  induction s as [| a s IH]; intros [| b s']; simpl; try done.
  intros [= -> Ht] [= Hl]. f_equal. by apply IH.
Qed.

(** Aliases identify the grants of a view. *)
Lemma alias_unique (view : MountView) m m' :
  NoDup (map alias view) -> m ∈ view -> m' ∈ view -> alias m = alias m' -> m = m'.
Proof.
  intros Hnd. induction view as [| g view IH]; [by intros ?%not_elem_of_nil |].
  apply NoDup_cons in Hnd as [Hg Hnd].
  intros [-> | Hm]%elem_of_cons [-> | Hm']%elem_of_cons Heq; [done | | | by apply IH].
  - destruct Hg. rewrite Heq. by apply list_elem_of_fmap_2.
  - destruct Hg. rewrite <- Heq. by apply list_elem_of_fmap_2.
Qed.

(** Delegating a subset of mounts gives no new reach except by un-shadowing:
    if a child view is a subset of its parent, whatever path the child resolves
    the parent resolves too, and either to the same virtual path under a grant
    with at least the child's permissions, or through a longer alias of the parent
    that the child was not given. *)
Theorem subset_resolution child parent path vp m :
  view_wf child -> view_wf parent -> normal_path path ->
  view_subset child parent = true ->
  resolve_with_grant child path = Ok (vp, m) ->
  exists vp' m', resolve_with_grant parent path = Ok (vp', m')
    /\ ((vp' = vp /\ permissions_subset (permissions m) (permissions m') = true)
        \/ (str_len (alias m) < str_len (alias m') /\ alias m' ∉ map alias child)).
Proof.
  intros [Hwc Hnc] [Hwp Hnp] Hp Hsub Hr.
  pose proof (resolve_spec child path Hwc Hp) as Hc. rewrite Hr in Hc.
  destruct Hc as ((Hin & Hm & Hbest) & _).
  unfold view_subset in Hsub. rewrite forallb_forall in Hsub.
  pose proof (Hsub m (proj1 (list_elem_of_In _ _) Hin)) as Hex.
  apply existsb_exists in Hex as (pm & Hpin%list_elem_of_In & Hpm).
  rewrite !andb_true_iff, !String.eqb_eq in Hpm. destruct Hpm as [[Ha Ht] Hperm].
  pose proof (resolve_spec parent path Hwp Hp) as Hpar.
  destruct (resolve_with_grant parent path) as [[vp' m'] | e] eqn:Hr'.
  - exists vp', m'. split; [done |]. destruct Hpar as ((Hin' & Hm' & Hbest') & _).
    destruct (decide (str_len (alias m) = str_len (alias m'))) as [Hlen | Hlen].
    + left. assert (alias m = alias m') as Heq by (by apply (matching_alias_unique path)).
      assert (m' = pm) as ->.
      { apply (alias_unique parent); [done.. | congruence]. }
      split; [symmetry; by eapply resolve_same_grant | done].
    + right. assert (str_len (alias m) <= str_len (alias m')) as Hle.
      { rewrite Ha. apply Hbest'; [done | by rewrite <- Ha]. }
      split; [lia |]. intros (c & Heqc & Hc)%list_elem_of_fmap.
      assert (str_len (alias c) <= str_len (alias m)); [| rewrite <- Heqc in *; lia].
      apply Hbest; [done | by rewrite <- Heqc].
  - rewrite Ha in Hm. by rewrite (Hpar pm Hpin) in Hm.
Qed.

(** ** Witnesses *)

Definition workspace_grant : MountGrant := {|
  alias := "/workspace"; target := "/projects/p1"; permissions := read_write |}.

(** A grant that shadows part of the workspace. *)
Definition private_grant : MountGrant := {|
  alias := "/workspace/private"; target := "/secrets/p1"; permissions := permissions_none |}.

Lemma workspace_grant_wf : grant_wf workspace_grant.
Proof.
  split; [by apply (normalize_normal "/workspace" Alias)
         | by apply (normalize_normal "/projects/p1" Virtual) | reflexivity].
Qed.

Lemma private_grant_wf : grant_wf private_grant.
Proof.
  split; [by apply (normalize_normal "/workspace/private" Alias)
         | by apply (normalize_normal "/secrets/p1" Virtual) | reflexivity].
Qed.

Lemma child_view_wf : view_wf [workspace_grant].
Proof.
  apply (mount_view_new_wf [workspace_grant]); [| reflexivity].
  by repeat constructor; try apply workspace_grant_wf.
Qed.

Lemma parent_view_wf : view_wf [workspace_grant; private_grant].
Proof.
  apply (mount_view_new_wf [workspace_grant; private_grant]); [| reflexivity].
  apply Forall_cons. split; [apply workspace_grant_wf |].
  apply Forall_cons. split; [apply private_grant_wf | constructor].
Qed.

Lemma private_path_normal : normal_path "/workspace/private/key".
Proof. by apply (normalize_normal "/workspace/private/key" Scoped). Qed.

Lemma resolve_contained_witness :
  resolve_with_grant [workspace_grant; private_grant] "/workspace/private/key"
  = Ok ("/secrets/p1/key", private_grant)
  /\ best_match [workspace_grant; private_grant] "/workspace/private/key" private_grant.
Proof.
  split; [reflexivity |].
  exact (proj1 (resolve_contained [workspace_grant; private_grant] "/workspace/private/key"
    "/secrets/p1/key" private_grant parent_view_wf private_path_normal eq_refl)).
Defined.

Lemma resolve_total_witness :
  is_ok (resolve_with_grant [workspace_grant] "/workspace/private/key") = true
  /\ exists m, m ∈ [workspace_grant]
       /\ ("/workspace/private/key" = alias m
           \/ exists tail, "/workspace/private/key" = alias m +:+ "/" +:+ tail).
Proof.
  split; [reflexivity |].
  exact (proj1 (resolve_total [workspace_grant] "/workspace/private/key"
    child_view_wf private_path_normal) eq_refl).
Defined.

(** The second outcome occurs: without the shadowing grant the child reaches a
    path under the workspace target. *)
Lemma subset_resolution_witness :
  view_subset [workspace_grant] [workspace_grant; private_grant] = true
  /\ resolve_with_grant [workspace_grant] "/workspace/private/key"
     = Ok ("/projects/p1/private/key", workspace_grant)
  /\ exists vp' m',
       resolve_with_grant [workspace_grant; private_grant] "/workspace/private/key" = Ok (vp', m').
Proof.
  split; [reflexivity |]. split; [reflexivity |].
  destruct (subset_resolution [workspace_grant] [workspace_grant; private_grant]
    "/workspace/private/key" "/projects/p1/private/key" workspace_grant
    child_view_wf parent_view_wf private_path_normal eq_refl eq_refl)
    as (vp' & m' & Hr & _).
  exact (ex_intro _ vp' (ex_intro _ m' Hr)).
Defined.
