(* ===== verification/Filesystem.v ===== *)
(** * The storage surface and its in-memory backend

    Models [ironclaw_filesystem]: the entry, version, capability and error types
    ([record.rs], [types.rs], [backend.rs]), the [RootFilesystem] trait ([root.rs])
    as a typeclass, and [InMemoryBackend] ([in_memory.rs]), each method of which
    runs under one mutex.  Not modelled: queries, and the
    modification time of an entry, which only [stat] reports. *)

From stdpp Require Import sorting pretty.
From S2P Require Import Prelude Strings Ids Paths.
From Stdlib Require Import Ascii Lia.

(** ** Types *)

Inductive FilesystemOperation :=
  | MountLocal | Connect | ReadFile | WriteFile | AppendFile | ListDir | Stat | Delete
  | CreateDirAll | Query | EnsureIndex | BeginTxn | Append | Tail | HeadSeq | ReserveSeq.

Inductive IndexValue :=
  | IxBool (b : bool)
  | IxI64 (n : Z)
  | IxText (s : string)
  | IxBytes (b : string).

(** [RecordVersion] and [SeqNo] are [u64]s. *)
Abbreviation RecordVersion := N.
Abbreviation SeqNo := N.

Definition next_version (v : RecordVersion) : RecordVersion := sat_add64 v 1.
Definition next_seq (s : SeqNo) : SeqNo := sat_add64 s 1.
Definition SEQ_ZERO : SeqNo := 0%N.

Inductive CasExpectation :=
  | Absent
  | Version (v : RecordVersion)
  | Any.

Record Entry := {
  body : string;
  content_type : string;
  kind : option string;
  indexed : gmap string IndexValue;
}.

Definition OCTET_STREAM : string := "application/octet-stream".
Definition JSON : string := "application/json".

(** [Entry::bytes] *)
Definition entry_bytes (b : string) : Entry :=
  {| body := b; content_type := OCTET_STREAM; kind := None; indexed := ∅ |}.

Record VersionedEntry := {
  ve_path : VirtualPath;
  ve_entry : Entry;
  ve_version : RecordVersion;
}.

Inductive Capability :=
  | CapRead | CapWrite | CapAppend | CapList | CapStat | CapDelete | CapRecords | CapQuery
  | CapIndexExact | CapIndexPrefix | CapIndexFts | CapIndexVector | CapEvents.

(** [self as u32]: the declaration order. *)
Definition capability_index (c : Capability) : N :=
  match c with
  | CapRead => 0 | CapWrite => 1 | CapAppend => 2 | CapList => 3 | CapStat => 4
  | CapDelete => 5 | CapRecords => 6 | CapQuery => 7 | CapIndexExact => 8
  | CapIndexPrefix => 9 | CapIndexFts => 10 | CapIndexVector => 11 | CapEvents => 12
  end%N.

Definition capability_bit (c : Capability) : N := N.shiftl 1 (capability_index c).

Inductive TxnCapability := TxnNone | TxnCas | TxnMultiKey.

#[export] Instance TxnCapability_eq_dec : EqDecision TxnCapability.
Proof. solve_decision. Defined.

Record BackendCapabilities := { flags : N; txn : TxnCapability }.

#[export] Instance BackendCapabilities_eq_dec : EqDecision BackendCapabilities.
Proof. solve_decision. Defined.

Definition capabilities_empty : BackendCapabilities := {| flags := 0; txn := TxnNone |}.

(** [BackendCapabilities::with], [with_txn] and [has] *)
Definition with_capability (b : BackendCapabilities) (c : Capability) : BackendCapabilities :=
  {| flags := N.lor (flags b) (capability_bit c); txn := txn b |}.

Definition with_txn (b : BackendCapabilities) (t : TxnCapability) : BackendCapabilities :=
  {| flags := flags b; txn := t |}.

Definition has_capability (b : BackendCapabilities) (c : Capability) : bool :=
  negb (N.land (flags b) (capability_bit c) =? 0)%N.

Definition sql_typical : BackendCapabilities :=
  with_txn (foldl with_capability capabilities_empty
    [CapRead; CapWrite; CapAppend; CapList; CapStat; CapDelete; CapRecords; CapQuery;
     CapIndexExact; CapIndexPrefix]) TxnCas.

Definition in_memory_full : BackendCapabilities :=
  foldl with_capability sql_typical [CapEvents; CapIndexFts; CapIndexVector].

Definition bytes_only : BackendCapabilities :=
  foldl with_capability capabilities_empty
    [CapRead; CapWrite; CapAppend; CapList; CapStat; CapDelete].

Inductive IndexConflictReason := SpecMismatch | EmptyKeys.

Inductive FilesystemError :=
  | Contract (e : HostApiError)
  | PermissionDenied (path : ScopedPath) (operation : FilesystemOperation)
  | MountNotFound (path : VirtualPath)
  | NotFound (path : VirtualPath) (operation : FilesystemOperation)
  | PathOutsideMount (path : VirtualPath)
  | SymlinkEscape (path : VirtualPath)
  | MountConflict (path : VirtualPath)
  | Backend (path : VirtualPath) (operation : FilesystemOperation) (reason : string)
  | VersionMismatch (path : VirtualPath) (expected found : option RecordVersion)
  | Unsupported (path : VirtualPath) (operation : FilesystemOperation)
  | IndexConflict (path : VirtualPath) (name : string) (reason : IndexConflictReason)
  | DescriptorOverclaims (path : VirtualPath) (missing : list Capability) (txn_shortfall : bool)
  | SerializeIndexed (path : VirtualPath) (operation : FilesystemOperation)
  | DeserializeIndexed (path : VirtualPath) (operation : FilesystemOperation)
  | CorruptRecordVersion (path : VirtualPath) (raw : Z)
  | IndexSpecMissingAfterUpsert (path : VirtualPath) (name : string)
  | BackendInfrastructure (operation : FilesystemOperation) (reason : string).

(** ** Texts of errors *)

Definition operation_text (op : FilesystemOperation) : string :=
  match op with
  | MountLocal => "mount_local" | Connect => "connect" | ReadFile => "read_file"
  | WriteFile => "write_file" | AppendFile => "append_file" | ListDir => "list_dir"
  | Stat => "stat" | Delete => "delete" | CreateDirAll => "create_dir_all" | Query => "query"
  | EnsureIndex => "ensure_index" | BeginTxn => "begin_txn" | Append => "append"
  | Tail => "tail" | HeadSeq => "head_seq" | ReserveSeq => "reserve_seq"
  end.

(** [{:?}] of [Option<RecordVersion>], [Capability] and [IndexConflictReason]. *)
Definition version_debug (v : option RecordVersion) : string :=
  match v with Some n => "Some(RecordVersion(" +:+ pretty n +:+ "))" | None => "None" end.

Definition capability_debug (c : Capability) : string :=
  match c with
  | CapRead => "Read" | CapWrite => "Write" | CapAppend => "Append" | CapList => "List"
  | CapStat => "Stat" | CapDelete => "Delete" | CapRecords => "Records" | CapQuery => "Query"
  | CapIndexExact => "IndexExact" | CapIndexPrefix => "IndexPrefix" | CapIndexFts => "IndexFts"
  | CapIndexVector => "IndexVector" | CapEvents => "Events"
  end.

Definition index_conflict_debug (r : IndexConflictReason) : string :=
  match r with SpecMismatch => "SpecMismatch" | EmptyKeys => "EmptyKeys" end.

(** [Display] of [FilesystemError], as [thiserror] writes it. *)
Definition filesystem_error_text (e : FilesystemError) : string :=
  match e with
  | Contract e => host_error_text e
  | PermissionDenied path op =>
      "permission denied for " +:+ operation_text op +:+ " on scoped path " +:+ path
  | MountNotFound path => "no backend mount found for virtual path " +:+ path
  | NotFound path op => "virtual path not found for " +:+ operation_text op +:+ " at " +:+ path
  | PathOutsideMount path => "virtual path escaped backend mount " +:+ path
  | SymlinkEscape path => "symlink escapes backend mount at virtual path " +:+ path
  | MountConflict path => "backend mount conflict at virtual path " +:+ path
  | Backend path op reason =>
      "filesystem backend error during " +:+ operation_text op +:+ " at " +:+ path +:+ ": "
      +:+ reason
  | VersionMismatch path expected found =>
      "version mismatch at " +:+ path +:+ ": expected " +:+ version_debug expected
      +:+ ", found " +:+ version_debug found
  | Unsupported path op =>
      "operation " +:+ operation_text op +:+ " is not supported by the mount at " +:+ path
  | IndexConflict path name reason =>
      "index conflict for " +:+ name +:+ " at " +:+ path +:+ ": " +:+ index_conflict_debug reason
  | DescriptorOverclaims path missing txn_shortfall =>
      "mount descriptor at " +:+ path +:+ " claims capabilities the backend does not provide: "
      +:+ "missing=[" +:+ join ", " (map capability_debug missing) +:+ "], txn_shortfall="
      +:+ (if txn_shortfall then "true" else "false")
  | SerializeIndexed path op =>
      "failed to serialize indexed projection for " +:+ operation_text op +:+ " at " +:+ path
  | DeserializeIndexed path op =>
      "failed to deserialize indexed projection for " +:+ operation_text op +:+ " at " +:+ path
  | CorruptRecordVersion path raw =>
      "corrupt record version " +:+ pretty raw +:+ " at " +:+ path
  | IndexSpecMissingAfterUpsert path name =>
      "index spec disappeared after upsert at " +:+ path +:+ ": " +:+ name
  | BackendInfrastructure op reason =>
      "filesystem backend infrastructure error during " +:+ operation_text op +:+ ": " +:+ reason
  end.

Inductive FileType := File | Directory | Symlink | Other.

Record DirEntry := {
  de_name : string;
  de_path : VirtualPath;
  de_file_type : FileType;
}.

Record EventRecord := { seq : SeqNo; payload : string }.

(** ** Index declarations ([index.rs]) *)

Inductive IndexKind := IndexExact | IndexPrefix | IndexFts | IndexVector (dim : N).

Record IndexSpec := {
  index_name : string;
  index_keys : list string;
  index_kind : IndexKind;
}.

#[export] Instance IndexKind_eq_dec : EqDecision IndexKind.
Proof. solve_decision. Defined.
#[export] Instance IndexSpec_eq_dec : EqDecision IndexSpec.
Proof. solve_decision. Defined.

Definition is_ascii_alphabetic (c : ascii) : bool := is_ascii_lowercase c || is_ascii_uppercase c.

(** [char::is_whitespace] on ASCII. *)
Definition is_ascii_whitespace (c : ascii) : bool := byte_in 9 13 c || byte_in 32 32 c.

Definition validate_simple_identifier (kind s : string) : Result unit HostApiError :=
  match s with
  | "" => Err (InvalidId kind s "must not be empty")
  | String first rest =>
      reject_if (Nat.ltb 128 (str_len s)) (InvalidId kind s "must be 128 characters or fewer") (
      reject_if (negb (is_ascii_alphabetic first || Ascii.eqb first "_"))
        (InvalidId kind s "must start with an ASCII letter or underscore") (
      reject_if (any_byte (fun b => negb (is_ascii_alphanumeric b || Ascii.eqb b "_")) rest)
        (InvalidId kind s "must contain only ASCII letters, digits, and underscores") (
      reject_if (contains_char "/" s || contains_char "\" s || any_byte is_ascii_whitespace s
                 || has_control s)
        (InvalidId kind s "must be a simple identifier with no path separators or whitespace")
      (Ok tt))))
  end.

(** [IndexName::new] and [IndexKey::new] *)
Definition index_name_new (raw : string) : Result string HostApiError :=
  result_map (fun _ => raw) (validate_simple_identifier "filesystem index name" raw).
Definition index_key_new (raw : string) : Result string HostApiError :=
  result_map (fun _ => raw) (validate_simple_identifier "filesystem index key" raw).

(** ** The trait

    The operations of [RootFilesystem] the modelled callers use; each is one
    atomic step on the backend's state. *)

Abbreviation FsResult F T := (Result T FilesystemError * F)%type.

Class RootFilesystem (F : Type) := {
  fs_capabilities : F -> BackendCapabilities;
  fs_put : VirtualPath -> Entry -> CasExpectation -> F -> FsResult F RecordVersion;
  fs_get : VirtualPath -> F -> FsResult F (option VersionedEntry);
  fs_delete : VirtualPath -> F -> FsResult F unit;
  fs_delete_if_version : VirtualPath -> RecordVersion -> F -> FsResult F unit;
  fs_list_dir : VirtualPath -> F -> FsResult F (list DirEntry);
  fs_append : VirtualPath -> string -> F -> FsResult F SeqNo;
  fs_tail : VirtualPath -> SeqNo -> F -> FsResult F (list EventRecord);
  fs_reserve_sequence : VirtualPath -> F -> FsResult F SeqNo;
}.

(** The index plane of the trait: [ensure_index]. *)
Class IndexedFilesystem (F : Type) := {
  fs_ensure_index : VirtualPath -> IndexSpec -> F -> FsResult F unit;
}.

(** ** [InMemoryBackend] *)

Module InMemory.

Record StoredEntry := { entry : Entry; version : RecordVersion }.

Record State := {
  entries : gmap VirtualPath StoredEntry;
  event_logs : gmap string (list EventRecord);
  sequences : gmap string SeqNo;
  indexes : gmap string (list IndexSpec);
}.

Definition new : State := {| entries := ∅; event_logs := ∅; sequences := ∅; indexes := ∅ |}.

Definition with_entries f s := {|
  entries := f (entries s); event_logs := event_logs s; sequences := sequences s;
  indexes := indexes s |}.
Definition with_logs f s := {|
  entries := entries s; event_logs := f (event_logs s); sequences := sequences s;
  indexes := indexes s |}.
Definition with_sequences f s := {|
  entries := entries s; event_logs := event_logs s; sequences := f (sequences s);
  indexes := indexes s |}.
Definition with_indexes f s := {|
  entries := entries s; event_logs := event_logs s; sequences := sequences s;
  indexes := f (indexes s) |}.

Definition with_trailing_slash (s : string) : string :=
  if ends_with_char "/" s then s else s +:+ "/".

Definition join_path (parent child : string) : string :=
  if ends_with_char "/" parent then parent +:+ child else parent +:+ "/" +:+ child.

(** [s.find('/')] with the parts around it. *)
Fixpoint first_segment (s : string) : string * bool :=
  match s with
  | "" => ("", false)
  | String a s' =>
      if Ascii.eqb a "/" then ("", true)
      else let '(head, has_more) := first_segment s' in (String a head, has_more)
  end.

Definition keys (s : State) : list VirtualPath := (map_to_list (entries s)).*1.

Definition check_cas (path : VirtualPath) (cas : CasExpectation)
    (current : option RecordVersion) : Result unit FilesystemError :=
  match cas, current with
  | Any, _ => Ok tt
  | Absent, None => Ok tt
  | Absent, Some found => Err (VersionMismatch path None (Some found))
  | Version expected, Some found =>
      if (expected =? found)%N then Ok tt
      else Err (VersionMismatch path (Some expected) (Some found))
  | Version expected, None => Err (VersionMismatch path (Some expected) None)
  end.

Definition put (path : VirtualPath) (e : Entry) (cas : CasExpectation) (s : State) :
    FsResult State RecordVersion :=
  let prefix := with_trailing_slash path in
  if existsb (starts_with prefix) (keys s) then
    (Err (Backend path WriteFile "cannot overwrite a directory"), s)
  else
    let current_version := version <$> (entries s !! path) in
    match check_cas path cas current_version with
    | Err err => (Err err, s)
    | Ok _ =>
        let next := match current_version with
                    | Some v => next_version v
                    | None => 1%N
                    end in
        (Ok next, with_entries <[path := {| entry := e; version := next |}]> s)
    end.

Definition get (path : VirtualPath) (s : State) : FsResult State (option VersionedEntry) :=
  (Ok ((fun stored => {| ve_path := path; ve_entry := entry stored;
                         ve_version := version stored |}) <$> (entries s !! path)), s).

(** [map.retain(|key, _| key != exact && !key.starts_with(prefix))] *)
Definition retain_outside {V} (exact prefix : string) (m : gmap string V) : gmap string V :=
  filter (fun kv => negb (String.eqb kv.1 exact) && negb (starts_with prefix kv.1) = true) m.

(** [entries.retain(|key, _| !key.starts_with(prefix))] *)
Definition retain_not_under {V} (prefix : string) (m : gmap string V) : gmap string V :=
  filter (fun kv => negb (starts_with prefix kv.1) = true) m.

Definition clear_plane_under (exact prefix : string) (s : State) : State :=
  with_sequences (retain_outside exact prefix) (with_logs (retain_outside exact prefix) s).

Definition delete_ (path : VirtualPath) (s : State) : FsResult State unit :=
  let prefix := with_trailing_slash path in
  match entries s !! path with
  | Some _ =>
      let s1 := with_entries (delete path) s in
      (Ok tt, clear_plane_under path prefix (with_entries (retain_not_under prefix) s1))
  | None =>
      let before := size (entries s) in
      let s1 := clear_plane_under path prefix (with_entries (retain_not_under prefix) s) in
      if Nat.eqb (size (entries s1)) before then (Err (NotFound path Delete), s1)
      else (Ok tt, s1)
  end.

Definition delete_if_version (path : VirtualPath) (expected_version : RecordVersion)
    (s : State) : FsResult State unit :=
  match entries s !! path with
  | None => (Err (NotFound path Delete), s)
  | Some stored =>
      if (expected_version =? version stored)%N then (Ok tt, with_entries (delete path) s)
      else (Err (VersionMismatch path (Some expected_version) (Some (version stored))), s)
  end.

(** One key of the listing loop. *)
Definition list_key (prefix : string) (seen : gmap string FileType) (key : VirtualPath) :
    gmap string FileType :=
  match strip_prefix prefix key with
  | None => seen
  | Some suffix =>
      let '(head, has_more) := first_segment suffix in
      if String.eqb head "" then seen
      else
        let file_type := if has_more then Directory else File in
        match seen !! head with
        | Some existing => <[head := if has_more then Directory else existing]> seen
        | None => <[head := file_type]> seen
        end
  end.

(** [VirtualPath::new(join_path(..))?] for each name. *)
Fixpoint build_listing (path : VirtualPath) (names : list (string * FileType)) :
    Result (list DirEntry) FilesystemError :=
  match names with
  | [] => Ok []
  | (name, ft) :: rest =>
      match virtual_path_new (join_path path name) with
      | Err e => Err (Contract e)
      | Ok child =>
          result_map (cons {| de_name := name; de_path := child; de_file_type := ft |})
            (build_listing path rest)
      end
  end.

Definition name_le (a b : DirEntry) : Prop := String.leb (de_name a) (de_name b) = true.

#[export] Instance name_le_dec : RelDecision name_le.
Proof. intros a b. unfold name_le. apply _. Defined.

Definition list_dir (path : VirtualPath) (s : State) : FsResult State (list DirEntry) :=
  let prefix := with_trailing_slash path in
  let seen := foldl (list_key prefix) ∅ (keys s) in
  (result_map (merge_sort name_le) (build_listing path (map_to_list seen)), s).

(** [log.last().map(|rec| rec.seq.next()).unwrap_or(SeqNo::ZERO.next())] *)
Definition next_log_seq (log : list EventRecord) : SeqNo :=
  match last log with
  | Some rec => next_seq (seq rec)
  | None => next_seq SEQ_ZERO
  end.

Definition append (path : VirtualPath) (p : string) (s : State) : FsResult State SeqNo :=
  let log := default [] (event_logs s !! path) in
  let next := next_log_seq log in
  (Ok next, with_logs <[path := log ++ [{| seq := next; payload := p |}]]> s).

(** The loop of [append_batch]. *)
Fixpoint push_all (payloads : list string) (log : list EventRecord) (seqs : list SeqNo) :
    list EventRecord * list SeqNo :=
  match payloads with
  | [] => (log, seqs)
  | p :: rest =>
      let next := next_log_seq log in
      push_all rest (log ++ [{| seq := next; payload := p |}]) (seqs ++ [next])
  end.

Definition append_batch (path : VirtualPath) (payloads : list string) (s : State) :
    FsResult State (list SeqNo) :=
  let '(log, seqs) := push_all payloads (default [] (event_logs s !! path)) [] in
  (Ok seqs, with_logs <[path := log]> s).

Definition newer (from : SeqNo) (r : EventRecord) : bool := (from <? seq r)%N.

Definition tail (path : VirtualPath) (from : SeqNo) (s : State) :
    FsResult State (list EventRecord) :=
  match event_logs s !! path with
  | None => (Ok [], s)
  | Some log => (Ok (List.filter (newer from) log), s)
  end.

Definition tail_bounded (path : VirtualPath) (from : SeqNo) (max_records : nat) (s : State) :
    FsResult State (list EventRecord) :=
  match event_logs s !! path with
  | None => (Ok [], s)
  | Some log => (Ok (take max_records (List.filter (newer from) log)), s)
  end.

Definition reserve_sequence (path : VirtualPath) (s : State) : FsResult State SeqNo :=
  let next := default (next_seq SEQ_ZERO) (sequences s !! path) in
  (Ok next, with_sequences <[path := next_seq next]> s).

Definition append_file (path : VirtualPath) (bytes : string) (s : State) : FsResult State unit :=
  let existing := entries s !! path in
  let e := default (entry_bytes "") (entry <$> existing) in
  match kind e with
  | Some _ =>
      (Err (Backend path AppendFile "cannot append bytes to a record-shaped entry"), s)
  | None =>
      let e' := {| body := body e +:+ bytes; content_type := content_type e;
                   kind := kind e; indexed := indexed e |} in
      let next := match existing with
                  | Some stored => next_version (version stored)
                  | None => 1%N
                  end in
      (Ok tt, with_entries <[path := {| entry := e'; version := next |}]> s)
  end.

(** [ensure_index] *)
Definition ensure_index (path : VirtualPath) (spec : IndexSpec) (s : State) :
    FsResult State unit :=
  if bool_decide (index_kind spec = IndexVector 0)
  then (Err (IndexConflict path (index_name spec) SpecMismatch), s)
  else
    let bucket := default [] (indexes s !! path) in
    match List.find (fun x => String.eqb (index_name x) (index_name spec)) bucket with
    | Some existing =>
        if bool_decide (existing <> spec)
        then (Err (IndexConflict path (index_name existing) SpecMismatch), s)
        else (Ok tt, s)
    | None => (Ok tt, with_indexes <[path := bucket ++ [spec]]> s)
    end.

#[global] Instance InMemory_indexed : IndexedFilesystem State := {|
  fs_ensure_index := ensure_index;
|}.

#[global] Instance InMemory_root : RootFilesystem State := {|
  fs_capabilities _ := in_memory_full;
  fs_put := put;
  fs_get := get;
  fs_delete := delete_;
  fs_delete_if_version := delete_if_version;
  fs_list_dir := list_dir;
  fs_append := append;
  fs_tail := tail;
  fs_reserve_sequence := reserve_sequence;
|}.

(** ** The event plane *)

(** A log numbers its records 1, 2, 3, ... *)
Definition log_wf (log : list EventRecord) : Prop :=
  forall i r, log !! i = Some r -> seq r = N.of_nat (S i).

Definition logs_wf (s : State) : Prop := map_Forall (fun _ => log_wf) (event_logs s).

(** Fewer records than [u64] numbers. *)
Definition log_fits (log : list EventRecord) : Prop := (N.of_nat (length log) < u64_max)%N.

Lemma next_log_seq_spec log :
  log_wf log -> log_fits log -> next_log_seq log = N.of_nat (S (length log)).
Proof.
  intros Hwf Hfit. unfold next_log_seq, log_fits in *.
  destruct (last log) as [r |] eqn:Hl.
  - rewrite last_lookup in Hl. rewrite (Hwf _ _ Hl). unfold next_seq.
    destruct log as [| x log]; [done |]. simpl in *. sat_lia.
  - apply last_None in Hl as ->. reflexivity.
Qed.

Lemma log_wf_snoc log p :
  log_wf log -> log_fits log ->
  log_wf (log ++ [{| seq := next_log_seq log; payload := p |}]).
Proof.
  intros Hwf Hfit i r Hi. apply lookup_app_Some in Hi as [Hi | [Hge Hi]]; [by apply Hwf |].
  rewrite list_lookup_singleton_Some in Hi. destruct Hi as [Hi <-]. simpl.
  rewrite next_log_seq_spec by done. lia.
Qed.

Lemma filter_newer_drop log from :
  log_wf log -> List.filter (newer (N.of_nat from)) log = drop from log.
Proof.
  revert from. induction log as [| r log IH] using rev_ind; intros from Hwf.
  - by rewrite drop_nil.
  - rewrite List.filter_app. rewrite IH.
    2:{ intros i x Hi. apply Hwf. by apply lookup_app_l_Some. }
    assert (seq r = N.of_nat (S (length log))) as Hs by (apply Hwf; by apply list_lookup_middle).
    simpl. unfold newer. rewrite Hs.
    destruct (N.ltb_spec (N.of_nat from) (N.of_nat (S (length log)))).
    + by rewrite drop_app_le by lia.
    + rewrite app_nil_r. rewrite !drop_ge; [done | rewrite length_app; simpl; lia | lia].
Qed.

(** Replay loses and repeats nothing: on a well-formed log, reading from
    cursor [n] returns exactly the records after the first [n], in order; an append
    takes the next number, keeps every log well-formed, and is what a reader at the
    previous cursor sees last. *)
Theorem log_replay path p s from :
  logs_wf s -> log_fits (default [] (event_logs s !! path)) ->
  (tail path (N.of_nat from) s).1 = Ok (drop from (default [] (event_logs s !! path)))
  /\ let '(r, s') := append path p s in
     let log := default [] (event_logs s !! path) in
     r = Ok (N.of_nat (S (length log))) /\ logs_wf s'
     /\ (tail path (N.of_nat (length log)) s').1
        = Ok [{| seq := N.of_nat (S (length log)); payload := p |}].
Proof.
  intros Hwf Hfit. set (log := default [] (event_logs s !! path)) in *.
  assert (log_wf log) as Hlog.
  { unfold log. destruct (event_logs s !! path) as [l |] eqn:Hl; [by eapply Hwf | done]. }
  split.
  - unfold tail. subst log. destruct (event_logs s !! path) as [l |]; simpl in *.
    + by rewrite filter_newer_drop.
    + by rewrite drop_nil.
  - unfold append. fold log. cbv zeta.
    pose proof (log_wf_snoc log p Hlog Hfit) as Hwf'.
    rewrite next_log_seq_spec in * by done. split; [done |]. split.
    + intros q l Hq. simpl in Hq. destruct (decide (path = q)) as [<- | Hne].
      * rewrite lookup_insert_eq in Hq. by injection Hq as <-.
      * rewrite lookup_insert_ne in Hq by done. by eapply Hwf.
    + unfold tail. simpl. rewrite lookup_insert_eq. rewrite filter_newer_drop by done.
      simpl. by rewrite drop_app_length.
Qed.

Lemma log_replay_witness :
  logs_wf new /\ (tail "/events/t" 0 (append "/events/t" "hello" new).2).1
                 = Ok [{| seq := 1; payload := "hello" |}].
Proof.
  assert (logs_wf new) as Hwf by (by intros q l Hq).
  split; [exact Hwf |].
  pose proof (log_replay "/events/t" "hello" new 0 Hwf) as Hr.
  destruct (append "/events/t" "hello" new) as [r s'] eqn:Ha.
  exact (proj2 (proj2 (proj2 (Hr ltac:(vm_compute; reflexivity))))).
Defined.

End InMemory.
