(* ===== verification/Platform.v ===== *)
(** * Platform: what the modelled crates use from third-party code

    The interface [Platform] gathers the operations of [rust_decimal],
    [chrono] and [chrono_tz] the modelled code calls; every model is
    parametric in it.  [PlatformLaws] states the documented facts the theorems
    use.  [TestPlatform] is a concrete executable instance (whole-unit decimals
    with a 96-bit bound, proleptic Gregorian dates, fixed-offset zones): it
    satisfies the laws and lets witnesses compute. *)

From S2P Require Import Prelude.
From Stdlib Require Import ZArith Lia.

(** Instants ([DateTime<Utc>]) and durations are integers counting
    nanoseconds, instants from the Unix epoch. *)
Abbreviation DateTime := Z.

Definition nanos_per_hour : Z := 3600000000000.
Definition duration_hours (h : Z) : Z := h * nanos_per_hour.
Definition duration_days (d : Z) : Z := d * (24 * nanos_per_hour).

Class Platform := {
  (** [rust_decimal::Decimal], up to numeric equality. *)
  Decimal : Type;
  #[global] decimal_eq_dec :: EqDecision Decimal;
  dec_zero : Decimal;
  dec_max : Decimal;
  dec_cmp : Decimal -> Decimal -> comparison;
  dec_checked_add : Decimal -> Decimal -> option Decimal;
  dec_checked_sub : Decimal -> Decimal -> option Decimal;
  dec_to_f64 : Decimal -> option f64;
  (** [chrono_tz::Tz] and the calendar part of [chrono]. *)
  Tz : Type;
  #[global] tz_eq_dec :: EqDecision Tz;
  NaiveDate : Type;
  max_utc : DateTime;
  (** [now.with_timezone(&tz).date_naive()] *)
  local_date : Tz -> DateTime -> NaiveDate;
  (** [date + Duration::days(n)] *)
  date_add_days : NaiveDate -> Z -> NaiveDate;
  date_year : NaiveDate -> Z;
  date_month : NaiveDate -> Z;
  (** [date.weekday().num_days_from_monday()] *)
  date_days_from_monday : NaiveDate -> Z;
  date_from_ymd_opt : Z -> Z -> Z -> option NaiveDate;
  (** [tz.from_local_datetime(&date.and_hms_opt(0, 0, 0)).earliest()] *)
  local_midnight_earliest : Tz -> NaiveDate -> option DateTime;
}.

(** Rust's comparison operators on [Decimal], from its [Ord]. *)
Definition decimal_lt `{Platform} (a b : Decimal) : bool :=
  match dec_cmp a b with Lt => true | _ => false end.
Definition decimal_le `{Platform} (a b : Decimal) : bool :=
  match dec_cmp a b with Gt => false | _ => true end.

(** [Ord::max(self, other)]: [other] unless [self] is greater. *)
Definition dec_ord_max `{Platform} (a b : Decimal) : Decimal :=
  match dec_cmp a b with Gt => a | _ => b end.

(** The documented facts about [Decimal] the theorems rely on: its order is a
    linear order consistent with equality, and zero is neutral. *)
Class PlatformLaws `{Platform} := {
  dec_cmp_eq a b : dec_cmp a b = Eq <-> a = b;
  dec_cmp_antisym a b : dec_cmp b a = CompOpp (dec_cmp a b);
  dec_cmp_lt_trans a b c : dec_cmp a b = Lt -> dec_cmp b c = Lt -> dec_cmp a c = Lt;
  dec_add_zero_r a : dec_checked_add a dec_zero = Some a;
  dec_sub_zero_r a : dec_checked_sub a dec_zero = Some a;
}.

Section decimal_lemmas.
Context `{PlatformLaws}.

Lemma dec_cmp_refl a : dec_cmp a a = Eq.
Proof. by apply dec_cmp_eq. Qed.

Lemma dec_lt_not_le a b : decimal_lt a b = negb (decimal_le b a).
Proof.
  unfold decimal_lt, decimal_le. rewrite (dec_cmp_antisym a b).
  by destruct (dec_cmp a b).
Qed.

Lemma dec_le_refl a : decimal_le a a = true.
Proof. unfold decimal_le. by rewrite dec_cmp_refl. Qed.

Lemma dec_lt_irrefl a : decimal_lt a a = false.
Proof. unfold decimal_lt. by rewrite dec_cmp_refl. Qed.

Lemma dec_ord_max_zero a : decimal_le dec_zero a = true -> dec_ord_max a dec_zero = a.
Proof.
  unfold decimal_le, dec_ord_max. rewrite (dec_cmp_antisym dec_zero a).
  destruct (dec_cmp dec_zero a) eqn:Hc; simpl; try done.
  intros _. by apply dec_cmp_eq in Hc.
Qed.
End decimal_lemmas.

(** ** A concrete platform *)

Section test_platform.
Local Open Scope Z_scope.

(** Days from 1970-01-01 of a proleptic Gregorian date, and back. *)
Definition days_from_civil (y m d : Z) : Z :=
  let y' := if m <=? 2 then y - 1 else y in
  let era := y' / 400 in
  let yoe := y' - era * 400 in
  let mp := (m + 9) mod 12 in
  let doy := (153 * mp + 2) / 5 + d - 1 in
  let doe := yoe * 365 + yoe / 4 - yoe / 100 + doy in
  era * 146097 + doe - 719468.

Definition civil_from_days (z : Z) : Z * Z * Z :=
  let z' := z + 719468 in
  let era := z' / 146097 in
  let doe := z' - era * 146097 in
  let yoe := (doe - doe / 1460 + doe / 36524 - doe / 146096) / 365 in
  let doy := doe - (365 * yoe + yoe / 4 - yoe / 100) in
  let mp := (5 * doy + 2) / 153 in
  let d := doy - (153 * mp + 2) / 5 + 1 in
  let m := if mp <? 10 then mp + 3 else mp - 9 in
  (if m <=? 2 then yoe + era * 400 + 1 else yoe + era * 400, m, d).

Definition dec96_max : Z := 79228162514264337593543950335.
Definition dec96_fit (z : Z) : option Z :=
  if (Z.abs z <=? dec96_max)%Z then Some z else None.

#[export] Instance TestPlatform : Platform := {|
  Decimal := Z;
  dec_zero := 0%Z;
  dec_max := dec96_max;
  dec_cmp := Z.compare;
  dec_checked_add a b := if (b =? 0)%Z then Some a else dec96_fit (a + b);
  dec_checked_sub a b := if (b =? 0)%Z then Some a else dec96_fit (a - b);
  dec_to_f64 z := Some (f64_of_Z z);
  Tz := Z;
  NaiveDate := Z;
  max_utc := 8210266876799999999999;
  local_date off t := ((t + off * nanos_per_hour) / (24 * nanos_per_hour))%Z;
  date_add_days d n := (d + n)%Z;
  date_year d := (civil_from_days d).1.1;
  date_month d := (civil_from_days d).1.2;
  date_days_from_monday d := ((d + 3) mod 7)%Z;
  date_from_ymd_opt y m d :=
    let z := days_from_civil y m d in
    if decide (civil_from_days z = (y, m, d)) then Some z else None;
  local_midnight_earliest off d := Some (d * (24 * nanos_per_hour) - off * nanos_per_hour)%Z;
|}.

#[export] Instance TestPlatform_laws : @PlatformLaws TestPlatform.
Proof.
  split; simpl; intros.
  - apply Z.compare_eq_iff.
  - apply Z.compare_antisym.
  - rewrite Z.compare_lt_iff in *. lia.
  - done.
  - done.
Qed.
End test_platform.
