(* ===== verification/HostApi.v ===== *)
(** * Host API: resource contracts

    Models [ironclaw_host_api/src/resource.rs]: the resource scope and the scopes
    derived from it, and the estimate, usage, reservation and receipt shapes
    ([Module Resource]). *)

From S2P Require Import Prelude Platform.
From Stdlib Require Import Ascii.

(** String-backed ids ([string_id!]) are their bytes; UUID-backed ids
    ([uuid_id!]) are 128-bit numbers. *)
Abbreviation TenantId := string.
Abbreviation UserId := string.
Abbreviation AgentId := string.
Abbreviation ProjectId := string.
Abbreviation MissionId := string.
Abbreviation ThreadId := string.
Abbreviation ExtensionId := string.
Abbreviation CapabilityId := string.
Abbreviation InvocationId := N.
Abbreviation ProcessId := N.
Abbreviation CapabilityGrantId := N.
Abbreviation ResourceReservationId := N.
Abbreviation ApprovalRequestId := N.
Abbreviation CorrelationId := N.

(** ** [resource.rs] *)

Module Resource.

Record ResourceScope := {
  tenant_id : TenantId;
  user_id : UserId;
  agent_id : option AgentId;
  project_id : option ProjectId;
  mission_id : option MissionId;
  thread_id : option ThreadId;
  invocation_id : InvocationId;
}.

#[export] Instance ResourceScope_eq_dec : EqDecision ResourceScope.
Proof. solve_decision. Defined.

Definition SYSTEM_RESERVED_ID : string :=
  String "031" ("SYSTEM" +:+ String "031" "").
Definition TENANT_SHARED_MANAGED_USER_ID : string :=
  "__ironclaw_tenant_shared_admin__".

(** [ResourceScope::system]; the fresh invocation id is an argument. *)
Definition system (fresh : InvocationId) : ResourceScope := {|
  tenant_id := SYSTEM_RESERVED_ID;
  user_id := SYSTEM_RESERVED_ID;
  agent_id := None;
  project_id := None;
  mission_id := None;
  thread_id := None;
  invocation_id := fresh;
|}.

Definition is_system (s : ResourceScope) : bool :=
  String.eqb (tenant_id s) SYSTEM_RESERVED_ID
  && String.eqb (user_id s) SYSTEM_RESERVED_ID.

Definition without_thread_and_mission (s : ResourceScope) : ResourceScope := {|
  tenant_id := tenant_id s;
  user_id := user_id s;
  agent_id := agent_id s;
  project_id := project_id s;
  mission_id := None;
  thread_id := None;
  invocation_id := invocation_id s;
|}.

Definition tenant_user_settings_scope (s : ResourceScope) : ResourceScope := {|
  tenant_id := tenant_id s;
  user_id := user_id s;
  agent_id := None;
  project_id := None;
  mission_id := None;
  thread_id := None;
  invocation_id := invocation_id s;
|}.

Definition tenant_shared_managed_scope (s : ResourceScope) : ResourceScope := {|
  tenant_id := tenant_id s;
  user_id := TENANT_SHARED_MANAGED_USER_ID;
  agent_id := None;
  project_id := None;
  mission_id := None;
  thread_id := None;
  invocation_id := invocation_id s;
|}.

Section with_platform.
Context `{Platform}.

Record ResourceEstimate := {
  est_usd : option Decimal;
  est_input_tokens : option N;
  est_output_tokens : option N;
  est_wall_clock_ms : option N;
  est_output_bytes : option N;
  est_network_egress_bytes : option N;
  est_process_count : option N;
  est_concurrency_slots : option N;
}.

Record ResourceUsage := {
  use_usd : Decimal;
  use_input_tokens : N;
  use_output_tokens : N;
  use_wall_clock_ms : N;
  use_output_bytes : N;
  use_network_egress_bytes : N;
  use_process_count : N;
}.

Record ResourceReservation := {
  rsv_id : ResourceReservationId;
  rsv_scope : ResourceScope;
  rsv_estimate : ResourceEstimate;
}.

Inductive ReservationStatus := Active | Reconciled | Released.

Record ResourceReceipt := {
  rcpt_id : ResourceReservationId;
  rcpt_scope : ResourceScope;
  rcpt_status : ReservationStatus;
  rcpt_estimate : ResourceEstimate;
  rcpt_actual : option ResourceUsage;
}.

#[export] Instance ResourceEstimate_eq_dec : EqDecision ResourceEstimate.
Proof. solve_decision. Defined.
#[export] Instance ResourceUsage_eq_dec : EqDecision ResourceUsage.
Proof. solve_decision. Defined.
#[export] Instance ResourceReservation_eq_dec : EqDecision ResourceReservation.
Proof. solve_decision. Defined.
#[export] Instance ReservationStatus_eq_dec : EqDecision ReservationStatus.
Proof. solve_decision. Defined.
#[export] Instance ResourceReceipt_eq_dec : EqDecision ResourceReceipt.
Proof. solve_decision. Defined.
End with_platform.

Global Arguments ResourceEstimate {_}.
Global Arguments ResourceUsage {_}.
End Resource.
