(* ===== verification/Scoped.v ===== *)
(** * Scoped filesystems

    Models [ironclaw_filesystem/src/scoped.rs]: every operation resolves the
    caller's scoped path through the scope's mount view, checks the grant's
    permission for the operation, and only then touches the root filesystem.  The
    composition's mount-view resolver is a parameter.  Latency tracing and the
    deprecated byte helpers are left out. *)

From stdpp Require Import sorting.
From S2P Require Import Prelude Strings Ids Paths Mounts Filesystem Platform HostApi.
From Stdlib Require Import Ascii Lia.
Import HostApi.Resource.

Definition operation_allowed (p : MountPermissions) (operation : FilesystemOperation) : bool :=
  match operation with
  | ReadFile => p_read p
  | WriteFile | AppendFile | CreateDirAll | EnsureIndex | BeginTxn | Append | ReserveSeq =>
      p_write p
  | ListDir => p_list p
  | Stat => p_read p || p_list p
  | Delete => p_delete p
  | MountLocal | Connect => false
  | Query => p_read p && p_list p
  | Tail | HeadSeq => p_read p
  end.

Definition resolve_with_permission_view (view : MountView) (path : ScopedPath)
    (operation : FilesystemOperation) : Result VirtualPath FilesystemError :=
  match resolve_with_grant view path with
  | Err e => Err (Contract e)
  | Ok (vp, grant) =>
      if operation_allowed (permissions grant) operation then Ok vp
      else Err (PermissionDenied path operation)
  end.

Section scoped.
Context {F : Type} `{RootFilesystem F}.

(** [MountViewResolver] *)
Variable resolver : ResourceScope -> Result MountView HostApiError.

Definition mount_view (scope : ResourceScope) : Result MountView FilesystemError :=
  match resolver scope with Ok v => Ok v | Err e => Err (Contract e) end.

(** [ScopedFilesystem::resolve] *)
Definition scoped_resolve (scope : ResourceScope) (path : ScopedPath) :
    Result VirtualPath FilesystemError :=
  and_then (mount_view scope) (fun view =>
    match mount_resolve view path with Ok vp => Ok vp | Err e => Err (Contract e) end).

Definition resolve_with_permission (scope : ResourceScope) (path : ScopedPath)
    (operation : FilesystemOperation) : Result VirtualPath FilesystemError :=
  and_then (mount_view scope) (fun view => resolve_with_permission_view view path operation).

(** The shape of every operation: resolve with the permission, then run. *)
Definition guarded {T} (scope : ResourceScope) (path : ScopedPath)
    (operation : FilesystemOperation) (run : VirtualPath -> F -> FsResult F T) (fs : F) :
    FsResult F T :=
  match resolve_with_permission scope path operation with
  | Err e => (Err e, fs)
  | Ok vp => run vp fs
  end.

Definition scoped_put (scope : ResourceScope) (path : ScopedPath) (e : Entry)
    (cas : CasExpectation) : F -> FsResult F RecordVersion :=
  guarded scope path WriteFile (fun vp => fs_put vp e cas).

Definition scoped_get (scope : ResourceScope) (path : ScopedPath) :
    F -> FsResult F (option VersionedEntry) :=
  guarded scope path ReadFile (fun vp => fs_get vp).

Definition scoped_append (scope : ResourceScope) (path : ScopedPath) (p : string) :
    F -> FsResult F SeqNo :=
  guarded scope path Append (fun vp => fs_append vp p).

Definition scoped_tail (scope : ResourceScope) (path : ScopedPath) (from : SeqNo) :
    F -> FsResult F (list EventRecord) :=
  guarded scope path Tail (fun vp => fs_tail vp from).

Definition scoped_reserve_sequence (scope : ResourceScope) (path : ScopedPath) :
    F -> FsResult F SeqNo :=
  guarded scope path ReserveSeq (fun vp => fs_reserve_sequence vp).

Definition scoped_list_dir (scope : ResourceScope) (path : ScopedPath) :
    F -> FsResult F (list DirEntry) :=
  guarded scope path ListDir (fun vp => fs_list_dir vp).

Definition scoped_delete (scope : ResourceScope) (path : ScopedPath) : F -> FsResult F unit :=
  guarded scope path Delete (fun vp => fs_delete vp).

Definition scoped_delete_if_version (scope : ResourceScope) (path : ScopedPath)
    (expected_version : RecordVersion) : F -> FsResult F unit :=
  guarded scope path Delete (fun vp => fs_delete_if_version vp expected_version).

(** [ensure_index] *)
Definition scoped_ensure_index `{!IndexedFilesystem F} (scope : ResourceScope) (path : ScopedPath)
    (spec : IndexSpec) : F -> FsResult F unit :=
  guarded scope path EnsureIndex (fun vp => fs_ensure_index vp spec).

(** [write_bytes] *)
Definition scoped_write_bytes (scope : ResourceScope) (path : ScopedPath) (b : string)
    (fs : F) : FsResult F unit :=
  let '(r, fs') := scoped_put scope path (entry_bytes b) Any fs in
  (result_map (fun _ => tt) r, fs').

(** [write_bytes_with_mount_view] *)
Definition write_bytes_with_mount_view (view : MountView) (path : ScopedPath) (b : string)
    (fs : F) : FsResult F unit :=
  match resolve_with_permission_view view path WriteFile with
  | Err e => (Err e, fs)
  | Ok vp =>
      let '(r, fs') := fs_put vp (entry_bytes b) Any fs in
      (result_map (fun _ => tt) r, fs')
  end.

(** [read_bytes] *)
Definition scoped_read_bytes (scope : ResourceScope) (path : ScopedPath) (fs : F) :
    FsResult F string :=
  match scoped_get scope path fs with
  | (Err e, fs') => (Err e, fs')
  | (Ok (Some ve), fs') => (Ok (body (ve_entry ve)), fs')
  | (Ok None, fs') =>
      match resolve_with_permission scope path ReadFile with
      | Err e => (Err e, fs')
      | Ok vp => (Err (NotFound vp ReadFile), fs')
      end
  end.

(** ** [ScopedStorageTxn]: the same checks around a backend transaction. *)

Record ScopedStorageTxn := {
  txn_permissions : MountPermissions;
  mount_prefix : VirtualPath;
}.

(** [check] *)
Definition txn_check (t : ScopedStorageTxn) (operation : FilesystemOperation) :
    Result unit FilesystemError :=
  if operation_allowed (txn_permissions t) operation then Ok tt
  else Err (Backend (mount_prefix t) operation
              "scoped transaction lacks the required permission").

(** [check_path]; [path_prefix_matches] compares whole components. *)
Definition txn_check_path (t : ScopedStorageTxn) (path : VirtualPath) :
    Result unit FilesystemError :=
  if path_matches_alias (mount_prefix t) path then Ok tt else Err (PathOutsideMount path).

(** [begin]: the permissions of the grant that resolved the prefix. *)
Definition scoped_begin (scope : ResourceScope) (prefix : ScopedPath) :
    Result ScopedStorageTxn FilesystemError :=
  and_then (mount_view scope) (fun view =>
  and_then (resolve_with_permission_view view prefix BeginTxn) (fun vp =>
    match resolve_with_grant view prefix with
    | Err e => Err (Contract e)
    | Ok (_, grant) =>
        Ok {| txn_permissions := permissions grant; mount_prefix := vp |}
    end)).

(** [put], [get], [delete] and [reserve_sequence] of the transaction run the
    inner operation after both checks. *)
Definition txn_guarded {T} (t : ScopedStorageTxn) (operation : FilesystemOperation)
    (path : VirtualPath) (run : F -> FsResult F T) (fs : F) : FsResult F T :=
  match txn_check t operation with
  | Err e => (Err e, fs)
  | Ok _ =>
      match txn_check_path t path with
      | Err e => (Err e, fs)
      | Ok _ => run fs
      end
  end.

Lemma resolve_with_permission_Ok scope path operation vp :
  resolve_with_permission scope path operation = Ok vp <->
  exists view m, resolver scope = Ok view /\ resolve_with_grant view path = Ok (vp, m)
    /\ operation_allowed (permissions m) operation = true.
Proof.
  unfold resolve_with_permission, mount_view, resolve_with_permission_view.
destruct (resolver scope) as [view | e]; simpl.
  2:{ split; [done | by intros (? & ? & ? & _)]. }
  destruct (resolve_with_grant view path) as [[vp' m] | e] eqn:Hr.
  2:{ split; [done |]. intros (v & m & [= <-] & Hm & _). congruence. }
  destruct (operation_allowed (permissions m) operation) eqn:Ha; split.
  - intros [= <-]. by exists view, m.
  - intros (v & m' & [= <-] & Hm & _). congruence.
  - done.
  - intros (v & m' & [= <-] & Hm & Ha'). congruence.
Qed.
End scoped.

(** ** Access control *)

Section access.
Context {F : Type} `{RootFilesystem F}.
Variable resolver : ResourceScope -> Result MountView HostApiError.

(** What the composition's resolver produces. *)
Definition resolver_wf : Prop :=
  forall scope view, resolver scope = Ok view -> view_wf view.

(** No operation escapes its grant: a scoped operation either leaves the
    backend untouched and fails, or runs on exactly one virtual path, which lies
    at or below the target of the longest matching grant of the caller's own
    view, and that grant allows the operation. *)
Theorem guarded_contained {T} scope path operation
    (run : VirtualPath -> F -> FsResult F T) fs :
  resolver_wf -> normal_path path ->
  (exists e, guarded resolver scope path operation run fs = (Err e, fs))
  \/ exists view m vp,
       resolver scope = Ok view /\ best_match view path m
       /\ operation_allowed (permissions m) operation = true
       /\ (vp = target m \/ exists tail, vp = target m +:+ "/" +:+ tail)
       /\ guarded resolver scope path operation run fs = run vp fs.
Proof.
  intros Hwf Hp. unfold guarded.
  destruct (resolve_with_permission resolver scope path operation) as [vp | e] eqn:Hr;
    [right | left; by exists e].
  apply resolve_with_permission_Ok in Hr as (view & m & Hv & Hg & Ha).
  pose proof (resolve_inside view path vp m (Hwf scope view Hv) Hp Hg)
    as (Hbest & _ & _ & Hvp).
  exists view, m, vp. split; [done |]. split; [done |]. split; [done |].
  split; [| done]. destruct Hvp as [[_ ->] | (tail & _ & ->)]; eauto.
Qed.
End access.

(** ** Isolation of scopes over the in-memory backend *)

(** Two subtrees neither of which contains the other. *)
Definition apart (a b : VirtualPath) : Prop :=
  path_matches_alias a b = false /\ path_matches_alias b a = false.

Definition views_apart (v w : MountView) : Prop :=
  forall m m', m ∈ v -> m' ∈ w -> apart (target m) (target m').

(** Normal paths under two normal roots make the roots comparable. *)
Lemma common_path_comparable a b p :
  normal_path a -> normal_path b -> normal_path p ->
  path_matches_alias a p = true -> path_matches_alias b p = true -> ~ apart a b.
Proof.
  intros (pa & Hna & Ha & ->) (pb & Hnb & Hb & ->) (pp & Hnp & Hp & ->).
  intros (ta & ->)%path_matches_alias_iff (tb & Heq)%path_matches_alias_iff; [| done..].
  intros [Hab Hba].
  destruct (prefix_weak_total pa pb (pa ++ ta)) as [[t ->] | [t ->]].
  - by apply prefix_app_r.
  - rewrite Heq. by apply prefix_app_r.
  - rewrite (proj2 (path_matches_alias_iff pa (pa ++ t) Hna Hnb Ha Hb)) in Hab; [done | eauto].
  - rewrite (proj2 (path_matches_alias_iff pb (pb ++ t) Hnb Hna Hb Ha)) in Hba; [done | eauto].
Qed.

Lemma resolve_below view path vp m :
  view_wf view -> normal_path path -> resolve_with_grant view path = Ok (vp, m) ->
  m ∈ view /\ normal_path (target m) /\ normal_path vp
  /\ path_matches_alias (target m) vp = true.
Proof.
  intros Hwf Hp Hr. pose proof (resolve_inside view path vp m Hwf Hp Hr)
    as ((Hin & _) & Hn & _ & Hvp).
  destruct Hwf as [Hwf _]. pose proof (proj1 (Forall_forall _ _) Hwf m Hin) as [_ Ht _].
  split; [done |]. split; [done |]. split; [done |].
  unfold path_matches_alias. apply orb_true_iff. destruct Hvp as [[_ ->] | (tail & _ & ->)].
  - left. apply String.eqb_refl.
  - right. apply starts_with_iff. exists tail. symmetry. apply app_assoc_s.
Qed.

Lemma put_other path q e cas s :
  path <> q -> (InMemory.get q (InMemory.put path e cas s).2).1 = (InMemory.get q s).1.
Proof.
  intros Hne. unfold InMemory.put.
  destruct (existsb _ _); [done |]. destruct (InMemory.check_cas _ _ _); [| done].
  unfold InMemory.get. simpl. by rewrite lookup_insert_ne.
Qed.

(** Tenants are isolated structurally: if the mount views of two scopes have
    no target in common (none contains another), nothing the first scope writes
    through its scoped filesystem, whatever path it names, changes what the second
    reads at any path. *)
Theorem scoped_isolation resolver scope scope' view view' path path' e cas (s : InMemory.State) :
  resolver scope = Ok view -> resolver scope' = Ok view' ->
  view_wf view -> view_wf view' -> views_apart view view' ->
  normal_path path -> normal_path path' ->
  (scoped_get resolver scope' path' (scoped_put resolver scope path e cas s).2).1
  = (scoped_get resolver scope' path' s).1.
Proof.
  intros Hv Hv' Hwf Hwf' Hap Hp Hp'. unfold scoped_put, scoped_get, guarded.
  destruct (resolve_with_permission resolver scope path WriteFile) as [vp | err] eqn:Hw; [| done].
  destruct (resolve_with_permission resolver scope' path' ReadFile) as [vp' | err] eqn:Hr; [| done].
  apply resolve_with_permission_Ok in Hw as (w & m & Hw & Hg & _).
  apply resolve_with_permission_Ok in Hr as (w' & m' & Hw' & Hg' & _).
  rewrite Hv in Hw. rewrite Hv' in Hw'. injection Hw as <-. injection Hw' as <-.
  apply resolve_below in Hg as (Hin & Ht & Hn & Hm); [| done..].
  apply resolve_below in Hg' as (Hin' & Ht' & Hn' & Hm'); [| done..].
  simpl. apply put_other. intros ->.
  by apply (common_path_comparable (target m) (target m') vp'), Hap.
Qed.

(** ** Witnesses *)

Definition tenant_view (tenant : string) : MountView :=
  [{| alias := "/run-state"; target := "/tenants/" +:+ tenant +:+ "/run-state";
      permissions := read_write |}].

(** The mount view of the scope's tenant. *)
Definition tenant_resolver (scope : ResourceScope) : Result MountView HostApiError :=
  if String.eqb (tenant_id scope) "acme" then Ok (tenant_view "acme") else Ok (tenant_view "zeta").

Definition scope_of (tenant : string) : ResourceScope := {|
  tenant_id := tenant; user_id := "u"; agent_id := None; project_id := None;
  mission_id := None; thread_id := None; invocation_id := 1 |}.

Lemma acme_view_wf : view_wf (tenant_view "acme").
Proof.
  apply (mount_view_new_wf (tenant_view "acme")); [| reflexivity].
  apply Forall_cons. split; [| constructor]. split; [| | reflexivity].
  - by apply (normalize_normal "/run-state" Alias).
  - by apply (normalize_normal "/tenants/acme/run-state" Virtual).
Qed.

Lemma zeta_view_wf : view_wf (tenant_view "zeta").
Proof.
  apply (mount_view_new_wf (tenant_view "zeta")); [| reflexivity].
  apply Forall_cons. split; [| constructor]. split; [| | reflexivity].
  - by apply (normalize_normal "/run-state" Alias).
  - by apply (normalize_normal "/tenants/zeta/run-state" Virtual).
Qed.

Lemma run_path_normal : normal_path "/run-state/runs/1.json".
Proof. by apply (normalize_normal "/run-state/runs/1.json" Scoped). Qed.

Lemma tenant_resolver_wf : resolver_wf tenant_resolver.
Proof.
  intros scope view. unfold tenant_resolver.
  destruct (String.eqb _ _); intros [= <-]; [apply acme_view_wf | apply zeta_view_wf].
Qed.

Lemma guarded_contained_witness :
  normal_path "/run-state/runs/1.json"
  /\ exists view m vp, tenant_resolver (scope_of "acme") = Ok view
       /\ best_match view "/run-state/runs/1.json" m
       /\ operation_allowed (permissions m) WriteFile = true
       /\ vp = "/tenants/acme/run-state/runs/1.json".
Proof.
  split; [exact run_path_normal |].
  destruct (guarded_contained tenant_resolver (scope_of "acme") "/run-state/runs/1.json"
              WriteFile (fun vp => fs_put vp (entry_bytes "x") Absent) InMemory.new
              tenant_resolver_wf run_path_normal) as [[e He] | (view & m & vp & Hv & Hb & Ha & _)].
  - discriminate He.
  - exists view, m, "/tenants/acme/run-state/runs/1.json".
    exact (conj Hv (conj Hb (conj Ha eq_refl))).
Defined.

Lemma scoped_isolation_witness :
  views_apart (tenant_view "acme") (tenant_view "zeta")
  /\ (scoped_get tenant_resolver (scope_of "zeta") "/run-state/runs/1.json"
        (scoped_put tenant_resolver (scope_of "acme") "/run-state/runs/1.json"
          (entry_bytes "x") Absent InMemory.new).2).1 = Ok None.
Proof.
  assert (views_apart (tenant_view "acme") (tenant_view "zeta")) as Hap.
  { intros m m' Hm Hm'. apply list_elem_of_singleton in Hm as ->.
    apply list_elem_of_singleton in Hm' as ->. by split. }
  split; [exact Hap |].
  exact (scoped_isolation tenant_resolver (scope_of "acme") (scope_of "zeta")
    (tenant_view "acme") (tenant_view "zeta") "/run-state/runs/1.json" "/run-state/runs/1.json"
    (entry_bytes "x") Absent InMemory.new eq_refl eq_refl acme_view_wf zeta_view_wf Hap
    run_path_normal run_path_normal).
Defined.
