(* ===== verification/Cas.v ===== *)
(** * Compare-and-swap updates

    Models [ironclaw_filesystem/src/cas.rs]: the bounded, lock-free
    read-modify-write loop every record store runs on.  Other tasks may act on the
    backend before each read and before each write of an attempt; what they do is an
    argument ([env]).  The surrounding timeout may fire at any of the loop's await
    points ([fires]); firing after the write means the backend committed it but the
    answer was dropped.  [apply] is a pure function of the snapshot, as the helper
    requires of its callers. *)

From stdpp Require Import sorting.
From S2P Require Import Prelude Strings Ids Paths Mounts Filesystem Platform HostApi Scoped.
From Stdlib Require Import Lia.
Import HostApi.Resource.

Definition FILESYSTEM_CAS_RETRIES : nat := 32.
(** Durations in milliseconds. *)
Definition FILESYSTEM_APPLY_TIMEOUT : N := 15000.
Definition FILESYSTEM_CAS_BACKOFF_BASE : N := 2.
Definition FILESYSTEM_CAS_BACKOFF_MAX : N := 50.

Record CasApply {Snap Out : Type} := { snapshot : Snap; outcome : Out; apply_write : bool }.
Arguments CasApply : clear implicits.

(** [CasApply::new] and [CasApply::no_op] *)
Definition cas_apply_new {Snap Out} (s : Snap) (t : Out) : CasApply Snap Out :=
  {| snapshot := s; outcome := t; apply_write := true |}.
Definition cas_apply_no_op {Snap Out} (s : Snap) (t : Out) : CasApply Snap Out :=
  {| snapshot := s; outcome := t; apply_write := false |}.

Inductive CasUpdateError {E : Type} :=
  | CasApplyError (e : E)
  | Timeout
  | RetriesExhausted
  | CasUnsupported
  | CasBackend (e : FilesystemError).
Arguments CasUpdateError : clear implicits.

Definition capabilities_known (c : BackendCapabilities) : bool :=
  negb (bool_decide (c = capabilities_empty)).

Definition capabilities_support_cas (c : BackendCapabilities) : bool :=
  match txn c with TxnCas | TxnMultiKey => true | TxnNone => false end.

(** The sleep of [cas_retry_backoff], for the hash its jitter is drawn from. *)
Definition cas_retry_delay (attempt : nat) (hash : N) : N :=
  let shift := N.of_nat (Nat.min attempt 8) in
  let multiplier := N.shiftl 1 shift in
  let base_delay :=
    N.min (FILESYSTEM_CAS_BACKOFF_BASE * multiplier) FILESYSTEM_CAS_BACKOFF_MAX in
  let jitter := (hash mod N.max base_delay 1)%N in
  (base_delay + jitter)%N.

(** The await points of one attempt. *)
Inductive Moment := BeforeRead | BeforeApply | BeforeWrite | AfterWrite | InBackoff.

Section cas.
Context {F : Type} `{RootFilesystem F}.
Variable resolver : ResourceScope -> Result MountView HostApiError.
Context {Snap Out E : Type} `{!EqDecision Snap}.
Variables (scope : ResourceScope) (path : ScopedPath).
Variable decode : string -> Result Snap E.
Variable encode : Snap -> Result Entry E.
Variable apply : option Snap -> Result (CasApply Snap Out) E.
Variable env : nat -> Moment -> F -> F.
Variable fires : nat -> Moment -> bool.

Inductive AttemptOutcome :=
  | Done (r : Result Out (CasUpdateError E))
  | LostRace.

(** [decode(&versioned.entry.body)], or no record. *)
Definition decode_current (found : option VersionedEntry) :
    Result (option Snap * option RecordVersion) E :=
  match found with
  | None => Ok (None, None)
  | Some ve =>
      match decode (body (ve_entry ve)) with
      | Err e => Err e
      | Ok s => Ok (Some s, Some (ve_version ve))
      end
  end.

Definition expectation (version : option RecordVersion) : CasExpectation :=
  match version with Some v => Version v | None => Absent end.

(** The write of one attempt, and what its answer means. *)
Definition attempt_write (attempt : nat) (a : CasApply Snap Out) (version : option RecordVersion)
    (fs : F) : AttemptOutcome * F :=
  match encode (snapshot a) with
  | Err e => (Done (Err (CasApplyError e)), fs)
  | Ok entry =>
      if fires attempt BeforeWrite then (Done (Err Timeout), fs)
      else
        let '(r, fs') :=
          scoped_put resolver scope path entry (expectation version)
            (env attempt BeforeWrite fs) in
        if fires attempt AfterWrite then (Done (Err Timeout), fs')
        else
          match r with
          | Ok _ => (Done (Ok (outcome a)), fs')
          | Err (VersionMismatch _ _ _) =>
              if Nat.ltb (attempt + 1) FILESYSTEM_CAS_RETRIES && fires attempt InBackoff
              then (Done (Err Timeout), fs') else (LostRace, fs')
          | Err (Unsupported _ WriteFile) => (Done (Err CasUnsupported), fs')
          | Err error => (Done (Err (CasBackend error)), fs')
          end
  end.

(** The body of the retry loop. *)
Definition cas_attempt (attempt : nat) (fs : F) : AttemptOutcome * F :=
  if fires attempt BeforeRead then (Done (Err Timeout), fs)
  else
    match scoped_get resolver scope path (env attempt BeforeRead fs) with
    | (Err error, fs1) => (Done (Err (CasBackend error)), fs1)
    | (Ok found, fs1) =>
        match decode_current found with
        | Err e => (Done (Err (CasApplyError e)), fs1)
        | Ok (current, version) =>
            if fires attempt BeforeApply then (Done (Err Timeout), fs1)
            else
              match apply current with
              | Err e => (Done (Err (CasApplyError e)), fs1)
              | Ok a =>
                  if negb (apply_write a) then (Done (Ok (outcome a)), fs1)
                  else if bool_decide (current = Some (snapshot a))
                  then (Done (Ok (outcome a)), fs1)
                  else attempt_write attempt a version fs1
              end
        end
    end.

(** [for attempt in 0..FILESYSTEM_CAS_RETRIES], from [attempt] on. *)
Fixpoint cas_loop (remaining attempt : nat) (fs : F) : Result Out (CasUpdateError E) * F :=
  match remaining with
  | 0 => (Err RetriesExhausted, fs)
  | S remaining' =>
      match cas_attempt attempt fs with
      | (Done r, fs') => (r, fs')
      | (LostRace, fs') => cas_loop remaining' (S attempt) fs'
      end
  end.

Definition cas_update_loop (fs : F) : Result Out (CasUpdateError E) * F :=
  cas_loop FILESYSTEM_CAS_RETRIES 0 fs.

Definition cas_update (fs : F) : Result Out (CasUpdateError E) * F :=
  let capabilities := fs_capabilities fs in
  if capabilities_known capabilities && negb (capabilities_support_cas capabilities)
  then (Err CasUnsupported, fs)
  else cas_update_loop fs.
End cas.

Arguments AttemptOutcome : clear implicits.

(** ** Record codecs *)

(** [serde_json::to_vec_pretty] and [from_slice] for a record type; records that
    can be written read back. *)
Class JsonCodec (A : Type) := {
  to_vec_pretty : A -> Result string string;
  from_slice : string -> Result A string;
  json_roundtrip : forall a b, to_vec_pretty a = Ok b -> from_slice b = Ok a;
}.

(** ** What a versioned backend promises *)

Definition cas_holds (cas : CasExpectation) (current : option (Entry * RecordVersion)) : Prop :=
  match cas with
  | Any => True
  | Absent => current = None
  | Version v => exists e, current = Some (e, v)
  end.

(** Reads report the current entry and change nothing; a write happens exactly when
    its precondition holds at that instant, and touches one path; a failed write
    leaves every entry. *)
Class VersionedStore (F : Type) `{RootFilesystem F} := {
  entry_at : F -> VirtualPath -> option (Entry * RecordVersion);
  get_reads p fs r fs' :
    fs_get p fs = (r, fs') ->
    (forall q, entry_at fs' q = entry_at fs q)
    /\ forall found, r = Ok found ->
         (fun ve => (ve_entry ve, ve_version ve)) <$> found = entry_at fs p;
  put_writes p e cas fs v fs' :
    fs_put p e cas fs = (Ok v, fs') ->
    cas_holds cas (entry_at fs p) /\ entry_at fs' p = Some (e, v)
    /\ forall q, q <> p -> entry_at fs' q = entry_at fs q;
  put_fails p e cas fs err fs' :
    fs_put p e cas fs = (Err err, fs') ->
    (forall q, entry_at fs' q = entry_at fs q)
    /\ ((exists p' x f, err = VersionMismatch p' x f) -> ~ cas_holds cas (entry_at fs p));
}.

#[global, refine] Instance InMemory_versioned : VersionedStore InMemory.State := {|
  entry_at s p := (fun st => (InMemory.entry st, InMemory.version st)) <$> (InMemory.entries s !! p);
|}.
Proof.
  - intros p fs r fs' [= <- <-]. split; [done |]. intros found [= <-].
    by destruct (InMemory.entries fs !! p).
  - intros p e cas fs v fs'. simpl. unfold InMemory.put.
    destruct (existsb _ _); [done |].
    destruct (InMemory.check_cas _ _ _) eqn:Hc; [| done]. intros [= <- <-]. simpl.
    rewrite lookup_insert_eq. split; [| split; [done |]].
    + destruct (InMemory.entries fs !! p) as [st |], cas as [| x |]; simpl in *; try done.
      destruct (N.eqb_spec x (InMemory.version st)); [subst; eauto | done].
    + intros q Hq. by rewrite lookup_insert_ne.
  - intros p e cas fs err fs'. simpl. unfold InMemory.put.
    destruct (existsb _ _).
    + intros [= <- <-]. split; [done |]. by intros (p' & x & f & ?).
    + destruct (InMemory.check_cas _ _ _) as [| err'] eqn:Hc; [done |].
      intros [= <- <-]. split; [done |]. intros _ Hh.
      destruct (InMemory.entries fs !! p) as [st |], cas as [| x |]; simpl in *; try done.
      * destruct Hh as [e' Hh]. injection Hh as _ Hx. subst x. by rewrite N.eqb_refl in Hc.
      * by destruct Hh.
Defined.

(** ** Correctness *)

Section interference.
Context {F : Type} `{VersionedStore F}.

(** The same entries everywhere. *)
Definition same_entries (fs fs' : F) : Prop := forall q, entry_at fs' q = entry_at fs q.

(** Only other tasks have acted between two states. *)
Definition others_only {M} (env : nat -> M -> F -> F) : F -> F -> Prop :=
  rtc (fun fs fs' => same_entries fs fs' \/ exists k m, fs' = env k m fs).

Lemma others_same {M} (env : nat -> M -> F -> F) fs fs' :
  same_entries fs fs' -> others_only env fs fs'.
Proof. intros Hs. apply rtc_once. by left. Qed.

Lemma others_env {M} (env : nat -> M -> F -> F) k m fs : others_only env fs (env k m fs).
Proof. apply rtc_once. right. eauto. Qed.
End interference.

Section correctness.
Context {F : Type} `{VersionedStore F}.
Variable resolver : ResourceScope -> Result MountView HostApiError.
Context {Snap Out E : Type} `{!EqDecision Snap}.
Variables (scope : ResourceScope) (path : ScopedPath).
Variable decode : string -> Result Snap E.
Variable encode : Snap -> Result Entry E.
Variable apply : option Snap -> Result (CasApply Snap Out) E.
Variable env : nat -> Moment -> F -> F.
Variable fires : nat -> Moment -> bool.

Local Abbreviation attempt := (cas_attempt resolver scope path decode encode apply env fires).
Local Abbreviation loop := (cas_loop resolver scope path decode encode apply env fires).
Local Abbreviation update := (cas_update resolver scope path decode encode apply env fires).

(** One conditional write of [entry] at the resolved path. *)
Definition wrote_once (cas : CasExpectation) (entry : Entry) (fs fs' : F) : Prop :=
  exists vp v, resolve_with_permission resolver scope path WriteFile = Ok vp
    /\ cas_holds cas (entry_at fs vp) /\ entry_at fs' vp = Some (entry, v)
    /\ forall q, q <> vp -> entry_at fs' q = entry_at fs q.

(** What [apply] was shown: the decoded record at the read path. *)
Definition shown (fs : F) (current : option Snap) (version : option RecordVersion) : Prop :=
  exists vp, resolve_with_permission resolver scope path ReadFile = Ok vp
    /\ match entry_at fs vp with
       | None => current = None /\ version = None
       | Some (e, v) => exists s, decode (body e) = Ok s /\ current = Some s /\ version = Some v
       end.

(** The update computed from [current]: its outcome, and a write or none. *)
Definition computed (current : option Snap) (a : CasApply Snap Out) (result : Out) : Prop :=
  apply current = Ok a /\ result = outcome a.

Definition skips (current : option Snap) (a : CasApply Snap Out) : Prop :=
  apply_write a = false \/ current = Some (snapshot a).

(** Why the caller's closures refused in a state: the record does not decode, [apply]
    refused what it was shown, or its snapshot does not encode. *)
Definition refused (fs : F) (e : E) : Prop :=
  (exists b, decode b = Err e)
  \/ exists current version, shown fs current version
       /\ (apply current = Err e
           \/ exists a, apply current = Ok a /\ encode (snapshot a) = Err e).

Lemma scoped_get_spec fs r fs' :
  scoped_get resolver scope path fs = (r, fs') ->
  same_entries fs fs'
  /\ forall found current version, r = Ok found ->
       decode_current decode found = Ok (current, version) -> shown fs current version.
Proof.
  unfold scoped_get, guarded. destruct (resolve_with_permission _ _ _ _) as [vp | e] eqn:Hr.
  - intros (Hs & Hf)%get_reads. split; [done |]. intros found current version Hok Hd.
    specialize (Hf found Hok). exists vp. split; [done |]. rewrite <- Hf.
    destruct found as [ve |]; simpl in *; [| by injection Hd as <- <-].
    destruct (decode (body (ve_entry ve))) as [s |] eqn:Hdec; [| done].
    injection Hd as <- <-. eauto.
  - intros [= <- <-]. by split.
Qed.

Lemma scoped_put_spec e cas fs r fs' :
  scoped_put resolver scope path e cas fs = (r, fs') ->
  match r with
  | Ok _ => wrote_once cas e fs fs'
  | Err err =>
      same_entries fs fs'
      /\ ((exists p' x f, err = VersionMismatch p' x f) ->
          exists vp, resolve_with_permission resolver scope path WriteFile = Ok vp
            /\ ~ cas_holds cas (entry_at fs vp))
  end.
Proof.
  unfold scoped_put, guarded. destruct (resolve_with_permission _ _ _ _) as [vp | e'] eqn:Hr.
  - intros Hp. destruct r as [v | err].
    + apply put_writes in Hp as (? & ? & ?). by exists vp, v.
    + apply put_fails in Hp as (? & Hm). split; [done |]. intros Hx. exists vp. auto.
  - intros [= <- <-]. split; [done |]. intros (p' & x & f & ->).
    exfalso. revert Hr. unfold resolve_with_permission, mount_view, resolve_with_permission_view.
    destruct (resolver scope) as [view | ?]; simpl; [| done].
    destruct (resolve_with_grant _ _) as [[??] |]; [| done]. by case_match.
Qed.

(** The states of one attempt: [fs] at its start, [fs1] at its read, [fs3] just
    before its write, [fs'] at its end. *)
Inductive attempt_spec (k : nat) (fs : F) : AttemptOutcome Out E -> F -> Prop :=
  | attempt_idle r fs' :
      others_only env fs fs' ->
      (forall t, r <> Done (Ok t)) /\ r <> Done (Err RetriesExhausted) ->
      (r = LostRace -> exists fs1 current version vp,
          shown fs1 current version /\ same_entries (env k BeforeWrite fs1) fs'
          /\ resolve_with_permission resolver scope path WriteFile = Ok vp
          /\ ~ cas_holds (expectation version) (entry_at (env k BeforeWrite fs1) vp)) ->
      (forall e, r = Done (Err (CasApplyError e)) -> refused fs' e) ->
      attempt_spec k fs r fs'
  | attempt_skip current version a t fs1 fs' :
      others_only env fs fs1 -> shown fs1 current version -> computed current a t ->
      skips current a -> same_entries fs1 fs' ->
      attempt_spec k fs (Done (Ok t)) fs'
  | attempt_write_once current version a t entry fs1 r fs' :
      others_only env fs fs1 -> shown fs1 current version -> computed current a t ->
      encode (snapshot a) = Ok entry ->
      wrote_once (expectation version) entry (env k BeforeWrite fs1) fs' ->
      (r = Done (Ok t) \/ r = Done (Err Timeout)) ->
      attempt_spec k fs r fs'.

Lemma shown_same fs fs' current version :
  same_entries fs fs' -> shown fs current version -> shown fs' current version.
Proof. intros Hs (vp & Hr & Hm). exists vp. split; [done |]. by rewrite Hs. Qed.

Lemma attempt_write_correct k a current version t fs0 fs1 r fs' :
  others_only env fs0 fs1 -> shown fs1 current version -> computed current a t ->
  attempt_write resolver scope path encode env fires k a version fs1 = (r, fs') ->
  attempt_spec k fs0 r fs'.
Proof.
  intros Ho Hs Hc. unfold attempt_write.
  destruct (encode (snapshot a)) as [entry | e] eqn:He.
  2: { intros [= <- <-]. apply attempt_idle; [done | done | done |]. intros e' [= <-].
       right. exists current, version. destruct Hc. eauto. }
  destruct (fires k BeforeWrite); [intros [= <- <-]; by apply attempt_idle |].
  destruct (scoped_put _ _ _ _ _ _) as [rp fs2] eqn:Hp.
  apply scoped_put_spec in Hp. pose proof Hc as [_ Ht].
  assert (others_only env fs0 (env k BeforeWrite fs1)) as Henv
    by (etrans; [exact Ho | apply others_env]).
  destruct rp as [v | err].
  - assert (forall r, r = Done (Ok t) \/ r = Done (Err Timeout) -> attempt_spec k fs0 r fs2)
      as Hw by (intros r0 Hr0; exact (attempt_write_once k fs0 current version a t entry fs1 r0
                  fs2 Ho Hs Hc He Hp Hr0)).
    destruct (fires k AfterWrite); intros [= <- <-]; apply Hw; [by right |].
    left. by rewrite Ht.
  - destruct Hp as [Hsame Hmis].
    assert (others_only env fs0 fs2) as Hidle by (etrans; [exact Henv | by apply others_same]).
    destruct (fires k AfterWrite); [intros [= <- <-]; by apply attempt_idle |].
    assert (forall err', err' <> RetriesExhausted -> (forall e, err' <> CasApplyError e) ->
              attempt_spec k fs0 (Done (Err err')) fs2) as Herr.
    { intros err' Hne Hna. apply attempt_idle; [done | split; congruence | done |].
      intros e [= He']. by destruct (Hna e). }
    destruct err; try (intros [= <- <-]; by apply Herr).
    + destruct (_ && _); intros [= <- <-]; [by apply Herr |].
      apply attempt_idle; [done | done | | done]. intros _.
      destruct Hmis as (vp & Hr & Hn); [eauto |]. by exists fs1, current, version, vp.
    + destruct operation; intros [= <- <-]; by apply Herr.
Qed.

Lemma decode_current_Err found e : decode_current decode found = Err e -> exists b, decode b = Err e.
Proof.
  destruct found as [ve |]; simpl; [| done].
  destruct (decode (body (ve_entry ve))) eqn:Hd; [done |]. intros [= ->]. eauto.
Qed.

Lemma attempt_correct k fs r fs' :
  attempt k fs = (r, fs') -> attempt_spec k fs r fs'.
Proof.
  unfold cas_attempt.
  destruct (fires k BeforeRead); [intros [= <- <-]; by apply attempt_idle |].
  destruct (scoped_get _ _ _ _) as [rg fs1] eqn:Hg. apply scoped_get_spec in Hg as [Hs Hf].
  assert (others_only env fs fs1) as Ho
    by (etrans; [apply others_env | by apply others_same]).
  destruct rg as [found | e]; [| intros [= <- <-]; by apply attempt_idle].
  destruct (decode_current decode found) as [[current version] | e] eqn:Hd;
    [| intros [= <- <-]; apply attempt_idle; [done | done | done |]; intros e' [= <-];
       left; eapply decode_current_Err, Hd].
  pose proof (shown_same _ _ _ _ Hs (Hf _ _ _ eq_refl Hd)) as Hsh.
  destruct (fires k BeforeApply); [intros [= <- <-]; by apply attempt_idle |].
  destruct (apply current) as [a | e] eqn:Ha.
  2: { intros [= <- <-]. apply attempt_idle; [done | done | done |]. intros e' [= <-].
       right. exists current, version. eauto. }
  destruct (negb (apply_write a)) eqn:Hw.
  { intros [= <- <-]. eapply attempt_skip; [done | done | by split | | done].
    left. by apply negb_true_iff. }
  case_bool_decide as Heq.
  { intros [= <- <-]. eapply attempt_skip; [done | done | by split | by right | done]. }
  by apply (attempt_write_correct k a current version (outcome a)).
Qed.

(** A loop's run ends with one attempt after others that lost their race. *)
Lemma loop_last n k fs r fs' :
  loop n k fs = (r, fs') ->
  (exists k' fs0, others_only env fs fs0 /\ attempt_spec k' fs0 (Done r) fs')
  \/ (r = Err RetriesExhausted /\ others_only env fs fs').
Proof.
  revert k fs. induction n as [| n IH]; intros k fs; simpl.
  - intros [= <- <-]. right. by split; [| reflexivity].
  - destruct (attempt k fs) as [o fs1] eqn:Ha. pose proof (attempt_correct k fs o fs1 Ha) as Hs.
    destruct o as [r1 |].
    + intros [= <- <-]. left. exists k, fs. by split; [reflexivity |].
    + intros Hl. inversion Hs as [? ? Ho _ _ _ | | ]; subst; [| naive_solver].
      destruct (IH _ _ Hl) as [(k' & fs0 & Ho' & Hs') | (Hr & Ho')]; [left | right].
      * exists k', fs0. split; [by etrans | done].
      * split; [done | by etrans].
Qed.

Lemma update_last fs r fs' :
  update fs = (r, fs') ->
  (exists k fs0, others_only env fs fs0 /\ attempt_spec k fs0 (Done r) fs')
  \/ ((r = Err RetriesExhausted \/ r = Err CasUnsupported) /\ others_only env fs fs').
Proof.
  unfold cas_update. destruct (_ && _).
  - intros [= <- <-]. right. split; [by right | reflexivity].
  - intros [(k & fs0 & ?) | [-> ?]]%loop_last; [left; by exists k, fs0 |].
    right. split; [by left | done].
Qed.

(** At most once: whatever other tasks do and whenever the timeout fires, an
    update that reports success has either skipped the write as [apply] asked or
    written the snapshot [apply] returned, once, over a record that had the version
    [apply] was shown; an update that fails has written nothing, except that a
    timeout may follow the one write. *)
Theorem cas_update_at_most_once fs r fs' :
  update fs = (r, fs') ->
  others_only env fs fs' /\ (forall t, r <> Ok t)
  \/ exists fs1 current version a t,
       others_only env fs fs1 /\ shown fs1 current version /\ computed current a t
       /\ ((skips current a /\ r = Ok t /\ others_only env fs1 fs')
           \/ exists entry fs3,
                encode (snapshot a) = Ok entry /\ others_only env fs1 fs3
                /\ wrote_once (expectation version) entry fs3 fs'
                /\ (r = Ok t \/ r = Err Timeout)).
Proof.
  intros [(k & fs0 & Ho & Hs) | [Hr Ho]]%update_last.
  - inversion Hs as [? ? Hoth [Hnok _] _ _ | current version a t fs1 ? Ho1 Hsh Hc Hsk Hsame
      | current version a t entry fs1 ? ? Ho1 Hsh Hc He Hw Hr]; subst.
    + left. split; [by etrans |]. intros t ->. by apply (Hnok t).
    + right. exists fs1, current, version, a, t. split; [by etrans |].
      split; [done |]. split; [done |]. left. split; [done |]. split; [done |].
      by apply others_same.
    + right. exists fs1, current, version, a, t. split; [by etrans |].
      split; [done |]. split; [done |]. right. exists entry, (env k BeforeWrite fs1).
      split; [done |]. split; [apply others_env |]. split; [done |].
      destruct Hr as [[= ->] | [= ->]]; auto.
  - left. split; [done |]. by intros t ->; destruct Hr.
Qed.

Lemma permission_same_path op op' vp vp' :
  resolve_with_permission resolver scope path op = Ok vp ->
  resolve_with_permission resolver scope path op' = Ok vp' -> vp = vp'.
Proof.
  intros (v & m & Hv & Hr & _)%resolve_with_permission_Ok
    (v' & m' & Hv' & Hr' & _)%resolve_with_permission_Ok.
  congruence.
Qed.

(** Between a read and the write that follows it, other tasks never put a different
    record under the version that was read (no delete and re-create). *)
Definition no_reincarnation : Prop :=
  forall k fs q e v e',
    entry_at fs q = Some (e, v) -> entry_at (env k BeforeWrite fs) q = Some (e', v) -> e' = e.

Lemma shown_at_write k fs1 current version entry fs' :
  no_reincarnation -> shown fs1 current version ->
  wrote_once (expectation version) entry (env k BeforeWrite fs1) fs' ->
  shown (env k BeforeWrite fs1) current version.
Proof.
  intros Hnr (vp & Hrd & Hm) (vp' & v' & Hwr & Hcas & _).
  assert (vp' = vp) as -> by (eapply permission_same_path; eauto).
  exists vp. split; [done |]. destruct (entry_at fs1 vp) as [[e v] |] eqn:He.
  - destruct Hm as (s & Hd & -> & ->). destruct Hcas as [e' He'].
    rewrite (Hnr _ _ _ _ _ _ He He') in He'. rewrite He'. eauto.
  - destruct Hm as [-> ->]. simpl in Hcas. by rewrite Hcas.
Qed.

(** An update did nothing, or took effect at one instant; it may time out after that. *)
Lemma update_effect fs r fs' :
  no_reincarnation -> update fs = (r, fs') ->
  (others_only env fs fs' /\ forall t, r <> Ok t)
  \/ exists now current version a t,
       others_only env fs now /\ shown now current version /\ computed current a t
       /\ ((skips current a /\ same_entries now fs' /\ r = Ok t)
           \/ exists entry, encode (snapshot a) = Ok entry
                /\ wrote_once (expectation version) entry now fs' /\ (r = Ok t \/ r = Err Timeout)).
Proof.
  intros Hnr [(k & fs0 & Ho & Hs) | [Hr Ho]]%update_last; [| left; split; [done | by intros t ->; destruct Hr]].
  inversion Hs as [? ? Ho0 [Hnok _] _ _ | current version a t fs1 ? Ho1 Hsh Hc Hsk Hsame
    | current version a t entry fs1 ? ? Ho1 Hsh Hc He Hw Hr]; subst.
  - left. split; [by etrans |]. by intros t ->; destruct (Hnok t).
  - right. exists fs1, current, version, a, t. split; [by etrans |]. split; [done |].
    split; [done |]. left. by repeat split.
  - right. exists (env k BeforeWrite fs1), current, version, a, t.
    split; [etrans; [exact Ho |]; etrans; [exact Ho1 | apply others_env] |].
    split; [by eapply shown_at_write |]. split; [done |]. right. exists entry. split; [done |]. split; [done |].
    destruct Hr as [[= ->] | [= ->]]; auto.
Qed.

(** A successful update and the instant it took effect at. *)
Lemma update_atomic fs t fs' :
  no_reincarnation -> update fs = (Ok t, fs') ->
  exists now current version a,
    others_only env fs now /\ shown now current version /\ computed current a t
    /\ ((skips current a /\ same_entries now fs')
        \/ exists entry, encode (snapshot a) = Ok entry
             /\ wrote_once (expectation version) entry now fs').
Proof.
  intros Hnr [[_ Hn] | (now & current & version & a & t' & Ho & Hsh & Hc & Hend)]%update_effect;
    [by destruct (Hn t) | | done].
  exists now, current, version, a.
  destruct Hend as [(Hsk & Hsame & [= ->]) | (entry & He & Hw & [[= ->] | ?])]; [| | done];
    repeat (split; [done |]); [by left | right; by exists entry].
Qed.

(** [C25] Atomic read-modify-write.  Provided that other tasks never put a different
    record under the version that was read, between the read and its write (as deleting
    and re-creating the record does, whose new text is then overwritten unseen,
    [recreated_record_is_overwritten]): an update that succeeds took effect at one
    instant.  There is one state, reached by the others' actions alone, whose current
    record is the one [apply] was shown, and the final state is that state with exactly
    the snapshot [apply] returned written over it (or, when [apply] asked for no write or
    changed nothing, that state itself); no concurrent write is lost.  An update that
    fails has done nothing, except that the deadline may pass after its one write. *)
Theorem cas_update_atomic fs r fs' :
  no_reincarnation -> update fs = (r, fs') ->
  (others_only env fs fs' /\ forall t, r <> Ok t)
  \/ exists now current version a t,
       others_only env fs now /\ shown now current version /\ computed current a t
       /\ ((skips current a /\ same_entries now fs' /\ r = Ok t)
           \/ exists entry, encode (snapshot a) = Ok entry
                /\ wrote_once (expectation version) entry now fs' /\ (r = Ok t \/ r = Err Timeout)).
Proof. apply update_effect. Qed.

(** A refusal by the caller's closures took effect at the end of the run: the final
    state, reached by the others' actions alone, shows the record that was refused. *)
Lemma cas_update_refused fs e fs' :
  update fs = (Err (CasApplyError e), fs') -> others_only env fs fs' /\ refused fs' e.
Proof.
  intros [(k & fs0 & Ho & Hs) | [[?|?] _]]%update_last; [| done..].
  inversion Hs as [? ? Ho' _ _ Hr | | ? ? ? ? ? ? ? ? _ _ _ _ _ [?|?]]; subst; [| done..].
  split; [by etrans | by apply Hr].
Qed.

(** A lost race means that another task changed the record in between. *)
Lemma lost_race k fs fs' :
  attempt k fs = (LostRace, fs') ->
  exists fs1 vp, entry_at (env k BeforeWrite fs1) vp <> entry_at fs1 vp.
Proof.
  intros Hs%attempt_correct.
  inversion Hs as [? ? _ _ Hl _ | | ? ? ? ? ? ? ? ? _ _ _ _ _ Hr]; subst; [| naive_solver].
  destruct (Hl eq_refl) as (fs1 & current & version & vp & (vp' & Hrd & Hm) & _ & Hwr & Hn).
  assert (vp' = vp) as -> by (eapply permission_same_path; eauto).
  exists fs1, vp. intros Heq. apply Hn. rewrite Heq.
  destruct (entry_at fs1 vp) as [[e v] |].
  - destruct Hm as (s & _ & _ & ->). by exists e.
  - by destruct Hm as [_ ->].
Qed.

Lemma loop_exhausted n k fs fs' :
  loop n k fs = (Err RetriesExhausted, fs') ->
  forall j, k <= j < k + n ->
    exists fs1 vp, entry_at (env j BeforeWrite fs1) vp <> entry_at fs1 vp.
Proof.
  revert k fs. induction n as [| n IH]; intros k fs; simpl; [lia |].
  destruct (attempt k fs) as [[r |] fs1] eqn:Ha.
  - intros [= -> ->] j _. apply attempt_correct in Ha.
    inversion Ha as [? ? _ [_ Hne] _ _ | | ? ? ? ? ? ? ? ? _ _ _ _ _ Hr]; subst;
      [done | by destruct Hr].
  - intros Hl j Hj. destruct (decide (j = k)) as [-> | Hne]; [by eapply lost_race |].
    apply (IH (S k) fs1 Hl). lia.
Qed.

(** Progress under contention: the update gives up with [RetriesExhausted] only
    if in every one of its 32 attempts another task changed the record between the
    read and the write; one undisturbed attempt is enough for it to finish. *)
Theorem cas_update_progress fs fs' :
  update fs = (Err RetriesExhausted, fs') ->
  forall k, k < FILESYSTEM_CAS_RETRIES ->
    exists fs1 vp, entry_at (env k BeforeWrite fs1) vp <> entry_at fs1 vp.
Proof.
  unfold cas_update. destruct (_ && _); [done |]. intros Hl k Hk.
  apply (loop_exhausted _ _ _ _ Hl). lia.
Qed.

(** Fail closed: against a backend that advertises capabilities without
    compare-and-swap, the update touches nothing and reports [CasUnsupported]. *)
Theorem cas_update_gate fs :
  fs_capabilities fs <> capabilities_empty -> txn (fs_capabilities fs) = TxnNone ->
  update fs = (Err CasUnsupported, fs).
Proof.
  intros Hk Ht. unfold cas_update, capabilities_known, capabilities_support_cas.
  rewrite Ht. by rewrite bool_decide_false.
Qed.
End correctness.

(** ** Back-off *)

Definition total_backoff (hashes : nat -> N) : N :=
  sum_N (fun k => cas_retry_delay k (hashes k)) (List.seq 0 (FILESYSTEM_CAS_RETRIES - 1)).

Lemma cas_retry_delay_bound k h : (1 <= cas_retry_delay k h < 100)%N.
Proof.
  unfold cas_retry_delay, FILESYSTEM_CAS_BACKOFF_BASE, FILESYSTEM_CAS_BACKOFF_MAX. cbv zeta.
  rewrite N.shiftl_1_l.
  pose proof (N.pow_nonzero 2 (N.of_nat (Nat.min k 8)) ltac:(done)) as Hp.
  generalize dependent (2 ^ N.of_nat (Nat.min k 8))%N. intros multiplier Hp.
  assert (1 <= N.min (2 * multiplier) 50 <= 50)%N as Hb by lia.
  generalize dependent (N.min (2 * multiplier) 50)%N. intros base Hb.
  replace (N.max base 1) with base by lia.
  assert (h mod base < base)%N as Hm by (apply N.mod_lt; lia).
  generalize dependent (h mod base)%N. lia.
Qed.

Lemma sum_N_bound {A} (f : A -> N) m l :
  (forall x, x ∈ l -> f x <= m)%N -> (sum_N f l <= m * N.of_nat (length l))%N.
Proof.
  induction l as [| x l IH]; intros Hf; simpl; [lia |].
  assert (f x <= m)%N by (apply Hf; left).
  assert (sum_N f l <= m * N.of_nat (length l))%N; [| lia].
  apply IH. intros y Hy. apply Hf. by right.
Qed.

(** Sleeping cannot cause the timeout: whatever jitter is drawn, the sleeps of
    the at most 31 retries add up to less than a quarter of the deadline of the
    whole loop. *)
Theorem backoff_within_timeout hashes :
  (4 * total_backoff hashes < FILESYSTEM_APPLY_TIMEOUT)%N.
Proof.
  unfold total_backoff, FILESYSTEM_CAS_RETRIES.
  pose proof (sum_N_bound (fun k => cas_retry_delay k (hashes k)) 99 (List.seq 0 (32 - 1))) as Hb.
  rewrite length_seq in Hb. unfold FILESYSTEM_APPLY_TIMEOUT.
  assert (sum_N (fun k => cas_retry_delay k (hashes k)) (List.seq 0 (32 - 1))
          <= 99 * N.of_nat (32 - 1))%N; [| simpl in *; lia].
  apply Hb. intros k _. pose proof (cas_retry_delay_bound k (hashes k)). lia.
Qed.

(** ** Witnesses *)

Section witnesses.

Definition acme_run : VirtualPath := "/tenants/acme/run-state/runs/1.json".

(** A text record that each update extends by a mark. *)
Definition mark (current : option string) : Result (CasApply string unit) unit :=
  Ok (cas_apply_new (default "" current +:+ "x") tt).

(** Another writer that overwrites the record once, during the first attempt. *)
Definition interloper (k : nat) (m : Moment) (s : InMemory.State) : InMemory.State :=
  match k, m, InMemory.entries s !! acme_run with
  | 0, BeforeWrite, Some st =>
      if decide (InMemory.version st < 5)%N
      then InMemory.with_entries
             <[acme_run :=
               {| InMemory.entry := entry_bytes "y";
                  InMemory.version := next_version (InMemory.version st) |}]> s
      else s
  | _, _, _ => s
  end.

Abbreviation mark_update env :=
  (cas_update tenant_resolver (scope_of "acme") "/run-state/runs/1.json"
    (fun b => Ok b) (fun s => Ok (entry_bytes s)) mark env (fun _ _ => false)).

Definition marked : InMemory.State :=
  (InMemory.put acme_run (entry_bytes "a") Absent InMemory.new).2.

Lemma entry_at_overwrite s p st q :
  entry_at (InMemory.with_entries <[p := st]> s) q
  = if decide (p = q) then Some (InMemory.entry st, InMemory.version st) else entry_at s q.
Proof.
  simpl. case_decide as Hq; [subst; by rewrite lookup_insert_eq | by rewrite lookup_insert_ne].
Qed.

Lemma next_version_ne v : (v < 5)%N -> next_version v <> v.
Proof. unfold next_version. intros. sat_lia. Qed.

Lemma interloper_no_reincarnation : no_reincarnation interloper.
Proof.
  intros [| k] fs q e v e' He He'; unfold interloper in He'; [| congruence].
  destruct (InMemory.entries fs !! acme_run) as [st |] eqn:Hst; [| congruence].
  case_decide as Hv; [| congruence]. rewrite entry_at_overwrite in He'.
  destruct (decide (acme_run = q)) as [<- |]; [| congruence].
  unfold entry_at, InMemory_versioned in He. rewrite Hst in He. simpl in He, He'.
  injection He as _ <-. injection He' as _ Hne. by apply next_version_ne in Hv.
Qed.

(** The first attempt loses to the other writer; the second extends its record. *)
Lemma cas_update_atomic_witness :
  (mark_update interloper marked).1 = Ok tt
  /\ (entry_at (mark_update interloper marked).2 acme_run)
     = Some (entry_bytes "yx", 3%N)
  /\ exists now current version a,
       shown tenant_resolver (scope_of "acme") "/run-state/runs/1.json" (fun b => Ok b : Result string unit)
         now current version
       /\ computed mark current a tt.
Proof.
  split; [vm_refl |]. split; [vm_refl |].
  assert ((mark_update interloper marked).1 = Ok tt) as Hok by vm_refl.
  destruct (mark_update interloper marked) as [r fs'] eqn:Hrun. simpl in Hok. subst r.
  destruct (cas_update_atomic tenant_resolver (scope_of "acme") "/run-state/runs/1.json"
    (fun b => Ok b) (fun s => Ok (entry_bytes s)) mark interloper (fun _ _ => false)
    marked (Ok tt) fs' interloper_no_reincarnation Hrun)
    as [[_ Hn] | (now & current & version & a & [] & _ & Hs & Hc & _)]; [destruct (Hn tt eq_refl) |].
  exact (ex_intro _ now (ex_intro _ current (ex_intro _ version (ex_intro _ a (conj Hs Hc))))).
Defined.

Lemma cas_update_at_most_once_witness :
  exists r fs', mark_update interloper marked = (r, fs')
    /\ exists fs1, others_only interloper marked fs1.
Proof.
  destruct (mark_update interloper marked) as [r fs'] eqn:Hrun. exists r, fs'.
  split; [reflexivity |].
  destruct (cas_update_at_most_once tenant_resolver (scope_of "acme") "/run-state/runs/1.json"
    (fun b => Ok b) (fun s => Ok (entry_bytes s)) mark interloper (fun _ _ => false)
    marked r fs' Hrun) as [[Ho _] | (fs1 & _ & _ & _ & _ & Ho & _)].
  - exact (ex_intro _ fs' Ho).
  - exact (ex_intro _ fs1 Ho).
Defined.

(** A writer that bumps the version before every write of ours. *)
Definition contender (k : nat) (m : Moment) (s : InMemory.State) : InMemory.State :=
  match m with
  | BeforeWrite =>
      (InMemory.put acme_run (entry_bytes "y") Any s).2
  | _ => s
  end.

Lemma cas_update_progress_witness :
  (mark_update contender marked).1 = Err RetriesExhausted
  /\ exists fs1 vp, entry_at (contender 31 BeforeWrite fs1) vp <> entry_at fs1 vp.
Proof.
  split; [vm_refl |].
  assert ((mark_update contender marked).1 = Err RetriesExhausted) as Hex by vm_refl.
  destruct (mark_update contender marked) as [r fs'] eqn:Hrun. simpl in Hex. subst r.
  exact (cas_update_progress tenant_resolver (scope_of "acme") "/run-state/runs/1.json"
    (fun b => Ok b) (fun s => Ok (entry_bytes s)) mark contender (fun _ _ => false)
    marked fs' Hrun 31 ltac:(unfold FILESYSTEM_CAS_RETRIES; lia)).
Defined.

(** The same backend advertising only byte files. *)
Definition BytesOnly : Type := InMemory.State.

Definition bytes_only_root : RootFilesystem InMemory.State := {|
  fs_capabilities _ := bytes_only;
  fs_put := InMemory.put;
  fs_get := InMemory.get;
  fs_delete := InMemory.delete_;
  fs_delete_if_version := InMemory.delete_if_version;
  fs_list_dir := InMemory.list_dir;
  fs_append := InMemory.append;
  fs_tail := InMemory.tail;
  fs_reserve_sequence := InMemory.reserve_sequence;
|}.

Lemma cas_update_gate_witness :
  @fs_capabilities _ bytes_only_root marked <> capabilities_empty
  /\ @cas_update _ bytes_only_root tenant_resolver string unit unit _ (scope_of "acme")
       "/run-state/runs/1.json" (fun b => Ok b) (fun s => Ok (entry_bytes s)) mark
       contender (fun _ _ => false) marked = (Err CasUnsupported, marked).
Proof.
  split; [discriminate |].
  apply cas_update_gate; [discriminate | reflexivity].
Defined.

(** Why [no_reincarnation] is assumed: versions restart at 1 when a path is deleted
    and re-created, so a writer that did so in between is not detected. *)
Definition recreator (k : nat) (m : Moment) (s : InMemory.State) : InMemory.State :=
  match k, m with
  | 0, BeforeWrite =>
      (InMemory.put acme_run (entry_bytes "other") Absent
        (InMemory.delete_ acme_run s).2).2
  | _, _ => s
  end.

Lemma recreated_record_is_overwritten :
  (mark_update recreator marked).1 = Ok tt
  /\ entry_at (mark_update recreator marked).2 acme_run
     = Some (entry_bytes "ax", 2%N).
Proof. split; vm_refl. Qed.
End witnesses.
