(* ===== verification/Composition.v ===== *)
(** * The production mount views

    Models the mount-view resolver of [ironclaw_reborn_composition/src/lib.rs]:
    [invocation_mount_view] rewrites every per-user alias to the caller's
    [/tenants/<tenant>/users/<user>] subtree, routes [/tenant-shared] to the tenant
    and the system roots globally, read-only.  The cargo feature that adds the
    slack grant is the argument [slack]. *)

From stdpp Require Import sorting.
From S2P Require Import Prelude Strings Ids Paths Mounts Filesystem Platform HostApi Scoped.
From Stdlib Require Import Ascii Lia.
Import HostApi.Resource.

Definition PER_USER_ALIASES : list string := [
  "/processes"; "/secrets"; "/authorization"; "/outbound"; "/run-state"; "/approvals";
  "/threads"; "/conversations"; "/turns"; "/checkpoint-state"; "/resources"; "/engine";
  "/skills"; "/workspace"].

Definition SYSTEM_SUBROOTS : list string :=
  ["/system/settings"; "/system/extensions"; "/system/skills"].

Definition resource_scope_path_segment (value : string) : string :=
  if String.eqb value SYSTEM_RESERVED_ID then "__system__" else value.

(** An alias, its target and the permissions of one grant. *)
Definition GrantText : Type := string * string * MountPermissions.

Definition invocation_grant_texts (slack : bool) (tenant user : string) : list GrantText :=
  let tenant_user_prefix := "/tenants/" +:+ tenant +:+ "/users/" +:+ user in
  map (fun a => (a, tenant_user_prefix +:+ a, read_write_list_delete)) PER_USER_ALIASES
  ++ [("/tenant-shared", "/tenants/" +:+ tenant +:+ "/shared", read_write);
      ("/tenant-shared/reborn-identity", "/tenants/" +:+ tenant +:+ "/shared/reborn-identity",
       read_write_list_delete)]
  ++ (if slack
      then [("/tenant-shared/slack-channel-routes",
             "/tenants/" +:+ tenant +:+ "/shared/slack-channel-routes", read_only)]
      else [])
  ++ map (fun s => (s, s, read_only)) SYSTEM_SUBROOTS.

(** [grants.push(MountGrant::new(MountAlias::new(..)?, VirtualPath::new(..)?, ..))] in
    order, leaving at the first error. *)
Fixpoint push_grants (texts : list GrantText) : Result (list MountGrant) HostApiError :=
  match texts with
  | [] => Ok []
  | (a, t, p) :: rest =>
      and_then (mount_alias_new a) (fun alias =>
      and_then (virtual_path_new t) (fun target =>
      and_then (push_grants rest) (fun grants =>
      Ok ({| alias := alias; target := target; permissions := p |} :: grants))))
  end.

Definition invocation_mount_view_for_segments (slack : bool) (tenant user : string) :
    Result MountView HostApiError :=
  and_then (push_grants (invocation_grant_texts slack tenant user)) mount_view_new.

Definition invocation_mount_view (slack : bool) (scope : ResourceScope) :
    Result MountView HostApiError :=
  invocation_mount_view_for_segments slack
    (resource_scope_path_segment (tenant_id scope))
    (resource_scope_path_segment (user_id scope)).

(** ** The view of a scope *)

Definition tenant_segment (scope : ResourceScope) : string :=
  resource_scope_path_segment (tenant_id scope).
Definition user_segment (scope : ResourceScope) : string :=
  resource_scope_path_segment (user_id scope).

(** Tenant and user are validated ids or host sentinels: single path segments after
    the sentinel rewriting. *)
Definition owner_ok (scope : ResourceScope) : Prop :=
  segment_ok (tenant_segment scope) /\ segment_ok (user_segment scope).

(** The segments of the grants of a view. *)
Definition GrantParts : Type := list string * list string * MountPermissions.

Definition per_user_labels : list string :=
  ["processes"; "secrets"; "authorization"; "outbound"; "run-state"; "approvals"; "threads";
   "conversations"; "turns"; "checkpoint-state"; "resources"; "engine"; "skills"; "workspace"].

Definition invocation_grant_parts (slack : bool) (tenant user : string) : list GrantParts :=
  map (fun a => ([a], ["tenants"; tenant; "users"; user; a], read_write_list_delete))
    per_user_labels
  ++ [(["tenant-shared"], ["tenants"; tenant; "shared"], read_write);
      (["tenant-shared"; "reborn-identity"], ["tenants"; tenant; "shared"; "reborn-identity"],
       read_write_list_delete)]
  ++ (if slack
      then [(["tenant-shared"; "slack-channel-routes"],
             ["tenants"; tenant; "shared"; "slack-channel-routes"], read_only)]
      else [])
  ++ map (fun s => (["system"; s], ["system"; s], read_only)) ["settings"; "extensions"; "skills"].

Definition text_of_parts (g : GrantParts) : GrantText :=
  let '(a, t, p) := g in (path_of a, path_of t, p).

Definition grant_of_parts (g : GrantParts) : MountGrant :=
  let '(a, t, p) := g in {| alias := path_of a; target := path_of t; permissions := p |}.

Definition invocation_view (slack : bool) (tenant user : string) : MountView :=
  map grant_of_parts (invocation_grant_parts slack tenant user).

Lemma grant_texts_parts slack tenant user :
  invocation_grant_texts slack tenant user
  = map text_of_parts (invocation_grant_parts slack tenant user).
Proof.
  assert (forall a, ("/tenants/" +:+ tenant +:+ "/users/" +:+ user) +:+ "/" +:+ a
    = path_of ["tenants"; tenant; "users"; user; a]) as Hu.
  { intros a. unfold path_of. rewrite !join_cons2. simpl join. rewrite !app_assoc_s. done. }
  assert (forall rest, rest <> [] -> "/tenants/" +:+ tenant +:+ path_of rest
    = path_of ("tenants" :: tenant :: rest)) as Ht.
  { intros rest Hr. unfold path_of. destruct rest as [| r rest]; [done |].
    by rewrite !join_cons2. }
  unfold invocation_grant_texts, invocation_grant_parts. rewrite !map_app.
  apply (f_equal2 app); [| apply (f_equal2 app); [| apply (f_equal2 app); by destruct slack]].
  - rewrite map_map. unfold PER_USER_ALIASES, per_user_labels. cbn [map text_of_parts]. by rewrite <- !Hu.
  - cbn [map text_of_parts]. by rewrite <- !Ht.
Qed.

(** ** Every well-formed owner has a view *)

Definition parts_ok (g : GrantParts) : Prop :=
  let '(a, t, _) := g in
  a <> [] /\ t <> [] /\ Forall segment_ok a /\ Forall segment_ok t /\ under_root (path_of t) = true.

Lemma push_grants_ok parts :
  Forall parts_ok parts -> push_grants (map text_of_parts parts) = Ok (map grant_of_parts parts).
Proof.
  induction 1 as [| [[a t] p] rest (Hna & Hnt & Ha & Ht & Hr) _ IH]; [done |].
  cbn [map text_of_parts push_grants]. unfold mount_alias_new, virtual_path_new.
  rewrite !normalize_id by (eexists; eauto). simpl. rewrite Hr. simpl. by rewrite IH.
Qed.

Lemma grants_wf parts : Forall parts_ok parts -> Forall grant_wf (map grant_of_parts parts).
Proof.
  intros Hp. apply Forall_map. eapply Forall_impl; [exact Hp |].
  intros [[a t] p] (Hna & Hnt & Ha & Ht & Hr). split; simpl; [by exists a | by exists t | done].
Qed.

(** Literal segments. *)
Ltac literal_segment := by repeat split.

Ltac grant_parts :=
  match goal with
  | |- Forall _ [] => constructor
  | |- Forall _ (_ :: _) => apply Forall_cons
  | |- _ /\ _ => split
  | |- parts_ok (_, _, _) => unfold parts_ok
  | |- segment_ok _ => first [assumption | literal_segment]
  | |- _ => done
  end.

Lemma invocation_parts_ok slack tenant user :
  segment_ok tenant -> segment_ok user ->
  Forall parts_ok (invocation_grant_parts slack tenant user).
Proof.
  intros Ht Hu. assert (segment_ok "tenants") as Hts by literal_segment.
  assert (segment_ok "users") as Hus by literal_segment.
  assert (segment_ok "shared") as Hsh by literal_segment.
  unfold invocation_grant_parts, per_user_labels. rewrite !Forall_app, !Forall_map.
  split; [| split; [| split]].
  - repeat grant_parts.
  - repeat grant_parts.
  - destruct slack; repeat grant_parts.
  - repeat grant_parts.
Qed.

Lemma invocation_aliases slack tenant user :
  mount_view_validate (invocation_view slack tenant user) = Ok tt.
Proof. by destruct slack; vm_compute. Qed.

Lemma invocation_mount_view_total slack scope :
  owner_ok scope ->
  invocation_mount_view slack scope
    = Ok (invocation_view slack (tenant_segment scope) (user_segment scope))
  /\ view_wf (invocation_view slack (tenant_segment scope) (user_segment scope)).
Proof.
  intros [Ht Hu]. pose proof (invocation_parts_ok slack _ _ Ht Hu) as Hp.
  assert (mount_view_new (invocation_view slack (tenant_segment scope) (user_segment scope))
          = Ok (invocation_view slack (tenant_segment scope) (user_segment scope))) as Hv.
  { unfold mount_view_new. by rewrite invocation_aliases. }
  split; [| by apply (mount_view_new_wf _ _ (grants_wf _ Hp))].
  unfold invocation_mount_view, invocation_mount_view_for_segments.
  rewrite grant_texts_parts, push_grants_ok by done. exact Hv.
Qed.

(** ** Isolation of owners *)

(** One path is the other or lies below it. *)
Definition overlap (a b : VirtualPath) : Prop :=
  path_matches_alias a b = true \/ path_matches_alias b a = true.

Lemma parts_shape slack tenant user a t p :
  (a, t, p) ∈ invocation_grant_parts slack tenant user ->
  (exists x, t = ["tenants"; tenant; "users"; user; x])
  \/ (exists rest, t = "tenants" :: tenant :: "shared" :: rest)
  \/ (p = read_only /\ exists rest, t = "system" :: rest).
Proof.
  unfold invocation_grant_parts. rewrite !elem_of_app, !list_elem_of_fmap.
  intros [(x & [= -> -> ->] & _) | [Hin | [Hin | (x & [= -> -> ->] & _)]]];
    [by left; exists x | | | right; right; eauto].
  - right; left. rewrite !elem_of_cons, elem_of_nil in Hin.
    destruct Hin as [[= -> -> ->] | [[= -> -> ->] | []]]; eauto.
  - right; left. destruct slack; rewrite ?elem_of_cons, elem_of_nil in Hin; [| done].
    destruct Hin as [[= -> -> ->] | []]; eauto.
Qed.

(** The grant a permitted operation resolved through. *)
Lemma resolved_parts slack scope path op vp :
  owner_ok scope -> normal_path path ->
  resolve_with_permission (invocation_mount_view slack) scope path op = Ok vp ->
  exists a t p tail,
    (a, t, p) ∈ invocation_grant_parts slack (tenant_segment scope) (user_segment scope)
    /\ operation_allowed p op = true /\ vp = path_of (t ++ tail)
    /\ t <> [] /\ Forall segment_ok (t ++ tail).
Proof.
  intros Ho Hp (view & m & Hv & Hg & Ha)%resolve_with_permission_Ok.
  destruct (invocation_mount_view_total slack scope Ho) as [Hview Hwf].
  rewrite Hview in Hv. injection Hv as <-.
  apply resolve_below in Hg as (Hin & _ & (vparts & Hnv & Hokv & ->) & Hm); [| done..].
  apply list_elem_of_fmap in Hin as ([[a t] p] & -> & Hin). simpl in *.
  pose proof (invocation_parts_ok slack _ _ (proj1 Ho) (proj2 Ho)) as Hok.
  pose proof (proj1 (Forall_forall _ _) Hok _ Hin) as (_ & Hnt & _ & Ht & _).
  apply path_matches_alias_iff in Hm as [tail ->]; [| done..].
  exists a, t, p, tail. done.
Qed.

Lemma overlap_parts l l' :
  l <> [] -> l' <> [] -> Forall segment_ok l -> Forall segment_ok l' ->
  overlap (path_of l) (path_of l') -> l `prefix_of` l' \/ l' `prefix_of` l.
Proof. intros ? ? ? ? [Hm | Hm]; apply path_matches_alias_iff in Hm; auto. Qed.

(** The same id, or the system sentinel and the literal text it is stored under. *)
Definition stored_alike (a b : string) : Prop :=
  a = b \/ (a = SYSTEM_RESERVED_ID /\ b = "__system__") \/ (a = "__system__" /\ b = SYSTEM_RESERVED_ID).

Lemma segment_alike a b :
  resource_scope_path_segment a = resource_scope_path_segment b -> stored_alike a b.
Proof.
  unfold resource_scope_path_segment, stored_alike.
  destruct (String.eqb_spec a SYSTEM_RESERVED_ID), (String.eqb_spec b SYSTEM_RESERVED_ID); intros Heq; subst; auto.
Qed.

(** [C26] Production isolation.  Under the composed resolver, a path one scope may modify
    (any operation that read-only access does not allow) and a path another scope may
    reach by any operation never overlap, unless both scopes belong to the same tenant,
    and then only if they belong to the same user or the path lies in that tenant's
    shared subtree.  "The same" is up to [stored_alike]: the system sentinel is stored
    under the text [__system__], and an owner whose id is literally that text shares its
    storage (see [system_view_collision]). *)
Theorem owners_isolated slack scope scope' path path' op op' vp vp' :
  owner_ok scope -> owner_ok scope' -> normal_path path -> normal_path path' ->
  operation_allowed read_only op = false ->
  resolve_with_permission (invocation_mount_view slack) scope path op = Ok vp ->
  resolve_with_permission (invocation_mount_view slack) scope' path' op' = Ok vp' ->
  overlap vp vp' ->
  stored_alike (tenant_id scope) (tenant_id scope')
  /\ (stored_alike (user_id scope) (user_id scope')
      \/ path_matches_alias (path_of ["tenants"; tenant_segment scope; "shared"]) vp = true).
Proof.
  intros Ho Ho' Hp Hp' Hop Hr Hr' Hov.
  enough (tenant_segment scope = tenant_segment scope'
    /\ (user_segment scope = user_segment scope'
        \/ path_matches_alias (path_of ["tenants"; tenant_segment scope; "shared"]) vp = true)) as [Ht Hu].
  { split; [by apply segment_alike |]. destruct Hu as [Hu |]; [left; by apply segment_alike | by right]. }
  apply resolved_parts in Hr as (a & t & p & tail & Hin & Ha & -> & Hnt & Hok); [| done..].
  apply resolved_parts in Hr' as (a' & t' & p' & tail' & Hin' & _ & -> & Hnt' & Hok'); [| done..].
  apply overlap_parts in Hov; [| by destruct t | by destruct t' | done..].
  apply parts_shape in Hin as [[x ->] | [[rest ->] | [-> _]]]; [| | congruence].
  - apply parts_shape in Hin' as [[x' ->] | [[rest' ->] | [_ [rest' ->]]]];
      destruct Hov as [[k Hk] | [k Hk]]; simpl in Hk; simplify_eq; auto.
  - split; [by apply parts_shape in Hin' as [[x' ->] | [[rest' ->] | [_ [rest' ->]]]];
      destruct Hov as [[k Hk] | [k Hk]]; simpl in Hk; simplify_eq |].
    right. apply path_matches_alias_iff; [done | done | | done | by exists (rest ++ tail)].
    simpl in Hok. rewrite !Forall_cons in Hok. rewrite !Forall_cons. destruct Hok as (? & ? & ? & _).
    auto.
Qed.

(** ** Per-user storage *)

Definition user_root (scope : ResourceScope) (label : string) : list string :=
  ["tenants"; tenant_segment scope; "users"; user_segment scope; label].

Lemma alias_shape slack tenant user a t p :
  (a, t, p) ∈ invocation_grant_parts slack tenant user ->
  (exists x, a = [x] /\ t = ["tenants"; tenant; "users"; user; x] /\ p = read_write_list_delete)
  \/ exists rest, a = "tenant-shared" :: rest \/ a = "system" :: rest.
Proof.
  unfold invocation_grant_parts. rewrite !elem_of_app, !list_elem_of_fmap.
  intros [(x & [= -> -> ->] & _) | [Hin | [Hin | (x & [= -> -> ->] & _)]]];
    [left; eauto | | | eauto]; right.
  - rewrite !elem_of_cons, elem_of_nil in Hin.
    destruct Hin as [[= -> -> ->] | [[= -> -> ->] | []]]; eauto.
  - destruct slack; rewrite ?elem_of_cons, elem_of_nil in Hin; [| done].
    destruct Hin as [[= -> -> ->] | []]; eauto.
Qed.

Lemma per_user_label l :
  l ∈ per_user_labels -> segment_ok l /\ l <> "tenant-shared" /\ l <> "system".
Proof.
  intros Hl. apply (proj1 (Forall_forall
    (fun l => segment_ok l /\ l <> "tenant-shared" /\ l <> "system") per_user_labels)); [| done].
  unfold per_user_labels. repeat (apply Forall_cons; split; [by repeat split |]). constructor.
Qed.

(** A per-user alias leads into the caller's own subtree, whatever the operation. *)
Lemma per_user_resolves slack scope label tail op :
  owner_ok scope -> label ∈ per_user_labels -> Forall segment_ok tail ->
  operation_allowed read_write_list_delete op = true ->
  resolve_with_permission (invocation_mount_view slack) scope (path_of (label :: tail)) op
  = Ok (path_of (user_root scope label ++ tail)).
Proof.
  intros Ho Hl Ht Hop. destruct (invocation_mount_view_total slack scope Ho) as [Hv [Hwf _]].
  destruct (per_user_label label Hl) as (Hlab & Hns & Hnsys).
  assert (normal_path (path_of (label :: tail))) as Hn by (exists (label :: tail); auto).
  pose proof (resolve_spec _ _ Hwf Hn) as Hs. apply resolve_with_permission_Ok.
  rewrite Hv. eexists. destruct (resolve_with_grant _ _) as [[vp m] | e] eqn:Hr.
  - destruct Hs as ((Hin & Hm & _) & _ & _ & Hvp). exists m. split; [done |].
    apply list_elem_of_fmap in Hin as ([[a t] p] & -> & Hin). simpl in *.
    pose proof (invocation_parts_ok slack _ _ (proj1 Ho) (proj2 Ho)) as Hok.
    pose proof (proj1 (Forall_forall _ _) Hok _ Hin) as (Hna & Hnt & Ha & Htt & _).
    apply path_matches_alias_iff in Hm as [rest Hrest]; auto.
    apply alias_shape in Hin as [(x & -> & -> & ->) | (r & [-> | ->])];
      simpl in Hrest; [| congruence..].
    injection Hrest as -> ->. split; [| done]. rewrite Hr. do 2 f_equal.
    destruct Hvp as (tl & [(-> & Hp & ->) | (_ & Hp & ->)]).
    + apply path_of_inj in Hp; [| by auto.. | done | done].
      by injection Hp as ->.
    + destruct rest as [| r0 rest].
      * rewrite <- (app_nil_r_s (path_of [x])) in Hp at 1. by apply app_inj_l_s in Hp.
      * change (x :: r0 :: rest) with ([x] ++ r0 :: rest) in Hp.
        rewrite path_of_app in Hp by done. apply app_inj_l_s in Hp.
        by rewrite <- Hp, <- path_of_app.
  - assert (grant_of_parts ([label], user_root scope label, read_write_list_delete)
            ∈ invocation_view slack (tenant_segment scope) (user_segment scope)) as Hin.
    { apply list_elem_of_fmap. eexists. split; [done |].
      apply elem_of_app. left. apply list_elem_of_fmap. by exists label. }
    specialize (Hs _ Hin). simpl in Hs.
    rewrite (proj2 (path_matches_alias_iff [label] (label :: tail) ltac:(done) ltac:(done)
      (proj2 (Forall_singleton _ _) Hlab) (Forall_cons_2 _ _ _ Hlab Ht))) in Hs; [done | by exists tail].
Qed.

(** ** The system scope *)

Definition user_scope (tenant user : string) : ResourceScope := {|
  tenant_id := tenant; user_id := user; agent_id := None; project_id := None;
  mission_id := None; thread_id := None; invocation_id := 1 |}.

(** The system subtree is not reserved: the text [__system__] that stands for
    the system sentinel in storage paths is itself a valid tenant and user id, which
    [is_system] does not recognise, and a scope with these ids gets the very mount
    view of the system scope, with write and delete authority over its records. *)
Theorem system_view_collision slack id :
  string_id_new validate_scope_id "tenant" "__system__" = Ok "__system__"
  /\ string_id_new validate_scope_id "user" "__system__" = Ok "__system__"
  /\ is_system (user_scope "__system__" "__system__") = false
  /\ invocation_mount_view slack (user_scope "__system__" "__system__")
     = invocation_mount_view slack (system id)
  /\ resolve_with_permission (invocation_mount_view slack) (user_scope "__system__" "__system__")
       "/turns/state.json" Delete
     = Ok "/tenants/__system__/users/__system__/turns/state.json".
Proof.
  split; [done |]. split; [done |]. split; [done |]. split; [done |].
  by destruct slack; vm_compute.
Qed.

(** ** Witnesses *)

Lemma owner_ok_acme user : segment_ok user -> user <> SYSTEM_RESERVED_ID -> owner_ok (user_scope "acme" user).
Proof.
  intros Hu Hne. unfold owner_ok, user_segment, resource_scope_path_segment. simpl.
  rewrite (proj2 (String.eqb_neq _ _)) by done. split; [literal_segment | done].
Qed.

Lemma shared_path_normal : normal_path "/tenant-shared/teams.json".
Proof. by apply (normalize_normal "/tenant-shared/teams.json" Scoped). Qed.

(** Two users of one tenant meet in the tenant's shared subtree only. *)
Lemma owners_isolated_witness :
  overlap "/tenants/acme/shared/teams.json" "/tenants/acme/shared/teams.json"
  /\ (stored_alike "ann" "bob"
      \/ path_matches_alias "/tenants/acme/shared" "/tenants/acme/shared/teams.json" = true).
Proof.
  assert (resolve_with_permission (invocation_mount_view false) (user_scope "acme" "ann")
    "/tenant-shared/teams.json" WriteFile = Ok "/tenants/acme/shared/teams.json") as Ha
    by (vm_compute; reflexivity).
  assert (resolve_with_permission (invocation_mount_view false) (user_scope "acme" "bob")
    "/tenant-shared/teams.json" ReadFile = Ok "/tenants/acme/shared/teams.json") as Hb
    by (vm_compute; reflexivity).
  assert (overlap "/tenants/acme/shared/teams.json" "/tenants/acme/shared/teams.json") as Hov
    by (left; reflexivity).
  assert (segment_ok "ann") as Hann by literal_segment.
  assert (segment_ok "bob") as Hbob by literal_segment.
  split; [exact Hov |].
  exact (proj2 (owners_isolated false (user_scope "acme" "ann") (user_scope "acme" "bob")
    "/tenant-shared/teams.json" "/tenant-shared/teams.json" WriteFile ReadFile _ _
    (owner_ok_acme "ann" Hann ltac:(discriminate)) (owner_ok_acme "bob" Hbob ltac:(discriminate))
    shared_path_normal shared_path_normal eq_refl
    Ha Hb Hov)).
Defined.
