(* ===== verification/RunState.v ===== *)
(** * Run state and approval requests

    Models [ironclaw_run_state/src/lib.rs]: the records, their owner-scoped keys,
    the in-memory stores, and the filesystem-backed stores that run every change
    through [cas_update].  Parameters: the fields of an approval request other than
    its id (no store looks at them), the JSON codec ([serde_json]) and the text of a
    UUID ([uuid]).  The text a storage error is wrapped in is represented by the
    error itself. *)

From stdpp Require Import sorting.
From S2P Require Import Prelude Strings Ids Paths Mounts Filesystem Platform HostApi Scoped Cas.
From Stdlib Require Import Ascii Lia.
Import HostApi.Resource.

(** ** Records *)

Inductive RunStatus := Running | BlockedApproval | BlockedAuth | Completed | Failed.

#[export] Instance RunStatus_eq_dec : EqDecision RunStatus.
Proof. solve_decision. Defined.

Record RunRecord := {
  run_invocation_id : InvocationId;
  run_capability_id : CapabilityId;
  run_scope : ResourceScope;
  run_actor : option UserId;
  run_status : RunStatus;
  run_approval_request_id : option ApprovalRequestId;
  run_error_kind : option string;
}.

#[export] Instance RunRecord_eq_dec : EqDecision RunRecord.
Proof. solve_decision. Defined.

Record RunStart := {
  start_invocation_id : InvocationId;
  start_capability_id : CapabilityId;
  start_scope : ResourceScope;
  start_actor : option UserId;
}.

Inductive ApprovalStatus := Pending | Approved | Denied | Expired | Discarded.

#[export] Instance ApprovalStatus_eq_dec : EqDecision ApprovalStatus.
Proof. solve_decision. Defined.

Section records.
Context {P : Type}.

(** [ApprovalRequest]: its id and what the stores carry along. *)
Record ApprovalRequest := {
  request_id : ApprovalRequestId;
  request_payload : P;
}.

Record ApprovalRecord := {
  approval_scope : ResourceScope;
  approval_request : ApprovalRequest;
  approval_status : ApprovalStatus;
}.

#[export] Instance ApprovalRequest_eq_dec `{!EqDecision P} : EqDecision ApprovalRequest.
Proof. solve_decision. Defined.
#[export] Instance ApprovalRecord_eq_dec `{!EqDecision P} : EqDecision ApprovalRecord.
Proof. solve_decision. Defined.
End records.
Arguments ApprovalRequest : clear implicits.
Arguments ApprovalRecord : clear implicits.

Inductive RunStateError :=
  | UnknownInvocation (invocation_id : InvocationId)
  | InvocationAlreadyExists (invocation_id : InvocationId)
  | UnknownApprovalRequest (request_id : ApprovalRequestId)
  | ApprovalRequestAlreadyExists (request_id : ApprovalRequestId)
  | ApprovalNotPending (request_id : ApprovalRequestId) (status : ApprovalStatus)
  | RunInvalidPath (e : HostApiError)
  | RunFilesystem (e : FilesystemError)
  | RunSerialization (reason : string)
  | RunDeserialization (reason : string)
  | RunBackend (reason : string).

(** ** Owner-scoped keys

    [RunStateKey] and [ApprovalKey] have the same fields, the last being the
    invocation or the request id. *)

Record ScopedKey := {
  key_tenant : TenantId;
  key_user : UserId;
  key_agent : option AgentId;
  key_project : option ProjectId;
  key_mission : option MissionId;
  key_thread : option ThreadId;
  key_id : N;
}.

#[export] Instance ScopedKey_eq_dec : EqDecision ScopedKey.
Proof. solve_decision. Defined.

#[export] Instance ScopedKey_countable : Countable ScopedKey.
Proof.
  apply (inj_countable'
    (fun k => (key_tenant k, key_user k, key_agent k, key_project k, key_mission k,
               key_thread k, key_id k))
    (fun '(t, u, a, p, m, h, i) =>
       {| key_tenant := t; key_user := u; key_agent := a; key_project := p;
          key_mission := m; key_thread := h; key_id := i |})).
  by intros [].
Defined.

(** [RunStateKey::new] and [ApprovalKey::new] *)
Definition key_new (scope : ResourceScope) (id : N) : ScopedKey := {|
  key_tenant := tenant_id scope;
  key_user := user_id scope;
  key_agent := agent_id scope;
  key_project := project_id scope;
  key_mission := mission_id scope;
  key_thread := thread_id scope;
  key_id := id;
|}.

Definition same_scope_owner (left right : ResourceScope) : bool :=
  bool_decide (tenant_id left = tenant_id right)
  && bool_decide (user_id left = user_id right)
  && bool_decide (agent_id left = agent_id right)
  && bool_decide (project_id left = project_id right)
  && bool_decide (mission_id left = mission_id right)
  && bool_decide (thread_id left = thread_id right).

(** ** Record transitions, shared by both run-state stores *)

Definition started (start : RunStart) : RunRecord := {|
  run_invocation_id := start_invocation_id start;
  run_capability_id := start_capability_id start;
  run_scope := start_scope start;
  run_actor := start_actor start;
  run_status := Running;
  run_approval_request_id := None;
  run_error_kind := None;
|}.

(** The three fields the closures of [block_approval], [block_auth], [complete]
    and [fail] assign. *)
Definition set_run (status : RunStatus) (approval : option ApprovalRequestId)
    (error : option string) (r : RunRecord) : RunRecord := {|
  run_invocation_id := run_invocation_id r;
  run_capability_id := run_capability_id r;
  run_scope := run_scope r;
  run_actor := run_actor r;
  run_status := status;
  run_approval_request_id := approval;
  run_error_kind := error;
|}.

Definition to_block_approval (approval_id : ApprovalRequestId) : RunRecord -> RunRecord :=
  set_run BlockedApproval (Some approval_id) None.
Definition to_block_auth (error_kind : string) : RunRecord -> RunRecord :=
  set_run BlockedAuth None (Some error_kind).
Definition to_complete : RunRecord -> RunRecord := set_run Completed None None.
Definition to_fail (error_kind : string) : RunRecord -> RunRecord :=
  set_run Failed None (Some error_kind).

Definition with_approval_status {P} (status : ApprovalStatus) (r : ApprovalRecord P) :
    ApprovalRecord P :=
  {| approval_scope := approval_scope r; approval_request := approval_request r;
     approval_status := status |}.

(** [records.sort_by_key(|record| record.invocation_id.as_uuid())]: stable. *)
Definition id_le {A} (id_of : A -> N) (a b : A) : Prop := (id_of a <= id_of b)%N.

#[export] Instance id_le_dec {A} (id_of : A -> N) : RelDecision (id_le id_of).
Proof. intros a b. unfold id_le. apply _. Defined.

Definition sort_by_id {A} (id_of : A -> N) (l : list A) : list A :=
  merge_sort (id_le id_of) l.

(** ** [InMemoryRunStateStore] *)

Module InMemoryRuns.

Abbreviation Records := (gmap ScopedKey RunRecord).
Abbreviation Op T := (Records -> Result T RunStateError * Records).

Definition update (scope : ResourceScope) (invocation_id : InvocationId)
    (f : RunRecord -> RunRecord) : Op RunRecord := fun records =>
  let key := key_new scope invocation_id in
  match records !! key with
  | None => (Err (UnknownInvocation invocation_id), records)
  | Some record => (Ok (f record), <[key := f record]> records)
  end.

Definition start (st : RunStart) : Op RunRecord := fun records =>
  let record := started st in
  let key := key_new (run_scope record) (run_invocation_id record) in
  match records !! key with
  | Some _ => (Err (InvocationAlreadyExists (run_invocation_id record)), records)
  | None => (Ok record, <[key := record]> records)
  end.

Definition block_approval {P} scope invocation_id (approval : ApprovalRequest P) : Op RunRecord :=
  update scope invocation_id (to_block_approval (request_id approval)).
Definition block_auth scope invocation_id (error_kind : string) : Op RunRecord :=
  update scope invocation_id (to_block_auth error_kind).
Definition complete scope invocation_id : Op RunRecord := update scope invocation_id to_complete.
Definition fail_ scope invocation_id (error_kind : string) : Op RunRecord :=
  update scope invocation_id (to_fail error_kind).

Definition get_run (scope : ResourceScope) (invocation_id : InvocationId) :
    Op (option RunRecord) := fun records =>
  (Ok (records !! key_new scope invocation_id), records).

Definition run_records_for_scope (scope : ResourceScope) : Op (list RunRecord) := fun records =>
  (Ok (sort_by_id run_invocation_id
         (List.filter (fun r => same_scope_owner (run_scope r) scope)
            (map_to_list records).*2)), records).

End InMemoryRuns.

(** ** [InMemoryApprovalRequestStore] *)

Module InMemoryApprovals.
Section approvals.
Context {P : Type}.

Abbreviation Records := (gmap ScopedKey (ApprovalRecord P)).
Abbreviation Op T := (Records -> Result T RunStateError * Records).

(** The body shared by [update_status] and [discard_pending]: the stored record
    becomes [next], the caller sees [shown]. *)
Definition resolve_pending (scope : ResourceScope) (id : ApprovalRequestId)
    (status : ApprovalStatus) (shown : ApprovalRecord P -> ApprovalRecord P) :
    Op (ApprovalRecord P) := fun records =>
  let key := key_new scope id in
  match records !! key with
  | None => (Err (UnknownApprovalRequest id), records)
  | Some record =>
      if decide (approval_status record = Pending)
      then (Ok (shown record), <[key := with_approval_status status record]> records)
      else (Err (ApprovalNotPending id (approval_status record)), records)
  end.

Definition update_status scope id (status : ApprovalStatus) : Op (ApprovalRecord P) :=
  resolve_pending scope id status (with_approval_status status).

Definition save_pending (scope : ResourceScope) (request : ApprovalRequest P) :
    Op (ApprovalRecord P) := fun records =>
  let record := {| approval_scope := scope; approval_request := request;
                   approval_status := Pending |} in
  let key := key_new scope (request_id request) in
  match records !! key with
  | Some _ => (Err (ApprovalRequestAlreadyExists (request_id request)), records)
  | None => (Ok record, <[key := record]> records)
  end.

Definition visible (r : ApprovalRecord P) : bool :=
  negb (bool_decide (approval_status r = Discarded)).

Definition get_approval (scope : ResourceScope) (id : ApprovalRequestId) :
    Op (option (ApprovalRecord P)) := fun records =>
  (Ok (r ← records !! key_new scope id; if visible r then Some r else None), records).

Definition approve scope id : Op (ApprovalRecord P) := update_status scope id Approved.
Definition deny scope id : Op (ApprovalRecord P) := update_status scope id Denied.

(** A tombstone; the caller sees the record as it was. *)
Definition discard_pending scope id : Op (ApprovalRecord P) :=
  resolve_pending scope id Discarded (fun r => r).

Definition approval_records_for_scope (scope : ResourceScope) :
    Op (list (ApprovalRecord P)) := fun records =>
  (Ok (sort_by_id (fun r => request_id (approval_request r))
         (List.filter (fun r => same_scope_owner (approval_scope r) scope && visible r)
            (map_to_list records).*2)), records).
End approvals.
End InMemoryApprovals.

(** ** Storage paths *)

Definition RUN_STATE_PREFIX : string := "/run-state".
Definition APPROVALS_PREFIX : string := "/approvals".

(** The text of a UUID and what the stores rely on: distinct ids have distinct
    texts, of hexadecimal digits and hyphens. *)
Class UuidText := {
  uuid_text : N -> string;
  uuid_text_inj : forall a b, uuid_text a = uuid_text b -> a = b;
  uuid_text_nonempty : forall a, uuid_text a <> "";
  uuid_text_chars : forall a,
    any_byte (fun c => negb (is_ascii_digit c || byte_in 97 102 c || Ascii.eqb c "-"))
      (uuid_text a) = false;
}.

(** [if let Some(id) = .. { base.push_str(label); base.push_str(id) }] *)
Definition push_axis (label : string) (id : option string) (base : string) : string :=
  match id with Some v => base +:+ label +:+ v | None => base end.

Definition scope_owner_alias_string (prefix : string) (scope : ResourceScope) : string :=
  push_axis "/threads/" (thread_id scope)
    (push_axis "/missions/" (mission_id scope)
       (push_axis "/projects/" (project_id scope)
          (push_axis "/agents/" (agent_id scope) prefix))).

Definition run_records_root_string (scope : ResourceScope) : string :=
  scope_owner_alias_string RUN_STATE_PREFIX scope +:+ "/runs".

Definition approval_records_root_string (scope : ResourceScope) : string :=
  scope_owner_alias_string APPROVALS_PREFIX scope.

Definition scoped_path_of (raw : string) : Result ScopedPath RunStateError :=
  match scoped_path_new raw with Ok p => Ok p | Err e => Err (RunInvalidPath e) end.

Definition run_record_path `{UuidText} (scope : ResourceScope) (id : InvocationId) :
    Result ScopedPath RunStateError :=
  scoped_path_of (run_records_root_string scope +:+ "/" +:+ uuid_text id +:+ ".json").

Definition approval_record_path `{UuidText} (scope : ResourceScope) (id : ApprovalRequestId) :
    Result ScopedPath RunStateError :=
  scoped_path_of (approval_records_root_string scope +:+ "/" +:+ uuid_text id +:+ ".json").

Definition join_scoped (prefix : ScopedPath) (leaf : string) : Result ScopedPath RunStateError :=
  scoped_path_of (trim_end_matches "/" prefix +:+ "/" +:+ leaf).

(** ** Filesystem-backed stores *)

Definition serialize_pretty {A} `{JsonCodec A} (a : A) : Result string RunStateError :=
  match to_vec_pretty a with Ok b => Ok b | Err e => Err (RunSerialization e) end.

Definition deserialize {A} `{JsonCodec A} (b : string) : Result A RunStateError :=
  match from_slice b with Ok a => Ok a | Err e => Err (RunDeserialization e) end.

Definition map_cas_error (e : CasUpdateError RunStateError) : RunStateError :=
  match e with
  | CasApplyError inner => inner
  | Timeout | RetriesExhausted => RunBackend "filesystem CAS retries exhausted"
  | CasUnsupported => RunBackend "backend does not support versioned compare-and-swap"
  | CasBackend fs_err => RunFilesystem fs_err
  end.

Definition RUN_STATE_RECORD_KIND : string := "run_state_record".
Definition APPROVAL_RECORD_KIND : string := "approval_record".

(** [record_entry]; the kind constants are valid record kinds. *)
Definition record_entry {A} `{JsonCodec A} (record_kind : string) (a : A) :
    Result Entry RunStateError :=
  result_map (fun b => {| body := b; content_type := JSON; kind := Some record_kind;
                          indexed := ∅ |}) (serialize_pretty a).

Section filesystem_stores.
Context {F : Type} `{RootFilesystem F} `{UuidText}.
Variable resolver : ResourceScope -> Result MountView HostApiError.
Variable env : nat -> Moment -> F -> F.
Variable fires : nat -> Moment -> bool.

(** Runs one record update through the shared helper. *)
Definition update_record {A} `{JsonCodec A} `{!EqDecision A} (record_kind : string)
    (scope : ResourceScope) (path : Result ScopedPath RunStateError)
    (apply : option A -> Result (CasApply A A) RunStateError) (fs : F) :
    Result A RunStateError * F :=
  match path with
  | Err e => (Err e, fs)
  | Ok p =>
      match cas_update resolver scope p deserialize (record_entry record_kind) apply
              env fires fs with
      | (Ok a, fs') => (Ok a, fs')
      | (Err e, fs') => (Err (map_cas_error e), fs')
      end
  end.

(** [read_versioned] without the version. *)
Definition read_record {A} `{JsonCodec A} (scope_of_record : A -> ResourceScope)
    (scope : ResourceScope) (path : Result ScopedPath RunStateError) (fs : F) :
    Result (option A) RunStateError * F :=
  match path with
  | Err e => (Err e, fs)
  | Ok p =>
      match scoped_get resolver scope p fs with
      | (Err e, fs') => (Err (RunFilesystem e), fs')
      | (Ok None, fs') => (Ok None, fs')
      | (Ok (Some ve), fs') =>
          match deserialize (body (ve_entry ve)) with
          | Err e => (Err e, fs')
          | Ok record =>
              (Ok (if same_scope_owner (scope_of_record record) scope
                   then Some record else None), fs')
          end
      end
  end.

(** The loop of [records_for_scope] over the listed entries. *)
Fixpoint read_listed {A} `{JsonCodec A} (keep : A -> bool) (scope : ResourceScope)
    (root : ScopedPath) (listed : list DirEntry) (acc : list A) (fs : F) :
    Result (list A) RunStateError * F :=
  match listed with
  | [] => (Ok acc, fs)
  | entry :: rest =>
      if ends_with ".json" (de_name entry) then
        match join_scoped root (de_name entry) with
        | Err e => (Err e, fs)
        | Ok child =>
            match scoped_get resolver scope child fs with
            | (Err e, fs') => (Err (RunFilesystem e), fs')
            | (Ok None, fs') => read_listed keep scope root rest acc fs'
            | (Ok (Some ve), fs') =>
                match deserialize (body (ve_entry ve)) with
                | Err e => (Err e, fs')
                | Ok record =>
                    read_listed keep scope root rest
                      (if keep record then acc ++ [record] else acc) fs'
                end
            end
        end
      else read_listed keep scope root rest acc fs
  end.

Definition list_records {A} `{JsonCodec A} (keep : A -> bool) (id_of : A -> N)
    (scope : ResourceScope) (root : Result ScopedPath RunStateError) (fs : F) :
    Result (list A) RunStateError * F :=
  match root with
  | Err e => (Err e, fs)
  | Ok r =>
      match scoped_list_dir resolver scope r fs with
      | (Err (NotFound _ _), fs') => (Ok [], fs')
      | (Err e, fs') => (Err (RunFilesystem e), fs')
      | (Ok listed, fs') =>
          let '(res, fs'') := read_listed keep scope r listed [] fs' in
          (result_map (sort_by_id id_of) res, fs'')
      end
  end.

(** *** [FilesystemRunStateStore] *)

Context `{JsonCodec RunRecord}.

(** The closure of [apply_update]. *)
Definition apply_mutate (scope : ResourceScope) (invocation_id : InvocationId)
    (mutate : RunRecord -> RunRecord) (current : option RunRecord) :
    Result (CasApply RunRecord RunRecord) RunStateError :=
  match current with
  | None => Err (UnknownInvocation invocation_id)
  | Some record =>
      if negb (same_scope_owner (run_scope record) scope)
      then Err (UnknownInvocation invocation_id)
      else Ok (cas_apply_new (mutate record) (mutate record))
  end.

Definition apply_update (scope : ResourceScope) (invocation_id : InvocationId)
    (mutate : RunRecord -> RunRecord) : F -> Result RunRecord RunStateError * F :=
  update_record RUN_STATE_RECORD_KIND scope (run_record_path scope invocation_id)
    (apply_mutate scope invocation_id mutate).

(** The closure of [start]. *)
Definition apply_start (record : RunRecord) (current : option RunRecord) :
    Result (CasApply RunRecord RunRecord) RunStateError :=
  match current with
  | Some _ => Err (InvocationAlreadyExists (run_invocation_id record))
  | None => Ok (cas_apply_new record record)
  end.

Definition fs_start (st : RunStart) : F -> Result RunRecord RunStateError * F :=
  update_record RUN_STATE_RECORD_KIND (start_scope st)
    (run_record_path (start_scope st) (start_invocation_id st)) (apply_start (started st)).

Definition fs_block_approval {P} scope invocation_id (approval : ApprovalRequest P) :=
  apply_update scope invocation_id (to_block_approval (request_id approval)).
Definition fs_block_auth scope invocation_id (error_kind : string) :=
  apply_update scope invocation_id (to_block_auth error_kind).
Definition fs_complete scope invocation_id := apply_update scope invocation_id to_complete.
Definition fs_fail scope invocation_id (error_kind : string) :=
  apply_update scope invocation_id (to_fail error_kind).

Definition fs_get_run (scope : ResourceScope) (invocation_id : InvocationId) :
    F -> Result (option RunRecord) RunStateError * F :=
  read_record run_scope scope (run_record_path scope invocation_id).

Definition fs_run_records_for_scope (scope : ResourceScope) :
    F -> Result (list RunRecord) RunStateError * F :=
  list_records (fun r => same_scope_owner (run_scope r) scope) run_invocation_id scope
    (scoped_path_of (run_records_root_string scope)).

(** *** [FilesystemApprovalRequestStore] *)

Context {P : Type} `{!EqDecision P} `{JsonCodec (ApprovalRecord P)}.

(** The closures of [update_status] and [discard_pending]. *)
Definition apply_resolve (scope : ResourceScope) (id : ApprovalRequestId)
    (status : ApprovalStatus) (shown : ApprovalRecord P -> ApprovalRecord P)
    (current : option (ApprovalRecord P)) :
    Result (CasApply (ApprovalRecord P) (ApprovalRecord P)) RunStateError :=
  match current with
  | None => Err (UnknownApprovalRequest id)
  | Some record =>
      if negb (same_scope_owner (approval_scope record) scope)
      then Err (UnknownApprovalRequest id)
      else if decide (approval_status record = Pending)
      then Ok (cas_apply_new (with_approval_status status record) (shown record))
      else Err (ApprovalNotPending id (approval_status record))
  end.

Definition fs_update_status (scope : ResourceScope) (id : ApprovalRequestId)
    (status : ApprovalStatus) : F -> Result (ApprovalRecord P) RunStateError * F :=
  update_record APPROVAL_RECORD_KIND scope (approval_record_path scope id)
    (apply_resolve scope id status (with_approval_status status)).

(** The closure of [save_pending]. *)
Definition apply_save (record : ApprovalRecord P) (current : option (ApprovalRecord P)) :
    Result (CasApply (ApprovalRecord P) (ApprovalRecord P)) RunStateError :=
  match current with
  | Some _ => Err (ApprovalRequestAlreadyExists (request_id (approval_request record)))
  | None => Ok (cas_apply_new record record)
  end.

Definition fs_save_pending (scope : ResourceScope) (request : ApprovalRequest P) :
    F -> Result (ApprovalRecord P) RunStateError * F :=
  update_record APPROVAL_RECORD_KIND scope (approval_record_path scope (request_id request))
    (apply_save {| approval_scope := scope; approval_request := request;
                   approval_status := Pending |}).

Definition fs_approve scope id := fs_update_status scope id Approved.
Definition fs_deny scope id := fs_update_status scope id Denied.

Definition fs_discard_pending (scope : ResourceScope) (id : ApprovalRequestId) :
    F -> Result (ApprovalRecord P) RunStateError * F :=
  update_record APPROVAL_RECORD_KIND scope (approval_record_path scope id)
    (apply_resolve scope id Discarded (fun r => r)).

Definition fs_get_approval (scope : ResourceScope) (id : ApprovalRequestId) (fs : F) :
    Result (option (ApprovalRecord P)) RunStateError * F :=
  let '(r, fs') := read_record approval_scope scope (approval_record_path scope id) fs in
  (result_map (fun o => r ← o; if InMemoryApprovals.visible r then Some r else None) r, fs').

Definition fs_approval_records_for_scope (scope : ResourceScope) :
    F -> Result (list (ApprovalRecord P)) RunStateError * F :=
  list_records (fun r => same_scope_owner (approval_scope r) scope && InMemoryApprovals.visible r)
    (fun r => request_id (approval_request r)) scope
    (scoped_path_of (approval_records_root_string scope)).
End filesystem_stores.
