(* ===== verification/RunStateFacts.v ===== *)
(** * Run-state and approval stores: the in-memory contract

    The operations as data, reachable states, and what a caller of the in-memory
    stores may rely on: records stay under their owner's key, an approval is decided
    at most once, listings are exact, sorted and free of duplicates. *)

From stdpp Require Import sorting.
From S2P Require Import Prelude Strings Ids Paths Mounts Filesystem Platform HostApi Scoped Cas RunState.
From Stdlib Require Import Lia.
Import HostApi.Resource.

(** ** Keys and owners *)

Lemma same_scope_owner_key left right id :
  same_scope_owner left right = true <-> key_new left id = key_new right id.
Proof.
  unfold same_scope_owner. rewrite !andb_true_iff, !bool_decide_eq_true.
  destruct left, right; unfold key_new; simpl. split.
  - by intros [[[[[-> ->] ->] ->] ->] ->].
  - by intros [= -> -> -> -> -> ->].
Qed.

Lemma same_scope_owner_refl scope : same_scope_owner scope scope = true.
Proof. by apply (same_scope_owner_key scope scope 0). Qed.

Lemma key_new_id scope scope' id id' : key_new scope id = key_new scope' id' -> id = id'.
Proof. by intros [= _ _ _ _ _ _ ->]. Qed.

Lemma key_new_owner scope scope' id id' :
  key_new scope id = key_new scope' id' -> same_scope_owner scope scope' = true.
Proof.
  intros Hk. apply (same_scope_owner_key _ _ id). by rewrite Hk, (key_new_id _ _ _ _ Hk).
Qed.

(** ** Listings *)

Section listing.
Context {A : Type} (id_of : A -> N) (scope_of_record : A -> ResourceScope).

(** Every record lies under the key of its own scope and id. *)
Definition keyed (m : gmap ScopedKey A) : Prop :=
  map_Forall (fun k r => k = key_new (scope_of_record r) (id_of r)) m.

Lemma keyed_elim m k r :
  keyed m -> m !! k = Some r -> k = key_new (scope_of_record r) (id_of r).
Proof. intros Hm Hk. apply (Hm _ _ Hk). Qed.

Lemma keyed_insert m scope r :
  keyed m -> same_scope_owner (scope_of_record r) scope = true ->
  keyed (<[key_new scope (id_of r) := r]> m).
Proof.
  intros Hm Ho. apply map_Forall_insert_2; [| done].
  symmetry. by apply same_scope_owner_key.
Qed.

Definition listed (keep : A -> bool) (m : gmap ScopedKey A) : list A :=
  sort_by_id id_of (List.filter keep (map_to_list m).*2).

Lemma elem_of_listed keep m r :
  r ∈ listed keep m <-> keep r = true /\ exists k, m !! k = Some r.
Proof using id_of.
  clear scope_of_record.
  unfold listed, sort_by_id. rewrite merge_sort_Permutation.
  rewrite list_elem_of_In, filter_In, <- list_elem_of_In, elem_of_map_values. tauto.
Qed.

Lemma listed_sorted keep m : Sorted (id_le id_of) (listed keep m).
Proof using id_of. apply Sorted_merge_sort. intros a b. unfold id_le. lia. Qed.

Lemma keyed_values_NoDup m : keyed m -> NoDup (map_to_list m).*2.
Proof.
  intros Hm. apply NoDup_fmap_2_strong; [| apply NoDup_map_to_list].
  intros [k r] [k' r'] Hk%elem_of_map_to_list Hk'%elem_of_map_to_list Heq. simpl in Heq. subst r'.
  by rewrite (Hm _ _ Hk), (Hm _ _ Hk').
Qed.

Lemma NoDup_list_filter (keep : A -> bool) l : NoDup l -> NoDup (List.filter keep l).
Proof.
  induction 1 as [| x l Hx _ IH]; simpl; [constructor |].
  destruct (keep x); [| done]. constructor; [| done].
  rewrite list_elem_of_In, filter_In, <- list_elem_of_In. tauto.
Qed.

Lemma listed_NoDup keep m : keyed m -> NoDup (listed keep m).
Proof.
  intros Hm. unfold listed, sort_by_id. rewrite merge_sort_Permutation.
  apply NoDup_list_filter. by apply keyed_values_NoDup.
Qed.

(** The records of one owner, by lookup. *)
Lemma keyed_lookup m scope r :
  keyed m -> (exists k, m !! k = Some r) /\ same_scope_owner (scope_of_record r) scope = true <->
             m !! key_new scope (id_of r) = Some r.
Proof.
  intros Hm. split.
  - intros [[k Hk] Ho]. rewrite <- (proj1 (same_scope_owner_key _ _ (id_of r)) Ho).
    by rewrite <- (Hm _ _ Hk).
  - intros Hk. split; [eauto |]. apply (same_scope_owner_key _ _ (id_of r)).
    symmetry. apply (Hm _ _ Hk).
Qed.
End listing.

(** ** Run state *)

Inductive RunOp :=
  | OpStart (st : RunStart)
  | OpBlockApproval (scope : ResourceScope) (id : InvocationId) (approval_id : ApprovalRequestId)
  | OpBlockAuth (scope : ResourceScope) (id : InvocationId) (error_kind : string)
  | OpComplete (scope : ResourceScope) (id : InvocationId)
  | OpFail (scope : ResourceScope) (id : InvocationId) (error_kind : string).

Definition run_op_scope (op : RunOp) : ResourceScope :=
  match op with
  | OpStart st => start_scope st
  | OpBlockApproval s _ _ | OpBlockAuth s _ _ | OpComplete s _ | OpFail s _ _ => s
  end.

Definition run_op_id (op : RunOp) : InvocationId :=
  match op with
  | OpStart st => start_invocation_id st
  | OpBlockApproval _ i _ | OpBlockAuth _ i _ | OpComplete _ i | OpFail _ i _ => i
  end.

(** The mutating calls of [RunStateStore]. *)
Definition mem_run (op : RunOp) : InMemoryRuns.Op RunRecord :=
  match op with
  | OpStart st => InMemoryRuns.start st
  | OpBlockApproval s i a =>
      InMemoryRuns.block_approval s i {| request_id := a; request_payload := tt |}
  | OpBlockAuth s i e => InMemoryRuns.block_auth s i e
  | OpComplete s i => InMemoryRuns.complete s i
  | OpFail s i e => InMemoryRuns.fail_ s i e
  end.

Definition run_reachable : InMemoryRuns.Records -> Prop :=
  rtc (fun m m' => exists op, m' = (mem_run op m).2) ∅.

Definition runs_keyed : InMemoryRuns.Records -> Prop := keyed run_invocation_id run_scope.

(** The new record of a call, if it makes one. *)
Lemma mem_run_effect op m :
  (exists e, mem_run op m = (Err e, m))
  \/ exists r, mem_run op m = (Ok r, <[key_new (run_op_scope op) (run_op_id op) := r]> m)
       /\ match m !! key_new (run_op_scope op) (run_op_id op) with
          | None => exists st, op = OpStart st /\ r = started st
          | Some r0 => run_scope r = run_scope r0 /\ run_invocation_id r = run_invocation_id r0
          end.
Proof.
  assert (forall s i f, run_op_scope op = s -> run_op_id op = i ->
    mem_run op m = InMemoryRuns.update s i f m ->
    (forall r, run_scope (f r) = run_scope r /\ run_invocation_id (f r) = run_invocation_id r) ->
    (exists e, mem_run op m = (Err e, m))
    \/ exists r, mem_run op m = (Ok r, <[key_new s i := r]> m)
       /\ match m !! key_new s i with
          | None => exists st, op = OpStart st /\ r = started st
          | Some r0 => run_scope r = run_scope r0 /\ run_invocation_id r = run_invocation_id r0
          end) as Hupd.
  { intros s i f _ _ -> Hf. unfold InMemoryRuns.update.
    destruct (m !! key_new s i) as [r0 |]; [right; exists (f r0); auto | left; eauto]. }
  destruct op as [st | s i a | s i e | s i | s i e]; [| by eapply Hupd..].
  simpl. unfold InMemoryRuns.start. simpl.
  destruct (m !! key_new _ _) as [r |] eqn:Hm; [left; eauto |].
  right. exists (started st). split; [done |]. eauto.
Qed.

Lemma mem_run_keyed op m : runs_keyed m -> runs_keyed (mem_run op m).2.
Proof.
  intros Hm. destruct (mem_run_effect op m) as [[e ->] | (r & -> & Hr)]; [done |].
  simpl. unfold runs_keyed, keyed. apply map_Forall_insert_2; [| done].
  destruct (m !! _) as [r0 |] eqn:H0.
  - destruct Hr as [Hs Hi]. rewrite Hs, Hi. apply (Hm _ _ H0).
  - by destruct Hr as (st & -> & ->).
Qed.

Lemma run_reachable_keyed m : run_reachable m -> runs_keyed m.
Proof.
  assert (forall m m', rtc (fun m m' => exists op, m' = (mem_run op m).2) m m' ->
    runs_keyed m -> runs_keyed m') as Hind.
  { induction 1 as [| x y z [op ->] _ IH]; [done |]. intros Hx. by apply IH, mem_run_keyed. }
  intros Hr. apply (Hind ∅ m Hr). apply map_Forall_empty.
Qed.

(** One owner's calls are invisible to every other owner: no call made under
    one scope changes what [get] answers under a scope that differs in tenant, user,
    agent, project, mission or thread, and what a call returns or [get] finds always
    belongs to the scope and invocation asked for. *)
Theorem runs_scope_isolated m op scope id :
  run_reachable m ->
  (same_scope_owner (run_op_scope op) scope = false ->
   (InMemoryRuns.get_run scope id (mem_run op m).2).1 = (InMemoryRuns.get_run scope id m).1)
  /\ (forall r, (InMemoryRuns.get_run scope id m).1 = Ok (Some r) ->
        same_scope_owner (run_scope r) scope = true /\ run_invocation_id r = id)
  /\ (forall r, (mem_run op m).1 = Ok r ->
        same_scope_owner (run_scope r) (run_op_scope op) = true
        /\ run_invocation_id r = run_op_id op).
Proof.
  intros Hm%run_reachable_keyed. split; [| split].
  - intros Ho. destruct (mem_run_effect op m) as [[e ->] | (r & -> & _)]; [done |].
    unfold InMemoryRuns.get_run. simpl. rewrite lookup_insert_ne; [done |].
    intros Hk%key_new_owner. congruence.
  - unfold InMemoryRuns.get_run. simpl. intros r [= Hr]. pose proof (keyed_elim _ _ _ _ _ Hm Hr) as Hk.
    split; [symmetry in Hk; by apply key_new_owner in Hk | by apply key_new_id in Hk].
  - intros r Hr. pose proof (mem_run_keyed op m Hm) as Hm'.
    destruct (mem_run_effect op m) as [[e He] | (r' & He & _)]; rewrite He in *; [done |].
    simpl in Hr. injection Hr as ->.
    pose proof (keyed_elim _ _ _ _ _ Hm' (lookup_insert_eq _ _ _)) as Hk.
    split; [symmetry in Hk; by apply key_new_owner in Hk | by apply key_new_id in Hk].
Qed.

(** A scope's listing is exact: it holds each record of that owner once, in the
    order of the invocation ids, and nothing else; it is what [get] would find id by
    id. *)
Theorem runs_listing_exact m scope l :
  run_reachable m ->
  (InMemoryRuns.run_records_for_scope scope m).1 = Ok l ->
  NoDup l /\ Sorted (id_le run_invocation_id) l
  /\ forall r, r ∈ l <->
       (InMemoryRuns.get_run scope (run_invocation_id r) m).1 = Ok (Some r).
Proof.
  intros Hm%run_reachable_keyed. unfold InMemoryRuns.run_records_for_scope. simpl.
  intros [= <-]. fold (listed run_invocation_id (fun r => same_scope_owner (run_scope r) scope) m).
  split; [by apply (listed_NoDup run_invocation_id run_scope) |]. split; [apply listed_sorted |].
  intros r. rewrite elem_of_listed. pose proof (keyed_lookup run_invocation_id run_scope m scope r Hm) as Hk.
  unfold InMemoryRuns.get_run. simpl. split.
  - intros [Ho Hex]. f_equal. apply Hk. by split.
  - intros [= Hr]. apply Hk in Hr as [Hex Ho]. by split.
Qed.

(** ** Approvals *)

Section approvals.
Context {P : Type}.

Inductive ApprovalOp :=
  | OpSave (scope : ResourceScope) (request : ApprovalRequest P)
  | OpApprove (scope : ResourceScope) (id : ApprovalRequestId)
  | OpDeny (scope : ResourceScope) (id : ApprovalRequestId)
  | OpDiscard (scope : ResourceScope) (id : ApprovalRequestId).

Definition mem_approval (op : ApprovalOp) :
    gmap ScopedKey (ApprovalRecord P) ->
    Result (ApprovalRecord P) RunStateError * gmap ScopedKey (ApprovalRecord P) :=
  match op with
  | OpSave s r => InMemoryApprovals.save_pending s r
  | OpApprove s i => InMemoryApprovals.approve s i
  | OpDeny s i => InMemoryApprovals.deny s i
  | OpDiscard s i => InMemoryApprovals.discard_pending s i
  end.

Definition approval_steps : gmap ScopedKey (ApprovalRecord P) ->
    gmap ScopedKey (ApprovalRecord P) -> Prop :=
  rtc (fun m m' => exists op, m' = (mem_approval op m).2).

Lemma resolve_pending_decided scope id st shown m k r :
  m !! k = Some r -> approval_status r <> Pending ->
  (InMemoryApprovals.resolve_pending (P := P) scope id st shown m).2 !! k = Some r.
Proof.
  intros Hk Hr. unfold InMemoryApprovals.resolve_pending.
  destruct (m !! key_new scope id) as [r' |] eqn:Hk'; [| done].
  case_decide; [| done]. simpl.
  rewrite lookup_insert_ne; [done | congruence].
Qed.

Lemma decided_stays op m k r :
  m !! k = Some r -> approval_status r <> Pending -> (mem_approval op m).2 !! k = Some r.
Proof.
  intros Hk Hr. destruct op as [s q | s i | s i | s i]; simpl;
    [| by apply resolve_pending_decided..].
  unfold InMemoryApprovals.save_pending.
  destruct (m !! key_new s _) as [r' |] eqn:Hk'; [done |]. simpl.
  rewrite lookup_insert_ne; [done | congruence].
Qed.

(** An approval is decided at most once and its id is never reused: after a
    request has been approved, denied or discarded, whatever calls follow, its record
    stays as decided, every later decision is refused with [ApprovalNotPending] and
    the deciding status, and saving a request under the same scope and id is refused,
    a discarded one included, although [get] no longer shows it. *)
Theorem approval_decided_once m m' scope id r :
  approval_steps m m' ->
  m !! key_new scope id = Some r -> approval_status r <> Pending ->
  m' !! key_new scope id = Some r
  /\ InMemoryApprovals.approve scope id m' = (Err (ApprovalNotPending id (approval_status r)), m')
  /\ InMemoryApprovals.deny scope id m' = (Err (ApprovalNotPending id (approval_status r)), m')
  /\ InMemoryApprovals.discard_pending scope id m'
     = (Err (ApprovalNotPending id (approval_status r)), m')
  /\ (forall p, InMemoryApprovals.save_pending scope {| request_id := id; request_payload := p |} m'
        = (Err (ApprovalRequestAlreadyExists id), m'))
  /\ (approval_status r = Discarded ->
      (InMemoryApprovals.get_approval scope id m').1 = Ok None).
Proof.
  intros Hs Hk Hr. assert (m' !! key_new scope id = Some r) as Hk'.
  { induction Hs as [| x y z [op ->] _ IH]; [done |]. by apply IH, decided_stays. }
  assert (forall st shown, InMemoryApprovals.resolve_pending scope id st shown m'
    = (Err (ApprovalNotPending id (approval_status r)), m')) as Hres.
  { intros st shown. unfold InMemoryApprovals.resolve_pending. rewrite Hk'.
    by rewrite decide_False. }
  split; [done |]. split; [apply Hres |]. split; [apply Hres |]. split; [apply Hres |]. split.
  - intros p. unfold InMemoryApprovals.save_pending. simpl. by rewrite Hk'.
  - intros Hd. unfold InMemoryApprovals.get_approval, InMemoryApprovals.visible. simpl.
    rewrite Hk'. simpl. by rewrite bool_decide_true.
Qed.
End approvals.

Arguments ApprovalOp : clear implicits.

(** ** Witnesses *)

Definition run_demo : RunStart := {|
  start_invocation_id := 4; start_capability_id := "github.search";
  start_scope := scope_of "acme"; start_actor := None |}.

Definition runs_demo : InMemoryRuns.Records := (mem_run (OpStart run_demo) ∅).2.

Lemma runs_demo_reachable : run_reachable runs_demo.
Proof. apply rtc_once. by exists (OpStart run_demo). Qed.

Lemma runs_scope_isolated_witness :
  same_scope_owner (run_op_scope (OpComplete (scope_of "zeta") 4)) (scope_of "acme") = false
  /\ (InMemoryRuns.get_run (scope_of "acme") 4
        (mem_run (OpComplete (scope_of "zeta") 4) runs_demo).2).1
     = (InMemoryRuns.get_run (scope_of "acme") 4 runs_demo).1.
Proof.
  split; [reflexivity |].
  exact (proj1 (runs_scope_isolated runs_demo (OpComplete (scope_of "zeta") 4)
    (scope_of "acme") 4 runs_demo_reachable) eq_refl).
Defined.

Lemma runs_listing_exact_witness :
  (InMemoryRuns.run_records_for_scope (scope_of "acme") runs_demo).1 = Ok [started run_demo]
  /\ Sorted (id_le run_invocation_id) [started run_demo].
Proof.
  assert ((InMemoryRuns.run_records_for_scope (scope_of "acme") runs_demo).1
          = Ok [started run_demo]) as Hl by vm_refl.
  split; [exact Hl |].
  exact (proj1 (proj2 (runs_listing_exact runs_demo (scope_of "acme") [started run_demo]
    runs_demo_reachable Hl))).
Defined.

Definition approval_demo (st : ApprovalStatus) : ApprovalRecord unit := {|
  approval_scope := scope_of "acme";
  approval_request := {| request_id := 9; request_payload := tt |};
  approval_status := st |}.

Definition approvals_demo : gmap ScopedKey (ApprovalRecord unit) :=
  {[ key_new (scope_of "acme") 9 := approval_demo Discarded ]}.

Lemma approval_decided_once_witness :
  approvals_demo !! key_new (scope_of "acme") 9 = Some (approval_demo Discarded)
  /\ InMemoryApprovals.approve (scope_of "acme") 9
       (mem_approval (OpDeny (scope_of "acme") 9) approvals_demo).2
     = (Err (ApprovalNotPending 9 Discarded),
        (mem_approval (OpDeny (scope_of "acme") 9) approvals_demo).2).
Proof.
  assert (approvals_demo !! key_new (scope_of "acme") 9 = Some (approval_demo Discarded)) as Hk
    by vm_refl.
  split; [exact Hk |].
  refine (proj1 (proj2 (approval_decided_once approvals_demo _ (scope_of "acme") 9
    (approval_demo Discarded) _ Hk _))); [| discriminate].
  eapply rtc_once. by exists (OpDeny (scope_of "acme") 9).
Defined.
