(* ===== verification/RunStateFs.v ===== *)
(** * Filesystem run-state stores refine the in-memory ones

    The paths [run_record_path] and [approval_record_path] build are valid scoped paths,
    resolve under the store's mount, and are distinct for distinct owners and ids.  The
    filesystem-backed run and approval stores, over any versioned backend, any mount
    layout that keeps owners apart ([StoreMounts], which the production mount views
    satisfy) and any behaviour of other tasks, are linearizable to the in-memory stores:
    a successful call is, at one instant between the others' actions, the in-memory call
    on the records the backend holds at that instant. *)

From stdpp Require Import sorting.
From S2P Require Import Prelude Strings Ids Paths Mounts Filesystem Platform HostApi Scoped Cas Composition RunState RunStateFacts.
From Stdlib Require Import Ascii Lia.
Import HostApi.Resource.

(** ** Normal paths are accepted as scoped paths *)

Lemma contains_str_iff sub s :
  contains_str sub s = true <-> exists a b, s = a +:+ sub +:+ b.
Proof.
  induction s as [| c s IH]; simpl; rewrite orb_true_iff, starts_with_iff.
  - split.
    + intros [[b Hb] | ?]; [by exists "", b | done].
    + intros (a & b & Heq). symmetry in Heq. apply app_eq_nil_s in Heq as [_ Heq]. eauto.
  - rewrite IH. split.
    + intros [[b Hb] | (a & b & ->)]; [by exists "", b | by exists (String c a), b].
    + intros ([| c' a] & b & Heq); [left; by exists b |].
      right. injection Heq as _ ->. by exists a, b.
Qed.

Lemma split_on_app_gen c a b : split_on c (a +:+ String c b) = split_on c a ++ split_on c b.
Proof.
  induction a as [| x a IH].
  - change ("" +:+ String c b) with (String c b). simpl. by rewrite Ascii.eqb_refl.
  - change (String x a +:+ String c b) with (String x (a +:+ String c b)).
    simpl. rewrite IH. destruct (Ascii.eqb x c); [done |].
    destruct (split_on_cons c a) as (p & ps & ->). done.
Qed.

Lemma normal_no_double_slash parts :
  parts <> [] -> Forall segment_ok parts -> contains_str "//" (path_of parts) = false.
Proof.
  intros Hne Hok. apply not_true_iff_false. intros (a & b & Heq)%contains_str_iff.
  pose proof (split_path_of parts Hne Hok) as Hs. rewrite Heq in Hs.
  change ("//" +:+ b) with (String "/" (String "/" b)) in Hs.
  rewrite split_on_app_gen in Hs. simpl in Hs.
  destruct (split_on_cons "/" a) as (p & ps & Ha). rewrite Ha in Hs. injection Hs as _ Hs.
  rewrite <- Hs in Hok. apply Forall_app in Hok as [_ [[Hemp _] _]%Forall_cons]. done.
Qed.

Lemma normal_not_url parts :
  parts <> [] -> Forall segment_ok parts -> looks_like_url (path_of parts) = false.
Proof.
  intros Hne Hok. apply not_true_iff_false. unfold looks_like_url.
  intros (a & b & Heq)%contains_str_iff.
  pose proof (normal_no_double_slash parts Hne Hok) as Hd. apply not_true_iff_false in Hd.
  apply Hd, contains_str_iff. exists (a +:+ ":"), b. rewrite Heq.
  change ("://" +:+ b) with (":" +:+ ("//" +:+ b)). by rewrite app_assoc_s.
Qed.

(** ** Segments of a record path *)

Definition axis (label : string) (id : option string) : list string :=
  match id with Some v => [label; v] | None => [] end.

Definition axes (scope : ResourceScope) : list string :=
  axis "agents" (agent_id scope) ++ axis "projects" (project_id scope)
  ++ axis "missions" (mission_id scope) ++ axis "threads" (thread_id scope).

(** The ids of the sub-scope axes have passed [validate_scope_id]. *)
Definition scope_ok (scope : ResourceScope) : Prop :=
  Forall (fun id => validate_scope_id "id" id = Ok tt)
    (option_list (agent_id scope) ++ option_list (project_id scope)
     ++ option_list (mission_id scope) ++ option_list (thread_id scope)).

Lemma valid_segment id : validate_scope_id "id" id = Ok tt -> segment_ok id.
Proof. by intros (Hs & _ & _)%scope_id_spec. Qed.

Lemma label_ok l :
  l ∈ ["agents"; "projects"; "missions"; "threads"; "runs"; "run-state"; "approvals"] -> segment_ok l.
Proof.
  rewrite !elem_of_cons, elem_of_nil.
  intros [-> | [-> | [-> | [-> | [-> | [-> | [-> | []]]]]]]]; by repeat split.
Qed.

Lemma axis_ok label id :
  segment_ok label -> Forall (fun id => validate_scope_id "id" id = Ok tt) (option_list id) ->
  Forall segment_ok (axis label id).
Proof.
  intros Hl. destruct id as [v |]; simpl; [| by constructor].
  intros [Hv _]%Forall_cons. repeat constructor; try apply Hl; apply valid_segment, Hv.
Qed.

Lemma axes_ok scope : scope_ok scope -> Forall segment_ok (axes scope).
Proof.
  unfold scope_ok, axes. rewrite !Forall_app. intros (Ha & Hp & Hm & Ht).
  repeat split; apply axis_ok; try done; apply label_ok; set_solver.
Qed.

Lemma push_axis_path label id parts :
  parts <> [] -> push_axis ("/" +:+ label +:+ "/") id (path_of parts)
                 = path_of (parts ++ axis label id).
Proof.
  intros Hne. destruct id as [v |]; simpl; [| by rewrite app_nil_r].
  rewrite path_of_app by done. f_equal. unfold path_of. simpl.
  by rewrite !app_assoc_s.
Qed.

Section paths.
Context `{UuidText}.

Definition leaf (id : N) : string := uuid_text id +:+ ".json".

Lemma leaf_contains_dot id : contains_char "." (leaf id) = true.
Proof. unfold leaf. rewrite contains_char_app. by rewrite orb_true_r. Qed.

Lemma leaf_inj a b : leaf a = leaf b -> a = b.
Proof.
  unfold leaf. intros Heq. apply uuid_text_inj.
  assert (forall n, contains_char "." (uuid_text n) = false) as Hd.
  { intros n. pose proof (uuid_text_chars n) as Hc. revert Hc. generalize (uuid_text n).
    induction s as [| c s IH]; [done |]. simpl. rewrite contains_char_cons.
    intros [Hc Hs]%orb_false_iff. rewrite (IH Hs), orb_false_r.
    apply Ascii.eqb_neq. intros <-. by vm_compute in Hc. }
  by apply (split_first_sep "." _ "json" _ "json" (Hd a) (Hd b)) in Heq as [? _].
Qed.

Lemma any_byte_impl (f g : ascii -> bool) s :
  (forall c, g c = true -> f c = true) -> any_byte f s = false -> any_byte g s = false.
Proof.
  intros Hfg. induction s as [| c s IH]; [done |]. simpl.
  intros [Hc Hs]%orb_false_iff. rewrite (IH Hs), orb_false_r.
  destruct (g c) eqn:Hg; [| done]. by rewrite (Hfg c Hg) in Hc.
Qed.

(** Characters of a UUID text are not special. *)
Lemma uuid_byte_plain c :
  is_ascii_digit c || byte_in 97 102 c || Ascii.eqb c "-" = true ->
  byte_in 45 122 c = true /\ Ascii.eqb c "/" = false /\ Ascii.eqb c "\" = false.
Proof.
  destruct c as [[] [] [] [] [] [] [] []]; by vm_compute.
Qed.

Lemma has_control_plain s :
  any_byte (fun c => negb (byte_in 45 122 c)) s = false -> has_control s = false.
Proof.
  induction s as [| c s IH]; [done |]. simpl.
  intros [Hc%negb_false_iff Hs]%orb_false_iff. rewrite (IH Hs).
  apply byte_in_true in Hc.
  rewrite (proj2 (byte_in_false 0 31 c)), (proj2 (byte_in_false 127 127 c)),
    (proj2 (byte_in_false 194 194 c)) by lia. done.
Qed.

Lemma leaf_ok id : segment_ok (leaf id).
Proof.
  pose proof (uuid_text_chars id) as Hc. unfold leaf.
  pose proof (uuid_text_nonempty id) as Hn.
  assert (forall g, (forall c, g c = true -> byte_in 45 122 c = false
            \/ Ascii.eqb c "/" = true \/ Ascii.eqb c "\" = true) ->
          any_byte g (uuid_text id) = false) as Hany.
  { intros g Hg. eapply any_byte_impl; [| exact Hc]. intros c Hgc.
    apply negb_true_iff, not_true_iff_false.
    intros (H1 & H2 & H3)%uuid_byte_plain. destruct (Hg c Hgc) as [? | [? | ?]]; congruence. }
  split.
  - intros [? _]%app_eq_nil_s. done.
  - intros Heq. destruct (uuid_text id) as [| c s]; [done |]. injection Heq as _ Heq.
    by apply app_eq_nil_s in Heq as [_ ?].
  - intros Heq. destruct (uuid_text id) as [| c [| c' s]]; [done | |]; injection Heq.
    + done.
    + intros Heq' _ _. by apply app_eq_nil_s in Heq' as [_ ?].
  - rewrite contains_char_app. unfold contains_char at 1.
    rewrite Hany; [done |]. intros c Hcc. rewrite Ascii.eqb_sym in Hcc. auto.
  - rewrite contains_char_app. unfold contains_char at 1.
    rewrite Hany; [done |]. intros c Hcc. rewrite Ascii.eqb_sym in Hcc. auto.
  - apply has_control_plain. rewrite any_byte_app, Hany; [done |].
    intros c Hcc%negb_true_iff. by left.
Qed.

(** ** Record paths *)

(** The segments of a record path below its prefix. *)
Definition record_tail (middle : list string) (scope : ResourceScope) (id : N) : list string :=
  axes scope ++ middle ++ [leaf id].

Lemma owner_string_path label scope :
  scope_owner_alias_string ("/" +:+ label) scope = path_of (label :: axes scope).
Proof.
  unfold scope_owner_alias_string. change ("/" +:+ label) with (path_of [label]).
  change "/agents/" with ("/" +:+ "agents" +:+ "/").
  change "/projects/" with ("/" +:+ "projects" +:+ "/").
  change "/missions/" with ("/" +:+ "missions" +:+ "/").
  change "/threads/" with ("/" +:+ "threads" +:+ "/").
  rewrite !push_axis_path by (try done; by destruct (axis _ _)).
  unfold axes. by rewrite <- !app_assoc.
Qed.

(** A normal path that does not look like a host path is a scoped path. *)
Lemma scoped_path_of_normal parts :
  parts <> [] -> Forall segment_ok parts ->
  looks_like_windows_path (path_of parts) = false ->
  existsb (fun prefix => starts_with prefix (path_of parts)) RAW_HOST_PREFIXES = false ->
  scoped_path_of (path_of parts) = Ok (path_of parts).
Proof.
  intros Hne Hok Hw Hr. unfold scoped_path_of, scoped_path_new, scoped_path_with_aliases.
  rewrite normal_not_url, Hw, Hr by done. simpl. rewrite normalize_id; [done |].
  by exists parts.
Qed.

Lemma record_parts_ok label middle scope id :
  scope_ok scope -> segment_ok label -> Forall segment_ok middle ->
  Forall segment_ok (label :: record_tail middle scope id).
Proof.
  intros Hs Hl Hm. constructor; [done |]. unfold record_tail.
  rewrite !Forall_app, Forall_singleton. auto using axes_ok, leaf_ok.
Qed.

Lemma record_tail_nonempty middle scope id : record_tail middle scope id <> [].
Proof. unfold record_tail. by destruct (axes scope), middle. Qed.

(** Store paths do not look like host paths. *)
Lemma store_path_not_host label tail :
  label = "run-state" \/ label = "approvals" -> tail <> [] ->
  looks_like_windows_path (path_of (label :: tail)) = false
  /\ existsb (fun prefix => starts_with prefix (path_of (label :: tail))) RAW_HOST_PREFIXES = false.
Proof. intros [-> | ->]; by destruct tail. Qed.

Lemma run_record_path_ok scope id :
  scope_ok scope ->
  run_record_path scope id = Ok (path_of ("run-state" :: record_tail ["runs"] scope id)).
Proof.
  intros Hs. unfold run_record_path, run_records_root_string, RUN_STATE_PREFIX.
  change "/run-state" with ("/" +:+ "run-state"). rewrite owner_string_path.
  assert (path_of ("run-state" :: axes scope) +:+ "/runs" +:+ "/" +:+ uuid_text id +:+ ".json"
          = path_of ("run-state" :: record_tail ["runs"] scope id)) as Heq.
  { unfold record_tail.
    change ("run-state" :: axes scope ++ ["runs"] ++ [leaf id])
      with (("run-state" :: axes scope) ++ ["runs"; leaf id]).
    by rewrite path_of_app. }
  rewrite app_assoc_s, Heq.
  destruct (store_path_not_host "run-state" (record_tail ["runs"] scope id)) as [Hw Hr];
    [by left | apply record_tail_nonempty |].
  apply scoped_path_of_normal; [done | | done | done].
  apply record_parts_ok; [done | apply label_ok; set_solver |].
  constructor; [apply label_ok; set_solver | constructor].
Qed.

Lemma approval_record_path_ok scope id :
  scope_ok scope ->
  approval_record_path scope id = Ok (path_of ("approvals" :: record_tail [] scope id)).
Proof.
  intros Hs. unfold approval_record_path, approval_records_root_string, APPROVALS_PREFIX.
  change "/approvals" with ("/" +:+ "approvals"). rewrite owner_string_path.
  assert (path_of ("approvals" :: axes scope) +:+ "/" +:+ uuid_text id +:+ ".json"
          = path_of ("approvals" :: record_tail [] scope id)) as Heq.
  { unfold record_tail.
    change ("approvals" :: axes scope ++ [] ++ [leaf id])
      with (("approvals" :: axes scope) ++ [leaf id]).
    by rewrite path_of_app. }
  rewrite Heq.
  destruct (store_path_not_host "approvals" (record_tail [] scope id)) as [Hw Hr];
    [by right | apply record_tail_nonempty |].
  apply scoped_path_of_normal; [done | | done | done].
  apply record_parts_ok; [done | apply label_ok; set_solver | constructor].
Qed.

(** A label is never a leaf. *)
Lemma leaf_not_label id l : contains_char "." l = false -> leaf id <> l.
Proof. intros Hl <-. by rewrite leaf_contains_dot in Hl. Qed.

Lemma axis_cancel l a b r r' :
  hd_error r <> Some l -> hd_error r' <> Some l ->
  axis l a ++ r = axis l b ++ r' -> a = b /\ r = r'.
Proof.
  intros Hr Hr'. destruct a as [a |], b as [b |]; simpl.
  - by intros [= -> ->].
  - intros Heq. destruct Hr'. by rewrite <- Heq.
  - intros Heq. destruct Hr. by rewrite Heq.
  - done.
Qed.

(** A chain of axes starts with one of its labels or with what follows. *)
Lemma axis_head l l' a r : l <> l' -> hd_error r <> Some l -> hd_error (axis l' a ++ r) <> Some l.
Proof. destruct a; simpl; congruence. Qed.

Lemma end_head middle id l :
  middle = [] \/ middle = ["runs"] -> contains_char "." l = false -> l <> "runs" ->
  hd_error (middle ++ [leaf id]) <> Some l.
Proof.
  intros [-> | ->] Hl Hr; simpl; [| congruence].
  intros [= Heq]. by apply (leaf_not_label id l).
Qed.

(** The tail determines the sub-scope axes and the id. *)
Lemma record_tail_inj middle scope scope' id id' :
  middle = [] \/ middle = ["runs"] ->
  record_tail middle scope id = record_tail middle scope' id' ->
  agent_id scope = agent_id scope' /\ project_id scope = project_id scope'
  /\ mission_id scope = mission_id scope' /\ thread_id scope = thread_id scope' /\ id = id'.
Proof.
  intros Hm. unfold record_tail, axes. rewrite <- !app_assoc. intros Heq.
  apply axis_cancel in Heq as [-> Heq]; [| by repeat apply axis_head; try apply end_head..].
  apply axis_cancel in Heq as [-> Heq]; [| by repeat apply axis_head; try apply end_head..].
  apply axis_cancel in Heq as [-> Heq]; [| by repeat apply axis_head; try apply end_head..].
  apply axis_cancel in Heq as [-> Heq]; [| by repeat apply axis_head; try apply end_head..].
  apply app_inv_head in Heq. injection Heq as Heq%leaf_inj. done.
Qed.
End paths.


(** ** What the stores ask of the mount views *)

(** Below [label], a storable scope reaches a subtree of its tenant and user, and
    different owners reach different paths. *)
Class StoreMounts (resolver : ResourceScope -> Result MountView HostApiError) (label : string) := {
  storable : ResourceScope -> Prop;
  root_of : ResourceScope -> list string;
  storable_axes scope : storable scope -> scope_ok scope;
  root_owner scope scope' :
    tenant_id scope = tenant_id scope' -> user_id scope = user_id scope' ->
    root_of scope = root_of scope';
  root_segments scope : storable scope -> root_of scope <> [] /\ Forall segment_ok (root_of scope);
  mounts_resolve scope tail op :
    storable scope -> op = ReadFile \/ op = WriteFile -> Forall segment_ok tail ->
    resolve_with_permission resolver scope (path_of (label :: tail)) op
    = Ok (path_of (root_of scope ++ tail));
  mounts_apart scope scope' tail tail' :
    storable scope -> storable scope' -> root_of scope ++ tail = root_of scope' ++ tail' ->
    tenant_id scope = tenant_id scope' /\ user_id scope = user_id scope' /\ tail = tail';
}.

Arguments storable : clear implicits.
Arguments root_of : clear implicits.

(** ** One record per key *)

Section records.
Context {F : Type} `{VersionedStore F} `{UuidText}.
Variable resolver : ResourceScope -> Result MountView HostApiError.
Context (label : string) `{!StoreMounts resolver label}.
Context {A : Type} `{JsonCodec A} `{!EqDecision A}.
Variable scope_of_record : A -> ResourceScope.
Variable middle : list string.
Hypothesis middle_cases : middle = [] \/ middle = ["runs"].
Hypothesis label_segment : segment_ok label.

Local Abbreviation storable_ := (storable resolver label _).
Local Abbreviation root := (root_of resolver label _).
Local Abbreviation Records := (gmap ScopedKey A).

(** Where the record of a scope and id is kept. *)
Definition place (scope : ResourceScope) (id : N) : VirtualPath :=
  path_of (root scope ++ record_tail middle scope id).

Definition record_path (scope : ResourceScope) (id : N) : ScopedPath :=
  path_of (label :: record_tail middle scope id).

Lemma middle_segments : Forall segment_ok middle.
Proof using middle_cases.
  pose proof middle_cases as [Hm | Hm]; rewrite Hm; [constructor |].
  apply Forall_singleton. by repeat split.
Qed.

Lemma tail_segments scope id : storable_ scope -> Forall segment_ok (record_tail middle scope id).
Proof using middle_cases label_segment.
  intros Hs%storable_axes. eapply Forall_inv_tail, (record_parts_ok label middle scope id);
    auto using middle_segments.
Qed.

Lemma resolve_place scope id op :
  storable_ scope -> op = ReadFile \/ op = WriteFile ->
  resolve_with_permission resolver scope (record_path scope id) op = Ok (place scope id).
Proof using middle_cases label_segment.
  intros Hs Hop. apply mounts_resolve; [done | done | by apply tail_segments].
Qed.

(** Distinct owners and ids have distinct places. *)
Lemma place_inj scope scope' id id' :
  storable_ scope -> storable_ scope' -> place scope id = place scope' id' ->
  key_new scope id = key_new scope' id'.
Proof using middle_cases label_segment.
  intros Hs Hs' Hp. pose proof (root_segments scope Hs) as [Hn Hr].
  pose proof (root_segments scope' Hs') as [Hn' Hr'].
  apply path_of_inj in Hp;
    [| apply Forall_app; auto using tail_segments | apply Forall_app; auto using tail_segments
     | by destruct (root scope) | by destruct (root scope')].
  apply mounts_apart in Hp as (Ht & Hu & Hp); [| done..].
  apply record_tail_inj in Hp as (Ha & Hpr & Hm & Hth & ->); [| done].
  unfold key_new. by rewrite Ht, Hu, Ha, Hpr, Hm, Hth.
Qed.

(** The backend holds the records of [m]: at every place, the record of that key,
    of that owner, or nothing. *)
Definition represents (fs : F) (m : Records) : Prop :=
  forall scope id, storable_ scope ->
    match entry_at fs (place scope id) with
    | None => m !! key_new scope id = None
    | Some (e, _) =>
        exists r, from_slice (body e) = Ok r /\ m !! key_new scope id = Some r
          /\ same_scope_owner (scope_of_record r) scope = true
    end.

Lemma represents_same fs fs' m : same_entries fs fs' -> represents fs m -> represents fs' m.
Proof using Type. intros Hs Hr scope id Hsc. rewrite Hs. by apply Hr. Qed.

Lemma represents_owner fs m scope id r :
  storable_ scope -> represents fs m -> m !! key_new scope id = Some r ->
  same_scope_owner (scope_of_record r) scope = true.
Proof using Type.
  intros Hsc Hr Hk. specialize (Hr scope id Hsc).
  destruct (entry_at fs (place scope id)) as [[e v] |]; [| congruence].
  destruct Hr as (r' & _ & Hk' & Ho). congruence.
Qed.

Lemma represents_write fs fs' m scope id cas e r :
  storable_ scope -> represents fs m ->
  wrote_once resolver scope (record_path scope id) cas e fs fs' ->
  from_slice (body e) = Ok r -> same_scope_owner (scope_of_record r) scope = true ->
  represents fs' (<[key_new scope id := r]> m).
Proof using middle_cases label_segment.
  intros Hsc Hr (vp & v & Hvp & _ & Hnew & Hold) Hd Ho scope' id' Hsc'.
  rewrite resolve_place in Hvp by auto. injection Hvp as <-.
  destruct (decide (place scope' id' = place scope id)) as [Heq | Hne].
  - rewrite Heq, Hnew. apply place_inj in Heq as Hk; [| done..].
    exists r. rewrite Hk, lookup_insert_eq. split; [done |]. split; [done |].
    symmetry in Hk. apply key_new_owner in Hk. apply (same_scope_owner_key _ _ 0%N).
    apply (same_scope_owner_key _ _ 0%N) in Ho, Hk. congruence.
  - rewrite Hold by done. rewrite lookup_insert_ne; [by apply Hr |].
    intros [= Ht Hu Ha Hp Hm Hth Hi]. apply Hne. unfold place, record_tail, axes.
    by rewrite (root_owner scope scope' Ht Hu), Ha, Hp, Hm, Hth, Hi.
Qed.

(** ** Linearizability of one update *)

Section update.
Variable env : nat -> Moment -> F -> F.
Variable fires : nat -> Moment -> bool.
Variables (scope : ResourceScope) (id : N) (record_kind : string).
Variable apply : option A -> Result (CasApply A A) RunStateError.
Variable mem : Records -> Result A RunStateError * Records.
Hypothesis scope_storable : storable_ scope.

(** The store's closure computes the in-memory operation at one key. *)
Definition implements : Prop :=
  forall m,
    (forall r, m !! key_new scope id = Some r -> same_scope_owner (scope_of_record r) scope = true) ->
    match apply (m !! key_new scope id) with
    | Err e => mem m = (Err e, m)
    | Ok a => mem m = (Ok (outcome a), <[key_new scope id := snapshot a]> m)
              /\ apply_write a = true
              /\ same_scope_owner (scope_of_record (snapshot a)) scope = true
    end.

(** The refusals that come from the store's own logic. *)
Definition refusal (e : RunStateError) : bool :=
  match e with
  | UnknownInvocation _ | InvocationAlreadyExists _ | UnknownApprovalRequest _
  | ApprovalRequestAlreadyExists _ | ApprovalNotPending _ _ => true
  | _ => false
  end.

Local Abbreviation run :=
  (update_record resolver env fires record_kind scope (Ok (record_path scope id)) apply).

(** What [apply] was shown is what the in-memory map holds at the key. *)
Lemma shown_represents fs m current version :
  represents fs m ->
  shown resolver scope (record_path scope id) deserialize fs current version ->
  current = m !! key_new scope id.
Proof using scope_storable middle_cases label_segment.
  intros Hr (vp & Hvp & Hsh). rewrite resolve_place in Hvp by auto. injection Hvp as <-.
  specialize (Hr scope id scope_storable).
  destruct (entry_at fs (place scope id)) as [[e v] |].
  - destruct Hsh as (s & Hd & -> & _), Hr as (r & Hd' & -> & _).
    unfold deserialize in Hd. rewrite Hd' in Hd. congruence.
  - destruct Hsh as [-> _]. done.
Qed.

Lemma record_entry_decodes a e :
  record_entry record_kind a = Ok e -> from_slice (body e) = Ok a.
Proof using Type.
  unfold record_entry, serialize_pretty. destruct (to_vec_pretty a) as [b |] eqn:Hb; [| done].
  intros [= <-]. by apply json_roundtrip.
Qed.

Lemma update_linearizes fs r fs' :
  implements -> no_reincarnation env -> run fs = (Ok r, fs') ->
  exists now, others_only env fs now
    /\ forall m, represents now m -> exists m', mem m = (Ok r, m') /\ represents fs' m'.
Proof using scope_storable middle_cases label_segment.
  intros Himp Hnr. unfold update_record.
  destruct (cas_update _ _ _ _ _ _ _ _ _) as [[a0 | e] fs1] eqn:Hc; [| done].
  intros [= -> <-]. apply update_atomic in Hc
    as (now & current & version & a & Ho & Hsh & [Ha ->] & Hend); [| done].
  exists now. split; [done |]. intros m Hm.
  pose proof (shown_represents now m current version Hm Hsh) as Hcur.
  specialize (Himp m (fun r => represents_owner now m scope id r scope_storable Hm)).
  rewrite <- Hcur, Ha in Himp. destruct Himp as (Hmem & Hw & Hown).
  exists (<[key_new scope id := snapshot a]> m). split; [done |].
  destruct Hend as [[[Hsk | Hsk] Hsame] | (e & He & Hwr)]; [congruence | |].
  - apply (represents_same now); [done |]. rewrite insert_id; [done | congruence].
  - eapply represents_write; [done | done | exact Hwr | by eapply record_entry_decodes | done].
Qed.

(** An update that is answered with an error did nothing; a deadline may pass after it
    took effect. *)
Lemma update_fails fs e fs' :
  implements -> no_reincarnation env -> run fs = (Err e, fs') ->
  others_only env fs fs'
  \/ refusal e = false /\ exists now, others_only env fs now
       /\ forall m, represents now m -> exists r m', mem m = (Ok r, m') /\ represents fs' m'.
Proof using scope_storable middle_cases label_segment.
  intros Himp Hnr. unfold update_record.
  destruct (cas_update _ _ _ _ _ _ _ _ _) as [[a0 | e0] fs1] eqn:Hc; [done |].
  intros [= <- <-]. apply update_effect in Hc
    as [[Ho _] | (now & current & version & a & t & Ho & Hsh & [Ha _] & [(_ & _ & ?) | (en & He & Hwr & [? | [= ->]])])];
    [by left | done | done | | done].
  right. split; [done |]. exists now. split; [done |]. intros m Hm.
  pose proof (shown_represents now m current version Hm Hsh) as Hcur.
  specialize (Himp m (fun r => represents_owner now m scope id r scope_storable Hm)).
  rewrite <- Hcur, Ha in Himp. destruct Himp as (Hmem & Hw & Hown).
  exists (outcome a), (<[key_new scope id := snapshot a]> m). split; [done |].
  eapply represents_write; [done | done | exact Hwr | by eapply record_entry_decodes | done].
Qed.

Lemma update_refuses fs e fs' :
  implements -> refusal e = true -> run fs = (Err e, fs') ->
  others_only env fs fs' /\ forall m, represents fs' m -> mem m = (Err e, m).
Proof using scope_storable middle_cases label_segment.
  intros Himp He. unfold update_record.
  destruct (cas_update _ _ _ _ _ _ _ _ _) as [[a0 | e0] fs1] eqn:Hc; [done |].
  intros [= Hmap <-].
  destruct e0 as [e0 | | | |]; simpl in Hmap; subst; try done.
  apply cas_update_refused in Hc as [Ho [[b Hd] | (current & version & Hsh & Hr)]].
  - unfold deserialize in Hd. destruct (from_slice b); [done |]. by injection Hd as <-.
  - split; [done |]. intros m Hm.
    pose proof (shown_represents _ m current version Hm Hsh) as Hcur.
    specialize (Himp m (fun r => represents_owner _ m scope id r scope_storable Hm)).
    rewrite <- Hcur in Himp. destruct Hr as [Hr | (a & Ha & Henc)]; [by rewrite Hr in Himp |].
    unfold record_entry, serialize_pretty in Henc. destruct (to_vec_pretty _); [done |].
    by injection Henc as <-.
Qed.
End update.

Lemma read_record_same scope path fs res fs' :
  read_record resolver scope_of_record scope path fs = (res, fs') -> same_entries fs fs'.
Proof using Type.
  unfold read_record. destruct path as [p | e]; [| by intros [= _ <-]].
  destruct (scoped_get _ _ _ _) as [rg fs1] eqn:Hg. intros Hr.
  assert (fs1 = fs') as <- by (destruct rg as [[ve |] |]; [destruct (deserialize _) | |]; congruence).
  unfold scoped_get, guarded in Hg. destruct (resolve_with_permission _ _ _ _); [by apply get_reads in Hg as [Hs _] |].
  by injection Hg as _ <-.
Qed.

(** A read changes nothing and finds what the in-memory map holds at the key. *)
Lemma read_record_finds scope id fs o fs' :
  storable_ scope ->
  read_record resolver scope_of_record scope (Ok (record_path scope id)) fs = (Ok o, fs') ->
  same_entries fs fs' /\ forall m, represents fs m -> m !! key_new scope id = o.
Proof using middle_cases label_segment.
  intros Hsc. unfold read_record, scoped_get, guarded. rewrite resolve_place by auto.
  destruct (fs_get (place scope id) fs) as [[found | e] fs1] eqn:Hg; [| done].
  apply get_reads in Hg as [Hsame Hf]. specialize (Hf found eq_refl). intros Hr.
  assert (fs1 = fs') as -> by (destruct found; [destruct (deserialize _) |]; congruence).
  split; [done |]. intros m Hm. specialize (Hm scope id Hsc). rewrite <- Hf in Hm.
  destruct found as [ve |]; simpl in *; [| congruence].
  destruct Hm as (r & Hd & Hk & Ho). unfold deserialize in Hr. rewrite Hd, Ho in Hr. congruence.
Qed.
End records.

Arguments represents {F _ _ _} resolver label {_} {A _} scope_of_record middle fs m.

(** ** Run state *)

Section runs.
Context {F : Type} `{VersionedStore F} `{UuidText} `{JsonCodec RunRecord}.
Variable resolver : ResourceScope -> Result MountView HostApiError.
Context `{!StoreMounts resolver "run-state"}.
Variable env : nat -> Moment -> F -> F.
Variable fires : nat -> Moment -> bool.

(** The backend holds the run records of an in-memory store. *)
Definition holds_runs : F -> InMemoryRuns.Records -> Prop :=
  represents resolver "run-state" run_scope ["runs"].

(** The mutating calls of [FilesystemRunStateStore]. *)
Definition fs_run (op : RunOp) : F -> Result RunRecord RunStateError * F :=
  match op with
  | OpStart st => fs_start resolver env fires st
  | OpBlockApproval s i a =>
      fs_block_approval resolver env fires s i {| request_id := a; request_payload := tt |}
  | OpBlockAuth s i e => fs_block_auth resolver env fires s i e
  | OpComplete s i => fs_complete resolver env fires s i
  | OpFail s i e => fs_fail resolver env fires s i e
  end.

Lemma mutate_implements scope id f :
  (forall r, run_scope (f r) = run_scope r) ->
  implements run_scope scope id (apply_mutate scope id f) (InMemoryRuns.update scope id f).
Proof using Type.
  intros Hf m Hown. unfold apply_mutate, InMemoryRuns.update.
  destruct (m !! key_new scope id) as [r |] eqn:Hk; [| done].
  rewrite (Hown r eq_refl). simpl. rewrite Hf. by rewrite (Hown r eq_refl).
Qed.

Lemma start_implements st :
  implements run_scope (start_scope st) (start_invocation_id st) (apply_start (started st))
    (InMemoryRuns.start st).
Proof using Type.
  intros m Hown. unfold apply_start, InMemoryRuns.start. simpl.
  destruct (m !! _) as [r |]; [done |]. simpl. by rewrite same_scope_owner_refl.
Qed.

(** Every call is one update at the record's path. *)
Lemma fs_run_update op :
  storable resolver "run-state" _ (run_op_scope op) ->
  exists apply,
    (forall fs, fs_run op fs
       = update_record resolver env fires RUN_STATE_RECORD_KIND (run_op_scope op)
           (Ok (record_path "run-state" ["runs"] (run_op_scope op) (run_op_id op))) apply fs)
    /\ implements run_scope (run_op_scope op) (run_op_id op) apply (mem_run op).
Proof using Type.
  intros Hs%storable_axes.
  assert (forall id, run_record_path (run_op_scope op) id
            = Ok (record_path "run-state" ["runs"] (run_op_scope op) id)) as Hp
    by (intros id; by apply run_record_path_ok).
  destruct op as [st | s i a | s i e | s i | s i e]; simpl in *.
  - exists (apply_start (started st)). unfold fs_start. rewrite Hp.
    split; [done | apply start_implements].
  - exists (apply_mutate s i (to_block_approval a)). unfold fs_block_approval, apply_update. simpl.
    rewrite Hp. split; [done | by apply mutate_implements].
  - exists (apply_mutate s i (to_block_auth e)). unfold fs_block_auth, apply_update.
    rewrite Hp. split; [done | by apply mutate_implements].
  - exists (apply_mutate s i to_complete). unfold fs_complete, apply_update.
    rewrite Hp. split; [done | by apply mutate_implements].
  - exists (apply_mutate s i (to_fail e)). unfold fs_fail, apply_update.
    rewrite Hp. split; [done | by apply mutate_implements].
Qed.

(** Reading a run changes nothing, and is reading it in memory. *)
Lemma fs_get_run_reads scope id fs res fs' :
  storable resolver "run-state" _ scope -> fs_get_run resolver scope id fs = (res, fs') ->
  same_entries fs fs'
  /\ match res with
     | Ok o => forall m, holds_runs fs m -> InMemoryRuns.get_run scope id m = (Ok o, m)
     | Err _ => True
     end.
Proof using Type.
  intros Hs Hg. unfold fs_get_run in Hg.
  rewrite (run_record_path_ok scope id (storable_axes scope Hs)) in Hg.
  change (path_of _) with (record_path "run-state" ["runs"] scope id) in Hg.
  destruct res as [o | e].
  - eapply read_record_finds in Hg as [Hsame Hm]; [| by right | by repeat split | done].
    split; [done |]. intros m Hh. unfold InMemoryRuns.get_run. by rewrite (Hm m Hh).
  - split; [| done]. by eapply read_record_same.
Qed.

(** [C24] The filesystem run store is linearizable to the in-memory one, over a backend
    that keeps versions and for a scope whose records have a place of their own.
    Whatever other tasks do, provided that they never put a different record under the
    version a call has read (by deleting and re-creating it), and whenever timeouts fire:
    a start or transition that succeeds answered, at one instant, what the in-memory call
    answers on the records then held, and left the backend holding that call's records;
    one that is answered with an error changed nothing, and if the store's own rules
    refused it, it answered what the in-memory call answers at the end; only after a
    failure that is no refusal (a deadline) may the call have taken effect, at one
    instant, all the same.  A read of a run changes nothing, and answers, if it does, what
    the in-memory read answers. *)
Theorem fs_runs_linearizable op fs res fs' :
  storable resolver "run-state" _ (run_op_scope op) -> no_reincarnation env ->
  fs_run op fs = (res, fs') ->
  match res with
  | Ok r => exists now, others_only env fs now
      /\ forall m, holds_runs now m -> exists m', mem_run op m = (Ok r, m') /\ holds_runs fs' m'
  | Err e =>
      (others_only env fs fs'
       /\ (refusal e = true -> forall m, holds_runs fs' m -> mem_run op m = (Err e, m)))
      \/ refusal e = false /\ exists now, others_only env fs now
           /\ forall m, holds_runs now m -> exists r m', mem_run op m = (Ok r, m') /\ holds_runs fs' m'
  end
  /\ forall id found fs1, fs_get_run resolver (run_op_scope op) id fs = (found, fs1) ->
       same_entries fs fs1
       /\ match found with
          | Ok o => forall m, holds_runs fs m -> InMemoryRuns.get_run (run_op_scope op) id m = (Ok o, m)
          | Err _ => True
          end.
Proof.
  intros Hs Hnr Hrun. split; [| intros id found fs1; by apply fs_get_run_reads].
  destruct (fs_run_update op Hs) as (apply & Heq & Himp).
  rewrite Heq in Hrun. destruct res as [r | e].
  - eapply update_linearizes; [by right | by repeat split | done | exact Himp | done | exact Hrun].
  - destruct (refusal e) eqn:He.
    + left. assert (others_only env fs fs' /\ forall m, holds_runs fs' m -> mem_run op m = (Err e, m)) as [Ho Hm].
      { eapply update_refuses; [by right | by repeat split | done | exact Himp | done | exact Hrun]. }
      done.
    + enough (others_only env fs fs' \/ refusal e = false /\ exists now, others_only env fs now
        /\ forall m, holds_runs now m -> exists r m', mem_run op m = (Ok r, m') /\ holds_runs fs' m') as [Ho | [_ Hx]];
        [by left | by right |].
      eapply update_fails; [by right | by repeat split | done | exact Himp | done | exact Hrun].
Qed.
End runs.

(** ** Approvals *)

Section approvals.
Context {F : Type} `{VersionedStore F} `{UuidText}.
Context {P : Type} `{!EqDecision P} `{JsonCodec (ApprovalRecord P)}.
Variable resolver : ResourceScope -> Result MountView HostApiError.
Context `{!StoreMounts resolver "approvals"}.
Variable env : nat -> Moment -> F -> F.
Variable fires : nat -> Moment -> bool.

Definition holds_approvals : F -> gmap ScopedKey (ApprovalRecord P) -> Prop :=
  represents resolver "approvals" approval_scope [].

Definition approval_op_scope (op : ApprovalOp P) : ResourceScope :=
  match op with OpSave s _ | OpApprove s _ | OpDeny s _ | OpDiscard s _ => s end.

Definition approval_op_id (op : ApprovalOp P) : ApprovalRequestId :=
  match op with OpSave _ r => request_id r | OpApprove _ i | OpDeny _ i | OpDiscard _ i => i end.

(** The mutating calls of [FilesystemApprovalRequestStore]. *)
Definition fs_approval (op : ApprovalOp P) : F -> Result (ApprovalRecord P) RunStateError * F :=
  match op with
  | OpSave s r => fs_save_pending resolver env fires s r
  | OpApprove s i => fs_approve resolver env fires s i
  | OpDeny s i => fs_deny resolver env fires s i
  | OpDiscard s i => fs_discard_pending resolver env fires s i
  end.

Lemma resolve_implements scope id status (shown : ApprovalRecord P -> ApprovalRecord P) :
  implements approval_scope scope id (apply_resolve scope id status shown)
    (InMemoryApprovals.resolve_pending scope id status shown).
Proof using Type.
  intros m Hown. unfold apply_resolve, InMemoryApprovals.resolve_pending.
  destruct (m !! key_new scope id) as [r |] eqn:Hk; [| done].
  rewrite (Hown r eq_refl). simpl. destruct (decide (approval_status r = Pending)); [| done].
  simpl. by rewrite (Hown r eq_refl).
Qed.

Lemma save_implements scope (request : ApprovalRequest P) :
  implements approval_scope scope (request_id request)
    (apply_save {| approval_scope := scope; approval_request := request;
                   approval_status := Pending |})
    (InMemoryApprovals.save_pending scope request).
Proof using Type.
  intros m Hown. unfold apply_save, InMemoryApprovals.save_pending.
  destruct (m !! _) as [r |]; [done |]. simpl. by rewrite same_scope_owner_refl.
Qed.

Lemma fs_approval_update op :
  storable resolver "approvals" _ (approval_op_scope op) ->
  exists apply,
    (forall fs, fs_approval op fs
       = update_record resolver env fires APPROVAL_RECORD_KIND (approval_op_scope op)
           (Ok (record_path "approvals" [] (approval_op_scope op) (approval_op_id op))) apply fs)
    /\ implements approval_scope (approval_op_scope op) (approval_op_id op) apply (mem_approval op).
Proof using Type.
  intros Hs%storable_axes.
  assert (forall id, approval_record_path (approval_op_scope op) id
            = Ok (record_path "approvals" [] (approval_op_scope op) id)) as Hp
    by (intros id; by apply approval_record_path_ok).
  assert (forall s i st (shown : ApprovalRecord P -> ApprovalRecord P), approval_op_scope op = s -> approval_op_id op = i ->
    (forall fs, fs_approval op fs = update_record resolver env fires APPROVAL_RECORD_KIND s
        (approval_record_path s i) (apply_resolve s i st shown) fs) ->
    mem_approval op = InMemoryApprovals.resolve_pending s i st shown ->
    exists apply, (forall fs, fs_approval op fs
       = update_record resolver env fires APPROVAL_RECORD_KIND s
           (Ok (record_path "approvals" [] s i)) apply fs)
    /\ implements approval_scope s i apply (mem_approval op)) as Hres.
  { intros s i st shown Hs' _ Heq Hmem. subst s. exists (apply_resolve (approval_op_scope op) i st shown).
    rewrite Hmem. split; [| apply resolve_implements]. intros fs. by rewrite Heq, Hp. }
  destruct op as [s r | s i | s i | s i];
    [| exact (Hres s i Approved _ eq_refl eq_refl (fun _ => eq_refl) eq_refl)
     | exact (Hres s i Denied _ eq_refl eq_refl (fun _ => eq_refl) eq_refl)
     | exact (Hres s i Discarded _ eq_refl eq_refl (fun _ => eq_refl) eq_refl)].
  clear Hres. cbn [approval_op_scope approval_op_id fs_approval] in *.
  exists (apply_save {| approval_scope := s; approval_request := r; approval_status := Pending |}).
  unfold fs_save_pending. rewrite Hp. split; [done | apply save_implements].
Qed.

(** The filesystem approval store is linearizable to the in-memory one, in the
    same sense: with [approval_decided_once], two deciders racing on one request
    through the filesystem cannot both succeed. *)
Theorem fs_approvals_linearizable op fs res fs' :
  storable resolver "approvals" _ (approval_op_scope op) -> no_reincarnation env ->
  fs_approval op fs = (res, fs') ->
  match res with
  | Ok r => exists now, others_only env fs now
      /\ forall m, holds_approvals now m ->
           exists m', mem_approval op m = (Ok r, m') /\ holds_approvals fs' m'
  | Err e => refusal e = true -> others_only env fs fs'
      /\ forall m, holds_approvals fs' m -> mem_approval op m = (Err e, m)
  end.
Proof.
  intros Hs Hnr Hrun. destruct (fs_approval_update op Hs) as (apply & Heq & Himp).
  rewrite Heq in Hrun. destruct res as [r | e].
  - eapply update_linearizes; [by left | by repeat split | done | exact Himp | done | exact Hrun].
  - intros He. eapply update_refuses; [by left | by repeat split | done | exact Himp | done | exact Hrun].
Qed.
End approvals.
