(* ===== verification/RunStateDemo.v ===== *)
(** * Run-state stores in production, and concrete runs

    The production mount views satisfy [StoreMounts] for every per-user alias, so
    the linearizability theorems apply to the composed system; a concrete text of
    ids and a concrete record codec show that their hypotheses can hold. *)

From stdpp Require Import sorting.
From S2P Require Import Prelude Strings Ids Paths Mounts Filesystem Platform HostApi Scoped Cas Composition RunState RunStateFacts RunStateFs.
From Stdlib Require Import Ascii Lia.
Import HostApi.Resource.

(** ** The production mount views *)

(** Scopes with their own subtree: validated axes, and tenant and user ids that are
    validated or sentinels but not the text that stands for the system sentinel. *)
Definition production_scope (scope : ResourceScope) : Prop :=
  scope_ok scope /\ owner_ok scope
  /\ tenant_id scope <> "__system__" /\ user_id scope <> "__system__".

Lemma path_segment_inj a b :
  a <> "__system__" -> b <> "__system__" ->
  resource_scope_path_segment a = resource_scope_path_segment b -> a = b.
Proof.
  unfold resource_scope_path_segment. intros Ha Hb.
  destruct (String.eqb_spec a SYSTEM_RESERVED_ID) as [-> |],
    (String.eqb_spec b SYSTEM_RESERVED_ID) as [-> |]; congruence.
Qed.

#[refine] Definition production_mounts (slack : bool) (label : string)
    (Hl : label ∈ per_user_labels) : StoreMounts (invocation_mount_view slack) label := {|
  storable := production_scope;
  root_of scope := user_root scope label;
|}.
Proof.
  - by intros scope [Ha _].
  - intros scope scope' Ht Hu. unfold user_root, tenant_segment, user_segment. by rewrite Ht, Hu.
  - intros scope (_ & [Ht Hu] & _). split; [done |]. unfold user_root.
    assert (segment_ok "tenants") by literal_segment. assert (segment_ok "users") by literal_segment.
    destruct (per_user_label label Hl) as [Hlab _]. repeat (apply Forall_cons; split; [done |]).
    constructor.
  - intros scope tail op (_ & Ho & _) Hop Htl. apply per_user_resolves; [done | done | done |].
    by destruct Hop as [-> | ->].
  - intros scope scope' tail tail' (_ & _ & Hts & Hus) (_ & _ & Hts' & Hus') Heq.
    unfold user_root in Heq. injection Heq as Ht Hu ->.
    apply path_segment_inj in Ht, Hu; auto.
Defined.

#[export] Instance run_state_mounts slack : StoreMounts (invocation_mount_view slack) "run-state" :=
  production_mounts slack "run-state" ltac:(unfold per_user_labels; set_solver).
#[export] Instance approval_mounts slack : StoreMounts (invocation_mount_view slack) "approvals" :=
  production_mounts slack "approvals" ltac:(unfold per_user_labels; set_solver).

(** ** A text of ids and of records *)

Fixpoint positive_text (p : positive) : string :=
  match p with
  | xH => "1"
  | xO q => String "0" (positive_text q)
  | xI q => String "1" (positive_text q)
  end.

Fixpoint text_positive (s : string) : option positive :=
  match s with
  | String "1" "" => Some xH
  | String "0" s' => xO <$> text_positive s'
  | String "1" s' => xI <$> text_positive s'
  | _ => None
  end.

Lemma positive_text_nonempty p : positive_text p <> "".
Proof. by destruct p. Qed.

Lemma text_positive_text p : text_positive (positive_text p) = Some p.
Proof.
  induction p as [q IH | q IH |]; simpl; [| by rewrite IH | done].
  rewrite IH. pose proof (positive_text_nonempty q). by destruct (positive_text q).
Qed.

#[export, refine] Instance demo_uuid_text : UuidText := {|
  uuid_text n := positive_text (N.succ_pos n)
|}.
Proof.
  - intros a b Heq. apply (f_equal text_positive) in Heq. rewrite !text_positive_text in Heq.
    injection Heq as Heq. lia.
  - intros a. apply positive_text_nonempty.
  - intros a. induction (N.succ_pos a) as [q IH | q IH |]; simpl; [done | done | done].
Defined.

(** Any countable record type has a lossless text. *)
#[refine] Definition countable_codec {A} `{Countable A} : JsonCodec A := {|
  to_vec_pretty a := Ok (positive_text (encode a));
  from_slice b :=
    match text_positive b ≫= decode with
    | Some a => Ok a
    | None => Err "not a record"
    end;
|}.
Proof.
  intros a b [= <-]. rewrite text_positive_text. simpl. by rewrite decode_encode.
Defined.

#[export] Instance ResourceScope_countable : Countable ResourceScope.
Proof.
  apply (inj_countable'
    (fun s => (tenant_id s, user_id s, agent_id s, project_id s, mission_id s, thread_id s,
               invocation_id s))
    (fun '(t, u, a, p, m, h, i) =>
       {| tenant_id := t; user_id := u; agent_id := a; project_id := p;
          mission_id := m; thread_id := h; invocation_id := i |})).
  by intros [].
Defined.

#[export] Instance RunStatus_countable : Countable RunStatus.
Proof.
  refine (inj_countable'
    (fun s => match s with Running => 0 | BlockedApproval => 1 | BlockedAuth => 2
                         | Completed => 3 | Failed => 4 end)
    (fun n => match n with 0 => Running | 1 => BlockedApproval | 2 => BlockedAuth
                         | 3 => Completed | _ => Failed end) _).
  by intros [].
Defined.

#[export] Instance RunRecord_countable : Countable RunRecord.
Proof.
  apply (inj_countable'
    (fun r => (run_invocation_id r, run_capability_id r, run_scope r, run_actor r, run_status r,
               run_approval_request_id r, run_error_kind r))
    (fun '(i, c, s, a, st, ap, e) =>
       {| run_invocation_id := i; run_capability_id := c; run_scope := s; run_actor := a;
          run_status := st; run_approval_request_id := ap; run_error_kind := e |})).
  by intros [].
Defined.

#[export] Instance run_codec : JsonCodec RunRecord := countable_codec.

#[export] Instance ApprovalStatus_countable : Countable ApprovalStatus.
Proof.
  refine (inj_countable'
    (fun s => match s with Pending => 0 | Approved => 1 | Denied => 2
                         | Expired => 3 | Discarded => 4 end)
    (fun n => match n with 0 => Pending | 1 => Approved | 2 => Denied
                         | 3 => Expired | _ => Discarded end) _).
  by intros [].
Defined.

#[export] Instance ApprovalRecord_countable : Countable (ApprovalRecord unit).
Proof.
  apply (inj_countable'
    (fun r => (approval_scope r, request_id (approval_request r), approval_status r))
    (fun '(s, i, st) =>
       {| approval_scope := s; approval_request := {| request_id := i; request_payload := tt |};
          approval_status := st |})).
  by intros [s [i []] st].
Defined.

#[export] Instance approval_codec : JsonCodec (ApprovalRecord unit) := countable_codec.

(** ** Witnesses *)

Definition idle (_ : nat) (_ : Moment) (s : InMemory.State) : InMemory.State := s.
Definition no_timeout (_ : nat) (_ : Moment) : bool := false.

Lemma idle_no_reincarnation : no_reincarnation idle.
Proof. unfold no_reincarnation, idle. congruence. Qed.

Lemma idle_same fs fs' : others_only idle fs fs' -> same_entries fs fs'.
Proof.
  induction 1 as [| x y z [Hs | (k & m & ->)] _ IH]; [done | | exact IH].
  intros q. by rewrite IH, Hs.
Qed.

Definition ann : ResourceScope := user_scope "acme" "ann".

Lemma ann_storable : production_scope ann.
Proof.
  split; [constructor |]. split; [| done].
  apply owner_ok_acme; [literal_segment | discriminate].
Qed.

Lemma holds_nothing {A} `{JsonCodec A} slack label (Hm : StoreMounts (invocation_mount_view slack) label)
    (scope_of_record : A -> ResourceScope) middle :
  represents (invocation_mount_view slack) label scope_of_record middle InMemory.new ∅.
Proof. intros scope id _. simpl. by rewrite !lookup_empty. Qed.

Definition ann_run : RunOp := OpStart {|
  start_invocation_id := 4; start_capability_id := "github.search";
  start_scope := ann; start_actor := None |}.

Lemma fs_runs_linearizable_witness :
  storable (invocation_mount_view false) "run-state" _ (run_op_scope ann_run)
  /\ exists r fs' m',
       fs_run (invocation_mount_view false) idle no_timeout ann_run InMemory.new = (Ok r, fs')
       /\ mem_run ann_run ∅ = (Ok r, m') /\ holds_runs (invocation_mount_view false) fs' m'.
Proof.
  split; [exact ann_storable |].
  assert (is_ok (fs_run (invocation_mount_view false) idle no_timeout ann_run InMemory.new).1 = true)
    as Hok by vm_refl.
  destruct (fs_run (invocation_mount_view false) idle no_timeout ann_run InMemory.new)
    as [[r | e] fs'] eqn:Hrun; [| discriminate Hok].
  destruct (fs_runs_linearizable (invocation_mount_view false)
    (StoreMounts0 := run_state_mounts false) idle no_timeout ann_run
    InMemory.new (Ok r) fs' ann_storable idle_no_reincarnation Hrun) as [(now & Ho & Hm) _].
  destruct (Hm ∅ (represents_same _ _ _ _ _ _ _ (idle_same _ _ Ho)
    (holds_nothing false "run-state" _ run_scope ["runs"]))) as (m' & Hmem & Hh).
  exists r, fs', m'. exact (conj eq_refl (conj Hmem Hh)).
Defined.

Definition ann_approval : ApprovalOp unit :=
  OpSave ann {| request_id := 9; request_payload := tt |}.

Lemma fs_approvals_linearizable_witness :
  storable (invocation_mount_view false) "approvals" _ (approval_op_scope ann_approval)
  /\ exists r fs' m',
       fs_approval (invocation_mount_view false) idle no_timeout ann_approval InMemory.new
         = (Ok r, fs')
       /\ mem_approval ann_approval ∅ = (Ok r, m')
       /\ holds_approvals (invocation_mount_view false) fs' m'.
Proof.
  split; [exact ann_storable |].
  assert (is_ok (fs_approval (invocation_mount_view false) idle no_timeout ann_approval
                   InMemory.new).1 = true) as Hok by vm_refl.
  destruct (fs_approval (invocation_mount_view false) idle no_timeout ann_approval InMemory.new)
    as [[r | e] fs'] eqn:Hrun; [| discriminate Hok].
  destruct (fs_approvals_linearizable (invocation_mount_view false)
    (StoreMounts0 := approval_mounts false) idle no_timeout ann_approval
    InMemory.new (Ok r) fs' ann_storable idle_no_reincarnation Hrun) as (now & Ho & Hm).
  destruct (Hm ∅ (represents_same _ _ _ _ _ _ _ (idle_same _ _ Ho)
    (holds_nothing false "approvals" _ approval_scope []))) as (m' & Hmem & Hh).
  exists r, fs', m'. exact (conj eq_refl (conj Hmem Hh)).
Defined.
