(* ===== verification/Period.v ===== *)
(** * Budget periods and graduated thresholds

    Models [ironclaw_resources/src/period.rs]: the period kinds, the window
    [period_bounds] computes, the rollover test and threshold validation. *)

From S2P Require Import Prelude Platform.
From Stdlib Require Import ZArith Lia.

Inductive PeriodUnit := Day | Week | Month.

#[export] Instance PeriodUnit_eq_dec : EqDecision PeriodUnit.
Proof. solve_decision. Defined.

Section period.
Context `{Platform}.

Inductive BudgetPeriod :=
  | PerInvocation
  | Rolling24h
  | Calendar (tz : Tz) (unit : PeriodUnit).

#[export] Instance BudgetPeriod_eq_dec : EqDecision BudgetPeriod.
Proof. solve_decision. Defined.

Definition BudgetPeriod_default : BudgetPeriod := PerInvocation.

(** The local start and end dates of a calendar window. *)
Definition calendar_dates (d : NaiveDate) (unit : PeriodUnit) : NaiveDate * NaiveDate :=
  match unit with
  | Day => (d, date_add_days d 1)
  | Week =>
      let week_start := date_add_days d (- date_days_from_monday d) in
      (week_start, date_add_days week_start 7)
  | Month =>
      let month_start := default d (date_from_ymd_opt (date_year d) (date_month d) 1) in
      let next_month :=
        default month_start
          (if (date_month d =? 12)%Z
           then date_from_ymd_opt (date_year d + 1) 1 1
           else date_from_ymd_opt (date_year d) (date_month d + 1) 1) in
      (month_start, next_month)
  end.

Definition calendar_bounds (tz : Tz) (unit : PeriodUnit) (now : DateTime) :
    DateTime * DateTime :=
  let '(start_date, end_date) := calendar_dates (local_date tz now) unit in
  (default now (local_midnight_earliest tz start_date),
   default (now + duration_days 1)%Z (local_midnight_earliest tz end_date)).

Definition period_bounds (period : BudgetPeriod) (now : DateTime) :
    DateTime * DateTime :=
  match period with
  | PerInvocation => (now, max_utc)
  | Rolling24h => (now, now + duration_hours 24)%Z
  | Calendar tz unit => calendar_bounds tz unit now
  end.

Definition period_has_rolled_over (current_end now : DateTime) : bool :=
  (current_end <=? now)%Z.
End period.

(** ** Thresholds *)

Record BudgetThresholds := { warn_at : f64; pause_at : f64 }.

#[export] Instance f64_eq_dec : EqDecision f64.
Proof. solve_decision. Defined.
#[export] Instance BudgetThresholds_eq_dec : EqDecision BudgetThresholds.
Proof. solve_decision. Defined.

Inductive BudgetThresholdsError := NotFinite | Negative | PauseBelowWarn.

Definition DISABLED : BudgetThresholds := {| warn_at := f64_one; pause_at := f64_one |}.

(** [0.75] and [0.90], the latter rounded to the nearest double. *)
Definition RECOMMENDED : BudgetThresholds := {|
  warn_at := f64_div (f64_of_Z 3) (f64_of_Z 4);
  pause_at := f64_div (f64_of_Z 9) (f64_of_Z 10);
|}.

Definition BudgetThresholds_default : BudgetThresholds := DISABLED.

Definition thresholds_validate (t : BudgetThresholds) : Result unit BudgetThresholdsError :=
  if negb (f64_is_finite (warn_at t)) || negb (f64_is_finite (pause_at t)) then Err NotFinite
  else if f64_lt (warn_at t) f64_zero || f64_lt (pause_at t) f64_zero then Err Negative
  else if f64_lt (pause_at t) (warn_at t) then Err PauseBelowWarn
  else Ok tt.

Example recommended_validates : thresholds_validate RECOMMENDED = Ok tt.
Proof. vm_compute. reflexivity. Qed.

Example recommended_pause_is_nearest_double :
  pause_at RECOMMENDED = S754_finite false 8106479329266893 (-53).
Proof. vm_compute. reflexivity. Qed.

Section period_facts.
Context `{Platform}.

Lemma rolled_over_spec current_end now :
  period_has_rolled_over current_end now = true <-> (current_end <= now)%Z.
Proof. apply Z.leb_le. Qed.

Lemma rolling_end_after now :
  (now < (period_bounds Rolling24h now).2)%Z.
Proof. simpl. unfold duration_hours, nanos_per_hour. lia. Qed.
End period_facts.
