(* ===== verification/Tally.v ===== *)
(** * Resource dimensions, limits, tallies and accounts

    Models the value types of [ironclaw_resources/src/lib.rs] the ledger is made of:
    [ResourceDimension], [ResourceLimits] with its zero-means-unlimited convention,
    [ResourceTally] with its saturating arithmetic (the seven integer dimensions are
    reached uniformly through [tally_int] and [limit_int]), and [ResourceAccount] with
    the cascade of accounts a scope falls under and the wire label of [Display]. *)

From S2P Require Import Prelude Platform HostApi Period.
From Stdlib Require Import Lia.
Import HostApi.Resource.

Inductive ResourceDimension :=
  | Usd
  | InputTokens
  | OutputTokens
  | WallClockMs
  | OutputBytes
  | NetworkEgressBytes
  | ProcessCount
  | ConcurrencySlots.

#[export] Instance ResourceDimension_eq_dec : EqDecision ResourceDimension.
Proof. solve_decision. Defined.

Definition dimension_display (d : ResourceDimension) : string :=
  match d with
  | Usd => "usd"
  | InputTokens => "input_tokens"
  | OutputTokens => "output_tokens"
  | WallClockMs => "wall_clock_ms"
  | OutputBytes => "output_bytes"
  | NetworkEgressBytes => "network_egress_bytes"
  | ProcessCount => "process_count"
  | ConcurrencySlots => "concurrency_slots"
  end.

Section tally.
Context `{Platform}.

Inductive ResourceValue :=
  | VDecimal (v : Decimal)
  | VInteger (v : N).

#[export] Instance ResourceValue_eq_dec : EqDecision ResourceValue.
Proof. solve_decision. Defined.

Record ResourceLimits := {
  max_usd : option Decimal;
  max_input_tokens : option N;
  max_output_tokens : option N;
  max_wall_clock_ms : option N;
  max_output_bytes : option N;
  max_network_egress_bytes : option N;
  max_process_count : option N;
  max_concurrency_slots : option N;
  period : BudgetPeriod;
  thresholds : BudgetThresholds;
}.

#[export] Instance ResourceLimits_eq_dec : EqDecision ResourceLimits.
Proof. solve_decision. Defined.

Definition ResourceLimits_default : ResourceLimits := {|
  max_usd := None;
  max_input_tokens := None;
  max_output_tokens := None;
  max_wall_clock_ms := None;
  max_output_bytes := None;
  max_network_egress_bytes := None;
  max_process_count := None;
  max_concurrency_slots := None;
  period := BudgetPeriod_default;
  thresholds := BudgetThresholds_default;
|}.

Definition is_decimal_unlimited (value : option Decimal) : bool :=
  match value with
  | None => true
  | Some v => decimal_le v dec_zero
  end.

Definition is_integer_unlimited (value : option N) : bool :=
  match value with
  | None => true
  | Some v => (v =? 0)%N
  end.

Definition is_unlimited (l : ResourceLimits) : bool :=
  is_decimal_unlimited (max_usd l)
  && is_integer_unlimited (max_input_tokens l)
  && is_integer_unlimited (max_output_tokens l)
  && is_integer_unlimited (max_wall_clock_ms l)
  && is_integer_unlimited (max_output_bytes l)
  && is_integer_unlimited (max_network_egress_bytes l)
  && is_integer_unlimited (max_process_count l)
  && is_integer_unlimited (max_concurrency_slots l).

Record ResourceTally := {
  usd : Decimal;
  input_tokens : N;
  output_tokens : N;
  wall_clock_ms : N;
  output_bytes : N;
  network_egress_bytes : N;
  process_count : N;
  concurrency_slots : N;
}.

#[export] Instance ResourceTally_eq_dec : EqDecision ResourceTally.
Proof. solve_decision. Defined.

Definition tally_default : ResourceTally := {|
  usd := dec_zero;
  input_tokens := 0;
  output_tokens := 0;
  wall_clock_ms := 0;
  output_bytes := 0;
  network_egress_bytes := 0;
  process_count := 0;
  concurrency_slots := 0;
|}.

Definition from_estimate (e : ResourceEstimate) : ResourceTally := {|
  usd := default dec_zero (est_usd e);
  input_tokens := default 0%N (est_input_tokens e);
  output_tokens := default 0%N (est_output_tokens e);
  wall_clock_ms := default 0%N (est_wall_clock_ms e);
  output_bytes := default 0%N (est_output_bytes e);
  network_egress_bytes := default 0%N (est_network_egress_bytes e);
  process_count := default 0%N (est_process_count e);
  concurrency_slots := default 0%N (est_concurrency_slots e);
|}.

Definition from_usage (u : ResourceUsage) : ResourceTally := {|
  usd := use_usd u;
  input_tokens := use_input_tokens u;
  output_tokens := use_output_tokens u;
  wall_clock_ms := use_wall_clock_ms u;
  output_bytes := use_output_bytes u;
  network_egress_bytes := use_network_egress_bytes u;
  process_count := use_process_count u;
  concurrency_slots := 0;
|}.

Definition add_assign (self other : ResourceTally) : ResourceTally := {|
  usd := default dec_max (dec_checked_add (usd self) (usd other));
  input_tokens := sat_add64 (input_tokens self) (input_tokens other);
  output_tokens := sat_add64 (output_tokens self) (output_tokens other);
  wall_clock_ms := sat_add64 (wall_clock_ms self) (wall_clock_ms other);
  output_bytes := sat_add64 (output_bytes self) (output_bytes other);
  network_egress_bytes :=
    sat_add64 (network_egress_bytes self) (network_egress_bytes other);
  process_count := sat_add32 (process_count self) (process_count other);
  concurrency_slots := sat_add32 (concurrency_slots self) (concurrency_slots other);
|}.

Definition sub_assign (self other : ResourceTally) : ResourceTally := {|
  usd := match dec_checked_sub (usd self) (usd other) with
         | Some value => dec_ord_max value dec_zero
         | None => dec_zero
         end;
  input_tokens := sat_sub (input_tokens self) (input_tokens other);
  output_tokens := sat_sub (output_tokens self) (output_tokens other);
  wall_clock_ms := sat_sub (wall_clock_ms self) (wall_clock_ms other);
  output_bytes := sat_sub (output_bytes self) (output_bytes other);
  network_egress_bytes :=
    sat_sub (network_egress_bytes self) (network_egress_bytes other);
  process_count := sat_sub (process_count self) (process_count other);
  concurrency_slots := sat_sub (concurrency_slots self) (concurrency_slots other);
|}.

(** *** Uniform access to the integer dimensions *)

(** The amount in an integer dimension ([Usd] reads as zero). *)
Definition tally_int (d : ResourceDimension) (t : ResourceTally) : N :=
  match d with
  | Usd => 0
  | InputTokens => input_tokens t
  | OutputTokens => output_tokens t
  | WallClockMs => wall_clock_ms t
  | OutputBytes => output_bytes t
  | NetworkEgressBytes => network_egress_bytes t
  | ProcessCount => process_count t
  | ConcurrencySlots => concurrency_slots t
  end.

(** The configured maximum in an integer dimension. *)
Definition limit_int (d : ResourceDimension) (l : ResourceLimits) : option N :=
  match d with
  | Usd => None
  | InputTokens => max_input_tokens l
  | OutputTokens => max_output_tokens l
  | WallClockMs => max_wall_clock_ms l
  | OutputBytes => max_output_bytes l
  | NetworkEgressBytes => max_network_egress_bytes l
  | ProcessCount => max_process_count l
  | ConcurrencySlots => max_concurrency_slots l
  end.

(** The width of the dimension's counter. *)
Definition dim_max (d : ResourceDimension) : N :=
  match d with
  | ProcessCount | ConcurrencySlots => u32_max
  | _ => u64_max
  end.

Lemma dim_max_le_u64 d : (dim_max d <= u64_max)%N.
Proof. by destruct d. Qed.

Lemma tally_int_default d : tally_int d tally_default = 0%N.
Proof. by destruct d. Qed.

Lemma tally_int_add d a b :
  tally_int d (add_assign a b) = sat_add (dim_max d) (tally_int d a) (tally_int d b).
Proof. by destruct d. Qed.

Lemma tally_int_sub d a b :
  tally_int d (sub_assign a b) = sat_sub (tally_int d a) (tally_int d b).
Proof. by destruct d. Qed.

(** A limit that restricts: present and not zero. *)
Definition finite_limit (d : ResourceDimension) (l : ResourceLimits) (m : N) : Prop :=
  limit_int d l = Some m /\ m <> 0%N.

Lemma is_unlimited_no_finite l d m : is_unlimited l = true -> ~ finite_limit d l m.
Proof.
  unfold is_unlimited. intros Hu [Hm Hnz]. apply Hnz.
  rewrite !andb_true_iff in Hu. destruct_and!.
  destruct d; simpl in Hm; try done; rewrite Hm in *; simpl in *;
    by apply N.eqb_eq.
Qed.

(** A well-formed tally: every counter is within its width. *)
Definition tally_wf (t : ResourceTally) : Prop :=
  forall d, (tally_int d t <= dim_max d)%N.

Lemma tally_wf_default : tally_wf tally_default.
Proof. intros d. rewrite tally_int_default. lia. Qed.

Lemma tally_wf_add a b : tally_wf (add_assign a b).
Proof. intros d. rewrite tally_int_add. apply sat_add_le. Qed.

Lemma tally_wf_sub a b : tally_wf a -> tally_wf (sub_assign a b).
Proof. intros Ha d. rewrite tally_int_sub. specialize (Ha d). unfold sat_sub. lia. Qed.
End tally.

Create HintDb tally.
#[export] Hint Resolve tally_wf_default tally_wf_add tally_wf_sub : tally.
Create Rewrite HintDb tally.
#[export] Hint Rewrite @tally_int_default @tally_int_add @tally_int_sub : tally.

Global Arguments ResourceTally {_}.
Global Arguments ResourceLimits {_}.


Inductive ResourceAccount :=
  | Tenant (tenant_id : TenantId)
  | User (tenant_id : TenantId) (user_id : UserId)
  | Project (tenant_id : TenantId) (user_id : UserId) (project_id : ProjectId)
  | Agent (tenant_id : TenantId) (user_id : UserId) (project_id : option ProjectId)
      (agent_id : AgentId)
  | Mission (tenant_id : TenantId) (user_id : UserId) (project_id : option ProjectId)
      (mission_id : MissionId)
  | Thread (tenant_id : TenantId) (user_id : UserId) (project_id : option ProjectId)
      (mission_id : option MissionId) (thread_id : ThreadId).

#[export] Instance ResourceAccount_eq_dec : EqDecision ResourceAccount.
Proof. solve_decision. Defined.

Section countable.
Let enc (a : ResourceAccount) : nat * list (option string) :=
  match a with
  | Tenant t => (0, [Some t])
  | User t u => (1, [Some t; Some u])
  | Project t u p => (2, [Some t; Some u; Some p])
  | Agent t u p g => (3, [Some t; Some u; p; Some g])
  | Mission t u p m => (4, [Some t; Some u; p; Some m])
  | Thread t u p m h => (5, [Some t; Some u; p; m; Some h])
  end.
Let dec (x : nat * list (option string)) : option ResourceAccount :=
  match x with
  | (0, [Some t]) => Some (Tenant t)
  | (1, [Some t; Some u]) => Some (User t u)
  | (2, [Some t; Some u; Some p]) => Some (Project t u p)
  | (3, [Some t; Some u; p; Some g]) => Some (Agent t u p g)
  | (4, [Some t; Some u; p; Some m]) => Some (Mission t u p m)
  | (5, [Some t; Some u; p; m; Some h]) => Some (Thread t u p m h)
  | _ => None
  end.

#[export] Instance ResourceAccount_countable : Countable ResourceAccount.
Proof. refine (inj_countable enc dec _). by intros []. Defined.
End countable.

(** [ResourceAccount::cascade]: broadest to narrowest. *)
Definition cascade (scope : ResourceScope) : list ResourceAccount :=
  let t := tenant_id scope in
  let u := user_id scope in
  [Tenant t; User t u]
  ++ match project_id scope with
     | Some p => [Project t u p]
     | None => []
     end
  ++ match agent_id scope with
     | Some g => [Agent t u (project_id scope) g]
     | None => []
     end
  ++ match mission_id scope with
     | Some m => [Mission t u (project_id scope) m]
     | None => []
     end
  ++ match thread_id scope with
     | Some h => [Thread t u (project_id scope) (mission_id scope) h]
     | None => []
     end.

Global Arguments cascade _ : simpl never.

Definition most_specific_account (scope : ResourceScope) : ResourceAccount :=
  default (Tenant (tenant_id scope)) (last (cascade scope)).

Definition or_underscore (o : option string) : string := default "_" o.

(** [impl Display for ResourceAccount] *)
Definition account_display (a : ResourceAccount) : string :=
  match a with
  | Tenant t => "tenant/" +:+ t
  | User t u => "tenant/" +:+ t +:+ "/user/" +:+ u
  | Project t u p => "tenant/" +:+ t +:+ "/user/" +:+ u +:+ "/project/" +:+ p
  | Agent t u p g =>
      "tenant/" +:+ t +:+ "/user/" +:+ u +:+ "/project/" +:+ or_underscore p
      +:+ "/agent/" +:+ g
  | Mission t u p m =>
      "tenant/" +:+ t +:+ "/user/" +:+ u +:+ "/project/" +:+ or_underscore p
      +:+ "/mission/" +:+ m
  | Thread t u p m h =>
      "tenant/" +:+ t +:+ "/user/" +:+ u +:+ "/project/" +:+ or_underscore p
      +:+ "/mission/" +:+ or_underscore m +:+ "/thread/" +:+ h
  end.

(** ** Facts about the cascade *)

Definition account_tenant (a : ResourceAccount) : TenantId :=
  match a with
  | Tenant t | User t _ | Project t _ _ | Agent t _ _ _ | Mission t _ _ _
  | Thread t _ _ _ _ => t
  end.

(** The depth of an account level: cascades are ordered by it. *)
Definition account_level (a : ResourceAccount) : nat :=
  match a with
  | Tenant _ => 0
  | User _ _ => 1
  | Project _ _ _ => 2
  | Agent _ _ _ _ => 3
  | Mission _ _ _ _ => 4
  | Thread _ _ _ _ _ => 5
  end.

(** Case analysis on which optional parts of a scope are present. *)
Ltac destruct_scope s :=
  destruct s as [? ? [?|] [?|] [?|] [?|] ?].

Lemma cascade_NoDup scope : NoDup (cascade scope).
Proof.
  destruct_scope scope; unfold cascade; simpl;
    repeat (apply NoDup_cons; split;
      [rewrite ?elem_of_cons, elem_of_nil; intuition discriminate |]); apply NoDup_nil_2.
Qed.

Lemma cascade_tenant_first scope :
  exists rest, cascade scope = Tenant (tenant_id scope) :: User (tenant_id scope) (user_id scope) :: rest.
Proof. unfold cascade. eauto. Qed.

Lemma cascade_same_tenant scope a :
  a ∈ cascade scope -> account_tenant a = tenant_id scope.
Proof.
  destruct_scope scope; unfold cascade; simpl;
    rewrite !elem_of_cons, elem_of_nil; intros; intuition (subst; done).
Qed.

Lemma most_specific_in_cascade scope : most_specific_account scope ∈ cascade scope.
Proof.
  unfold most_specific_account.
  destruct_scope scope; unfold cascade; simpl;
    rewrite ?elem_of_cons, elem_of_nil; tauto.
Qed.
