(* ===== verification/LimitCheck.v ===== *)
(** * Limit and threshold checks

    Models the per-account checks of [ironclaw_resources/src/lib.rs] a
    reservation goes through: hard limits in canonical dimension order,
    graduated warn/pause thresholds on every dimension, and their combination
    [evaluate_cascade_for_account], in which a hard denial wins over a pause. *)

From S2P Require Import Prelude Platform HostApi Period Tally.
From Stdlib Require Import Lia.
Import HostApi.Resource.

Section limit_check.
Context `{Platform}.

Record ResourceDenial := {
  den_account : ResourceAccount;
  den_dimension : ResourceDimension;
  den_limit : ResourceValue;
  den_current_usage : ResourceValue;
  den_active_reserved : ResourceValue;
  den_requested : ResourceValue;
}.

Record ResourceApprovalNeeded := {
  need_account : ResourceAccount;
  need_dimension : ResourceDimension;
  need_limit : ResourceValue;
  need_current_usage : ResourceValue;
  need_active_reserved : ResourceValue;
  need_requested : ResourceValue;
  need_utilization : f64;
  need_period_end : option DateTime;
}.

Record BudgetWarning := {
  warn_account : ResourceAccount;
  warn_dimension : ResourceDimension;
  warn_utilization : f64;
  warn_limit : ResourceValue;
  warn_period_end : option DateTime;
}.

(** [ResourceError]; boxes are transparent. *)
Inductive ResourceError :=
  | LimitExceeded (denial : ResourceDenial) (warnings : list BudgetWarning)
  | RequiresApproval (needed : ResourceApprovalNeeded) (warnings : list BudgetWarning)
  | ReservationAlreadyExists (id : ResourceReservationId)
  | InvalidEstimate (dimension : ResourceDimension) (reason : string)
  | ReservationMismatch (id : ResourceReservationId)
  | UnknownReservation (id : ResourceReservationId)
  | ReservationClosed (id : ResourceReservationId) (status : ReservationStatus)
  | Storage (reason : string).

Inductive CascadeOutcome :=
  | Allow (warnings : list BudgetWarning)
  | CascadeRequiresApproval (warnings : list BudgetWarning) (needed : ResourceApprovalNeeded)
  | Deny (warnings : list BudgetWarning) (denial : ResourceDenial).

Inductive ThresholdIntervention :=
  | Warning (w : BudgetWarning)
  | Approval (needed : ResourceApprovalNeeded).

(** [Option::or_else] *)
Definition or_else {A} (o : option A) (k : unit -> option A) : option A :=
  match o with Some _ => o | None => k tt end.

Definition check_decimal (account : ResourceAccount) (dimension : ResourceDimension)
    (limit : option Decimal) (usage reserved requested : Decimal) : option ResourceDenial :=
  match limit with
  | Some limit =>
      if decimal_lt dec_zero limit then
        let exceeds :=
          match dec_checked_add usage reserved with
          | Some subtotal =>
              match dec_checked_add subtotal requested with
              | Some total => decimal_lt limit total
              | None => true
              end
          | None => true
          end in
        if exceeds then
          Some {| den_account := account; den_dimension := dimension;
                  den_limit := VDecimal limit; den_current_usage := VDecimal usage;
                  den_active_reserved := VDecimal reserved;
                  den_requested := VDecimal requested |}
        else None
      else None
  | None => None
  end.

Definition check_integer (account : ResourceAccount) (dimension : ResourceDimension)
    (limit : option N) (usage reserved requested : N) : option ResourceDenial :=
  match limit with
  | Some limit =>
      if (0 <? limit)%N then
        if (limit <? sat_add64 (sat_add64 usage reserved) requested)%N then
          Some {| den_account := account; den_dimension := dimension;
                  den_limit := VInteger limit; den_current_usage := VInteger usage;
                  den_active_reserved := VInteger reserved;
                  den_requested := VInteger requested |}
        else None
      else None
  | None => None
  end.

(** The integer check on one dimension of the tallies. *)
Definition check_dimension (account : ResourceAccount) (limits : ResourceLimits)
    (usage reserved requested : ResourceTally) (d : ResourceDimension) :
    option ResourceDenial :=
  check_integer account d (limit_int d limits)
    (tally_int d usage) (tally_int d reserved) (tally_int d requested).

Definition check_limits_first_denial (account : ResourceAccount) (limits : ResourceLimits)
    (usage reserved requested : ResourceTally) : option ResourceDenial :=
  let check := check_dimension account limits usage reserved requested in
  or_else (or_else (or_else (or_else (or_else (or_else (or_else
    (check_decimal account Usd (max_usd limits)
       (usd usage) (usd reserved) (usd requested))
    (fun _ => check InputTokens))
    (fun _ => check OutputTokens))
    (fun _ => check WallClockMs))
    (fun _ => check OutputBytes))
    (fun _ => check NetworkEgressBytes))
    (fun _ => check ProcessCount))
    (fun _ => check ConcurrencySlots).

Record ThresholdInputs {T : Type} := {
  ti_account : ResourceAccount;
  ti_dimension : ResourceDimension;
  ti_limit : option T;
  ti_usage : T;
  ti_reserved : T;
  ti_requested : T;
  ti_thresholds : BudgetThresholds;
  ti_period_end : option DateTime;
}.
Arguments ThresholdInputs : clear implicits.

(** [d.to_f64().unwrap_or(0.0)] *)
Definition decimal_to_f64 (d : Decimal) : f64 := default f64_zero (dec_to_f64 d).

Definition threshold_decimal (inputs : ThresholdInputs Decimal) :
    option ThresholdIntervention :=
  match ti_limit inputs with
  | Some limit =>
      if decimal_lt dec_zero limit then
        match dec_checked_add (ti_usage inputs) (ti_reserved inputs) with
        | Some subtotal =>
            match dec_checked_add subtotal (ti_requested inputs) with
            | Some total =>
                let utilization := f64_div (decimal_to_f64 total) (decimal_to_f64 limit) in
                if f64_lt (pause_at (ti_thresholds inputs)) f64_one
                   && f64_ge utilization (pause_at (ti_thresholds inputs)) then
                  Some (Approval {|
                    need_account := ti_account inputs;
                    need_dimension := ti_dimension inputs;
                    need_limit := VDecimal limit;
                    need_current_usage := VDecimal (ti_usage inputs);
                    need_active_reserved := VDecimal (ti_reserved inputs);
                    need_requested := VDecimal (ti_requested inputs);
                    need_utilization := utilization;
                    need_period_end := ti_period_end inputs |})
                else if f64_lt (warn_at (ti_thresholds inputs)) f64_one
                   && f64_ge utilization (warn_at (ti_thresholds inputs)) then
                  Some (Warning {|
                    warn_account := ti_account inputs;
                    warn_dimension := ti_dimension inputs;
                    warn_utilization := utilization;
                    warn_limit := VDecimal limit;
                    warn_period_end := ti_period_end inputs |})
                else None
            | None => None
            end
        | None => None
        end
      else None
  | None => None
  end.

Definition threshold_integer (inputs : ThresholdInputs N) : option ThresholdIntervention :=
  match ti_limit inputs with
  | Some limit =>
      if (0 <? limit)%N then
        let total :=
          sat_add64 (sat_add64 (ti_usage inputs) (ti_reserved inputs)) (ti_requested inputs) in
        let utilization := f64_div (u64_as_f64 total) (u64_as_f64 limit) in
        if f64_lt (pause_at (ti_thresholds inputs)) f64_one
           && f64_ge utilization (pause_at (ti_thresholds inputs)) then
          Some (Approval {|
            need_account := ti_account inputs;
            need_dimension := ti_dimension inputs;
            need_limit := VInteger limit;
            need_current_usage := VInteger (ti_usage inputs);
            need_active_reserved := VInteger (ti_reserved inputs);
            need_requested := VInteger (ti_requested inputs);
            need_utilization := utilization;
            need_period_end := ti_period_end inputs |})
        else if f64_lt (warn_at (ti_thresholds inputs)) f64_one
           && f64_ge utilization (warn_at (ti_thresholds inputs)) then
          Some (Warning {|
            warn_account := ti_account inputs;
            warn_dimension := ti_dimension inputs;
            warn_utilization := utilization;
            warn_limit := VInteger limit;
            warn_period_end := ti_period_end inputs |})
        else None
      else None
  | None => None
  end.

(** The [absorb] closure: a pause also records a warning, and only the first
    pause is kept. *)
Definition absorb (acc : list BudgetWarning * option ResourceApprovalNeeded)
    (intervention : option ThresholdIntervention) :
    list BudgetWarning * option ResourceApprovalNeeded :=
  match intervention with
  | None => acc
  | Some (Warning w) => (acc.1 ++ [w], acc.2)
  | Some (Approval needed) =>
      (acc.1 ++ [{| warn_account := need_account needed;
                    warn_dimension := need_dimension needed;
                    warn_utilization := need_utilization needed;
                    warn_limit := need_limit needed;
                    warn_period_end := need_period_end needed |}],
       match acc.2 with None => Some needed | Some _ => acc.2 end)
  end.

Definition check_thresholds_all_interventions (account : ResourceAccount)
    (limits : ResourceLimits) (usage reserved requested : ResourceTally)
    (period_end : option DateTime) :
    list BudgetWarning * option ResourceApprovalNeeded :=
  if f64_ge (pause_at (thresholds limits)) f64_one
     && f64_ge (warn_at (thresholds limits)) f64_one
  then ([], None)
  else
    let start := absorb ([], None)
      (threshold_decimal {|
         ti_account := account; ti_dimension := Usd; ti_limit := max_usd limits;
         ti_usage := usd usage; ti_reserved := usd reserved;
         ti_requested := usd requested; ti_thresholds := thresholds limits;
         ti_period_end := period_end |}) in
    foldl (fun acc d =>
        absorb acc (threshold_integer {|
          ti_account := account; ti_dimension := d; ti_limit := limit_int d limits;
          ti_usage := tally_int d usage; ti_reserved := tally_int d reserved;
          ti_requested := tally_int d requested; ti_thresholds := thresholds limits;
          ti_period_end := period_end |}))
      start
      [InputTokens; OutputTokens; WallClockMs; OutputBytes; NetworkEgressBytes;
       ProcessCount; ConcurrencySlots].

Definition evaluate_cascade_for_account (account : ResourceAccount)
    (limits : ResourceLimits) (usage reserved requested : ResourceTally)
    (period_end : option DateTime) : Result CascadeOutcome ResourceError :=
  let '(warnings, approval) :=
    check_thresholds_all_interventions account limits usage reserved requested period_end in
  match check_limits_first_denial account limits usage reserved requested with
  | Some denial => Ok (Deny warnings denial)
  | None =>
      match approval with
      | Some needed => Ok (CascadeRequiresApproval warnings needed)
      | None => Ok (Allow warnings)
      end
  end.

(** ** Facts *)

(** What a hard limit allows: the projected amount stays within it. *)
Definition fits_integer (limit : option N) (usage reserved requested : N) : Prop :=
  forall m, limit = Some m -> m <> 0%N ->
    (sat_add64 (sat_add64 usage reserved) requested <= m)%N.

Definition fits_decimal (limit : option Decimal) (usage reserved requested : Decimal) : Prop :=
  forall m, limit = Some m -> decimal_lt dec_zero m = true ->
    exists subtotal total,
      dec_checked_add usage reserved = Some subtotal
      /\ dec_checked_add subtotal requested = Some total
      /\ decimal_lt m total = false.

Lemma check_integer_None account d limit usage reserved requested :
  check_integer account d limit usage reserved requested = None <->
  fits_integer limit usage reserved requested.
Proof.
  unfold check_integer, fits_integer. destruct limit as [m |]; [| naive_solver].
  destruct (N.ltb_spec 0 m) as [Hm | Hm].
  - destruct (N.ltb_spec m (sat_add64 (sat_add64 usage reserved) requested)) as [Hl | Hl].
    + split; [done | intros Hf; specialize (Hf m eq_refl); lia].
    + split; [intros _ m' [= <-] _; lia | done].
  - split; [intros _ m' [= <-]; lia | done].
Qed.

Lemma check_decimal_None account d limit usage reserved requested :
  check_decimal account d limit usage reserved requested = None <->
  fits_decimal limit usage reserved requested.
Proof.
  unfold check_decimal, fits_decimal. destruct limit as [m |]; [| naive_solver].
  destruct (decimal_lt dec_zero m) eqn:Hm; [| split; [intros _ m' [= <-]; congruence | done]].
  destruct (dec_checked_add usage reserved) as [sub |];
    [destruct (dec_checked_add sub requested) as [total |] eqn:Ht;
     [destruct (decimal_lt m total) eqn:Hl |] |];
    (split; [try done | try done; intros Hf; destruct (Hf m eq_refl Hm) as (? & ? & ? & ? & ?); congruence]).
  intros _ m' [= <-] _. eauto.
Qed.

Lemma or_else_None {A} (o : option A) k :
  or_else o k = None <-> o = None /\ k tt = None.
Proof. destruct o; naive_solver. Qed.

(** No denial exactly when every dimension fits. *)
Lemma check_limits_None account limits usage reserved requested :
  check_limits_first_denial account limits usage reserved requested = None <->
  fits_decimal (max_usd limits) (Tally.usd usage) (Tally.usd reserved) (Tally.usd requested)
  /\ forall d, fits_integer (limit_int d limits)
       (tally_int d usage) (tally_int d reserved) (tally_int d requested).
Proof.
  unfold check_limits_first_denial. rewrite !or_else_None, check_decimal_None.
  unfold check_dimension. rewrite !check_integer_None. split.
  - intros H'. split; [tauto |]. intros []; [| tauto..].
    intros m Hm. done.
  - intros [Hd Hi]. repeat split; [apply Hd | apply Hi..].
Qed.

(** A denial reports one of the account's own dimensions, with the amounts
    that exceeded it. *)
Lemma check_integer_Some account d limit usage reserved requested den :
  check_integer account d limit usage reserved requested = Some den ->
  exists m, limit = Some m /\ m <> 0%N
    /\ (m < sat_add64 (sat_add64 usage reserved) requested)%N
    /\ den = {| den_account := account; den_dimension := d; den_limit := VInteger m;
                den_current_usage := VInteger usage;
                den_active_reserved := VInteger reserved;
                den_requested := VInteger requested |}.
Proof.
  unfold check_integer. destruct limit as [m |]; [| done].
  destruct (N.ltb_spec 0 m) as [Hm | Hm]; [| done].
  destruct (N.ltb_spec m (sat_add64 (sat_add64 usage reserved) requested)); [| done].
  intros [= <-]. exists m. repeat split; [lia | done].
Qed.

(** A hard denial wins over a pause: the outcome is a denial exactly when
    the limits check denies, whatever the thresholds say. *)
Lemma evaluate_deny_iff account limits usage reserved requested pe den :
  (exists ws, evaluate_cascade_for_account account limits usage reserved requested pe
              = Ok (Deny ws den)) <->
  check_limits_first_denial account limits usage reserved requested = Some den.
Proof.
  unfold evaluate_cascade_for_account.
  destruct (check_thresholds_all_interventions _ _ _ _ _ _) as [ws ap].
  destruct (check_limits_first_denial _ _ _ _ _); [naive_solver |].
  destruct ap; naive_solver.
Qed.

Lemma evaluate_allow_fits account limits usage reserved requested pe ws :
  evaluate_cascade_for_account account limits usage reserved requested pe = Ok (Allow ws) ->
  check_limits_first_denial account limits usage reserved requested = None.
Proof.
  unfold evaluate_cascade_for_account.
  destruct (check_thresholds_all_interventions _ _ _ _ _ _) as [ws' ap].
  destruct (check_limits_first_denial _ _ _ _ _); [done |]. by destruct ap.
Qed.

Lemma check_thresholds_disabled account limits usage reserved requested pe :
  thresholds limits = DISABLED ->
  check_thresholds_all_interventions account limits usage reserved requested pe = ([], None).
Proof. intros Hd. unfold check_thresholds_all_interventions. by rewrite Hd. Qed.

Lemma evaluate_total account limits usage reserved requested pe :
  exists o, evaluate_cascade_for_account account limits usage reserved requested pe = Ok o.
Proof. unfold evaluate_cascade_for_account. split_matches; eauto. Qed.
End limit_check.
