(* ===== verification/BudgetGate.v ===== *)
(** * Budget approval gates and budget events

    Models [ironclaw_resources/src/gate.rs]: the gate and its status, the strict decoder
    of the persisted status, and [InMemoryBudgetGateStore], whose methods ignore the
    scope and run under one mutex over a map of gates; and the event type of
    [ironclaw_resources/src/event.rs].  The in-memory sink is the event list of
    [Governor.InMemoryResourceGovernor]; the broadcast channel of
    [BroadcastBudgetEventSink] belongs to [tokio] and is not modelled. *)

From S2P Require Import Prelude Platform HostApi Period Tally LimitCheck.
From Stdlib Require Import Lia ZArith.
Import HostApi.Resource.

Abbreviation BudgetGateId := N.

Module Gate.

Section gate.
Context `{Platform}.

Inductive BudgetGateStatus :=
  | GatePending
  | GateApproved (increased_limit : ResourceLimits) (by_ : UserId) (at_ : DateTime)
  | GateCancelled (by_ : UserId) (at_ : DateTime)
  | GateExpired (at_ : DateTime).

Record BudgetApprovalGate := {
  gate_id : BudgetGateId;
  gate_needed : ResourceApprovalNeeded;
  gate_opened_at : DateTime;
  gate_expires_at : DateTime;
  gate_status : BudgetGateStatus;
}.

Definition with_status (st : BudgetGateStatus) (g : BudgetApprovalGate) : BudgetApprovalGate := {|
  gate_id := gate_id g; gate_needed := gate_needed g; gate_opened_at := gate_opened_at g;
  gate_expires_at := gate_expires_at g; gate_status := st |}.

Definition is_terminal (st : BudgetGateStatus) : bool :=
  match st with GatePending => false | _ => true end.

Inductive BudgetGateOutcome :=
  | Approve (increased_limit : ResourceLimits) (by_ : UserId)
  | Cancel (by_ : UserId).

Inductive BudgetGateError :=
  | Unknown (id : BudgetGateId)
  | AlreadyResolved (id : BudgetGateId)
  | GateStorage (reason : string).

(** ** The persisted status *)

Inductive StatusKind := KPending | KApproved | KCancelled | KExpired.

(** The tagged object [serde] reads, after its unknown-field and per-field
    checks: an absent field is [None]. *)
Record StatusWire := {
  wire_kind : StatusKind;
  wire_increased_limit : option ResourceLimits;
  wire_by : option UserId;
  wire_at : option DateTime;
}.

Definition missing_field (field : string) : string := "missing field `" +:+ field +:+ "`".

Definition required {T} (value : option T) (field : string) : Result T string :=
  ok_or value (missing_field field).

Definition bind_result {T U E} (r : Result T E) (k : T -> Result U E) : Result U E :=
  match r with Ok v => k v | Err e => Err e end.

Definition is_some {T} (o : option T) : bool :=
  match o with Some _ => true | None => false end.

Definition decode_status (wire : StatusWire) : Result BudgetGateStatus string :=
  match wire_kind wire with
  | KPending =>
      if is_some (wire_increased_limit wire) || is_some (wire_by wire)
         || is_some (wire_at wire)
      then Err "pending budget gate status must not include terminal fields"
      else Ok GatePending
  | KApproved =>
      bind_result (required (wire_increased_limit wire) "increased_limit") (fun l =>
      bind_result (required (wire_by wire) "by") (fun b =>
      bind_result (required (wire_at wire) "at") (fun a => Ok (GateApproved l b a))))
  | KCancelled =>
      if is_some (wire_increased_limit wire)
      then Err "cancelled budget gate status must not include increased_limit"
      else
        bind_result (required (wire_by wire) "by") (fun b =>
        bind_result (required (wire_at wire) "at") (fun a => Ok (GateCancelled b a)))
  | KExpired =>
      if is_some (wire_increased_limit wire) || is_some (wire_by wire)
      then Err "expired budget gate status must not include approval fields"
      else bind_result (required (wire_at wire) "at") (fun a => Ok (GateExpired a))
  end.

(** [#[derive(Serialize)]] with [tag = "kind"]. *)
Definition encode_status (st : BudgetGateStatus) : StatusWire :=
  match st with
  | GatePending => {| wire_kind := KPending; wire_increased_limit := None;
                      wire_by := None; wire_at := None |}
  | GateApproved l b a => {| wire_kind := KApproved; wire_increased_limit := Some l;
                             wire_by := Some b; wire_at := Some a |}
  | GateCancelled b a => {| wire_kind := KCancelled; wire_increased_limit := None;
                            wire_by := Some b; wire_at := Some a |}
  | GateExpired a => {| wire_kind := KExpired; wire_increased_limit := None;
                        wire_by := None; wire_at := Some a |}
  end.

(** A persisted gate status is never misread: the decoder accepts exactly
    the shape the encoder writes for a status and returns that status, so a
    missing terminal field and a field of another state are both refused. *)
Theorem status_decode_iff wire st :
  decode_status wire = Ok st <-> wire = encode_status st.
Proof.
  split; [| by intros ->; destruct st].
  destruct wire as [[] [l |] [b |] [a |]]; simpl; intros [= <-]; reflexivity.
Qed.

(** ** [InMemoryBudgetGateStore] *)

Abbreviation Gates := (gmap BudgetGateId BudgetApprovalGate).

Definition open (gate : BudgetApprovalGate) (gates : Gates) : Result unit BudgetGateError * Gates :=
  (Ok tt, <[gate_id gate := gate]> gates).

Definition status_of_outcome (outcome : BudgetGateOutcome) (at_ : DateTime) : BudgetGateStatus :=
  match outcome with
  | Approve l b => GateApproved l b at_
  | Cancel b => GateCancelled b at_
  end.

Definition resolve (id : BudgetGateId) (outcome : BudgetGateOutcome) (at_ : DateTime)
    (gates : Gates) : Result BudgetApprovalGate BudgetGateError * Gates :=
  match gates !! id with
  | None => (Err (Unknown id), gates)
  | Some gate =>
      if is_terminal (gate_status gate) then (Err (AlreadyResolved id), gates)
      else
        let gate' := with_status (status_of_outcome outcome at_) gate in
        (Ok gate', <[id := gate']> gates)
  end.

Definition is_pending (g : BudgetApprovalGate) : bool := negb (is_terminal (gate_status g)).

Definition due (cutoff : DateTime) (g : BudgetApprovalGate) : bool :=
  is_pending g && (gate_expires_at g <=? cutoff)%Z.

Definition expire_gate (cutoff : DateTime) (g : BudgetApprovalGate) : BudgetApprovalGate :=
  if due cutoff g then with_status (GateExpired cutoff) g else g.

(** [for gate in guard.values_mut()]: every gate is visited once, in the map's
    own order, which the expired list follows. *)
Definition expire_pending_older_than (cutoff : DateTime) (gates : Gates) :
    Result (list BudgetApprovalGate) BudgetGateError * Gates :=
  (Ok (map (with_status (GateExpired cutoff))
         (filter (fun g => due cutoff g = true) (map_to_list gates).*2)),
   expire_gate cutoff <$> gates).

Definition get_gate (id : BudgetGateId) (gates : Gates) :
    Result (option BudgetApprovalGate) BudgetGateError := Ok (gates !! id).

Definition list_pending (gates : Gates) : Result (list BudgetApprovalGate) BudgetGateError :=
  Ok (filter (fun g => is_pending g = true) (map_to_list gates).*2).

(** ** Theorems *)

(** One call on the store; a gate is opened under an id not used before
    ([BudgetGateId::new] is a fresh UUID). *)
Inductive gate_step : Gates -> Gates -> Prop :=
  | step_open g gates : gates !! gate_id g = None -> gate_step gates (open g gates).2
  | step_resolve id o t gates : gate_step gates (resolve id o t gates).2
  | step_expire t gates : gate_step gates (expire_pending_older_than t gates).2.

Lemma expire_gate_terminal t g :
  is_terminal (gate_status g) = true -> expire_gate t g = g.
Proof. unfold expire_gate, due, is_pending. by intros ->. Qed.

Lemma resolve_terminal id o t gates id' g :
  gates !! id' = Some g -> is_terminal (gate_status g) = true ->
  (resolve id o t gates).2 !! id' = Some g.
Proof.
  intros Hg Ht. unfold resolve.
  destruct (gates !! id) as [g' |] eqn:Hid; [| done].
  destruct (is_terminal (gate_status g')) eqn:Ht'; [done |]; simpl.
  destruct (decide (id = id')) as [-> | Hne]; [congruence |].
  by rewrite lookup_insert_ne.
Qed.

(** A gate is decided at most once: whatever calls follow, a gate that was
    approved, cancelled or expired keeps that decision, and a later [resolve]
    is refused with [AlreadyResolved]. *)
Theorem gate_decision_final gates gates' id g :
  rtc gate_step gates gates' ->
  gates !! id = Some g -> is_terminal (gate_status g) = true ->
  gates' !! id = Some g
  /\ forall o t, resolve id o t gates' = (Err (AlreadyResolved id), gates').
Proof.
  intros Hsteps Hg Ht.
  assert (gates' !! id = Some g) as Hg'.
  { induction Hsteps as [| x y z Hxy _ IH]; [done | apply IH].
    destruct Hxy as [g' m Hfresh | id' o t m | t m]; simpl.
    - rewrite lookup_insert_ne; [done | congruence].
    - by apply resolve_terminal.
    - rewrite lookup_fmap, Hg. simpl. by rewrite expire_gate_terminal. }
  split; [done |]. intros o t. unfold resolve. by rewrite Hg', Ht.
Qed.

(** Expiry is exact: the call returns precisely the gates that were pending
    and due at the cutoff, now marked expired at it; what is still listed as
    pending afterwards is precisely what was pending and not yet due. *)
Theorem expire_exact cutoff gates :
  let '(result, gates') := expire_pending_older_than cutoff gates in
  (exists expired, result = Ok expired
     /\ forall g, g ∈ expired <->
          exists id g0, gates !! id = Some g0 /\ gate_status g0 = GatePending
            /\ (gate_expires_at g0 <= cutoff)%Z
            /\ g = with_status (GateExpired cutoff) g0)
  /\ exists pending, list_pending gates' = Ok pending
     /\ forall g, g ∈ pending <->
          exists id, gates !! id = Some g /\ gate_status g = GatePending
            /\ (cutoff < gate_expires_at g)%Z.
Proof.
  simpl. split; eexists; (split; [reflexivity |]); intros g.
  - rewrite list_elem_of_fmap. split.
    + intros (g0 & -> & [Hdue [id Hin]%elem_of_map_values]%list_elem_of_filter).
      exists id, g0. unfold due, is_pending in Hdue.
      destruct (gate_status g0); simpl in Hdue; try done. repeat split; try done. lia.
    + intros (id & g0 & Hid & Hst & Hle & ->). exists g0. split; [done |].
      apply list_elem_of_filter. split; [| apply elem_of_map_values; eauto].
      unfold due, is_pending. rewrite Hst. simpl. lia.
  - rewrite list_elem_of_filter, elem_of_map_values. split.
    + intros (Hp & id & Hid). rewrite lookup_fmap in Hid.
      destruct (gates !! id) as [g0 |] eqn:Hg0; simplify_eq/=.
      unfold expire_gate, due, is_pending in *.
      destruct (gate_status g0) eqn:Hst; simpl in *; try (rewrite Hst in Hp; done).
      destruct (Z.leb_spec (gate_expires_at g0) cutoff); simpl in *; [done |].
      exists id. done.
    + intros (id & Hid & Hst & Hlt). unfold is_pending. rewrite Hst. split; [done |].
      exists id. rewrite lookup_fmap, Hid. simpl. unfold expire_gate, due, is_pending.
      rewrite Hst. simpl. by rewrite (proj2 (Z.leb_gt _ _)).
Qed.
End gate.

Global Arguments BudgetApprovalGate {_}.
Global Arguments BudgetGateOutcome {_}.

(** ** Witness *)

Definition demo_gate : BudgetApprovalGate := {|
  gate_id := 5;
  gate_needed := {|
    need_account := Tenant "acme"; need_dimension := InputTokens;
    need_limit := VInteger 100; need_current_usage := VInteger 80;
    need_active_reserved := VInteger 0; need_requested := VInteger 15;
    need_utilization := f64_one; need_period_end := None |};
  gate_opened_at := 0%Z;
  gate_expires_at := 86400%Z;
  gate_status := GateCancelled "alice" 7%Z;
|}.

Definition demo_gates : gmap BudgetGateId BudgetApprovalGate := {[ 5%N := demo_gate ]}.

Lemma gate_decision_final_witness :
  is_terminal (gate_status demo_gate) = true
  /\ (expire_pending_older_than 90000%Z demo_gates).2 !! 5%N = Some demo_gate.
Proof.
  split; [reflexivity |].
  refine (proj1 (gate_decision_final demo_gates _ 5%N demo_gate _ _ _)).
  - eapply rtc_once, step_expire.
  - reflexivity.
  - reflexivity.
Defined.

End Gate.


Section events.
Context `{Platform}.

Inductive BudgetEvent :=
  | EvReserved (account : ResourceAccount) (r : ResourceReservation)
      (warnings : list BudgetWarning) (at_ : DateTime)
  | EvReconciled (account : ResourceAccount) (receipt : ResourceReceipt) (at_ : DateTime)
  | EvReleased (account : ResourceAccount) (receipt : ResourceReceipt) (at_ : DateTime)
  | EvWarned (warning : BudgetWarning) (at_ : DateTime)
  | EvDenied (denial : ResourceDenial) (at_ : DateTime)
  | EvApprovalRequested (needed : ResourceApprovalNeeded) (at_ : DateTime)
  | EvGateOpened (gate_id : BudgetGateId) (needed : ResourceApprovalNeeded) (at_ : DateTime)
  | EvApprovalResolved (gate : Gate.BudgetApprovalGate) (outcome : Gate.BudgetGateOutcome)
      (at_ : DateTime)
  | EvLimitChanged (account : ResourceAccount) (at_ : DateTime).
End events.

Global Arguments BudgetEvent {_}.
