(* ===== verification/Governor.v ===== *)
(** * The resource governor

    Models the state and operations of [ironclaw_resources/src/lib.rs]:
    [ResourceState] and [set_limit_in_state], [advance_period_if_rolled_over],
    [reserve_with_outcome_in_state], [reconcile_in_state], [release_in_state],
    [account_snapshot_in_state], the events each emits, and
    [InMemoryResourceGovernor], whose methods run them under its mutex.  The
    clock reading and the fresh reservation id are arguments. *)

From S2P Require Import Prelude Platform HostApi Period Tally LimitCheck BudgetGate.
From Stdlib Require Import Lia ZArith.
Import HostApi.Resource.
Local Open Scope st_scope.

Section governor.
Context `{Platform}.

Record ReservationRecord := {
  reservation : ResourceReservation;
  accounts : list ResourceAccount;
  tally : ResourceTally;
  status : ReservationStatus;
  actual : option ResourceUsage;
}.

#[export] Instance ReservationRecord_eq_dec : EqDecision ReservationRecord.
Proof. solve_decision. Defined.

Record ResourceState := {
  limits : gmap ResourceAccount ResourceLimits;
  reserved_by_account : gmap ResourceAccount ResourceTally;
  usage_by_account : gmap ResourceAccount ResourceTally;
  reservations : gmap ResourceReservationId ReservationRecord;
  period_anchors : gmap ResourceAccount DateTime;
}.

#[export] Instance ResourceState_eq_dec : EqDecision ResourceState.
Proof. solve_decision. Defined.

Definition ResourceState_default : ResourceState := {|
  limits := ∅;
  reserved_by_account := ∅;
  usage_by_account := ∅;
  reservations := ∅;
  period_anchors := ∅;
|}.

(** Field updates. *)
Definition with_limits f s := {|
  limits := f (limits s); reserved_by_account := reserved_by_account s;
  usage_by_account := usage_by_account s; reservations := reservations s;
  period_anchors := period_anchors s |}.
Definition with_reserved f s := {|
  limits := limits s; reserved_by_account := f (reserved_by_account s);
  usage_by_account := usage_by_account s; reservations := reservations s;
  period_anchors := period_anchors s |}.
Definition with_usage f s := {|
  limits := limits s; reserved_by_account := reserved_by_account s;
  usage_by_account := f (usage_by_account s); reservations := reservations s;
  period_anchors := period_anchors s |}.
Definition with_reservations f s := {|
  limits := limits s; reserved_by_account := reserved_by_account s;
  usage_by_account := usage_by_account s; reservations := f (reservations s);
  period_anchors := period_anchors s |}.
Definition with_anchors f s := {|
  limits := limits s; reserved_by_account := reserved_by_account s;
  usage_by_account := usage_by_account s; reservations := reservations s;
  period_anchors := f (period_anchors s) |}.

(** [map.get(account).cloned().unwrap_or_default()] *)
Definition tally_of (m : gmap ResourceAccount ResourceTally) (a : ResourceAccount) :
    ResourceTally := default tally_default (m !! a).

Record ReservationOutcome := {
  out_reservation : ResourceReservation;
  out_warnings : list BudgetWarning;
}.

Record PeriodLedger := {
  period_start : DateTime;
  period_end : DateTime;
  spent : ResourceTally;
  reserved : ResourceTally;
}.

Record AccountSnapshot := {
  snap_account : ResourceAccount;
  snap_limits : option ResourceLimits;
  snap_ledger : PeriodLedger;
}.

(** ** Operations on the state *)

Definition set_limit_in_state (account : ResourceAccount) (new_limits : ResourceLimits)
    (now : DateTime) (s : ResourceState) : ResourceState :=
  let prior_period := period <$> (limits s !! account) in
  let new_period := period new_limits in
  let s1 := if decide (prior_period = Some new_period) then s
            else with_anchors (delete account) (with_usage (delete account) s) in
  let s2 := with_limits <[account := new_limits]> s1 in
  with_anchors <[account := (period_bounds new_period now).2]> s2.

Definition advance_period_if_rolled_over (account : ResourceAccount) (now : DateTime)
    (s : ResourceState) : ResourceState :=
  match limits s !! account with
  | None => s
  | Some l =>
      match period l with
      | PerInvocation => s
      | p =>
          let needs_advance :=
            match period_anchors s !! account with
            | Some anchor => period_has_rolled_over anchor now
            | None => true
            end in
          if needs_advance then
            with_anchors <[account := (period_bounds p now).2]>
              (with_usage (delete account) s)
          else s
      end
  end.

Definition validate_estimate (e : ResourceEstimate) : Result unit ResourceError :=
  match est_usd e with
  | Some u => if decimal_lt u dec_zero
              then Err (InvalidEstimate Usd "must be non-negative") else Ok tt
  | None => Ok tt
  end.

Definition validate_usage (u : ResourceUsage) : Result unit ResourceError :=
  if decimal_lt (use_usd u) dec_zero
  then Err (InvalidEstimate Usd "must be non-negative") else Ok tt.

(** The limit check of one reservation: every account of the cascade that has
    limits, in order, accumulating warnings up to the first terminal. *)
Fixpoint check_cascade (s : ResourceState) (requested : ResourceTally)
    (accs : list ResourceAccount) (warnings : list BudgetWarning) :
    Result (list BudgetWarning) ResourceError :=
  match accs with
  | [] => Ok warnings
  | a :: accs' =>
      match limits s !! a with
      | None => check_cascade s requested accs' warnings
      | Some l =>
          match evaluate_cascade_for_account a l (tally_of (usage_by_account s) a)
                  (tally_of (reserved_by_account s) a) requested
                  (period_anchors s !! a) with
          | Err e => Err e
          | Ok (Allow ws) => check_cascade s requested accs' (warnings ++ ws)
          | Ok (CascadeRequiresApproval ws needed) =>
              Err (RequiresApproval needed (warnings ++ ws))
          | Ok (Deny ws denial) => Err (LimitExceeded denial (warnings ++ ws))
          end
      end
  end.

(** [for account in accounts { map.entry(account).or_default().f() }] *)
Definition update_all (f : ResourceTally -> ResourceTally) (accs : list ResourceAccount)
    (m : gmap ResourceAccount ResourceTally) : gmap ResourceAccount ResourceTally :=
  foldl (fun m a => entry_update m a tally_default f) m accs.

Definition advance_all (accs : list ResourceAccount) (now : DateTime)
    (s : ResourceState) : ResourceState :=
  foldl (fun s a => advance_period_if_rolled_over a now s) s accs.

Definition reserve_with_outcome_in_state (scope : ResourceScope)
    (estimate : ResourceEstimate) (id : ResourceReservationId) (now : DateTime) :
    ST ResourceState ResourceError ReservationOutcome :=
  let! _ := st_lift (validate_estimate estimate) in
  let! known := st_gets (fun s => reservations s !! id) in
  match known with
  | Some _ => st_err (ReservationAlreadyExists id)
  | None =>
      let accs := cascade scope in
      let requested := from_estimate estimate in
      let! _ := st_modify (advance_all accs now) in
      let! s := st_get in
      let! warnings := st_lift (check_cascade s requested accs []) in
      let r := {| rsv_id := id; rsv_scope := scope; rsv_estimate := estimate |} in
      let! _ := st_modify (with_reserved (update_all (fun t => add_assign t requested) accs)) in
      let! _ := st_modify (with_reservations
        <[rsv_id r := {| reservation := r; accounts := accs; tally := requested;
                         status := Active; actual := None |}]>) in
      st_ret {| out_reservation := r; out_warnings := warnings |}
  end.

(** The receipt of a closed reservation. *)
Definition receipt_of (id : ResourceReservationId) (record : ReservationRecord)
    (st : ReservationStatus) (actual : option ResourceUsage) : ResourceReceipt := {|
  rcpt_id := id;
  rcpt_scope := rsv_scope (reservation record);
  rcpt_status := st;
  rcpt_estimate := rsv_estimate (reservation record);
  rcpt_actual := actual;
|}.

(** [state.reservations.remove(&id).ok_or(UnknownReservation)] *)
Definition remove_reservation (id : ResourceReservationId) :
    ST ResourceState ResourceError ReservationRecord :=
  let! found := st_gets (fun s => reservations s !! id) in
  match found with
  | None => st_err (UnknownReservation id)
  | Some record =>
      let! _ := st_modify (with_reservations (delete id)) in
      st_ret record
  end.

Definition insert_reservation (id : ResourceReservationId) (record : ReservationRecord) :
    ST ResourceState ResourceError unit :=
  st_modify (with_reservations <[id := record]>).

(** The per-account step of [reconcile_in_state]. *)
Definition reconcile_account (t used : ResourceTally) (now : DateTime)
    (s : ResourceState) (a : ResourceAccount) : ResourceState :=
  let s1 := advance_period_if_rolled_over a now s in
  let s2 := with_reserved
    (fun m => entry_update m a tally_default (fun x => sub_assign x t)) s1 in
  with_usage (fun m => entry_update m a tally_default (fun x => add_assign x used)) s2.

Definition reconcile_in_state (id : ResourceReservationId) (used : ResourceUsage)
    (now : DateTime) : ST ResourceState ResourceError ResourceReceipt :=
  let! record := remove_reservation id in
  if decide (status record <> Active) then
    let! _ := insert_reservation id record in
    st_err (ReservationClosed id (status record))
  else
    match validate_usage used with
    | Err error =>
        let! _ := insert_reservation id record in st_err error
    | Ok _ =>
        let! _ := st_modify (fun s =>
          foldl (reconcile_account (tally record) (from_usage used) now) s
            (accounts record)) in
        let! _ := insert_reservation id
          {| reservation := reservation record; accounts := accounts record;
             tally := tally record; status := Reconciled; actual := Some used |} in
        st_ret (receipt_of id record Reconciled (Some used))
    end.

(** The per-account step of [release_in_state]. *)
Definition release_account (t : ResourceTally) (now : DateTime)
    (s : ResourceState) (a : ResourceAccount) : ResourceState :=
  let s1 := advance_period_if_rolled_over a now s in
  with_reserved (fun m => entry_update m a tally_default (fun x => sub_assign x t)) s1.

Definition release_in_state (id : ResourceReservationId) (now : DateTime) :
    ST ResourceState ResourceError ResourceReceipt :=
  let! record := remove_reservation id in
  if decide (status record <> Active) then
    let! _ := insert_reservation id record in
    st_err (ReservationClosed id (status record))
  else
    let! _ := st_modify (fun s =>
      foldl (release_account (tally record) now) s (accounts record)) in
    let! _ := insert_reservation id
      {| reservation := reservation record; accounts := accounts record;
         tally := tally record; status := Released; actual := actual record |} in
    st_ret (receipt_of id record Released None).

Definition account_snapshot_in_state (account : ResourceAccount) (now : DateTime)
    (s : ResourceState) : option AccountSnapshot * ResourceState :=
  let s' := advance_period_if_rolled_over account now s in
  let l := limits s' !! account in
  let res := tally_of (reserved_by_account s') account in
  let spent := tally_of (usage_by_account s') account in
  match l with
  | None =>
      if decide (res = tally_default /\ spent = tally_default) then (None, s')
      else
        let '(ps, pe) := period_bounds BudgetPeriod_default now in
        (Some {| snap_account := account; snap_limits := None;
                 snap_ledger := {| period_start := ps; period_end := pe;
                                   spent := spent; reserved := res |} |}, s')
  | Some lim =>
      let '(ps, pe) :=
        match period_anchors s' !! account, period lim with
        | Some fin, Rolling24h => ((fin - duration_hours 24)%Z, fin)
        | _, p => period_bounds p now
        end in
      (Some {| snap_account := account; snap_limits := Some lim;
               snap_ledger := {| period_start := ps; period_end := pe;
                                 spent := spent; reserved := res |} |}, s')
  end.

(** ** Events *)

(** The events [emit_reserve_events] sends, in order. *)
Definition emit_reserve_events (result : Result ReservationOutcome ResourceError)
    (at_ : DateTime) : list BudgetEvent :=
  let warnings :=
    match result with
    | Ok outcome => out_warnings outcome
    | Err (RequiresApproval _ ws) => ws
    | Err (LimitExceeded _ ws) => ws
    | Err _ => []
    end in
  map (fun w => EvWarned w at_) warnings
  ++ match result with
     | Ok outcome =>
         [EvReserved (most_specific_account (rsv_scope (out_reservation outcome)))
            (out_reservation outcome) (out_warnings outcome) at_]
     | Err (RequiresApproval needed _) => [EvApprovalRequested needed at_]
     | Err (LimitExceeded denial _) => [EvDenied denial at_]
     | Err _ => []
     end.
End governor.

Global Arguments ResourceState {_}.
Global Arguments ReservationRecord {_}.

(** ** [InMemoryResourceGovernor]

    The governor's state behind its mutex and the events its sink has received,
    oldest first; each method runs to completion under the lock. *)

Section in_memory.
Context `{Platform}.

Record InMemoryResourceGovernor := {
  gov_state : ResourceState;
  gov_events : list BudgetEvent;
}.

Definition governor_new : InMemoryResourceGovernor :=
  {| gov_state := ResourceState_default; gov_events := [] |}.

Definition emit (es : list BudgetEvent) (g : InMemoryResourceGovernor) :=
  {| gov_state := gov_state g; gov_events := gov_events g ++ es |}.

(** Runs a state operation under the lock. *)
Definition locked {T} (op : ST ResourceState ResourceError T)
    (g : InMemoryResourceGovernor) : Result T ResourceError * InMemoryResourceGovernor :=
  let '(r, s) := op (gov_state g) in
  (r, {| gov_state := s; gov_events := gov_events g |}).

Definition set_limit (account : ResourceAccount) (l : ResourceLimits) (now : DateTime)
    (g : InMemoryResourceGovernor) : Result unit ResourceError * InMemoryResourceGovernor :=
  let '(r, g') := locked (st_modify (set_limit_in_state account l now)) g in
  (r, emit [EvLimitChanged account now] g').

Definition reserve_with_id_and_outcome (scope : ResourceScope)
    (estimate : ResourceEstimate) (id : ResourceReservationId) (now : DateTime)
    (g : InMemoryResourceGovernor) :
    Result ReservationOutcome ResourceError * InMemoryResourceGovernor :=
  let '(r, g') := locked (reserve_with_outcome_in_state scope estimate id now) g in
  (r, emit (emit_reserve_events r now) g').

Definition reconcile (id : ResourceReservationId) (used : ResourceUsage) (now : DateTime)
    (g : InMemoryResourceGovernor) :
    Result ResourceReceipt ResourceError * InMemoryResourceGovernor :=
  let '(r, g') := locked (reconcile_in_state id used now) g in
  (r, match r with
      | Ok receipt =>
          emit [EvReconciled (most_specific_account (rcpt_scope receipt)) receipt now] g'
      | Err _ => g'
      end).

Definition release (id : ResourceReservationId) (now : DateTime)
    (g : InMemoryResourceGovernor) :
    Result ResourceReceipt ResourceError * InMemoryResourceGovernor :=
  let '(r, g') := locked (release_in_state id now) g in
  (r, match r with
      | Ok receipt =>
          emit [EvReleased (most_specific_account (rcpt_scope receipt)) receipt now] g'
      | Err _ => g'
      end).

Definition account_snapshot (account : ResourceAccount) (now : DateTime)
    (g : InMemoryResourceGovernor) :
    Result (option AccountSnapshot) ResourceError * InMemoryResourceGovernor :=
  let '(o, s) := account_snapshot_in_state account now (gov_state g) in
  (Ok o, {| gov_state := s; gov_events := gov_events g |}).

(** [reserved_for] and the inherent [usage_for]. *)
Definition reserved_for (account : ResourceAccount) (now : DateTime)
    (g : InMemoryResourceGovernor) : ResourceTally * InMemoryResourceGovernor :=
  let s := advance_period_if_rolled_over account now (gov_state g) in
  (tally_of (reserved_by_account s) account,
   {| gov_state := s; gov_events := gov_events g |}).

Definition usage_for (account : ResourceAccount) (now : DateTime)
    (g : InMemoryResourceGovernor) : ResourceTally * InMemoryResourceGovernor :=
  let s := advance_period_if_rolled_over account now (gov_state g) in
  (tally_of (usage_by_account s) account,
   {| gov_state := s; gov_events := gov_events g |}).
End in_memory.
