(* ===== verification/GovernorSnapshot.v ===== *)
(** * Durable snapshots of the governor and their stores

    Models the serialized form of the governor's state in
    [ironclaw_resources/src/lib.rs]: [ResourceStateSerde] (maps as vectors of pairs, in
    the iteration order of the [HashMap]), the snapshot record with its schema version
    and journal cursor, and the version check and migration of its [Deserialize]
    implementation; JSON itself ([serde_json]) is outside: a wire value is the record the
    field-level decoder sees.  Then the interface [ResourceGovernorStore] as a typeclass
    with its contract as laws, and its file-backed implementation
    [JsonFileResourceGovernorStore]: read, run the closure, write a temporary file,
    rename, sync, unlock, each of which may fail. *)

From stdpp Require Import pretty.
From S2P Require Import Prelude Platform HostApi Period Tally LimitCheck Governor.
From Stdlib Require Import Lia.
Import HostApi.Resource.

(** ** Collecting pairs into a map *)

Section collect.
Context {K V : Type} `{!EqDecision K, !Countable K}.

(** [iter.collect::<HashMap<_, _>>()]: a later pair overwrites an earlier one. *)
Definition collect (l : list (K * V)) : gmap K V :=
  foldl (fun m kv => <[kv.1 := kv.2]> m) ∅ l.

Lemma foldl_insert_list_to_map (l : list (K * V)) (m : gmap K V) :
  foldl (fun m kv => <[kv.1 := kv.2]> m) m l = list_to_map (reverse l) ∪ m.
Proof.
  revert m. induction l as [| [k v] l IH]; intros m; simpl.
  - by rewrite (left_id_L ∅ (∪)).
  - rewrite IH, reverse_cons, list_to_map_app. simpl.
    rewrite <- (assoc_L (∪)). f_equal.
    by rewrite insert_empty, insert_union_singleton_l.
Qed.

(** Whatever order the map was iterated in, collecting gives it back. *)
Lemma collect_permutation (m : gmap K V) (l : list (K * V)) :
  l ≡ₚ map_to_list m -> collect l = m.
Proof.
  intros Hl. unfold collect. rewrite foldl_insert_list_to_map, (right_id_L ∅ (∪)).
  rewrite <- (list_to_map_to_list m). apply list_to_map_proper.
  - rewrite (reverse_Permutation l), Hl. apply NoDup_fst_map_to_list.
  - by rewrite (reverse_Permutation l).
Qed.
End collect.

Section snapshot.
Context `{Platform}.

Definition RESOURCE_GOVERNOR_SNAPSHOT_SCHEMA_VERSION : N := 3.
Definition RESOURCE_GOVERNOR_SNAPSHOT_SCHEMA_V1_ACCEPTED : N := 1.
Definition RESOURCE_GOVERNOR_SNAPSHOT_SCHEMA_V2_ACCEPTED : N := 2.

Record ResourceGovernorSnapshot := {
  schema_version : N;
  state : ResourceState;
  journal_seq : N;
}.

#[export] Instance ResourceGovernorSnapshot_eq_dec : EqDecision ResourceGovernorSnapshot.
Proof. solve_decision. Defined.

Definition ResourceGovernorSnapshot_default : ResourceGovernorSnapshot := {|
  schema_version := RESOURCE_GOVERNOR_SNAPSHOT_SCHEMA_VERSION;
  state := ResourceState_default;
  journal_seq := 0;
|}.

Record ResourceStateSerde := {
  w_limits : list (ResourceAccount * ResourceLimits);
  w_reserved_by_account : list (ResourceAccount * ResourceTally);
  w_usage_by_account : list (ResourceAccount * ResourceTally);
  w_reservations : list (ResourceReservationId * ReservationRecord);
  w_period_anchors : option (list (ResourceAccount * DateTime));
}.

#[export] Instance ResourceStateSerde_eq_dec : EqDecision ResourceStateSerde.
Proof. solve_decision. Defined.

(** [impl Serialize for ResourceState]: the vectors in map iteration order. *)
Definition serialize_state (s : ResourceState) : ResourceStateSerde := {|
  w_limits := map_to_list (limits s);
  w_reserved_by_account := map_to_list (reserved_by_account s);
  w_usage_by_account := map_to_list (usage_by_account s);
  w_reservations := map_to_list (reservations s);
  w_period_anchors :=
    if decide (period_anchors s = ∅) then None
    else Some (map_to_list (period_anchors s));
|}.

(** [impl Deserialize for ResourceState] *)
Definition deserialize_state (w : ResourceStateSerde) : ResourceState := {|
  limits := collect (w_limits w);
  reserved_by_account := collect (w_reserved_by_account w);
  usage_by_account := collect (w_usage_by_account w);
  reservations := collect (w_reservations w);
  period_anchors := default ∅ (collect <$> w_period_anchors w);
|}.

(** [ResourceGovernorSnapshotSerde]: absent fields take their defaults. *)
Record ResourceGovernorSnapshotSerde := {
  w_schema_version : option N;
  w_state : ResourceStateSerde;
  w_journal_seq : option N;
}.

#[export] Instance ResourceGovernorSnapshotSerde_eq_dec :
  EqDecision ResourceGovernorSnapshotSerde.
Proof. solve_decision. Defined.

(** [#[derive(Serialize)]] with [skip_serializing_if = "is_zero"]. *)
Definition serialize_snapshot (s : ResourceGovernorSnapshot) :
    ResourceGovernorSnapshotSerde := {|
  w_schema_version := Some (schema_version s);
  w_state := serialize_state (state s);
  w_journal_seq := if (journal_seq s =? 0)%N then None else Some (journal_seq s);
|}.

(** [impl Deserialize for ResourceGovernorSnapshot]; an error carries the
    unsupported version. *)
Definition deserialize_snapshot (w : ResourceGovernorSnapshotSerde) :
    Result ResourceGovernorSnapshot N :=
  let version := default RESOURCE_GOVERNOR_SNAPSHOT_SCHEMA_VERSION (w_schema_version w) in
  let st := deserialize_state (w_state w) in
  let seq := default 0%N (w_journal_seq w) in
  if (version =? RESOURCE_GOVERNOR_SNAPSHOT_SCHEMA_VERSION)%N then
    Ok {| schema_version := version; state := st; journal_seq := seq |}
  else if (version =? RESOURCE_GOVERNOR_SNAPSHOT_SCHEMA_V1_ACCEPTED)%N
          || (version =? RESOURCE_GOVERNOR_SNAPSHOT_SCHEMA_V2_ACCEPTED)%N then
    Ok {| schema_version := RESOURCE_GOVERNOR_SNAPSHOT_SCHEMA_VERSION;
          state := st; journal_seq := 0 |}
  else Err version.

(** ** Round trip *)

(** A wire state that lists the maps of [s] in some order. *)
Definition wire_of (s : ResourceState) (w : ResourceStateSerde) : Prop :=
  w_limits w ≡ₚ map_to_list (limits s)
  /\ w_reserved_by_account w ≡ₚ map_to_list (reserved_by_account s)
  /\ w_usage_by_account w ≡ₚ map_to_list (usage_by_account s)
  /\ w_reservations w ≡ₚ map_to_list (reservations s)
  /\ match w_period_anchors w with
     | None => period_anchors s = ∅
     | Some l => l ≡ₚ map_to_list (period_anchors s)
     end.

Lemma serialize_state_wire s : wire_of s (serialize_state s).
Proof. unfold wire_of, serialize_state; simpl. by case_decide. Qed.

Lemma deserialize_wire s w : wire_of s w -> deserialize_state w = s.
Proof.
  intros (Hl & Hr & Hu & Hv & Ha). unfold deserialize_state.
  rewrite (collect_permutation _ _ Hl), (collect_permutation _ _ Hr),
    (collect_permutation _ _ Hu), (collect_permutation _ _ Hv).
  destruct (w_period_anchors w) as [l |]; simpl.
  - rewrite (collect_permutation _ _ Ha). by destruct s.
  - rewrite <- Ha. by destruct s.
Qed.

(** Nothing is lost on disk: a current-version snapshot whose maps are
    written out in any iteration order decodes to the same snapshot, journal
    cursor included. *)
Theorem snapshot_roundtrip s w :
  schema_version s = RESOURCE_GOVERNOR_SNAPSHOT_SCHEMA_VERSION ->
  wire_of (state s) (w_state w) ->
  w_schema_version w = w_schema_version (serialize_snapshot s) ->
  w_journal_seq w = w_journal_seq (serialize_snapshot s) ->
  deserialize_snapshot w = Ok s.
Proof.
  intros Hv Hw Hwv Hseq. unfold deserialize_snapshot.
  rewrite Hwv, Hseq. simpl. rewrite Hv. rewrite N.eqb_refl.
  rewrite (deserialize_wire _ _ Hw).
  destruct s as [v st seq]; simpl in *. subst v.
  destruct (N.eqb_spec seq 0) as [-> |]; done.
Qed.

(** Old snapshots migrate, unknown ones are refused: a version 1 or 2
    snapshot decodes to version 3 with its state unchanged and a zero journal
    cursor, and every version other than 1, 2 and 3 is an error. *)
Theorem snapshot_migration w v :
  w_schema_version w = Some v ->
  deserialize_snapshot w =
    (if decide (v = 1 \/ v = 2)%N then
       Ok {| schema_version := 3; state := deserialize_state (w_state w);
             journal_seq := 0 |}
     else if decide (v = 3)%N then
       Ok {| schema_version := 3; state := deserialize_state (w_state w);
             journal_seq := default 0%N (w_journal_seq w) |}
     else Err v).
Proof.
  intros Hv. unfold deserialize_snapshot. rewrite Hv. simpl.
  unfold RESOURCE_GOVERNOR_SNAPSHOT_SCHEMA_VERSION,
    RESOURCE_GOVERNOR_SNAPSHOT_SCHEMA_V1_ACCEPTED,
    RESOURCE_GOVERNOR_SNAPSHOT_SCHEMA_V2_ACCEPTED.
  destruct (N.eqb_spec v 3) as [-> | H3]; simpl; [done |].
  destruct (N.eqb_spec v 1) as [-> | H1]; simpl; [done |].
  destruct (N.eqb_spec v 2) as [-> | H2]; simpl; [done |].
  rewrite !decide_False by lia. done.
Qed.
End snapshot.


(** The closure a transaction runs on the snapshot. *)
Abbreviation SnapshotOp T := (ST ResourceGovernorSnapshot ResourceError T).

Section store.
Context `{Platform}.

Class ResourceGovernorStore (St : Type) := {
  store_update : forall {T}, SnapshotOp T -> St -> Result T ResourceError * St;
  store_inspect : forall {T},
    (ResourceGovernorSnapshot -> Result T ResourceError) -> St -> Result T ResourceError * St;
}.

(** What the trait promises of a store that is working: an [Ok] closure that
    keeps the schema version is committed, a failing one leaves the snapshot,
    inspection changes nothing. *)
Class ResourceGovernorStoreLaws (St : Type) `{ResourceGovernorStore St} := {
  healthy : St -> Prop;
  stored : St -> ResourceGovernorSnapshot;
  update_commits T (f : SnapshotOp T) st v snap :
    healthy st -> f (stored st) = (Ok v, snap) ->
    schema_version snap = schema_version (stored st) ->
    exists st', store_update f st = (Ok v, st') /\ healthy st' /\ stored st' = snap;
  update_aborts T (f : SnapshotOp T) st e snap :
    healthy st -> f (stored st) = (Err e, snap) ->
    exists st', store_update f st = (Err e, st') /\ healthy st' /\ stored st' = stored st;
  inspect_reads T (f : ResourceGovernorSnapshot -> Result T ResourceError) st :
    healthy st ->
    exists st', store_inspect f st = (f (stored st), st') /\ healthy st' /\ stored st' = stored st;
}.

(** ** [JsonFileResourceGovernorStore] *)

(** The contents of the snapshot file. *)
Inductive FileContents :=
  | Blank
  | Malformed (reason : string)
  | Json (w : ResourceGovernorSnapshotSerde).

(** The I/O failures of one transaction: creating the directory, opening or
    locking; opening or reading the file; writing the temporary file or
    renaming it; syncing the directory; unlocking. *)
Record FileFaults := {
  fault_lock : option string;
  fault_read : option string;
  fault_write : option string;
  fault_sync : option string;
  fault_unlock : option string;
}.

Definition no_faults : FileFaults := {|
  fault_lock := None; fault_read := None; fault_write := None;
  fault_sync := None; fault_unlock := None |}.

(** The file (absent or with contents) and the faults of the transactions to
    come. *)
Record JsonFileStore := {
  file : option FileContents;
  faults : list FileFaults;
}.

Definition storage_error {T} (reason : string) : Result T ResourceError :=
  Err (Storage reason).

(** The error of an unsupported version. *)
Definition unsupported_version_text (v : N) : string :=
  "unsupported resource governor snapshot schema version " +:+ pretty v +:+ "; expected "
  +:+ pretty RESOURCE_GOVERNOR_SNAPSHOT_SCHEMA_VERSION +:+ " (current), "
  +:+ pretty RESOURCE_GOVERNOR_SNAPSHOT_SCHEMA_V2_ACCEPTED
  +:+ " (v2, migrated on first write), or "
  +:+ pretty RESOURCE_GOVERNOR_SNAPSHOT_SCHEMA_V1_ACCEPTED
  +:+ " (v1, migrated on first write)".

(** [snapshot_decode_error] of it (without the position [serde_json] appends). *)
Definition unsupported_version (v : N) : string :=
  "malformed resource governor snapshot: " +:+ unsupported_version_text v.

Definition read_file_snapshot (ff : FileFaults) (f : option FileContents) :
    Result ResourceGovernorSnapshot ResourceError :=
  match f with
  | None => Ok ResourceGovernorSnapshot_default
  | Some contents =>
      match fault_read ff with
      | Some reason => storage_error reason
      | None =>
          match contents with
          | Blank => Ok ResourceGovernorSnapshot_default
          | Malformed reason =>
              storage_error ("malformed resource governor snapshot: " +:+ reason)
          | Json w =>
              match deserialize_snapshot w with
              | Ok s => Ok s
              | Err v => storage_error (unsupported_version v)
              end
          end
      end
  end.

(** Temporary file, rename, directory sync: a failed sync leaves the new file. *)
Definition write_file_snapshot_atomically (ff : FileFaults)
    (snap : ResourceGovernorSnapshot) (f : option FileContents) :
    Result unit ResourceError * option FileContents :=
  match fault_write ff with
  | Some reason => (storage_error reason, f)
  | None =>
      let f' := Some (Json (serialize_snapshot snap)) in
      match fault_sync ff with
      | Some reason => (storage_error reason, f')
      | None => (Ok tt, f')
      end
  end.

Definition update_file_snapshot {T} (ff : FileFaults) (op : SnapshotOp T)
    (f : option FileContents) : Result T ResourceError * option FileContents :=
  match read_file_snapshot ff f with
  | Err e => (Err e, f)
  | Ok snapshot =>
      match op snapshot with
      | (Err e, _) => (Err e, f)
      | (Ok value, snapshot') =>
          match write_file_snapshot_atomically ff snapshot' f with
          | (Ok _, f') => (Ok value, f')
          | (Err e, f') => (Err e, f')
          end
      end
  end.

(** [match (result, unlock_result)] *)
Definition unlock_result {T} (ff : FileFaults) (result : Result T ResourceError) :
    Result T ResourceError :=
  match result, fault_unlock ff with
  | Ok value, None => Ok value
  | Err error, _ => Err error
  | Ok _, Some reason => storage_error reason
  end.

Definition file_update {T} (op : SnapshotOp T) (st : JsonFileStore) :
    Result T ResourceError * JsonFileStore :=
  let ff := default no_faults (head (faults st)) in
  match fault_lock ff with
  | Some reason => (storage_error reason, {| file := file st; faults := tail (faults st) |})
  | None =>
      let '(result, f') := update_file_snapshot ff op (file st) in
      (unlock_result ff result, {| file := f'; faults := tail (faults st) |})
  end.

Definition file_inspect {T} (inspect : ResourceGovernorSnapshot -> Result T ResourceError)
    (st : JsonFileStore) : Result T ResourceError * JsonFileStore :=
  let ff := default no_faults (head (faults st)) in
  let st' := {| file := file st; faults := tail (faults st) |} in
  match fault_lock ff with
  | Some reason => (storage_error reason, st')
  | None =>
      (unlock_result ff
         match read_file_snapshot ff (file st) with
         | Ok snapshot => inspect snapshot
         | Err e => Err e
         end, st')
  end.

#[export] Instance JsonFileStore_store : ResourceGovernorStore JsonFileStore := {|
  store_update T := file_update;
  store_inspect T := file_inspect;
|}.

(** ** The file store keeps the contract *)

(** No fault is coming and the file, if any, holds a current snapshot. *)
Definition file_healthy (st : JsonFileStore) : Prop :=
  faults st = []
  /\ exists s, read_file_snapshot no_faults (file st) = Ok s
               /\ schema_version s = RESOURCE_GOVERNOR_SNAPSHOT_SCHEMA_VERSION.

Definition file_stored (st : JsonFileStore) : ResourceGovernorSnapshot :=
  match read_file_snapshot no_faults (file st) with
  | Ok s => s
  | Err _ => ResourceGovernorSnapshot_default
  end.

Lemma file_stored_ok st s :
  read_file_snapshot no_faults (file st) = Ok s -> file_stored st = s.
Proof. unfold file_stored. by intros ->. Qed.

(** The version field every decoded snapshot carries. *)
Lemma deserialize_current w s :
  deserialize_snapshot w = Ok s ->
  schema_version s = RESOURCE_GOVERNOR_SNAPSHOT_SCHEMA_VERSION.
Proof.
  unfold deserialize_snapshot.
  destruct (N.eqb_spec (default RESOURCE_GOVERNOR_SNAPSHOT_SCHEMA_VERSION
    (w_schema_version w)) RESOURCE_GOVERNOR_SNAPSHOT_SCHEMA_VERSION) as [Hv |].
  - by intros [= <-].
  - case_match; [by intros [= <-] | done].
Qed.

Lemma write_then_read s :
  schema_version s = RESOURCE_GOVERNOR_SNAPSHOT_SCHEMA_VERSION ->
  read_file_snapshot no_faults (Some (Json (serialize_snapshot s))) = Ok s.
Proof.
  intros Hv. simpl.
  assert (deserialize_snapshot (serialize_snapshot s) = Ok s) as ->; [| done].
  unfold deserialize_snapshot; simpl. rewrite Hv, N.eqb_refl.
  rewrite (deserialize_wire _ _ (serialize_state_wire (state s))).
  destruct s as [v st seq]; simpl in *. subst v.
  by destruct (N.eqb_spec seq 0) as [-> |].
Qed.

Lemma file_healthy_intro s :
  schema_version s = RESOURCE_GOVERNOR_SNAPSHOT_SCHEMA_VERSION ->
  file_healthy {| file := Some (Json (serialize_snapshot s)); faults := [] |}.
Proof. intros Hv. split; [done |]. exists s. split; [by apply write_then_read | done]. Qed.

#[export, refine] Instance JsonFileStore_laws : ResourceGovernorStoreLaws JsonFileStore := {|
  healthy := file_healthy;
  stored := file_stored;
|}.
Proof.
  - intros T f st v snap [Hnf (s & Hs & Hv)] Hf Hver.
    rewrite (file_stored_ok st s Hs) in Hf, Hver. rewrite Hv in Hver.
    exists {| file := Some (Json (serialize_snapshot snap)); faults := [] |}.
    split; [| split; [by apply file_healthy_intro | by apply file_stored_ok, write_then_read]].
    simpl. unfold file_update, update_file_snapshot. rewrite Hnf; simpl. by rewrite Hs, Hf.
  - intros T f st e snap [Hnf (s & Hs & Hv)] Hf.
    rewrite (file_stored_ok st s Hs) in Hf. exists st.
    split; [| split; [split; [done | by exists s] | done]].
    simpl. unfold file_update, update_file_snapshot. rewrite Hnf; simpl. rewrite Hs, Hf.
    by destruct st; simpl in *; subst.
  - intros T f st [Hnf (s & Hs & Hv)]. exists st.
    split; [| split; [split; [done | by exists s] | done]].
    rewrite (file_stored_ok st s Hs). simpl. unfold file_inspect. rewrite Hnf; simpl.
    rewrite Hs. destruct st; simpl in *; subst. by destruct (f s).
Defined.

(** Fail closed: whatever faults occur, a file transaction that reports
    success has committed its closure's snapshot, and a failing one either left
    the file as it was or had already replaced it by that same snapshot (a
    failed directory sync or unlock) -- never anything else. *)
Theorem file_update_fail_closed T (op : SnapshotOp T) st result st' :
  file_update op st = (result, st') ->
  (forall v, result = Ok v ->
     exists snap snap', op snap = (Ok v, snap')
       /\ read_file_snapshot (default no_faults (head (faults st))) (file st) = Ok snap
       /\ file st' = Some (Json (serialize_snapshot snap')))
  /\ (forall e, result = Err e ->
     file st' = file st
     \/ exists snap v snap', op snap = (Ok v, snap')
          /\ file st' = Some (Json (serialize_snapshot snap'))).
Proof.
  unfold file_update, update_file_snapshot, write_file_snapshot_atomically, unlock_result.
  destruct (fault_lock _); [intros [= <- <-]; naive_solver |].
  destruct (read_file_snapshot _ _) as [snap | e] eqn:Hr; [| intros [= <- <-]; naive_solver].
  destruct (op snap) as [[v | e] snap'] eqn:Hop; [| intros [= <- <-]; naive_solver].
  destruct (fault_write _); [intros [= <- <-]; naive_solver |].
  destruct (fault_sync _); [intros [= <- <-]; naive_solver |].
  destruct (fault_unlock _); intros [= <- <-]; naive_solver.
Qed.
End store.
