(* ===== verification/CasSnapshot.v ===== *)
(** * Snapshot stores over the compare-and-swap update

    Models [ironclaw_resources/src/cas_snapshot.rs]: one JSON snapshot per scope,
    updated through [cas_update] and read with a single [get].  The store is shared
    by the filesystem-backed governor and gate stores.  The dedicated worker thread
    that bridges the synchronous callers to the async filesystem runs one job at a
    time and is not modelled; [serde_json] is the snapshot's pair of coders. *)

From stdpp Require Import sorting.
From S2P Require Import Prelude Strings Ids Paths Mounts Filesystem Platform HostApi Scoped Cas.
From Stdlib Require Import Lia.
Import HostApi.Resource.

(** [StorageError]: [storage_from] is [storage] of the error's text. *)
Class StorageError (E : Type) := { storage : string -> E }.

(** [Snapshot], with the coders of its JSON text. *)
Class Snapshot (S : Type) := {
  RECORD_KIND : string;
  fresh : S;
  snapshot_to_json : S -> Result string string;
  snapshot_from_json : string -> Result S string;
}.

(** A snapshot whose text reads back as itself. *)
Definition readable {S} `{Snapshot S} (s : S) : Prop :=
  forall b, snapshot_to_json s = Ok b -> snapshot_from_json b = Ok s.

Section store.
Context {F : Type} `{RootFilesystem F}.
Variable resolver : ResourceScope -> Result MountView HostApiError.
Variable env : nat -> Moment -> F -> F.
Variable fires : nat -> Moment -> bool.
Context {S E : Type} `{!EqDecision S} `{!Snapshot S} `{!StorageError E}.

Definition decode_snapshot (b : string) : Result S E :=
  match snapshot_from_json b with
  | Ok s => Ok s
  | Err error => Err (storage ("decode snapshot: " +:+ error))
  end.

(** The encoder closure of [update_with_scope]; the record kinds are valid. *)
Definition encode_snapshot (s : S) : Result Entry E :=
  match snapshot_to_json s with
  | Ok b => Ok {| body := b; content_type := JSON; kind := Some RECORD_KIND; indexed := ∅ |}
  | Err error => Err (storage error)
  end.

(** The [apply] closure: the caller's mutation of the snapshot or of a fresh one. *)
Definition snapshot_apply {T} (update : S -> Result T E * S) (current : option S) :
    Result (CasApply S T) E :=
  match update (default fresh current) with
  | (Ok value, snapshot) => Ok (cas_apply_new snapshot value)
  | (Err e, _) => Err e
  end.

Definition map_snapshot_error (e : CasUpdateError E) : E :=
  match e with
  | CasApplyError inner => inner
  | Timeout => storage "snapshot CAS update timed out"
  | RetriesExhausted => storage "snapshot CAS contention: retries exhausted"
  | CasUnsupported => storage "snapshot backend does not support versioned compare-and-swap"
  | CasBackend inner => storage (filesystem_error_text inner)
  end.

Definition snapshot_path (path : string) : Result ScopedPath E :=
  match scoped_path_new path with
  | Ok p => Ok p
  | Err error =>
      Err (storage ("invalid snapshot path " +:+ path +:+ ": " +:+ host_error_text error))
  end.

Definition update_with_scope {T} (path : string) (scope : ResourceScope)
    (update : S -> Result T E * S) (fs : F) : Result T E * F :=
  match snapshot_path path with
  | Err e => (Err e, fs)
  | Ok p =>
      match cas_update resolver scope p decode_snapshot encode_snapshot (snapshot_apply update)
              env fires fs with
      | (Ok v, fs') => (Ok v, fs')
      | (Err e, fs') => (Err (map_snapshot_error e), fs')
      end
  end.

Definition read_snapshot (scope : ResourceScope) (p : ScopedPath) (fs : F) : Result S E * F :=
  match scoped_get resolver scope p fs with
  | (Ok (Some versioned), fs') => (decode_snapshot (body (ve_entry versioned)), fs')
  | (Ok None, fs') => (Ok fresh, fs')
  | (Err error, fs') => (Err (storage (filesystem_error_text error)), fs')
  end.

Definition inspect_with_scope {T} (path : string) (scope : ResourceScope)
    (inspect : S -> Result T E) (fs : F) : Result T E * F :=
  match snapshot_path path with
  | Err e => (Err e, fs)
  | Ok p =>
      match read_snapshot scope p fs with
      | (Ok s, fs') => (inspect s, fs')
      | (Err e, fs') => (Err e, fs')
      end
  end.
End store.

(** ** Linearizability *)

Section correctness.
Context {F : Type} `{VersionedStore F}.
Variable resolver : ResourceScope -> Result MountView HostApiError.
Variable env : nat -> Moment -> F -> F.
Variable fires : nat -> Moment -> bool.
Context {S E : Type} `{!EqDecision S} `{!Snapshot S} `{!StorageError E}.

(** The snapshot a virtual path holds. *)
Definition holds (fs : F) (vp : VirtualPath) (s : S) : Prop :=
  match entry_at fs vp with
  | None => s = fresh
  | Some (e, _) => snapshot_from_json (body e) = Ok s
  end.

Lemma holds_same fs fs' vp s : same_entries fs fs' -> holds fs vp s -> holds fs' vp s.
Proof using Type. unfold holds. by intros ->. Qed.

Lemma shown_holds fs scope p current version vp :
  resolve_with_permission resolver scope p ReadFile = Ok vp ->
  shown resolver scope p (decode_snapshot (E := E)) fs current version ->
  holds fs vp (default fresh current).
Proof using Type.
  intros Hvp (vp' & Hvp' & Hsh). rewrite Hvp in Hvp'. injection Hvp' as <-.
  unfold holds. destruct (entry_at fs vp) as [[e v] |].
  - destruct Hsh as (s & Hd & -> & _). unfold decode_snapshot in Hd.
    destruct (snapshot_from_json (body e)); [| done]. by injection Hd as ->.
  - by destruct Hsh as [-> _].
Qed.

Lemma encoded_body s e :
  encode_snapshot (E := E) s = Ok e -> snapshot_to_json s = Ok (body e).
Proof using Type. unfold encode_snapshot. destruct (snapshot_to_json s); [| done]. by intros [= <-]. Qed.

(** A successful update ran the closure on the snapshot held at one instant between
    the other tasks' actions, stored what the closure left, and touched nothing else. *)
Lemma update_with_scope_Ok {T} path p scope (update : S -> Result T E * S) vp fs v fs' :
  no_reincarnation env -> scoped_path_new path = Ok p ->
  (forall op, op = ReadFile \/ op = WriteFile -> resolve_with_permission resolver scope p op = Ok vp) ->
  update_with_scope resolver env fires path scope update fs = (Ok v, fs') ->
  exists now s s',
    others_only env fs now /\ holds now vp s /\ update s = (Ok v, s')
    /\ (readable s' -> holds fs' vp s')
    /\ forall q, q <> vp -> entry_at fs' q = entry_at now q.
Proof using Type.
  intros Hnr Hp Hvp. unfold update_with_scope, snapshot_path. rewrite Hp.
  destruct (cas_update _ _ _ _ _ _ _ _ _) as [[v0 | e] fs1] eqn:Hc; [| done].
  intros [= -> <-]. apply update_atomic in Hc
    as (now & current & version & a & Ho & Hsh & [Ha Hv] & Hend); [| done].
  unfold snapshot_apply in Ha.
  destruct (update (default fresh current)) as [[v0 | e] s'] eqn:Hu; [| done].
  injection Ha as <-. simpl in Hv. subst v0.
  pose proof (shown_holds now scope p current version vp (Hvp _ (or_introl eq_refl)) Hsh) as Hh.
  exists now, (default fresh current), s'. split; [done |]. split; [done |]. split; [done |].
  destruct Hend as [[[Hsk | Hsk] Hsame] | (e & He & Hwr)]; simpl in *; [done | |].
  - subst current. simpl in *. split; [intros _; by apply (holds_same now) |]. intros q _. apply Hsame.
  - destruct Hwr as (vp' & v' & Hvp' & _ & Hnew & Hold).
    rewrite (Hvp WriteFile) in Hvp' by auto. injection Hvp' as <-.
    split; [| done]. intros Hrd. unfold holds. rewrite Hnew. by apply Hrd, encoded_body.
Qed.
End correctness.
