(* ===== verification/GateStore.v ===== *)
(** * The filesystem-backed gate store

    Models [FilesystemBudgetGateStore] of [ironclaw_resources/src/filesystem_store.rs]:
    all gates of an owner in one snapshot, every call a read-modify-write that ends
    by pruning old decided gates.  A call reads the clock once; a retry of the
    closure would read it again.  The floats of a gate (a utilisation and the
    thresholds of an approved limit) are compared as values, and never NaN. *)

From stdpp Require Import sorting pretty.
From S2P Require Import Prelude Strings Ids Paths Mounts Filesystem Platform HostApi Scoped Cas Composition RunState RunStateFacts RunStateFs RunStateDemo Period Tally LimitCheck BudgetGate CasSnapshot.
From Stdlib Require Import Lia ZArith.
Import HostApi.Resource.
Import BudgetGate.Gate.

Abbreviation GateMap := (gmap BudgetGateId BudgetApprovalGate).

Section gates.
Context `{Platform}.

#[export] Instance ResourceApprovalNeeded_eq_dec : EqDecision ResourceApprovalNeeded.
Proof. solve_decision. Defined.
#[export] Instance BudgetGateStatus_eq_dec : EqDecision BudgetGateStatus.
Proof. solve_decision. Defined.
#[export] Instance BudgetApprovalGate_eq_dec : EqDecision BudgetApprovalGate.
Proof. solve_decision. Defined.

Definition GATES_SNAPSHOT_PATH : string := "/resources/budget-gates.json".

Record BudgetGateSnapshot := {
  gates_schema : N;
  gates : GateMap;
}.

#[export] Instance BudgetGateSnapshot_eq_dec : EqDecision BudgetGateSnapshot.
Proof. solve_decision. Defined.

Definition CURRENT_SCHEMA : N := 1.

Definition ensure_current (s : BudgetGateSnapshot) : Result unit BudgetGateError * BudgetGateSnapshot :=
  if (gates_schema s =? 0)%N
  then (Ok tt, {| gates_schema := CURRENT_SCHEMA; gates := gates s |})
  else if negb (gates_schema s =? CURRENT_SCHEMA)%N
  then (Err (GateStorage ("budget gate snapshot schema " +:+ pretty (gates_schema s)
               +:+ " is not supported (expected " +:+ pretty CURRENT_SCHEMA +:+ ")")), s)
  else (Ok tt, s).

(** [serde_json] on the derived coders of the snapshot. *)
Class GateJson := {
  gates_to_json : BudgetGateSnapshot -> Result string string;
  gates_from_json : string -> Result BudgetGateSnapshot string;
}.

#[export] Instance BudgetGateError_storage : StorageError BudgetGateError := {|
  storage := GateStorage |}.

#[export] Instance BudgetGateSnapshot_snapshot `{GateJson} : Snapshot BudgetGateSnapshot := {|
  RECORD_KIND := "budget_gate_snapshot";
  fresh := {| gates_schema := CURRENT_SCHEMA; gates := ∅ |};
  snapshot_to_json := gates_to_json;
  snapshot_from_json := gates_from_json;
|}.

(** When a decided gate was decided. *)
Definition decided_at (st : BudgetGateStatus) : option DateTime :=
  match st with
  | GatePending => None
  | GateApproved _ _ a | GateCancelled _ a | GateExpired a => Some a
  end.

Definition retained (cutoff : DateTime) (g : BudgetApprovalGate) : bool :=
  match decided_at (gate_status g) with None => true | Some a => (cutoff <=? a)%Z end.

Definition prune_terminal_gates (cutoff : DateTime) (m : GateMap) : GateMap :=
  filter (fun kv => retained cutoff kv.2 = true) m.

(** The pruning at the end of a call. *)
Definition prune_with (terminal_retention : option Z) (now : DateTime) (m : GateMap) : GateMap :=
  match terminal_retention with
  | Some retention => prune_terminal_gates (now - retention)%Z m
  | None => m
  end.

(** The closure [with_snapshot] hands to the snapshot store. *)
Definition wrapped {T} (terminal_retention : option Z) (now : DateTime)
    (update : GateMap -> Result T BudgetGateError * GateMap) (s : BudgetGateSnapshot) :
    Result T BudgetGateError * BudgetGateSnapshot :=
  match ensure_current s with
  | (Err e, s') => (Err e, s')
  | (Ok _, s') =>
      match update (gates s') with
      | (Err e, m) => (Err e, {| gates_schema := gates_schema s'; gates := m |})
      | (Ok value, m) =>
          (Ok value, {| gates_schema := CURRENT_SCHEMA;
                        gates := prune_with terminal_retention now m |})
      end
  end.

(** The calls of [BudgetGateStore]; their effect on the gates is the one of the
    in-memory store. *)
Inductive GateCall :=
  | COpen (gate : BudgetApprovalGate)
  | CResolve (id : BudgetGateId) (outcome : BudgetGateOutcome) (at_ : DateTime)
  | CExpire (cutoff : DateTime)
  | CGet (id : BudgetGateId)
  | CListPending.

Definition answer (c : GateCall) : Type :=
  match c with
  | COpen _ => unit
  | CResolve _ _ _ => BudgetApprovalGate
  | CExpire _ | CListPending => list BudgetApprovalGate
  | CGet _ => option BudgetApprovalGate
  end.

Definition gate_call (c : GateCall) : GateMap -> Result (answer c) BudgetGateError * GateMap :=
  match c with
  | COpen gate => open gate
  | CResolve id outcome at_ => resolve id outcome at_
  | CExpire cutoff => expire_pending_older_than cutoff
  | CGet id => fun m => (get_gate id m, m)
  | CListPending => fun m => (list_pending m, m)
  end.
End gates.

Section store.
Context `{Platform} `{GateJson}.
Context {F : Type} `{RootFilesystem F}.
Variable resolver : ResourceScope -> Result MountView HostApiError.
Variable env : nat -> Moment -> F -> F.
Variable fires : nat -> Moment -> bool.

(** [with_snapshot] *)
Definition with_snapshot {T} (terminal_retention : option Z) (now : DateTime)
    (scope : ResourceScope) (update : GateMap -> Result T BudgetGateError * GateMap) :
    F -> Result T BudgetGateError * F :=
  update_with_scope resolver env fires GATES_SNAPSHOT_PATH scope
    (wrapped terminal_retention now update).

(** The methods of [FilesystemBudgetGateStore]. *)
Definition fs_gate (terminal_retention : option Z) (now : DateTime)
    (scope : ResourceScope) (c : GateCall) : F -> Result (answer c) BudgetGateError * F :=
  with_snapshot terminal_retention now scope (gate_call c).
End store.

(** ** Linearizability *)

Section correctness.
Context `{Platform} `{GateJson}.
Context {F : Type} `{VersionedStore F}.
Variable resolver : ResourceScope -> Result MountView HostApiError.
Context `{!StoreMounts resolver "resources"}.
Variable env : nat -> Moment -> F -> F.
Variable fires : nat -> Moment -> bool.

Local Abbreviation storable_ := (storable resolver "resources" _).

Definition gates_place (scope : ResourceScope) : VirtualPath :=
  path_of (root_of resolver "resources" _ scope ++ ["budget-gates.json"]).

(** The gates an owner's snapshot holds. *)
Definition gates_at (fs : F) (scope : ResourceScope) (m : GateMap) : Prop :=
  exists s, holds fs (gates_place scope) s /\ gates s = m.

Lemma gates_path_resolves scope op :
  storable_ scope -> op = ReadFile \/ op = WriteFile ->
  resolve_with_permission resolver scope GATES_SNAPSHOT_PATH op = Ok (gates_place scope).
Proof using Type.
  intros Hs Hop. change GATES_SNAPSHOT_PATH with (path_of ["resources"; "budget-gates.json"]).
  apply mounts_resolve; [done | done |]. apply Forall_singleton. literal_segment.
Qed.

Lemma gates_place_inj scope scope' :
  storable_ scope -> storable_ scope' -> gates_place scope = gates_place scope' ->
  tenant_id scope = tenant_id scope' /\ user_id scope = user_id scope'.
Proof using Type.
  intros Hs Hs' Hp. pose proof (root_segments scope Hs) as [Hn Hr].
  pose proof (root_segments scope' Hs') as [Hn' Hr'].
  assert (Forall segment_ok ["budget-gates.json"]) as Hleaf by (apply Forall_singleton; literal_segment).
  apply path_of_inj in Hp;
    [| by apply Forall_app | by apply Forall_app
     | by destruct (root_of resolver "resources" _ scope)
     | by destruct (root_of resolver "resources" _ scope')].
  by apply mounts_apart in Hp as (? & ? & _).
Qed.

Lemma wrapped_Ok {T} retention now update s (v : T) s' :
  wrapped retention now update s = (Ok v, s') ->
  exists m, update (gates s) = (Ok v, m) /\ gates s' = prune_with retention now m.
Proof using Type.
  unfold wrapped, ensure_current.
  destruct (gates_schema s =? 0)%N; [| destruct (negb _); [done |]]; simpl;
    destruct (update (gates s)) as [[v' | e] m]; intros [= <- <-]; eauto.
Qed.

(** The filesystem gate store is linearizable. A successful call of any method,
    whatever other tasks do meanwhile, is at one instant the in-memory method on the
    gates the owner's snapshot then holds, followed by the pruning of old decided
    gates; it leaves the result in the snapshot (if its text reads back), and the
    gates of every other tenant or user as they were at that instant. *)
Theorem fs_gates_linearizable retention now scope (c : GateCall) fs v fs' :
  storable_ scope -> no_reincarnation env ->
  fs_gate resolver env fires retention now scope c fs = (Ok v, fs') ->
  exists inst m m',
    others_only env fs inst /\ gates_at inst scope m /\ gate_call c m = (Ok v, m')
    /\ (exists s', gates s' = prune_with retention now m'
          /\ (readable s' -> gates_at fs' scope (prune_with retention now m')))
    /\ forall scope' m0, storable_ scope' ->
         tenant_id scope' <> tenant_id scope \/ user_id scope' <> user_id scope ->
         gates_at inst scope' m0 -> gates_at fs' scope' m0.
Proof.
  intros Hs Hnr Hrun. unfold fs_gate, with_snapshot in Hrun.
  eapply update_with_scope_Ok in Hrun as (inst & s & s' & Ho & Hh & Hu & Hr & Hoth);
    [| done | done | intros op Hop; by apply gates_path_resolves].
  apply wrapped_Ok in Hu as (m' & Hu & Hs').
  exists inst, (gates s), m'. split; [done |]. split; [by exists s |]. split; [done |]. split.
  - exists s'. split; [done |]. intros Hrd. exists s'. auto.
  - intros scope' m0 Hsc Hne (s0 & Hh0 & <-). exists s0. split; [| done].
    unfold holds. rewrite Hoth; [done |]. intros Hp%gates_place_inj; [| done..].
    destruct Hp as [Ht Hus]. destruct Hne; congruence.
Qed.
End correctness.

(** ** Decisions in a pruned store *)

Section decisions.
Context `{Platform}.

Definition opens (id : BudgetGateId) (c : GateCall) : Prop :=
  match c with COpen gate => gate_id gate = id | _ => False end.

(** One successful call that does not open [id] anew, with its pruning; no cutoff is
    later than [latest]. *)
Definition fs_gate_step (latest : DateTime) (id : BudgetGateId) (m m' : GateMap) : Prop :=
  exists (c : GateCall) v m1 retention now,
    gate_call c m = (Ok v, m1) /\ ~ opens id c
    /\ (forall d, retention = Some d -> (now - d <= latest)%Z)
    /\ m' = prune_with retention now m1.

Lemma gate_call_keeps (c : GateCall) m id g :
  ~ opens id c -> is_terminal (gate_status g) = true \/ m !! id = None ->
  m !! id = Some g \/ m !! id = None -> (gate_call c m).2 !! id = m !! id.
Proof.
  intros Hop Hg Hm. destruct c as [g0 | i o a | t | i |]; simpl; [| | | done | done].
  - by rewrite lookup_insert_ne.
  - unfold resolve. destruct (m !! i) as [g1 |] eqn:Hi; [| done].
    destruct (is_terminal (gate_status g1)) eqn:Ht; [done |]. simpl.
    rewrite lookup_insert_ne; [done |]. intros ->. destruct Hg, Hm; congruence.
  - rewrite lookup_fmap. destruct Hm as [Hm | Hm]; rewrite Hm; simpl; [| done].
    destruct Hg as [Hg | ?]; [| congruence]. by rewrite expire_gate_terminal.
Qed.

Lemma prune_lookup retention now (m : GateMap) id :
  prune_with retention now m !! id = m !! id
  \/ (prune_with retention now m !! id = None
      /\ exists g a d, m !! id = Some g /\ decided_at (gate_status g) = Some a
           /\ retention = Some d /\ (a < now - d)%Z).
Proof.
  unfold prune_with, prune_terminal_gates. destruct retention as [d |]; [| by left].
  rewrite map_lookup_filter. destruct (m !! id) as [g |] eqn:Hm; simpl; [| by left].
  unfold retained. destruct (decided_at (gate_status g)) as [a |] eqn:Hd.
  - destruct (Z.leb_spec (now - d) a); [left | right].
    + by rewrite option_guard_True.
    + rewrite option_guard_False by done. split; [done |]. exists g, a, d. auto.
  - left. by rewrite option_guard_True.
Qed.

(** No second decision in the filesystem store either: whatever successful calls
    follow (none of which opens the same id anew), a decided gate keeps its decision
    until it is pruned, which happens only once the decision is older than the
    retention, and resolving it again never succeeds; an undecided gate is never
    pruned. *)
Theorem fs_gate_decision_final latest m m' id g a :
  rtc (fs_gate_step latest id) m m' ->
  m !! id = Some g -> decided_at (gate_status g) = Some a ->
  (m' !! id = Some g \/ (m' !! id = None /\ (a < latest)%Z))
  /\ (forall o t, is_ok (resolve id o t m').1 = false)
  /\ forall retention now i g0, gate_status g0 = GatePending ->
       m' !! i = Some g0 -> prune_with retention now m' !! i = Some g0.
Proof.
  intros Hsteps Hg Ha.
  assert (is_terminal (gate_status g) = true) as Ht by (by destruct (gate_status g)).
  assert (m' !! id = Some g \/ (m' !! id = None /\ (a < latest)%Z)) as Hm'.
  { assert (m !! id = Some g \/ (m !! id = None /\ (a < latest)%Z)) as Hm by auto. clear Hg.
    induction Hsteps as [m | m1 m2 m3 (c & v & mc & ret & now & Hc & Hop & Hlat & ->) _ IH];
      [done | apply IH].
    assert (mc !! id = m1 !! id) as Hk.
    { change mc with ((Ok v : Result (answer c) BudgetGateError, mc).2). rewrite <- Hc.
      apply (gate_call_keeps c m1 id g); [done | auto | naive_solver]. }
    destruct (prune_lookup ret now mc id) as [-> | (-> & g1 & a1 & d & Hg1 & Ha1 & -> & Hlt)];
      rewrite Hk in *; [done |].
    right. split; [done |]. destruct Hm as [Hm | [_ Hm]]; [| done].
    specialize (Hlat d eq_refl). assert (a1 = a) as -> by congruence. lia. }
  split; [done |]. split.
  - intros o t. unfold resolve. destruct Hm' as [-> | [-> _]]; [by rewrite Ht | done].
  - intros ret now i g0 Hp Hi.
    destruct (prune_lookup ret now m' i) as [-> | (_ & g1 & a1 & d & Hg1 & Ha1 & _)]; [done |].
    rewrite Hi in Hg1. injection Hg1 as <-. by rewrite Hp in Ha1.
Qed.
End decisions.
