(* ===== verification/GovernorFs.v ===== *)
(** * The governor over the filesystem

    Models [FilesystemResourceGovernorStore] of
    [ironclaw_resources/src/filesystem_store.rs]: the governor's snapshot under the
    system scope, updated through the snapshot store.  Every transaction is atomic
    whatever other tasks do; undisturbed over the in-memory backend the store keeps
    the contract of [ResourceGovernorStore], so that the durable governor over it
    refines the in-memory governor. *)

From stdpp Require Import sorting pretty.
From S2P Require Import Prelude Strings Ids Paths Mounts Filesystem Platform HostApi Scoped Cas Composition RunState RunStateFacts RunStateFs RunStateDemo Period Tally LimitCheck Governor GovernorSnapshot CasSnapshot.
From Stdlib Require Import Lia.
Import HostApi.Resource.

Definition GOVERNOR_SNAPSHOT_PATH : string := "/resources/snapshot.json".

Section codec.
Context `{Platform} `{JsonCodec ResourceGovernorSnapshotSerde}.

#[export] Instance ResourceError_storage : StorageError ResourceError := {| storage := Storage |}.

(** The snapshot's [Serialize] and [Deserialize] around the JSON text of the wire
    shape. *)
#[export] Instance governor_snapshot : Snapshot ResourceGovernorSnapshot := {|
  RECORD_KIND := "resource_governor_snapshot";
  fresh := ResourceGovernorSnapshot_default;
  snapshot_to_json s := to_vec_pretty (serialize_snapshot s);
  snapshot_from_json b :=
    match from_slice b with
    | Err e => Err e
    | Ok w =>
        match deserialize_snapshot w with
        | Ok s => Ok s
        | Err v => Err (unsupported_version_text v)
        end
    end;
|}.

Lemma current_readable s :
  schema_version s = RESOURCE_GOVERNOR_SNAPSHOT_SCHEMA_VERSION -> readable s.
Proof using Type.
  intros Hv b Hb. simpl in *. rewrite (json_roundtrip _ _ Hb).
  pose proof (write_then_read s Hv) as Hw. simpl in Hw.
  by destruct (deserialize_snapshot (serialize_snapshot s)); simplify_eq.
Qed.
End codec.

Section store.
Context `{Platform} `{JsonCodec ResourceGovernorSnapshotSerde}.
Context {F : Type} `{RootFilesystem F}.
Variable resolver : ResourceScope -> Result MountView HostApiError.
Variable env : nat -> Moment -> F -> F.
Variable fires : nat -> Moment -> bool.
Variable system_id : InvocationId.

Definition fs_governor_update {T} (op : SnapshotOp T) : F -> Result T ResourceError * F :=
  update_with_scope resolver env fires GOVERNOR_SNAPSHOT_PATH (system system_id) op.

Definition fs_governor_inspect {T}
    (inspect : ResourceGovernorSnapshot -> Result T ResourceError) : F -> Result T ResourceError * F :=
  inspect_with_scope resolver GOVERNOR_SNAPSHOT_PATH (system system_id) inspect.

Definition fs_governor_store : ResourceGovernorStore F := {|
  store_update T := fs_governor_update;
  store_inspect T := fs_governor_inspect;
|}.
End store.

(** ** Atomic transactions *)

Section correctness.
Context `{Platform} `{JsonCodec ResourceGovernorSnapshotSerde}.
Context {F : Type} `{VersionedStore F}.
Variable resolver : ResourceScope -> Result MountView HostApiError.
Context `{!StoreMounts resolver "resources"}.
Variable env : nat -> Moment -> F -> F.
Variable fires : nat -> Moment -> bool.
Variable system_id : InvocationId.
Hypothesis system_storable : storable resolver "resources" _ (system system_id).

Definition governor_place : VirtualPath :=
  path_of (root_of resolver "resources" _ (system system_id) ++ ["snapshot.json"]).

Lemma governor_path_resolves op :
  op = ReadFile \/ op = WriteFile ->
  resolve_with_permission resolver (system system_id) GOVERNOR_SNAPSHOT_PATH op = Ok governor_place.
Proof using system_storable.
  intros Hop. change GOVERNOR_SNAPSHOT_PATH with (path_of ["resources"; "snapshot.json"]).
  apply mounts_resolve; [done | done |]. apply Forall_singleton. literal_segment.
Qed.

(** A transaction on the filesystem-backed governor is atomic across processes:
    whatever other tasks do meanwhile and whenever the timeout fires, a transaction
    that reports success ran on the snapshot stored at one instant (or on a fresh
    one), and the backend is left with what it computed and nothing else changed
    since that instant; a transaction that keeps the schema current leaves a snapshot
    that reads back. *)
Theorem fs_governor_atomic {T} (op : SnapshotOp T) fs v fs' :
  no_reincarnation env ->
  fs_governor_update resolver env fires system_id op fs = (Ok v, fs') ->
  exists inst snap snap',
    others_only env fs inst /\ holds inst governor_place snap /\ op snap = (Ok v, snap')
    /\ (schema_version snap' = RESOURCE_GOVERNOR_SNAPSHOT_SCHEMA_VERSION ->
        holds fs' governor_place snap')
    /\ forall q, q <> governor_place -> entry_at fs' q = entry_at inst q.
Proof.
  intros Hnr Hrun.
  eapply update_with_scope_Ok in Hrun as (inst & s & s' & Ho & Hh & Hu & Hr & Hoth);
    [| done | done | intros k Hk; by apply governor_path_resolves].
  exists inst, s, s'. split; [done |]. split; [done |]. split; [done |]. split; [| done].
  intros Hv. by apply Hr, current_readable.
Qed.
End correctness.

(** ** The store contract, undisturbed over the in-memory backend *)

Section quiet.
Variable resolver : ResourceScope -> Result MountView HostApiError.
Context {S E : Type} `{!EqDecision S} `{!Snapshot S} `{!StorageError E}.
Variables (path : string) (p : ScopedPath) (scope : ResourceScope) (vp : VirtualPath).
Hypothesis path_accepted : scoped_path_new path = Ok p.
Hypothesis path_resolves : forall op, op = ReadFile \/ op = WriteFile ->
  resolve_with_permission resolver scope p op = Ok vp.

(** Nothing is stored below the snapshot. *)
Definition no_child (s : InMemory.State) : Prop :=
  forall q, starts_with (InMemory.with_trailing_slash vp) q = true -> InMemory.entries s !! q = None.

Lemma no_child_put s e cas :
  no_child s ->
  existsb (starts_with (InMemory.with_trailing_slash vp)) (InMemory.keys s) = false
  /\ (InMemory.check_cas vp cas (InMemory.version <$> InMemory.entries s !! vp) = Ok tt ->
      exists v s', InMemory.put vp e cas s = (Ok v, s')).
Proof using Type.
  intros Hn. assert (existsb (starts_with (InMemory.with_trailing_slash vp)) (InMemory.keys s) = false)
    as Hex.
  { apply not_true_iff_false. intros (q & Hq & Hs)%existsb_exists.
    apply list_elem_of_In, list_elem_of_fmap in Hq as ([q' st] & -> & Hq).
    apply elem_of_map_to_list in Hq. simpl in Hs. by rewrite (Hn q' Hs) in Hq. }
  split; [done |]. intros Hc. unfold InMemory.put. rewrite Hex, Hc. eauto.
Qed.

Local Abbreviation run update :=
  (update_with_scope (E := E) resolver idle no_timeout path scope update).

(** The read of the first attempt. *)
Lemma quiet_read s snap :
  holds s vp snap ->
  exists found current version,
    scoped_get resolver scope p s = (Ok found, s)
    /\ decode_current (decode_snapshot (E := E)) found = Ok (current, version)
    /\ default fresh current = snap
    /\ InMemory.check_cas vp (expectation version) (InMemory.version <$> InMemory.entries s !! vp)
       = Ok tt.
Proof using path_resolves.
  unfold holds, scoped_get, guarded. rewrite (path_resolves ReadFile) by auto. simpl.
  unfold InMemory.get. destruct (InMemory.entries s !! vp) as [st |]; simpl.
  - intros Hd. do 3 eexists. split; [done |]. simpl. unfold decode_snapshot. rewrite Hd.
    split; [done |]. split; [done |]. simpl. by rewrite N.eqb_refl.
  - intros ->. do 3 eexists. split; [done |]. split; [done |]. by split.
Qed.

Lemma quiet_unfold {T} (update : S -> Result T E * S) s o s' :
  cas_attempt resolver scope p (decode_snapshot (E := E)) encode_snapshot (snapshot_apply update)
    idle no_timeout 0 s = (Done o, s') ->
  run update s = (match o with Ok v => Ok v | Err e => Err (map_snapshot_error e) end, s').
Proof using path_accepted.
  intros Ha. unfold update_with_scope, snapshot_path. rewrite path_accepted.
  unfold cas_update. change (capabilities_known (fs_capabilities s)
    && negb (capabilities_support_cas (fs_capabilities s))) with false. cbv iota.
  unfold cas_update_loop, FILESYSTEM_CAS_RETRIES. simpl cas_loop. rewrite Ha. by destruct o.
Qed.

(** An undisturbed transaction whose closure succeeds commits. *)
Lemma quiet_commits {T} (update : S -> Result T E * S) s snap v snap' :
  no_child s -> holds s vp snap -> update snap = (Ok v, snap') ->
  (exists b, snapshot_to_json snap' = Ok b) ->
  exists s', run update s = (Ok v, s').
Proof using path_accepted path_resolves.
  intros Hn Hh Hu [b Hb].
  destruct (quiet_read s snap Hh) as (found & current & version & Hg & Hd & Hcur & Hcas).
  assert (exists s', cas_attempt resolver scope p (decode_snapshot (E := E)) encode_snapshot
    (snapshot_apply update) idle no_timeout 0 s = (Done (Ok v), s')) as [s' Ha];
    [| exists s'; by rewrite (quiet_unfold _ _ _ _ Ha)].
  unfold cas_attempt. simpl. unfold idle at 1. rewrite Hg, Hd.
  unfold snapshot_apply. rewrite Hcur, Hu. simpl.
  case_bool_decide as Heq; [eauto |].
  unfold attempt_write, encode_snapshot. simpl. rewrite Hb. unfold idle at 1, scoped_put, guarded.
  rewrite (path_resolves WriteFile) by auto.
  destruct (no_child_put s {| body := b; content_type := JSON; kind := Some RECORD_KIND;
    indexed := ∅ |} (expectation version) Hn) as [_ Hput].
  destruct (Hput Hcas) as (w & s' & Hp). exists s'. simpl. by rewrite Hp.
Qed.

(** One whose closure fails changes nothing. *)
Lemma quiet_aborts {T} (update : S -> Result T E * S) s snap e snap' :
  holds s vp snap -> update snap = (Err e, snap') -> run update s = (Err e, s).
Proof using path_accepted path_resolves.
  intros Hh Hu.
  destruct (quiet_read s snap Hh) as (found & current & version & Hg & Hd & Hcur & _).
  rewrite (quiet_unfold update s (Err (CasApplyError e)) s); [done |].
  unfold cas_attempt. simpl. unfold idle at 1. rewrite Hg, Hd.
  unfold snapshot_apply. by rewrite Hcur, Hu.
Qed.

Lemma quiet_inspect {T} (inspect : S -> Result T E) s snap :
  holds s vp snap -> inspect_with_scope resolver path scope inspect s = (inspect snap, s).
Proof using path_accepted path_resolves.
  intros Hh. unfold inspect_with_scope, snapshot_path. rewrite path_accepted.
  unfold read_snapshot, scoped_get, guarded. rewrite (path_resolves ReadFile) by auto. simpl.
  unfold InMemory.get. unfold holds in Hh. simpl in Hh.
  destruct (InMemory.entries s !! vp) as [st |]; simpl in *; [| by subst].
  unfold decode_snapshot. by rewrite Hh.
Qed.
End quiet.

Section contract.
Context `{Platform} `{JsonCodec ResourceGovernorSnapshotSerde}.
Variable resolver : ResourceScope -> Result MountView HostApiError.
Context `{!StoreMounts resolver "resources"}.
Variable system_id : InvocationId.
Hypothesis system_storable : storable resolver "resources" _ (system system_id).

(** Every snapshot has a text. *)
Hypothesis encodes : forall w : ResourceGovernorSnapshotSerde, exists b, to_vec_pretty w = Ok b.

Local Abbreviation place := (governor_place resolver system_id).

#[local] Instance quiet_store : ResourceGovernorStore InMemory.State :=
  fs_governor_store resolver idle no_timeout system_id.

Definition quiet_healthy (s : InMemory.State) : Prop :=
  no_child place s
  /\ exists snap, holds s place snap
       /\ schema_version snap = RESOURCE_GOVERNOR_SNAPSHOT_SCHEMA_VERSION.

Definition quiet_stored (s : InMemory.State) : ResourceGovernorSnapshot :=
  match InMemory.entries s !! place with
  | None => ResourceGovernorSnapshot_default
  | Some st =>
      match snapshot_from_json (body (InMemory.entry st)) with
      | Ok snap => snap
      | Err _ => ResourceGovernorSnapshot_default
      end
  end.

Lemma quiet_stored_holds s snap : holds s place snap -> quiet_stored s = snap.
Proof using Type.
  unfold holds, quiet_stored. simpl. destruct (InMemory.entries s !! place) as [st |]; simpl.
  - by intros ->.
  - by intros ->.
Qed.

Lemma quiet_transaction {T} (op : SnapshotOp T) s snap v snap' :
  no_child place s -> holds s place snap -> op snap = (Ok v, snap') ->
  schema_version snap' = RESOURCE_GOVERNOR_SNAPSHOT_SCHEMA_VERSION ->
  exists s', fs_governor_update resolver idle no_timeout system_id op s = (Ok v, s')
    /\ no_child place s' /\ holds s' place snap'.
Proof using system_storable encodes.
  intros Hn Hh Hop Hv.
  pose proof (governor_path_resolves resolver system_id system_storable) as Hres.
  destruct (quiet_commits resolver GOVERNOR_SNAPSHOT_PATH GOVERNOR_SNAPSHOT_PATH (system system_id)
    place eq_refl Hres op s snap v snap' Hn Hh Hop (encodes _)) as [s' Hrun].
  exists s'. split; [done |].
  destruct (update_with_scope_Ok resolver idle no_timeout GOVERNOR_SNAPSHOT_PATH _
    (system system_id) op place s v s' idle_no_reincarnation eq_refl Hres Hrun)
    as (inst & s0 & s1 & Ho%idle_same & Hh0 & Hu & Hr & Hoth).
  assert (s0 = snap) as ->.
  { apply quiet_stored_holds in Hh0. apply (holds_same _ inst) in Hh; [| done].
    apply quiet_stored_holds in Hh. congruence. }
  rewrite Hop in Hu. injection Hu as <-. split.
  - intros q Hq. destruct (decide (q = place)) as [-> | Hne].
    + exfalso. unfold InMemory.with_trailing_slash, governor_place in Hq.
      pose proof (root_segments _ system_storable) as [Hrn Hrs].
      rewrite path_of_no_trailing_slash in Hq;
        [| by destruct (root_of _ _ _ _)
         | apply Forall_app; split; [done | apply Forall_singleton; literal_segment]].
      apply starts_with_iff in Hq as [t Ht]. rewrite app_assoc_s in Ht.
      rewrite <- (app_nil_r_s (path_of _)) in Ht at 1. by apply app_inj_l_s in Ht.
    + specialize (Hoth q Hne). specialize (Ho q). simpl in Hoth, Ho. rewrite Ho, (Hn q Hq) in Hoth.
      by destruct (InMemory.entries s' !! q).
  - by apply Hr, current_readable.
Qed.

(** The filesystem-backed store keeps the contract of the trait, so that every theorem
    about a durable governor over a lawful store applies to it. *)
#[refine] Definition fs_governor_laws : ResourceGovernorStoreLaws InMemory.State := {|
  healthy := quiet_healthy;
  stored := quiet_stored;
|}.
Proof.
  - intros T op s v snap' [Hn (snap & Hh & Hv)] Hop Hver.
    rewrite (quiet_stored_holds s snap Hh) in Hop, Hver. rewrite Hv in Hver.
    destruct (quiet_transaction op s snap v snap' Hn Hh Hop Hver) as (s' & Hrun & Hn' & Hh').
    exists s'. split; [done |]. split; [by split; [| exists snap'] | by apply quiet_stored_holds].
  - intros T op s e snap' [Hn (snap & Hh & Hv)] Hop.
    rewrite (quiet_stored_holds s snap Hh) in Hop. exists s.
    split; [| split; [by split; [| exists snap] | done]].
    exact (quiet_aborts resolver GOVERNOR_SNAPSHOT_PATH GOVERNOR_SNAPSHOT_PATH (system system_id)
      place eq_refl (governor_path_resolves resolver system_id system_storable) op s snap e snap'
      Hh Hop).
  - intros T inspect s [Hn (snap & Hh & Hv)]. exists s.
    rewrite (quiet_stored_holds s snap Hh).
    split; [| split; [by split; [| exists snap] | done]].
    exact (quiet_inspect resolver GOVERNOR_SNAPSHOT_PATH GOVERNOR_SNAPSHOT_PATH (system system_id)
      place eq_refl (governor_path_resolves resolver system_id system_storable) inspect s snap Hh).
Defined.
End contract.
