(* ===== verification/PersistentGovernor.v ===== *)
(** * The durable governor and its unlimited fast path

    Models [PersistentResourceGovernor] of [ironclaw_resources/src/lib.rs] over
    any [ResourceGovernorStore]: the durable path, and the opt-in fast path that
    keeps bookkeeping process-local while no finite limit is configured. *)

From S2P Require Import Prelude Platform HostApi Period Tally LimitCheck BudgetGate Governor GovernorSnapshot.
Import HostApi.Resource.

Section persistent.
Context `{Platform}.

Record UnlimitedFastPathState := {
  fp_state : ResourceState;
  fp_initialized : bool;
}.

Definition resource_state_has_finite_limits (s : ResourceState) : bool :=
  existsb (fun kv => negb (is_unlimited kv.2)) (map_to_list (limits s)).

Definition sanitized_unlimited_fast_path_state (s : ResourceState) : ResourceState := {|
  limits := limits s;
  reserved_by_account := ∅;
  usage_by_account := ∅;
  reservations := ∅;
  period_anchors := period_anchors s;
|}.

(** [for (account, tally) in local { target.entry(account).or_default()
    .add_assign(tally) }] *)
Definition merge_tallies (target local : gmap ResourceAccount ResourceTally) :
    gmap ResourceAccount ResourceTally :=
  foldl (fun m kv => entry_update m kv.1 tally_default (fun t => add_assign t kv.2))
    target (map_to_list local).

Definition merge_unlimited_fast_path_state (target local : ResourceState) : ResourceState := {|
  limits := limits target;
  reserved_by_account :=
    merge_tallies (reserved_by_account target) (reserved_by_account local);
  usage_by_account := merge_tallies (usage_by_account target) (usage_by_account local);
  reservations := reservations local ∪ reservations target;
  period_anchors := period_anchors local ∪ period_anchors target;
|}.

(** Runs a state operation on the state of a snapshot. *)
Definition on_state {T} (op : ST ResourceState ResourceError T) :
    ST ResourceGovernorSnapshot ResourceError T :=
  fun snap =>
    let '(r, s) := op (state snap) in
    (r, {| schema_version := schema_version snap; state := s;
           journal_seq := journal_seq snap |}).

Section methods.
Context {St : Type} `{!ResourceGovernorStore St}.

Record PersistentResourceGovernor := {
  store : St;
  unlimited_fast_path : bool;
  unlimited_state : UnlimitedFastPathState;
  p_events : list BudgetEvent;
}.

(** [new] and [with_unlimited_fast_path]. *)
Definition persistent_new (st : St) (fast : bool) : PersistentResourceGovernor := {|
  store := st;
  unlimited_fast_path := fast;
  unlimited_state := {| fp_state := ResourceState_default; fp_initialized := false |};
  p_events := [];
|}.

Definition with_store st p := {|
  store := st; unlimited_fast_path := unlimited_fast_path p;
  unlimited_state := unlimited_state p; p_events := p_events p |}.
Definition with_local l p := {|
  store := store p; unlimited_fast_path := unlimited_fast_path p;
  unlimited_state := l; p_events := p_events p |}.
Definition p_emit es p := {|
  store := store p; unlimited_fast_path := unlimited_fast_path p;
  unlimited_state := unlimited_state p; p_events := p_events p ++ es |}.

(** A transaction on the store. *)
Definition durable {T} (op : ST ResourceGovernorSnapshot ResourceError T) :
    ST PersistentResourceGovernor ResourceError T :=
  fun p => let '(r, st) := store_update op (store p) in (r, with_store st p).

Definition unlimited_fast_path_seed :
    ST PersistentResourceGovernor ResourceError (option ResourceState) :=
  fun p =>
    if negb (unlimited_fast_path p) then (Ok None, p)
    else
      let '(r, st) := store_inspect (fun snapshot =>
        Ok (if resource_state_has_finite_limits (state snapshot) then None
            else Some (sanitized_unlimited_fast_path_state (state snapshot))))
        (store p) in
      (r, with_store st p).

(** The local state under its lock, seeded on first use. *)
Definition local_or_seed (seed : ResourceState) (p : PersistentResourceGovernor) :
    ResourceState :=
  if fp_initialized (unlimited_state p) then fp_state (unlimited_state p) else seed.

Definition set_local (s : ResourceState) (p : PersistentResourceGovernor) :
    PersistentResourceGovernor :=
  with_local {| fp_state := s; fp_initialized := true |} p.

Definition update_active_state {T} (update : ST ResourceState ResourceError T) :
    ST PersistentResourceGovernor ResourceError T :=
  st_bind unlimited_fast_path_seed (fun seed =>
    match seed with
    | Some seed => fun p =>
        let '(r, s) := update (local_or_seed seed p) in (r, set_local s p)
    | None => durable (on_state update)
    end).

Definition close_fast_path_or_durable {T} (local_close : ST ResourceState ResourceError T)
    (durable_close : ST ResourceGovernorSnapshot ResourceError T) :
    ST PersistentResourceGovernor ResourceError T :=
  st_bind unlimited_fast_path_seed (fun seed =>
    match seed with
    | Some seed => fun p =>
        let '(r, s) := local_close (local_or_seed seed p) in
        let p' := set_local s p in
        match r with
        | Ok value => (Ok value, p')
        | Err (UnknownReservation _) => durable durable_close p'
        | Err error => (Err error, p')
        end
    | None => durable durable_close
    end).

Definition try_set_limit (account : ResourceAccount) (l : ResourceLimits)
    (now : DateTime) : ST PersistentResourceGovernor ResourceError unit :=
  fun p =>
    if unlimited_fast_path p then
      let local_state := fp_state (unlimited_state p) in
      let local_initialized := fp_initialized (unlimited_state p) in
      let setting_finite_limit := negb (is_unlimited l) in
      match durable (on_state (fun s =>
          let s1 :=
            if local_initialized && setting_finite_limit
               && negb (resource_state_has_finite_limits s)
            then merge_unlimited_fast_path_state s local_state else s in
          let s2 := set_limit_in_state account l now s1 in
          (Ok s2, s2))) p with
      | (Err e, p') => (Err e, p')
      | (Ok updated_state, p') =>
          let local :=
            if resource_state_has_finite_limits updated_state then updated_state
            else if local_initialized then set_limit_in_state account l now local_state
            else sanitized_unlimited_fast_path_state updated_state in
          (Ok tt, set_local local p')
      end
    else durable (on_state (st_modify (set_limit_in_state account l now))) p.

(** *** [impl ResourceGovernor for PersistentResourceGovernor] *)

Definition p_set_limit (account : ResourceAccount) (l : ResourceLimits) (now : DateTime)
    (p : PersistentResourceGovernor) :
    Result unit ResourceError * PersistentResourceGovernor :=
  let '(outcome, p') := try_set_limit account l now p in
  (outcome, if is_ok outcome then p_emit [EvLimitChanged account now] p' else p').

Definition p_reserve (scope : ResourceScope) (estimate : ResourceEstimate)
    (id : ResourceReservationId) (now : DateTime) (p : PersistentResourceGovernor) :
    Result ReservationOutcome ResourceError * PersistentResourceGovernor :=
  let '(result, p') :=
    update_active_state (reserve_with_outcome_in_state scope estimate id now) p in
  (result, p_emit (emit_reserve_events result now) p').

Definition p_reconcile (id : ResourceReservationId) (used : ResourceUsage)
    (now : DateTime) (p : PersistentResourceGovernor) :
    Result ResourceReceipt ResourceError * PersistentResourceGovernor :=
  let '(result, p') :=
    close_fast_path_or_durable (reconcile_in_state id used now)
      (on_state (reconcile_in_state id used now)) p in
  (result, match result with
           | Ok receipt =>
               p_emit [EvReconciled (most_specific_account (rcpt_scope receipt))
                         receipt now] p'
           | Err _ => p'
           end).

Definition p_release (id : ResourceReservationId) (now : DateTime)
    (p : PersistentResourceGovernor) :
    Result ResourceReceipt ResourceError * PersistentResourceGovernor :=
  let '(result, p') :=
    close_fast_path_or_durable (release_in_state id now)
      (on_state (release_in_state id now)) p in
  (result, match result with
           | Ok receipt =>
               p_emit [EvReleased (most_specific_account (rcpt_scope receipt))
                         receipt now] p'
           | Err _ => p'
           end).

Definition p_account_snapshot (account : ResourceAccount) (now : DateTime) :
    ST PersistentResourceGovernor ResourceError (option AccountSnapshot) :=
  update_active_state (fun s =>
    let '(o, s') := account_snapshot_in_state account now s in (Ok o, s')).

Definition p_reserved_for (account : ResourceAccount) (now : DateTime) :
    ST PersistentResourceGovernor ResourceError ResourceTally :=
  update_active_state (fun s =>
    let s' := advance_period_if_rolled_over account now s in
    (Ok (tally_of (reserved_by_account s') account), s')).

Definition p_usage_for (account : ResourceAccount) (now : DateTime) :
    ST PersistentResourceGovernor ResourceError ResourceTally :=
  update_active_state (fun s =>
    let s' := advance_period_if_rolled_over account now s in
    (Ok (tally_of (usage_by_account s') account), s')).
End methods.
Global Arguments PersistentResourceGovernor : clear implicits.
End persistent.
