(* ===== verification/Demo.v ===== *)
(** * Concrete runs of the governor and of the snapshot stores

    Runs of the governor with and without its fast path; the production mount views carry
    the stores' snapshots; runs of the gate store and of the governor store over the
    in-memory backend, with coders that know the text of one snapshot. *)

From stdpp Require Import sorting.
From S2P Require Import Prelude Strings Ids Paths Mounts Filesystem Platform HostApi Scoped Cas Composition RunState RunStateFs RunStateDemo Period Tally LimitCheck BudgetGate Governor GovernorSnapshot CasSnapshot GateStore GovernorFs PersistentGovernor.
Import HostApi.Resource.

Definition demo_scope : ResourceScope := {|
  tenant_id := "acme"; user_id := "alice"; agent_id := None;
  project_id := Some "apollo"; mission_id := None; thread_id := Some "t1";
  invocation_id := 1;
|}.

Definition demo_estimate (tokens : N) : ResourceEstimate := {|
  est_usd := Some 5%Z; est_input_tokens := Some tokens; est_output_tokens := None;
  est_wall_clock_ms := None; est_output_bytes := None; est_network_egress_bytes := None;
  est_process_count := None; est_concurrency_slots := Some 1%N;
|}.

Definition demo_usage (tokens : N) : ResourceUsage := {|
  use_usd := 3%Z; use_input_tokens := tokens; use_output_tokens := 0;
  use_wall_clock_ms := 0; use_output_bytes := 0; use_network_egress_bytes := 0;
  use_process_count := 0;
|}.

(** A limit of [n] input tokens. *)
Definition token_limit (n : N) : ResourceLimits := {|
  max_usd := None; max_input_tokens := Some n; max_output_tokens := None;
  max_wall_clock_ms := None; max_output_bytes := None; max_network_egress_bytes := None;
  max_process_count := None; max_concurrency_slots := None;
  period := Rolling24h; thresholds := DISABLED;
|}.

Definition demo_account : ResourceAccount := Tenant "acme".

(** A tenant with a budget of 100 input tokens. *)
Definition demo_limited : ResourceState :=
  set_limit_in_state demo_account (token_limit 100) 0%Z ResourceState_default.

(** The same after reserving 60 of them under id 7. *)
Definition demo_reserved : ResourceState :=
  (reserve_with_outcome_in_state demo_scope (demo_estimate 60) 7 1%Z demo_limited).2.

Definition demo_outcome (tokens : N) (id : ResourceReservationId) : ReservationOutcome := {|
  out_reservation := {| rsv_id := id; rsv_scope := demo_scope;
                        rsv_estimate := demo_estimate tokens |};
  out_warnings := [];
|}.

(** A governor over a file store that has no file yet. *)
Definition demo_store : JsonFileStore := {| file := None; faults := [] |}.

Definition demo_persistent (fast : bool) : PersistentResourceGovernor JsonFileStore :=
  persistent_new demo_store fast.

(** ** Witnesses of the snapshot layer *)

Definition demo_snapshot : ResourceGovernorSnapshot := {|
  schema_version := RESOURCE_GOVERNOR_SNAPSHOT_SCHEMA_VERSION;
  state := demo_limited;
  journal_seq := 4;
|}.

Lemma snapshot_roundtrip_witness :
  schema_version demo_snapshot = 3%N
  /\ deserialize_snapshot (serialize_snapshot demo_snapshot) = Ok demo_snapshot.
Proof.
  split; [reflexivity |].
  apply (snapshot_roundtrip demo_snapshot (serialize_snapshot demo_snapshot));
    [reflexivity | apply serialize_state_wire | reflexivity | reflexivity].
Defined.

Definition demo_wire (v : N) : ResourceGovernorSnapshotSerde := {|
  w_schema_version := Some v;
  w_state := serialize_state demo_limited;
  w_journal_seq := Some 9%N;
|}.

Lemma snapshot_migration_witness :
  w_schema_version (demo_wire 2) = Some 2%N
  /\ deserialize_snapshot (demo_wire 2)
     = Ok {| schema_version := 3; state := deserialize_state (w_state (demo_wire 2));
             journal_seq := 0 |}.
Proof.
  split; [reflexivity |].
  rewrite (snapshot_migration (demo_wire 2) 2 eq_refl).
  by rewrite decide_True by (right; reflexivity).
Defined.

(** Setting a limit through a store whose directory sync fails. *)
Definition sync_failure : FileFaults := {|
  fault_lock := None; fault_read := None; fault_write := None;
  fault_sync := Some "sync"; fault_unlock := None |}.

Definition demo_store_op : ST ResourceGovernorSnapshot ResourceError unit :=
  st_put demo_snapshot.

Lemma file_update_fail_closed_witness :
  let '(r, st') := file_update demo_store_op {| file := None; faults := [sync_failure] |} in
  r = Err (Storage "sync")
  /\ (file st' = None
      \/ exists snap v snap', demo_store_op snap = (Ok v, snap')
           /\ file st' = Some (Json (serialize_snapshot snap'))).
Proof.
  destruct (file_update demo_store_op {| file := None; faults := [sync_failure] |})
    as [r st'] eqn:Hrun.
  assert (r = Err (Storage "sync")) as ->
    by (unfold file_update in Hrun; simpl in Hrun; congruence).
  split; [reflexivity |].
  exact (proj2 (file_update_fail_closed unit demo_store_op _ _ _ Hrun) _ eq_refl).
Defined.

Import BudgetGate.Gate.

#[export] Instance resources_mounts slack : StoreMounts (invocation_mount_view slack) "resources" :=
  production_mounts slack "resources" ltac:(unfold per_user_labels; set_solver).

(** ** The governor store *)

Lemma system_storable id : production_scope (system id).
Proof.
  split; [constructor |]. split; [| done].
  split; (literal_segment).
Qed.

(** A coder that knows the text of one value. *)
#[refine] Definition one_text {A} `{EqDecision A} (known : A) : JsonCodec A := {|
  to_vec_pretty a := if decide (a = known) then Ok "{}" else Err "unknown value";
  from_slice b := if String.eqb b "{}" then Ok known else Err "unknown text";
|}.
Proof. intros a b. case_decide; [| done]. by intros [= <-]; subst. Defined.

#[local] Instance demo_governor_codec : JsonCodec ResourceGovernorSnapshotSerde :=
  one_text (serialize_snapshot demo_snapshot).

(** A transaction that installs the demo snapshot on a backend without one. *)
Lemma fs_governor_atomic_witness :
  (fs_governor_update (invocation_mount_view false) idle no_timeout 1 demo_store_op
     InMemory.new).1 = Ok tt
  /\ exists inst snap,
       others_only idle InMemory.new inst
       /\ holds inst (governor_place (invocation_mount_view false) 1) snap
       /\ demo_store_op snap = (Ok tt, demo_snapshot).
Proof.
  assert ((fs_governor_update (invocation_mount_view false) idle no_timeout 1 demo_store_op
             InMemory.new).1 = Ok tt) as Hok by vm_refl.
  split; [exact Hok |].
  destruct (fs_governor_update (invocation_mount_view false) idle no_timeout 1 demo_store_op
    InMemory.new) as [r fs'] eqn:Hrun. simpl in Hok. subst r.
  destruct (fs_governor_atomic (invocation_mount_view false)
    (StoreMounts0 := resources_mounts false) idle no_timeout 1 (system_storable 1)
    demo_store_op InMemory.new tt fs' idle_no_reincarnation Hrun)
    as (inst & snap & snap' & Ho & Hh & Hop & _).
  exists inst, snap. exact (conj Ho (conj Hh eq_refl)).
Defined.

(** ** The gate store *)

Definition pending_gate : BudgetApprovalGate := with_status GatePending demo_gate.

Definition opened : BudgetGateSnapshot := {|
  gates_schema := CURRENT_SCHEMA; gates := {[ 5%N := pending_gate ]} |}.

#[local] Instance demo_gate_json : GateJson := {|
  gates_to_json s := if decide (s = opened) then Ok "{}" else Err "unknown value";
  gates_from_json b := if String.eqb b "{}" then Ok opened else Err "unknown text";
|}.

Definition open_gate : InMemory.State -> Result unit BudgetGateError * InMemory.State :=
  fs_gate (invocation_mount_view false) idle no_timeout (Some 100%Z) 0%Z ann (COpen pending_gate).

Lemma fs_gates_linearizable_witness :
  (open_gate InMemory.new).1 = Ok tt
  /\ exists inst m, gates_at (invocation_mount_view false) inst ann m
       /\ gate_call (COpen pending_gate) m = (Ok tt, <[5%N := pending_gate]> m).
Proof.
  assert ((open_gate InMemory.new).1 = Ok tt) as Hok by vm_refl.
  split; [exact Hok |].
  destruct (open_gate InMemory.new) as [r fs'] eqn:Hrun. simpl in Hok. subst r.
  destruct (fs_gates_linearizable (invocation_mount_view false)
    (StoreMounts0 := resources_mounts false) idle no_timeout (Some 100%Z) 0%Z
    ann (COpen pending_gate) InMemory.new tt fs' ann_storable idle_no_reincarnation Hrun)
    as (inst & m & m' & _ & Hm & Hc & _).
  exists inst, m. exact (conj Hm eq_refl).
Defined.

(** An expiry sweep at time 50 that keeps decisions for 100. *)
Definition swept_gates : GateMap :=
  prune_with (Some 100%Z) 50%Z (expire_pending_older_than 50%Z demo_gates).2.

Lemma swept_step : fs_gate_step 0%Z 5%N demo_gates swept_gates.
Proof.
  exists (CExpire 50%Z). do 4 eexists. split; [reflexivity |].
  split; [by intros [] |]. split; [| reflexivity]. by intros d [= <-].
Qed.

Lemma fs_gate_decision_final_witness :
  (swept_gates !! 5%N = Some demo_gate \/ (swept_gates !! 5%N = None /\ (7 < 0)%Z))
  /\ is_ok (resolve 5%N (Cancel "bob") 60%Z swept_gates).1 = false.
Proof.
  destruct (fs_gate_decision_final 0%Z demo_gates swept_gates 5%N demo_gate 7%Z
    (rtc_once _ _ swept_step) eq_refl eq_refl) as (Hk & Hr & _).
  exact (conj Hk (Hr (Cancel "bob") 60%Z)).
Defined.
