(* ===== verification/GovernorFacts.v ===== *)
(** * Lemmas of the resource governor

    Frame lemmas of the state operations (what each leaves unchanged), the
    run-lemmas that give the outcome of [reserve], [reconcile] and [release] on
    each branch, and the effect of the account loops on the tallies. *)

From S2P Require Import Prelude Platform HostApi Period Tally LimitCheck BudgetGate Governor.
From Stdlib Require Import Lia ZArith.
Import HostApi.Resource.

Section facts.
Context `{Platform}.
Implicit Types (s : ResourceState) (a : ResourceAccount).

(** Two states that differ at most in the period-scoped spend. *)
Definition same_holds s s' : Prop :=
  limits s' = limits s
  /\ reserved_by_account s' = reserved_by_account s
  /\ reservations s' = reservations s.

#[export] Instance same_holds_equiv : Equivalence same_holds.
Proof.
  split.
  - intros s. done.
  - intros s s' (? & ? & ?). done.
  - intros s1 s2 s3 (? & ? & ?) (? & ? & ?). repeat split; congruence.
Qed.

(** ** Period rollover *)

Lemma advance_same_holds a now s : same_holds s (advance_period_if_rolled_over a now s).
Proof. unfold advance_period_if_rolled_over. split_matches; done. Qed.

Lemma advance_limits a now s :
  limits (advance_period_if_rolled_over a now s) = limits s.
Proof. apply advance_same_holds. Qed.

Lemma advance_reserved a now s :
  reserved_by_account (advance_period_if_rolled_over a now s) = reserved_by_account s.
Proof. apply advance_same_holds. Qed.

Lemma advance_reservations a now s :
  reservations (advance_period_if_rolled_over a now s) = reservations s.
Proof. apply advance_same_holds. Qed.

(** Spend of one account after a rollover check: kept or dropped. *)
Lemma advance_usage a now s b :
  tally_of (usage_by_account (advance_period_if_rolled_over a now s)) b =
    tally_of (usage_by_account s) b
  \/ (a = b /\ tally_of (usage_by_account (advance_period_if_rolled_over a now s)) b
             = tally_default).
Proof.
  unfold advance_period_if_rolled_over, tally_of.
  repeat (case_match; simplify_eq/=; try (by left));
    (destruct (decide (a = b)) as [-> | Hne];
     [right; by rewrite lookup_delete_eq | left; by rewrite lookup_delete_ne]).
Qed.

Lemma advance_all_same_holds accs now s : same_holds s (advance_all accs now s).
Proof.
  unfold advance_all. revert s.
  induction accs as [| a accs IH]; intros s; simpl; [done |].
  etrans; [apply (advance_same_holds a now) | apply IH].
Qed.

(** ** The account loops *)

Lemma tally_of_entry_update m a f b :
  tally_of (entry_update m a tally_default f) b =
  if decide (a = b) then f (tally_of m a) else tally_of m b.
Proof. apply entry_update_default. Qed.

Lemma tally_of_update_all f accs m b :
  NoDup accs ->
  tally_of (update_all f accs m) b =
  if decide (b ∈ accs) then f (tally_of m b) else tally_of m b.
Proof.
  unfold update_all. intros Hnd. revert m.
  induction Hnd as [| a accs Ha Hnd IH]; intros m; simpl; [done |].
  rewrite IH, tally_of_entry_update.
  destruct (decide (a = b)) as [-> | Hne].
  - rewrite decide_False by done. by rewrite decide_True by left.
  - by rewrite (decide_ext (b ∈ a :: accs) (b ∈ accs)) by (rewrite elem_of_cons; intuition congruence).
Qed.

(** The holds after [release] or [reconcile]'s loop: the tally is subtracted
    from every account; limits and records stay. *)
Definition holds_subtracted (t : ResourceTally) accs s s' : Prop :=
  limits s' = limits s
  /\ reserved_by_account s' =
       update_all (fun x => sub_assign x t) accs (reserved_by_account s)
  /\ reservations s' = reservations s.

Lemma release_loop t now accs s :
  holds_subtracted t accs s (foldl (release_account t now) s accs).
Proof.
  unfold holds_subtracted. revert s.
  induction accs as [| a accs IH]; intros s; simpl; [done |].
  destruct (IH (release_account t now s a)) as (-> & -> & ->).
  unfold release_account; simpl.
  by rewrite advance_limits, advance_reserved, advance_reservations.
Qed.

Lemma reconcile_loop t used now accs s :
  holds_subtracted t accs s (foldl (reconcile_account t used now) s accs).
Proof.
  unfold holds_subtracted. revert s.
  induction accs as [| a accs IH]; intros s; simpl; [done |].
  destruct (IH (reconcile_account t used now s a)) as (-> & -> & ->).
  unfold reconcile_account; simpl.
  by rewrite advance_limits, advance_reserved, advance_reservations.
Qed.

(** ** Runs of [reserve] *)

(** The reservation a successful [reserve] records. *)
Definition new_record scope estimate id : ReservationRecord := {|
  reservation := {| rsv_id := id; rsv_scope := scope; rsv_estimate := estimate |};
  accounts := cascade scope;
  tally := from_estimate estimate;
  status := Active;
  actual := None;
|}.

(** The state a successful [reserve] leaves. *)
Definition reserved_state scope estimate id now s : ResourceState :=
  let s1 := advance_all (cascade scope) now s in
  with_reservations <[id := new_record scope estimate id]>
    (with_reserved (update_all (fun t => add_assign t (from_estimate estimate))
       (cascade scope)) s1).

Lemma reserved_state_fields scope estimate id now s :
  let s1 := advance_all (cascade scope) now s in
  let s' := reserved_state scope estimate id now s in
  limits s' = limits s
  /\ usage_by_account s' = usage_by_account s1
  /\ reserved_by_account s' =
       update_all (fun t => add_assign t (from_estimate estimate)) (cascade scope)
         (reserved_by_account s)
  /\ reservations s' = <[id := new_record scope estimate id]> (reservations s).
Proof.
  destruct (advance_all_same_holds (cascade scope) now s) as (Hl & Hr & Hrv).
  cbv zeta. unfold reserved_state. cbv [limits usage_by_account reserved_by_account
    reservations with_reservations with_reserved] in *. by rewrite Hl, Hr, Hrv.
Qed.

Lemma reserve_run scope estimate id now s :
  reserve_with_outcome_in_state scope estimate id now s =
  match validate_estimate estimate with
  | Err e => (Err e, s)
  | Ok _ =>
      match reservations s !! id with
      | Some _ => (Err (ReservationAlreadyExists id), s)
      | None =>
          let s1 := advance_all (cascade scope) now s in
          match check_cascade s1 (from_estimate estimate) (cascade scope) [] with
          | Err e => (Err e, s1)
          | Ok ws =>
              (Ok {| out_reservation :=
                       {| rsv_id := id; rsv_scope := scope; rsv_estimate := estimate |};
                     out_warnings := ws |},
               reserved_state scope estimate id now s)
          end
      end
  end.
Proof.
  unfold reserve_with_outcome_in_state, reserved_state, new_record. st_simpl.
  destruct (validate_estimate estimate); [| done]. simpl.
  destruct (reservations s !! id); [done |]. simpl.
  by destruct (check_cascade _ _ _ _).
Qed.

Lemma reserve_Ok_inv scope estimate id now s out s' :
  reserve_with_outcome_in_state scope estimate id now s = (Ok out, s') ->
  validate_estimate estimate = Ok tt
  /\ reservations s !! id = None
  /\ check_cascade (advance_all (cascade scope) now s) (from_estimate estimate)
       (cascade scope) [] = Ok (out_warnings out)
  /\ out_reservation out = {| rsv_id := id; rsv_scope := scope; rsv_estimate := estimate |}
  /\ s' = reserved_state scope estimate id now s.
Proof.
  rewrite reserve_run. destruct (validate_estimate estimate) as [[] |]; [| done].
  destruct (reservations s !! id); [done |]. cbv zeta.
  destruct (check_cascade _ _ _ _); [| done]. by intros [= <- <-].
Qed.

Lemma reserve_Err_inv scope estimate id now s e s' :
  reserve_with_outcome_in_state scope estimate id now s = (Err e, s') ->
  s' = s \/ s' = advance_all (cascade scope) now s.
Proof.
  rewrite reserve_run. destruct (validate_estimate estimate); [| intros [= <- <-]; auto].
  destruct (reservations s !! id); [intros [= <- <-]; auto |]. cbv zeta.
  destruct (check_cascade _ _ _ _); [done |]. intros [= <- <-]; auto.
Qed.

(** ** Runs of [reconcile] and [release] *)

(** Removing a record and putting it back changes nothing. *)
Lemma reinsert_reservation id record s :
  reservations s !! id = Some record ->
  with_reservations <[id := record]> (with_reservations (delete id) s) = s.
Proof.
  intros Hr. destruct s; unfold with_reservations; simpl in *.
  by rewrite insert_delete_eq, insert_id.
Qed.

(** The record a close leaves. *)
Definition closed_record (record : ReservationRecord) st act : ReservationRecord := {|
  reservation := reservation record;
  accounts := accounts record;
  tally := tally record;
  status := st;
  actual := act;
|}.

Definition close_with id (record' : ReservationRecord) (step : ResourceState -> ResourceAccount -> ResourceState)
    s : ResourceState :=
  with_reservations <[id := record']>
    (foldl step (with_reservations (delete id) s) (accounts record')).

Lemma release_run id now s :
  release_in_state id now s =
  match reservations s !! id with
  | None => (Err (UnknownReservation id), s)
  | Some record =>
      if decide (status record = Active) then
        (Ok (receipt_of id record Released None),
         close_with id (closed_record record Released (actual record))
           (release_account (tally record) now) s)
      else (Err (ReservationClosed id (status record)), s)
  end.
Proof.
  unfold release_in_state, remove_reservation, insert_reservation. st_simpl.
  destruct (reservations s !! id) as [record |] eqn:Hr; [| done].
  destruct (decide (status record = Active)) as [Ha | Ha];
    [by rewrite decide_False by tauto |].
  rewrite decide_True by done. by rewrite reinsert_reservation.
Qed.

Lemma reconcile_run id used now s :
  reconcile_in_state id used now s =
  match reservations s !! id with
  | None => (Err (UnknownReservation id), s)
  | Some record =>
      if decide (status record = Active) then
        match validate_usage used with
        | Err e => (Err e, s)
        | Ok _ =>
            (Ok (receipt_of id record Reconciled (Some used)),
             close_with id (closed_record record Reconciled (Some used))
               (reconcile_account (tally record) (from_usage used) now) s)
        end
      else (Err (ReservationClosed id (status record)), s)
  end.
Proof.
  unfold reconcile_in_state, remove_reservation, insert_reservation. st_simpl.
  destruct (reservations s !! id) as [record |] eqn:Hr; [| done].
  destruct (decide (status record = Active)) as [Ha | Ha].
  - rewrite decide_False by tauto.
    destruct (validate_usage used); [done |]. by rewrite reinsert_reservation.
  - rewrite decide_True by done. by rewrite reinsert_reservation.
Qed.

(** A close subtracts the hold and replaces the record. *)
Lemma close_with_spec id record' step s :
  (forall accs s0, holds_subtracted (tally record') accs s0 (foldl step s0 accs)) ->
  let s' := close_with id record' step s in
  limits s' = limits s
  /\ reserved_by_account s' =
       update_all (fun x => sub_assign x (tally record')) (accounts record')
         (reserved_by_account s)
  /\ reservations s' = <[id := record']> (reservations s).
Proof.
  intros Hstep. unfold close_with; simpl.
  destruct (Hstep (accounts record') (with_reservations (delete id) s)) as (-> & -> & ->).
  simpl. by rewrite insert_delete_eq.
Qed.
End facts.

Global Arguments reserved_state {_} _ _ _ _ _ : simpl never.
Global Arguments close_with {_} _ _ _ _ : simpl never.

Create HintDb governor.
#[export] Hint Resolve advance_same_holds advance_all_same_holds release_loop
  reconcile_loop cascade_NoDup : governor.
Create Rewrite HintDb governor.
#[export] Hint Rewrite @advance_limits @advance_reserved @advance_reservations : governor.
