(* ===== verification/GovernorSafety.v ===== *)
(** * Safety of reservations

    What a caller of the governor may rely on: a granted reservation keeps every
    account of its cascade within every configured limit, admission is exactly
    the conjunction of the per-account checks, a refused one changes no hold, and
    a reservation is closed exactly once. *)

From S2P Require Import Prelude Platform HostApi Period Tally LimitCheck Governor GovernorFacts Demo.
From Stdlib Require Import Lia ZArith.
Import HostApi.Resource.

Section safety.
Context `{Platform}.

(** An account admits a request: no hard denial and no pause. *)
Definition account_admits (s : ResourceState) (requested : ResourceTally)
    (a : ResourceAccount) : Prop :=
  forall l, limits s !! a = Some l ->
    exists ws, evaluate_cascade_for_account a l (tally_of (usage_by_account s) a)
                 (tally_of (reserved_by_account s) a) requested
                 (period_anchors s !! a) = Ok (Allow ws).

Lemma check_cascade_Ok_iff s requested accs ws0 :
  (exists ws, check_cascade s requested accs ws0 = Ok ws) <->
  (forall a, a ∈ accs -> account_admits s requested a).
Proof.
  revert ws0. induction accs as [| a accs IH]; intros ws0; cbn [check_cascade].
  { split; [intros _ a Ha; by apply elem_of_nil in Ha | eauto]. }
  setoid_rewrite elem_of_cons.
  destruct (limits s !! a) as [l |] eqn:Hl.
  - destruct (evaluate_cascade_for_account a l _ _ _ _) as [[ws | ws n | ws d] | e] eqn:He.
    2-4: split; [by intros [? ?] | intros Ha; destruct (Ha a (or_introl eq_refl) l Hl); congruence].
    rewrite IH. split.
    + intros Ha b [-> | Hb]; [intros l' Hl'; simplify_eq; eauto | by apply Ha].
    + intros Ha b Hb. exact (Ha b (or_intror Hb)).
  - rewrite IH. split.
    + intros Ha b [-> | Hb]; [intros l' Hl'; congruence | by apply Ha].
    + intros Ha b Hb. exact (Ha b (or_intror Hb)).
Qed.

Lemma admits_no_denial s requested a l :
  account_admits s requested a -> limits s !! a = Some l ->
  check_limits_first_denial a l (tally_of (usage_by_account s) a)
    (tally_of (reserved_by_account s) a) requested = None.
Proof. intros Ha Hl. destruct (Ha l Hl) as [ws Hw]. by eapply evaluate_allow_fits. Qed.

(** What a granted reservation leaves on an account of its cascade. *)
Lemma reserved_state_account scope estimate id now s a :
  a ∈ cascade scope ->
  let s1 := advance_all (cascade scope) now s in
  let s' := reserved_state scope estimate id now s in
  limits s' = limits s1
  /\ usage_by_account s' = usage_by_account s1
  /\ tally_of (reserved_by_account s') a =
       add_assign (tally_of (reserved_by_account s1) a) (from_estimate estimate).
Proof.
  intros Ha. cbv zeta.
  destruct (reserved_state_fields scope estimate id now s) as (-> & -> & -> & _).
  destruct (advance_all_same_holds (cascade scope) now s) as (-> & -> & _).
  rewrite tally_of_update_all by apply cascade_NoDup. by rewrite decide_True.
Qed.

(** After a check that fits, spend and the enlarged hold stay within the limit. *)
Lemma fits_after_add m max u r q :
  (m < u64_max)%N -> (sat_add64 (sat_add64 u r) q <= m)%N ->
  (u + sat_add max r q <= m)%N.
Proof. sat_lia. Qed.

(** [C1] A granted reservation never oversubscribes a budget: for every account
    of the scope's cascade (tenant, user, project, agent, mission, thread) and
    every integer dimension with a limit between 1 and [u64::MAX - 1], the spend of the current
    period plus all holds, the new one included, is within that limit.  (A limit of
    0 is none, and one of [u64::MAX] refuses nothing: the sums compared with it saturate
    there.) *)
Theorem reserve_within_limits scope estimate id now s out s' :
  reserve_with_outcome_in_state scope estimate id now s = (Ok out, s') ->
  forall a l d m,
    a ∈ cascade scope -> limits s' !! a = Some l -> finite_limit d l m ->
    (m < u64_max)%N ->
    (tally_int d (tally_of (usage_by_account s') a)
     + tally_int d (tally_of (reserved_by_account s') a) <= m)%N.
Proof.
  intros (_ & _ & Hc & _ & ->)%reserve_Ok_inv a l d m Ha Hl [Hm Hnz] Hmax.
  destruct (reserved_state_account scope estimate id now s a Ha) as (Hlim & -> & ->).
  rewrite Hlim in Hl.
  assert (Had : account_admits (advance_all (cascade scope) now s)
                  (from_estimate estimate) a).
  { eapply check_cascade_Ok_iff; [by eexists | done]. }
  apply (admits_no_denial _ _ _ _ Had), check_limits_None in Hl as [_ Hfit].
  rewrite tally_int_add. apply fits_after_add; [done |].
  by apply (Hfit d).
Qed.

(** [C29] Admission is exact: a reservation is granted if and only if the
    estimate is valid, the id is unused, and every account of the cascade that
    carries limits, read after the period rollover, neither denies nor pauses it. *)
Theorem reserve_granted_iff scope estimate id now s :
  (exists out s', reserve_with_outcome_in_state scope estimate id now s = (Ok out, s')) <->
  validate_estimate estimate = Ok tt
  /\ reservations s !! id = None
  /\ forall a, a ∈ cascade scope ->
       account_admits (advance_all (cascade scope) now s) (from_estimate estimate) a.
Proof.
  split.
  - intros (out & s' & (Hv & Hf & Hc & _)%reserve_Ok_inv). repeat split; [done.. |].
    eapply check_cascade_Ok_iff. by eexists.
  - intros (Hv & Hf & Hall). rewrite reserve_run, Hv, Hf. cbv zeta.
    apply (check_cascade_Ok_iff _ _ _ []) in Hall as [ws ->]. eauto.
Qed.

(** A refused reservation holds nothing: limits, holds and reservation
    records are untouched (the only effect an error can have is the period
    rollover of the scope's accounts). *)
Theorem reserve_refused_holds_nothing scope estimate id now s e s' :
  reserve_with_outcome_in_state scope estimate id now s = (Err e, s') ->
  same_holds s s' /\ (s' = s \/ s' = advance_all (cascade scope) now s).
Proof.
  intros He%reserve_Err_inv. split; [| done].
  destruct He as [-> | ->]; [done | auto with governor].
Qed.

(** The only records the operations create for an id that is not active are
    closed ones. *)
Definition closed_at (s : ResourceState) (id : ResourceReservationId)
    (st : ReservationStatus) : Prop :=
  exists r, reservations s !! id = Some r /\ status r = st /\ st <> Active.

Lemma closed_refuses s id st now used scope estimate :
  closed_at s id st -> validate_estimate estimate = Ok tt ->
  reconcile_in_state id used now s = (Err (ReservationClosed id st), s)
  /\ release_in_state id now s = (Err (ReservationClosed id st), s)
  /\ reserve_with_outcome_in_state scope estimate id now s
       = (Err (ReservationAlreadyExists id), s).
Proof.
  intros (r & Hr & <- & Hna) Hv.
  rewrite reconcile_run, release_run, reserve_run, Hv, Hr.
  by rewrite !decide_False.
Qed.

Lemma reconcile_Ok_closed id used now s rcpt s' :
  reconcile_in_state id used now s = (Ok rcpt, s') -> closed_at s' id Reconciled.
Proof.
  rewrite reconcile_run. destruct (reservations s !! id) as [r |]; [| done].
  case_decide; [| done]. destruct (validate_usage used); [| done]. intros [= <- <-].
  eexists. split; [apply lookup_insert_eq | done].
Qed.

Lemma release_Ok_closed id now s rcpt s' :
  release_in_state id now s = (Ok rcpt, s') -> closed_at s' id Released.
Proof.
  rewrite release_run. destruct (reservations s !! id) as [r |]; [| done].
  case_decide; [| done]. intros [= <- <-].
  eexists. split; [apply lookup_insert_eq | done].
Qed.

(** A reservation is closed exactly once: after a successful reconcile or
    release, every later reconcile, release or reserve with the same id is
    refused with the closing status and leaves the state as it is. *)
Theorem close_exactly_once id now s s' st rcpt :
  ((exists used, reconcile_in_state id used now s = (Ok rcpt, s')) /\ st = Reconciled
   \/ release_in_state id now s = (Ok rcpt, s') /\ st = Released) ->
  forall now' used' scope estimate, validate_estimate estimate = Ok tt ->
    reconcile_in_state id used' now' s' = (Err (ReservationClosed id st), s')
    /\ release_in_state id now' s' = (Err (ReservationClosed id st), s')
    /\ reserve_with_outcome_in_state scope estimate id now' s'
         = (Err (ReservationAlreadyExists id), s').
Proof.
  intros Hclose now' used' scope estimate Hv. apply closed_refuses; [| done].
  destruct Hclose as [[[used Hr] ->] | [Hr ->]];
    [by eapply reconcile_Ok_closed | by eapply release_Ok_closed].
Qed.
End safety.

(** ** Witnesses *)

Lemma reserve_within_limits_witness :
  reserve_with_outcome_in_state demo_scope (demo_estimate 60) 7 1%Z demo_limited
    = (Ok (demo_outcome 60 7), demo_reserved)
  /\ (tally_int InputTokens (tally_of (usage_by_account demo_reserved) demo_account)
      + tally_int InputTokens (tally_of (reserved_by_account demo_reserved) demo_account)
      <= 100)%N.
Proof.
  assert (reserve_with_outcome_in_state demo_scope (demo_estimate 60) 7 1%Z demo_limited
          = (Ok (demo_outcome 60 7), demo_reserved)) as Hrun by (vm_refl).
  split; [exact Hrun |].
  apply (reserve_within_limits demo_scope (demo_estimate 60) 7 1%Z demo_limited
           (demo_outcome 60 7) demo_reserved Hrun demo_account (token_limit 100)
           InputTokens 100).
  - left.
  - vm_refl.
  - split; [reflexivity | discriminate].
  - reflexivity.
Defined.

Lemma reserve_refused_holds_nothing_witness :
  exists e s',
    reserve_with_outcome_in_state demo_scope (demo_estimate 50) 8 2%Z demo_reserved = (Err e, s')
    /\ same_holds demo_reserved s'.
Proof.
  assert (is_ok (reserve_with_outcome_in_state demo_scope (demo_estimate 50) 8 2%Z
                   demo_reserved).1 = false) as Hno by vm_refl.
  destruct (reserve_with_outcome_in_state demo_scope (demo_estimate 50) 8 2%Z demo_reserved)
    as [[out | e] s'] eqn:Hrun; [discriminate Hno |].
  exists e, s'. split; [reflexivity |].
  exact (proj1 (reserve_refused_holds_nothing demo_scope (demo_estimate 50) 8 2%Z
                  demo_reserved e s' Hrun)).
Defined.

Lemma close_exactly_once_witness :
  let '(r, s') := reconcile_in_state 7 (demo_usage 40) 2%Z demo_reserved in
  is_ok r = true
  /\ release_in_state 7 3%Z s' = (Err (ReservationClosed 7 Reconciled), s').
Proof.
  assert (is_ok (reconcile_in_state 7 (demo_usage 40) 2%Z demo_reserved).1 = true) as Hyes
    by vm_refl.
  destruct (reconcile_in_state 7 (demo_usage 40) 2%Z demo_reserved) as [[rcpt | e] s'] eqn:Hrun;
    [| discriminate Hyes].
  split; [reflexivity |].
  apply (close_exactly_once 7 2%Z demo_reserved s' Reconciled rcpt) with
    (used' := demo_usage 0) (scope := demo_scope) (estimate := demo_estimate 1).
  - left. split; [exists (demo_usage 40); exact Hrun | reflexivity].
  - reflexivity.
Defined.
