(* ===== verification/GovernorLedger.v ===== *)
(** * The ledger of the governor and its event log

    Every account's hold is the sum of the active reservations that count towards it; the
    events the in-memory governor emits account for its reservations: one [Reserved] per
    record, one [Reconciled] or [Released] per closed record, in every state its methods
    can reach.  Also what [set_limit] does to the ledger, and the round trip of reserving
    and releasing. *)

From S2P Require Import Prelude Platform HostApi Period Tally LimitCheck BudgetGate Governor Demo GovernorFacts.
From Stdlib Require Import Lia ZArith.
Import HostApi.Resource.

Section ledger.
Context `{Platform}.
Implicit Types (s : ResourceState) (a : ResourceAccount).

(** The calls that change a governor's state. *)
Inductive GovernorOp :=
  | OpSetLimit (account : ResourceAccount) (l : ResourceLimits)
  | OpReserve (scope : ResourceScope) (e : ResourceEstimate) (id : ResourceReservationId)
  | OpReconcile (id : ResourceReservationId) (used : ResourceUsage)
  | OpRelease (id : ResourceReservationId)
  | OpRead (account : ResourceAccount).

Definition run_op (op : GovernorOp) (now : DateTime) (s : ResourceState) : ResourceState :=
  match op with
  | OpSetLimit a l => set_limit_in_state a l now s
  | OpReserve scope e id => (reserve_with_outcome_in_state scope e id now s).2
  | OpReconcile id used => (reconcile_in_state id used now s).2
  | OpRelease id => (release_in_state id now s).2
  | OpRead a => (account_snapshot_in_state a now s).2
  end.

(** The result of a call, as its caller sees it. *)
Inductive CallResult :=
  | RUnit (r : Result unit ResourceError)
  | ROutcome (r : Result ReservationOutcome ResourceError)
  | RReceipt (r : Result ResourceReceipt ResourceError)
  | RSnapshot (r : Result (option AccountSnapshot) ResourceError).

Definition call_ok (r : CallResult) : bool :=
  match r with
  | RUnit r => is_ok r
  | ROutcome r => is_ok r
  | RReceipt r => is_ok r
  | RSnapshot r => is_ok r
  end.

(** A call on the in-memory governor. *)
Definition run_call (op : GovernorOp) (now : DateTime) (g : InMemoryResourceGovernor) :
    CallResult * InMemoryResourceGovernor :=
  match op with
  | OpSetLimit a l => let '(r, g') := set_limit a l now g in (RUnit r, g')
  | OpReserve scope e id =>
      let '(r, g') := reserve_with_id_and_outcome scope e id now g in (ROutcome r, g')
  | OpReconcile id used => let '(r, g') := reconcile id used now g in (RReceipt r, g')
  | OpRelease id => let '(r, g') := release id now g in (RReceipt r, g')
  | OpRead a => let '(r, g') := account_snapshot a now g in (RSnapshot r, g')
  end.

(** A call changes the state as the corresponding state operation does. *)
Lemma run_call_state op now g :
  gov_state (run_call op now g).2 = run_op op now (gov_state g).
Proof.
  destruct op; simpl.
  - done.
  - unfold reserve_with_id_and_outcome, locked.
    by destruct (reserve_with_outcome_in_state _ _ _ _ _).
  - unfold reconcile, locked. by destruct (reconcile_in_state _ _ _ _) as [[] ?].
  - unfold release, locked. by destruct (release_in_state _ _ _) as [[] ?].
  - unfold account_snapshot. by destruct (account_snapshot_in_state _ _ _).
Qed.

Inductive gov_step : ResourceState -> ResourceState -> Prop :=
  | gov_step_op op now s : gov_step s (run_op op now s).

Definition reachable s : Prop := rtc gov_step ResourceState_default s.

(** What one record adds to an account's hold in a dimension. *)
Definition held_by (d : ResourceDimension) (a : ResourceAccount) (r : ReservationRecord) : N :=
  if decide (status r = Active /\ a ∈ accounts r) then tally_int d (tally r) else 0%N.

Definition active_holds (d : ResourceDimension) (a : ResourceAccount) s : N :=
  map_sum (held_by d a) (reservations s).

Definition shown_hold (d : ResourceDimension) (a : ResourceAccount) s : N :=
  tally_int d (tally_of (reserved_by_account s) a).

(** The holds of a state fit the counters. *)
Definition holds_fit s : Prop := forall d a, (active_holds d a s <= dim_max d)%N.

Definition ledger_bounded s : Prop :=
  forall d a, (shown_hold d a s <= active_holds d a s)%N.
Definition ledger_exact_at s : Prop :=
  forall d a, shown_hold d a s = active_holds d a s.

(** Records carry the cascade of their own scope. *)
Definition record_wf (id : ResourceReservationId) (r : ReservationRecord) : Prop :=
  rsv_id (reservation r) = id
  /\ accounts r = cascade (rsv_scope (reservation r))
  /\ tally r = from_estimate (rsv_estimate (reservation r)).

Definition records_wf s : Prop := map_Forall record_wf (reservations s).

(** ** One step, classified *)

(** Every step keeps the holds, opens one reservation, or closes one. *)
Inductive step_kind (s s' : ResourceState) : Prop :=
  | step_same :
      reserved_by_account s' = reserved_by_account s ->
      reservations s' = reservations s -> step_kind s s'
  | step_open scope e id :
      reservations s !! id = None ->
      reserved_by_account s' =
        update_all (fun t => add_assign t (from_estimate e)) (cascade scope)
          (reserved_by_account s) ->
      reservations s' = <[id := new_record scope e id]> (reservations s) ->
      step_kind s s'
  | step_close id r st act :
      reservations s !! id = Some r -> status r = Active -> st <> Active ->
      reserved_by_account s' =
        update_all (fun t => sub_assign t (tally r)) (accounts r) (reserved_by_account s) ->
      reservations s' = <[id := closed_record r st act]> (reservations s) ->
      step_kind s s'.

Lemma step_kind_holds s s' : same_holds s s' -> step_kind s s'.
Proof. intros (_ & ? & ?). by apply step_same. Qed.

Lemma set_limit_kind a l now s : step_kind s (set_limit_in_state a l now s).
Proof. unfold set_limit_in_state. case_decide; by apply step_same. Qed.

Lemma reserve_kind scope e id now s :
  step_kind s (reserve_with_outcome_in_state scope e id now s).2.
Proof.
  destruct (reserve_with_outcome_in_state scope e id now s) as [[out | err] s'] eqn:Hr; simpl.
  - apply reserve_Ok_inv in Hr as (_ & Hf & _ & _ & ->).
    destruct (reserved_state_fields scope e id now s) as (_ & _ & Hres & Hrv).
    by eapply step_open.
  - apply step_kind_holds. apply reserve_Err_inv in Hr as [-> | ->];
      [done | auto with governor].
Qed.

Lemma close_kind id r st act step s :
  (forall accs s0, holds_subtracted (tally r) accs s0 (foldl step s0 accs)) ->
  reservations s !! id = Some r -> status r = Active -> st <> Active ->
  step_kind s (close_with id (closed_record r st act) step s).
Proof.
  intros Hstep Hr Ha Hst.
  destruct (close_with_spec id (closed_record r st act) step s Hstep) as (_ & Hres & Hrv).
  by eapply step_close.
Qed.

Lemma gov_step_kind s s' : gov_step s s' -> step_kind s s'.
Proof.
  intros [op now s0]. destruct op as [a l | scope e id | id used | id | a]; simpl.
  - apply set_limit_kind.
  - apply reserve_kind.
  - rewrite reconcile_run. destruct (reservations s0 !! id) eqn:Hr; [| by apply step_same].
    case_decide; [| by apply step_same].
    destruct (validate_usage used); [| by apply step_same].
    apply close_kind; [apply reconcile_loop | done..].
  - rewrite release_run. destruct (reservations s0 !! id) eqn:Hr; [| by apply step_same].
    case_decide; [| by apply step_same].
    apply close_kind; [apply release_loop | done..].
  - apply step_kind_holds. unfold account_snapshot_in_state.
    pose proof (advance_same_holds a now s0). by repeat case_match.
Qed.

(** ** The sums after a step *)

Lemma held_by_new d a scope e id :
  held_by d a (new_record scope e id) =
  if decide (a ∈ cascade scope) then tally_int d (from_estimate e) else 0%N.
Proof. unfold held_by; simpl. repeat case_decide; tauto. Qed.

Lemma held_by_closed d a r st act :
  st <> Active -> held_by d a (closed_record r st act) = 0%N.
Proof. unfold held_by; simpl. case_decide; tauto. Qed.

Lemma held_by_active d a r :
  status r = Active ->
  held_by d a r = if decide (a ∈ accounts r) then tally_int d (tally r) else 0%N.
Proof. unfold held_by. repeat case_decide; tauto. Qed.

Lemma shown_hold_update_all d a f accs s s' :
  NoDup accs -> reserved_by_account s' = update_all f accs (reserved_by_account s) ->
  shown_hold d a s' =
  if decide (a ∈ accs) then tally_int d (f (tally_of (reserved_by_account s) a))
  else shown_hold d a s.
Proof.
  intros Hnd Hres. unfold shown_hold. rewrite Hres, tally_of_update_all by done.
  by case_decide.
Qed.

Lemma records_wf_step s s' : step_kind s s' -> records_wf s -> records_wf s'.
Proof.
  unfold records_wf. intros [? -> | scope e id Hf _ -> | id r st act Hr _ _ _ ->] Hwf; [done | |].
  - by apply map_Forall_insert_2.
  - apply map_Forall_insert_2; [| done]. by apply Hwf in Hr.
Qed.

Lemma record_wf_NoDup id r : record_wf id r -> NoDup (accounts r).
Proof. intros (_ & -> & _). apply cascade_NoDup. Qed.

(** The change of the active sum and of the shown hold, side by side. *)
Lemma step_sums s s' d a :
  step_kind s s' -> records_wf s ->
  (active_holds d a s' = active_holds d a s /\ shown_hold d a s' = shown_hold d a s)
  \/ (exists q, active_holds d a s' = (active_holds d a s + q)%N
                /\ shown_hold d a s' = sat_add (dim_max d) (shown_hold d a s) q)
  \/ (exists q, (active_holds d a s' + q = active_holds d a s)%N
                /\ shown_hold d a s' = sat_sub (shown_hold d a s) q).
Proof.
  intros [Hres Hrv | scope e id Hf Hres Hrv | id r st act Hr Ha Hst Hres Hrv] Hwf.
  - left. unfold active_holds, shown_hold. by rewrite Hres, Hrv.
  - assert (active_holds d a s' =
            (held_by d a (new_record scope e id) + active_holds d a s)%N) as Hs.
    { unfold active_holds. by rewrite Hrv, map_sum_insert_None. }
    rewrite held_by_new in Hs.
    rewrite (shown_hold_update_all d a _ _ s s' (cascade_NoDup scope) Hres).
    case_decide; [right; left | left; by rewrite Hs].
    exists (tally_int d (from_estimate e)). rewrite tally_int_add. split; [lia | done].
  - assert (active_holds d a s' + held_by d a r =
            active_holds d a s)%N as Hs.
    { unfold active_holds. rewrite Hrv, (map_sum_update _ _ _ r) by done.
      rewrite held_by_closed by done. lia. }
    rewrite held_by_active in Hs by done.
    rewrite (shown_hold_update_all d a _ _ s s' (record_wf_NoDup id r (Hwf _ _ Hr)) Hres).
    case_decide; [right; right | left; split; [lia | done]].
    exists (tally_int d (tally r)). by rewrite tally_int_sub.
Qed.

Lemma ledger_bounded_step s s' :
  step_kind s s' -> records_wf s -> ledger_bounded s -> ledger_bounded s'.
Proof.
  intros Hk Hwf Hb d a. specialize (Hb d a).
  destruct (step_sums s s' d a Hk Hwf) as [[? ->] | [(q & ? & ->) | (q & ? & ->)]];
    [lia | sat_lia | sat_lia].
Qed.

Lemma ledger_exact_step s s' :
  step_kind s s' -> records_wf s -> holds_fit s' -> ledger_exact_at s -> ledger_exact_at s'.
Proof.
  intros Hk Hwf Hfit He d a. specialize (He d a). specialize (Hfit d a).
  destruct (step_sums s s' d a Hk Hwf) as [[? ->] | [(q & Hq & ->) | (q & ? & ->)]];
    [lia | rewrite sat_add_exact; lia | unfold sat_sub; lia].
Qed.

Lemma initial_ledger : records_wf ResourceState_default
  /\ ledger_bounded ResourceState_default /\ ledger_exact_at ResourceState_default.
Proof.
  split; [apply map_Forall_empty | split]; intros d a; unfold shown_hold, active_holds; simpl.
  - unfold tally_of. rewrite lookup_empty; simpl. rewrite tally_int_default. lia.
  - unfold tally_of. rewrite lookup_empty; simpl. by rewrite tally_int_default.
Qed.

Lemma rtc_preserves (P : ResourceState -> Prop) s s' :
  (forall x y, gov_step x y -> P x -> P y) -> rtc gov_step s s' -> P s -> P s'.
Proof. intros Hstep. induction 1; eauto. Qed.

Lemma reachable_records_wf s : reachable s -> records_wf s.
Proof.
  intros Hs. apply (rtc_preserves records_wf _ s) in Hs; [done | | apply initial_ledger].
  intros x y Hxy. by apply records_wf_step, gov_step_kind.
Qed.

(** In every state the governor can reach, and whatever saturated on the
    way, an account never shows a larger hold than the sum of the active
    reservations whose cascade contains it: no hold is counted twice and a
    closed reservation leaves no hold behind. *)
Theorem ledger_sound s :
  reachable s -> forall d a, (shown_hold d a s <= active_holds d a s)%N.
Proof.
  intros Hs.
  apply (rtc_preserves (fun s => records_wf s /\ ledger_bounded s) _ s) in Hs;
    [by apply Hs | | split; apply initial_ledger].
  intros x y Hxy%gov_step_kind [Hwf Hb].
  split; [by eapply records_wf_step | by eapply ledger_bounded_step].
Qed.

(** Steps along which the sums stay within the counters. *)
Definition fitting_step s s' : Prop := gov_step s s' /\ holds_fit s'.

(** [C20] Conservation: along any run on which the sums of the active
    reservations fit the 64- and 32-bit counters, every account's hold in every
    integer dimension is exactly the sum over the active reservations that
    count against it. *)
Theorem ledger_exact s :
  rtc fitting_step ResourceState_default s ->
  forall d a, shown_hold d a s = active_holds d a s.
Proof.
  intros Hs. enough (records_wf s /\ ledger_exact_at s) by tauto.
  destruct initial_ledger as (Hwf0 & _ & He0).
  remember ResourceState_default as s0 eqn:Es0. clear Es0.
  induction Hs as [s0 | s0 s1 s2 [Hk%gov_step_kind Hfit] _ IH]; [done |].
  apply IH; [by eapply records_wf_step | by eapply ledger_exact_step].
Qed.
End ledger.

(** ** Witnesses *)

Lemma demo_reserved_reachable : reachable demo_reserved.
Proof.
  eapply rtc_l; [exact (gov_step_op (OpSetLimit demo_account (token_limit 100)) 0%Z _) |].
  eapply rtc_l; [exact (gov_step_op (OpReserve demo_scope (demo_estimate 60) 7) 1%Z _) |].
  apply rtc_refl.
Qed.

Lemma ledger_sound_witness :
  reachable demo_reserved
  /\ (shown_hold InputTokens demo_account demo_reserved
      <= active_holds InputTokens demo_account demo_reserved)%N.
Proof.
  split; [exact demo_reserved_reachable |].
  apply (ledger_sound demo_reserved demo_reserved_reachable).
Defined.

(** The sums of a state whose only record is an active one holding [t]. *)
Lemma single_hold_fits (s : ResourceState) id r :
  reservations s = {[id := r]} -> tally_wf (tally r) -> holds_fit s.
Proof.
  intros Hs Hwf d a. unfold active_holds. rewrite Hs. unfold map_sum.
  rewrite map_to_list_singleton. simpl. unfold held_by. specialize (Hwf d).
  case_decide; lia.
Qed.

Lemma empty_holds_fit (s : ResourceState) : reservations s = ∅ -> holds_fit s.
Proof. intros Hs d a. unfold active_holds. rewrite Hs, map_sum_empty. lia. Qed.

Lemma ledger_exact_witness :
  shown_hold InputTokens demo_account demo_reserved
    = active_holds InputTokens demo_account demo_reserved
  /\ shown_hold InputTokens demo_account demo_reserved = 60%N.
Proof.
  split; [| vm_refl].
  apply (ledger_exact demo_reserved).
  eapply rtc_l with demo_limited.
  { split; [exact (gov_step_op (OpSetLimit demo_account (token_limit 100)) 0%Z _) |].
    apply empty_holds_fit. reflexivity. }
  eapply rtc_l with demo_reserved; [| apply rtc_refl].
  split; [exact (gov_step_op (OpReserve demo_scope (demo_estimate 60) 7) 1%Z _) |].
  apply (single_hold_fits _ 7%N (new_record demo_scope (demo_estimate 60) 7)).
  - vm_refl.
  - intros []; vm_compute; discriminate.
Defined.


Section audit.
Context `{Platform}.

(** 1 when the event opens (closes) reservation [id], else 0. *)
Definition opens (id : ResourceReservationId) (e : BudgetEvent) : N :=
  match e with
  | EvReserved _ r _ _ => if decide (rsv_id r = id) then 1 else 0
  | _ => 0
  end.

Definition closes (id : ResourceReservationId) (e : BudgetEvent) : N :=
  match e with
  | EvReconciled _ r _ | EvReleased _ r _ => if decide (rcpt_id r = id) then 1 else 0
  | _ => 0
  end.

(** What the log should show for a record. *)
Definition expected_opens (o : option ReservationRecord) : N :=
  match o with Some _ => 1 | None => 0 end.
Definition expected_closes (o : option ReservationRecord) : N :=
  match o with
  | Some r => if decide (status r = Active) then 0 else 1
  | None => 0
  end.

Definition log_balanced (g : InMemoryResourceGovernor) : Prop :=
  forall id,
    sum_N (opens id) (gov_events g) = expected_opens (reservations (gov_state g) !! id)
    /\ sum_N (closes id) (gov_events g) = expected_closes (reservations (gov_state g) !! id).

Inductive call_step : InMemoryResourceGovernor -> InMemoryResourceGovernor -> Prop :=
  | call_step_op op now g : call_step g (run_call op now g).2.

(** Events that neither open nor close anything do not disturb the balance. *)
Lemma balanced_frame g g' es :
  reservations (gov_state g') = reservations (gov_state g) ->
  gov_events g' = gov_events g ++ es ->
  (forall id, sum_N (opens id) es = 0%N /\ sum_N (closes id) es = 0%N) ->
  log_balanced g -> log_balanced g'.
Proof.
  intros Hr He Hes Hg id. rewrite Hr, He, !sum_N_app.
  destruct (Hg id) as [-> ->]. destruct (Hes id) as [-> ->]. lia.
Qed.

Lemma warned_silent ws at_ id :
  sum_N (opens id) (map (fun w => EvWarned w at_) ws) = 0%N
  /\ sum_N (closes id) (map (fun w => EvWarned w at_) ws) = 0%N.
Proof. induction ws as [| w ws IH]; simpl; [done |]. destruct IH as [-> ->]. lia. Qed.

Lemma refused_silent err at_ id :
  sum_N (opens id) (emit_reserve_events (Err err) at_) = 0%N
  /\ sum_N (closes id) (emit_reserve_events (Err err) at_) = 0%N.
Proof.
  unfold emit_reserve_events. rewrite !sum_N_app.
  destruct (warned_silent match err with
    | RequiresApproval _ ws | LimitExceeded _ ws => ws | _ => [] end at_ id) as [Ho Hc].
  destruct err; simpl in *; rewrite ?Ho, ?Hc; done.
Qed.

(** One event about one id, and its record changed accordingly. *)
Lemma balanced_update g g' es id0 o' :
  (forall id, reservations (gov_state g') !! id =
     if decide (id0 = id) then o' else reservations (gov_state g) !! id) ->
  gov_events g' = gov_events g ++ es ->
  (forall id, sum_N (opens id) es + expected_opens (reservations (gov_state g) !! id)
              = expected_opens (if decide (id0 = id) then o'
                                else reservations (gov_state g) !! id))%N ->
  (forall id, sum_N (closes id) es + expected_closes (reservations (gov_state g) !! id)
              = expected_closes (if decide (id0 = id) then o'
                                 else reservations (gov_state g) !! id))%N ->
  log_balanced g -> log_balanced g'.
Proof.
  intros Hr He Ho Hc Hg id. rewrite Hr, He, !sum_N_app, <- Ho, <- Hc.
  destruct (Hg id) as [-> ->]. lia.
Qed.

Lemma balanced_reserve scope e id now g :
  log_balanced g -> log_balanced (reserve_with_id_and_outcome scope e id now g).2.
Proof.
  unfold reserve_with_id_and_outcome, locked.
  destruct (reserve_with_outcome_in_state scope e id now (gov_state g))
    as [[out | err] s'] eqn:Hr; cbn [snd].
  - apply reserve_Ok_inv in Hr as (_ & Hf & _ & Hout & ->).
    destruct (reserved_state_fields scope e id now (gov_state g)) as (_ & _ & _ & Hrv).
    apply balanced_update with (es := emit_reserve_events (Ok out) now) (id0 := id)
      (o' := Some (new_record scope e id)); cbn [gov_state emit].
    + intros id'. by rewrite Hrv, lookup_insert.
    + done.
    + intros id'. unfold emit_reserve_events. rewrite sum_N_app.
      destruct (warned_silent (out_warnings out) now id') as [-> _].
      rewrite Hout. simpl. case_decide; subst; [rewrite Hf; done | lia].
    + intros id'. unfold emit_reserve_events. rewrite sum_N_app.
      destruct (warned_silent (out_warnings out) now id') as [_ ->].
      simpl. case_decide; subst; [rewrite Hf; done | lia].
  - apply balanced_frame with (es := emit_reserve_events (Err err) now);
      [| done | by apply refused_silent].
    simpl. apply reserve_Err_inv in Hr as [-> | ->]; [done |].
    by destruct (advance_all_same_holds (cascade scope) now (gov_state g)) as (_ & _ & ?).
Qed.

(** Closing an active record with one closing event. *)
Lemma balanced_close g g' ev id r st act :
  reservations (gov_state g) !! id = Some r -> status r = Active -> st <> Active ->
  reservations (gov_state g') = <[id := closed_record r st act]> (reservations (gov_state g)) ->
  gov_events g' = gov_events g ++ [ev] ->
  (forall id', opens id' ev = 0%N) ->
  (forall id', closes id' ev = if decide (id = id') then 1%N else 0%N) ->
  log_balanced g -> log_balanced g'.
Proof.
  intros Hr Ha Hst Hrv He Ho Hc.
  apply balanced_update with (es := [ev]) (id0 := id) (o' := Some (closed_record r st act)).
  - intros id'. by rewrite Hrv, lookup_insert.
  - done.
  - intros id'. simpl. rewrite Ho. case_decide; subst; [by rewrite Hr | done].
  - intros id'. simpl. rewrite Hc. case_decide; subst; [| done].
    rewrite Hr; simpl. rewrite decide_True by done. by rewrite decide_False.
Qed.

Lemma balanced_call op now g : log_balanced g -> log_balanced (run_call op now g).2.
Proof.
  intros Hg. destruct op as [a l | scope e id | id used | id | a]; simpl.
  - apply balanced_frame with (g := g) (es := [EvLimitChanged a now]); try done.
    simpl. unfold set_limit_in_state. by case_decide.
  - pose proof (balanced_reserve scope e id now g Hg) as Hr.
    by destruct (reserve_with_id_and_outcome _ _ _ _ _).
  - unfold reconcile, locked. rewrite reconcile_run.
    destruct (reservations (gov_state g) !! id) as [r |] eqn:Hr; [| done].
    case_decide as Ha; [| done]. destruct (validate_usage used); [| done].
    destruct (close_with_spec id (closed_record r Reconciled (Some used))
      (reconcile_account (tally r) (from_usage used) now) (gov_state g)
      (reconcile_loop (tally r) (from_usage used) now)) as (_ & _ & Hrv).
    by eapply (balanced_close g _ (EvReconciled _ (receipt_of id r Reconciled (Some used)) now)
      id r Reconciled (Some used) Hr Ha).
  - unfold release, locked. rewrite release_run.
    destruct (reservations (gov_state g) !! id) as [r |] eqn:Hr; [| done].
    case_decide as Ha; [| done].
    destruct (close_with_spec id (closed_record r Released (actual r))
      (release_account (tally r) now) (gov_state g)
      (release_loop (tally r) now)) as (_ & _ & Hrv).
    by eapply (balanced_close g _ (EvReleased _ (receipt_of id r Released None) now)
      id r Released (actual r) Hr Ha).
  - unfold account_snapshot, account_snapshot_in_state.
    pose proof (advance_reservations a now (gov_state g)) as Hrv.
    repeat case_match; simplify_eq/=;
      (apply balanced_frame with (g := g) (es := []); simpl; by rewrite ?app_nil_r).
Qed.

(** The event log is a faithful audit trail: in every state the governor's
    methods can reach, each reservation id has exactly one [Reserved] event if
    it is recorded and none otherwise, and exactly one [Reconciled] or
    [Released] event if it is closed and none while it is active. *)
Theorem audit_trail_balanced g :
  rtc call_step governor_new g -> log_balanced g.
Proof.
  intros Hg. assert (log_balanced governor_new) as H0.
  { intros id. simpl. by rewrite lookup_empty. }
  induction Hg as [g | g1 g2 g3 [op now g] _ IH]; [done |].
  by apply IH, balanced_call.
Qed.

(** Changing a limit touches no hold and no reservation; it forgets the
    account's spend exactly when the new limit has another period, leaves every
    other account's spend, and opens a fresh window. *)
Theorem set_limit_effect a l now s :
  let s' := set_limit_in_state a l now s in
  reserved_by_account s' = reserved_by_account s
  /\ reservations s' = reservations s
  /\ limits s' = <[a := l]> (limits s)
  /\ period_anchors s' !! a = Some (period_bounds (period l) now).2
  /\ forall b, tally_of (usage_by_account s') b =
       if decide (a = b /\ (period <$> limits s !! a) <> Some (period l))
       then tally_default else tally_of (usage_by_account s) b.
Proof.
  unfold set_limit_in_state, tally_of.
  destruct (decide (period <$> limits s !! a = Some (period l))) as [Hp | Hp];
    simpl; repeat split; rewrite ?lookup_insert_eq; try done; intros b.
  - by rewrite decide_False by tauto.
  - destruct (decide (a = b)) as [-> | Hne].
    + rewrite decide_True by done. by rewrite lookup_delete_eq.
    + rewrite decide_False by tauto. by rewrite lookup_delete_ne.
Qed.

(** Reserving and then releasing gives back every hold: whenever both calls
    succeed and the reservation did not saturate a counter, each account's hold
    in each integer dimension is what it was before. *)
Theorem reserve_release_roundtrip scope e id now now' s out s1 rcpt s2 :
  reserve_with_outcome_in_state scope e id now s = (Ok out, s1) ->
  release_in_state id now' s1 = (Ok rcpt, s2) ->
  forall d a,
    (shown_hold d a s + tally_int d (from_estimate e) <= dim_max d)%N ->
    shown_hold d a s2 = shown_hold d a s.
Proof.
  intros (_ & _ & _ & _ & ->)%reserve_Ok_inv Hrel d a Hfit.
  destruct (reserved_state_fields scope e id now s) as (_ & _ & Hres & Hrv).
  rewrite release_run, Hrv, lookup_insert_eq in Hrel. simpl in Hrel. simplify_eq.
  set (rec := closed_record _ _ _).
  destruct (close_with_spec id rec (release_account (from_estimate e) now')
    (reserved_state scope e id now s) (release_loop (from_estimate e) now'))
    as (_ & Hres2 & _).
  rewrite (shown_hold_update_all d a _ _ _ _ (cascade_NoDup scope) Hres2).
  unfold shown_hold in *. rewrite Hres, tally_of_update_all by apply cascade_NoDup.
  simpl. case_decide; [| done].
  rewrite tally_int_sub, tally_int_add, sat_add_exact by done. unfold sat_sub. lia.
Qed.
End audit.

(** ** Witnesses *)

Lemma audit_trail_balanced_witness :
  let g := (run_call (OpReserve demo_scope (demo_estimate 60) 7) 1%Z governor_new).2 in
  log_balanced g /\ sum_N (opens 7) (gov_events g) = 1%N.
Proof.
  split; [| vm_refl].
  apply (audit_trail_balanced (run_call (OpReserve demo_scope (demo_estimate 60) 7) 1%Z
           governor_new).2).
  eapply rtc_l; [apply call_step_op | apply rtc_refl].
Defined.

Lemma reserve_release_roundtrip_witness :
  let '(r, s2) := release_in_state 7 2%Z demo_reserved in
  is_ok r = true
  /\ shown_hold InputTokens demo_account s2 = shown_hold InputTokens demo_account demo_limited.
Proof.
  assert (reserve_with_outcome_in_state demo_scope (demo_estimate 60) 7 1%Z demo_limited
          = (Ok (demo_outcome 60 7), demo_reserved)) as Hrun by vm_refl.
  assert (is_ok (release_in_state 7 2%Z demo_reserved).1 = true) as Hyes by vm_refl.
  destruct (release_in_state 7 2%Z demo_reserved) as [[rcpt | e] s2] eqn:Hrel;
    [| discriminate Hyes].
  split; [reflexivity |].
  apply (reserve_release_roundtrip demo_scope (demo_estimate 60) 7 1%Z 2%Z demo_limited
           (demo_outcome 60 7) demo_reserved rcpt s2 Hrun Hrel).
  vm_compute; discriminate.
Defined.
