(* ===== verification/Capability.v ===== *)
(** * Host API: capabilities, grants and execution contexts

    Models [ironclaw_host_api/src/capability.rs], [runtime.rs], [scope.rs], the network
    vocabulary of [action.rs] and the ceilings of [resource.rs]: what an extension
    declares (a descriptor), what a principal is granted (a grant with its
    constraints), and the envelope of one invocation ([ExecutionContext]) with its
    validation.  [serde_json::Value] is a type of the class [SerdeJson]; nothing looks
    into it here. *)

From S2P Require Import Prelude Strings Ids Paths Mounts Platform HostApi.
From Stdlib Require Import Ascii.
Import HostApi.Resource.

Abbreviation SecretHandle := string.
Abbreviation SystemServiceId := string.
Abbreviation RuntimeCredentialAccountProviderId := string.

(** Arbitrary JSON, as [serde_json] represents it. *)
Class SerdeJson := { Value : Type }.

(** ** [capability.rs] *)

Inductive EffectKind :=
  | ReadFilesystem | WriteFilesystem | DeleteFilesystem | Network | UseSecret | ExecuteCode
  | SpawnProcess | DispatchCapability | ModifyExtension | ModifyApproval | ModifyBudget
  | ExternalWrite | Financial.

#[export] Instance EffectKind_eq_dec : EqDecision EffectKind.
Proof. solve_decision. Defined.

(** [EffectKind::is_write] *)
Definition is_write (e : EffectKind) : bool :=
  match e with
  | ReadFilesystem | Network | UseSecret | DispatchCapability => false
  | WriteFilesystem | DeleteFilesystem | ExecuteCode | SpawnProcess | ModifyExtension
  | ModifyApproval | ModifyBudget | ExternalWrite | Financial => true
  end.

Inductive PermissionMode := PermitAllow | PermitAsk | PermitDeny.

#[export] Instance PermissionMode_eq_dec : EqDecision PermissionMode.
Proof. solve_decision. Defined.

(** ** [runtime.rs] *)

Inductive RuntimeKind := Wasm | Mcp | Script | FirstPartyRuntime | SystemRuntime.
Inductive TrustClass := Sandbox | UserTrusted | FirstParty | System.

#[export] Instance RuntimeKind_eq_dec : EqDecision RuntimeKind.
Proof. solve_decision. Defined.
#[export] Instance TrustClass_eq_dec : EqDecision TrustClass.
Proof. solve_decision. Defined.

(** ** [action.rs]: network targets and policies *)

Inductive NetworkScheme := Http | Https.
Inductive NetworkMethod := MGet | MPost | MPut | MPatch | MDelete | MHead.

#[export] Instance NetworkScheme_eq_dec : EqDecision NetworkScheme.
Proof. solve_decision. Defined.
#[export] Instance NetworkMethod_eq_dec : EqDecision NetworkMethod.
Proof. solve_decision. Defined.

Record NetworkTarget := {
  nt_scheme : NetworkScheme;
  nt_host : string;
  nt_port : option N;
}.

Record NetworkTargetPattern := {
  ntp_scheme : option NetworkScheme;
  ntp_host_pattern : string;
  ntp_port : option N;
}.

Record NetworkPolicy := {
  allowed_targets : list NetworkTargetPattern;
  deny_private_ip_ranges : bool;
  max_egress_bytes : option N;
}.

#[export] Instance NetworkTarget_eq_dec : EqDecision NetworkTarget.
Proof. solve_decision. Defined.
#[export] Instance NetworkTargetPattern_eq_dec : EqDecision NetworkTargetPattern.
Proof. solve_decision. Defined.
#[export] Instance NetworkPolicy_eq_dec : EqDecision NetworkPolicy.
Proof. solve_decision. Defined.

(** [NetworkPolicy::default()] *)
Definition network_policy_default : NetworkPolicy :=
  {| allowed_targets := []; deny_private_ip_ranges := false; max_egress_bytes := None |}.

(** ** [http.rs], [capability.rs]: credentials a capability declares *)

Inductive RuntimeCredentialTarget :=
  | Header (name : string) (prefix : option string)
  | QueryParam (name : string)
  | PathPlaceholder (placeholder : string).

Inductive RuntimeCredentialAccountSetup :=
  | ManualToken
  | OAuth (scopes : list string)
  | Retired.

Inductive RuntimeCredentialRequirementSource :=
  | FromSecretHandle
  | ProductAuthAccount (provider : RuntimeCredentialAccountProviderId)
      (setup : RuntimeCredentialAccountSetup).

#[export] Instance RuntimeCredentialTarget_eq_dec : EqDecision RuntimeCredentialTarget.
Proof. solve_decision. Defined.
#[export] Instance RuntimeCredentialAccountSetup_eq_dec : EqDecision RuntimeCredentialAccountSetup.
Proof. solve_decision. Defined.
#[export] Instance RuntimeCredentialRequirementSource_eq_dec :
  EqDecision RuntimeCredentialRequirementSource.
Proof. solve_decision. Defined.

Record RuntimeCredentialRequirement := {
  rc_handle : SecretHandle;
  rc_source : RuntimeCredentialRequirementSource;
  rc_provider_scopes : list string;
  rc_audience : NetworkTargetPattern;
  rc_target : RuntimeCredentialTarget;
  rc_required : bool;
}.

(** ** [scope.rs]: principals *)

Inductive Principal :=
  | TenantPrincipal (id : TenantId)
  | UserPrincipal (id : UserId)
  | AgentPrincipal (id : AgentId)
  | ProjectPrincipal (id : ProjectId)
  | MissionPrincipal (id : MissionId)
  | ThreadPrincipal (id : ThreadId)
  | ExtensionPrincipal (id : ExtensionId)
  | HostRuntime
  | SystemPrincipal (id : SystemServiceId).

#[export] Instance Principal_eq_dec : EqDecision Principal.
Proof. solve_decision. Defined.

Section with_platform.
Context `{Platform}.

(** ** [resource.rs]: ceilings *)

Record SandboxQuota := {
  sq_cpu_time_ms : option N;
  sq_memory_bytes : option N;
  sq_disk_bytes : option N;
  sq_network_egress_bytes : option N;
  sq_process_count : option N;
}.

Record ResourceCeiling := {
  max_usd : option Decimal;
  max_input_tokens : option N;
  max_output_tokens : option N;
  max_wall_clock_ms : option N;
  max_output_bytes : option N;
  ceiling_sandbox : option SandboxQuota;
}.

#[export] Instance SandboxQuota_eq_dec : EqDecision SandboxQuota.
Proof. solve_decision. Defined.
#[export] Instance ResourceCeiling_eq_dec : EqDecision ResourceCeiling.
Proof. solve_decision. Defined.

Record ResourceProfile := {
  default_estimate : ResourceEstimate;
  hard_ceiling : option ResourceCeiling;
}.

(** ** Grants *)

Record GrantConstraints := {
  gc_allowed_effects : list EffectKind;
  gc_mounts : MountView;
  gc_network : NetworkPolicy;
  gc_secrets : list SecretHandle;
  gc_resource_ceiling : option ResourceCeiling;
  gc_expires_at : option DateTime;
  gc_max_invocations : option N;
}.

#[export] Instance GrantConstraints_eq_dec : EqDecision GrantConstraints.
Proof. solve_decision. Defined.

Record CapabilityGrant := {
  grant_id : CapabilityGrantId;
  grant_capability : CapabilityId;
  grantee : Principal;
  issued_by : Principal;
  constraints : GrantConstraints;
}.

#[export] Instance CapabilityGrant_eq_dec : EqDecision CapabilityGrant.
Proof. solve_decision. Defined.

(** ** Descriptors *)

Record CapabilityDescriptor `{SerdeJson} := {
  desc_id : CapabilityId;
  desc_provider : ExtensionId;
  desc_runtime : RuntimeKind;
  desc_trust_ceiling : TrustClass;
  desc_description : string;
  desc_parameters_schema : Value;
  desc_effects : list EffectKind;
  desc_default_permission : PermissionMode;
  desc_runtime_credentials : list RuntimeCredentialRequirement;
  desc_network_targets : list NetworkTargetPattern;
  desc_resource_profile : option ResourceProfile;
}.

(** ** [scope.rs]: the envelope of one invocation *)

Record ExecutionContext := {
  ctx_invocation_id : InvocationId;
  ctx_correlation_id : CorrelationId;
  ctx_process_id : option ProcessId;
  ctx_parent_process_id : option ProcessId;
  ctx_tenant_id : TenantId;
  ctx_user_id : UserId;
  ctx_authenticated_actor_user_id : option UserId;
  ctx_agent_id : option AgentId;
  ctx_project_id : option ProjectId;
  ctx_mission_id : option MissionId;
  ctx_thread_id : option ThreadId;
  ctx_extension_id : ExtensionId;
  ctx_runtime : RuntimeKind;
  ctx_trust : TrustClass;
  ctx_grants : list CapabilityGrant;
  ctx_mounts : MountView;
  ctx_resource_scope : ResourceScope;
}.

(** One comparison of [ExecutionContext::validate]. *)
Definition must_match {A} `{EqDecision A} (axis : string) (of_scope of_context : A)
    (k : Result unit HostApiError) : Result unit HostApiError :=
  reject_if (bool_decide (of_scope <> of_context))
    (InvariantViolation ("resource_scope." +:+ axis +:+ " must match execution context " +:+ axis))
    k.

Definition context_validate (c : ExecutionContext) : Result unit HostApiError :=
  let s := ctx_resource_scope c in
  must_match "invocation_id" (invocation_id s) (ctx_invocation_id c)
    (must_match "tenant_id" (tenant_id s) (ctx_tenant_id c)
      (must_match "user_id" (user_id s) (ctx_user_id c)
        (must_match "agent_id" (agent_id s) (ctx_agent_id c)
          (must_match "project_id" (project_id s) (ctx_project_id c)
            (must_match "mission_id" (mission_id s) (ctx_mission_id c)
              (must_match "thread_id" (thread_id s) (ctx_thread_id c)
                (mount_view_validate (ctx_mounts c)))))))).

(** The resource scope a context has to carry. *)
Definition scope_of_context (c : ExecutionContext) : ResourceScope := {|
  tenant_id := ctx_tenant_id c;
  user_id := ctx_user_id c;
  agent_id := ctx_agent_id c;
  project_id := ctx_project_id c;
  mission_id := ctx_mission_id c;
  thread_id := ctx_thread_id c;
  invocation_id := ctx_invocation_id c;
|}.

Lemma must_match_ok {A} `{EqDecision A} axis (a b : A) k :
  must_match axis a b k = Ok tt <-> a = b /\ k = Ok tt.
Proof.
  unfold must_match, reject_if. case_bool_decide as Hab; split; [done | by intros [? _] | intros; split; [| done] | by intros [_ ?]].
  by destruct (decide (a = b)).
Qed.

(** A context is valid exactly when its resource scope repeats its ids and its mount
    view is valid. *)
Lemma context_validate_ok c :
  context_validate c = Ok tt
  <-> ctx_resource_scope c = scope_of_context c /\ mount_view_validate (ctx_mounts c) = Ok tt.
Proof.
  unfold context_validate, scope_of_context. rewrite !must_match_ok.
  destruct (ctx_resource_scope c); simpl. split.
  - intros (-> & -> & -> & -> & -> & -> & -> & ?). by split.
  - intros [Heq ?]. injection Heq as -> -> -> -> -> -> ->. repeat (split; [done |]). done.
Qed.
End with_platform.

