(* ===== verification/Obligations.v ===== *)
(** * Host API: decisions and their obligations

    Models [ironclaw_host_api/src/decision.rs]: why a request is denied, what an
    allowing decision obliges the runtime to do, and [Obligations::new], which puts a
    list of obligations into the canonical evaluation order and refuses duplicates and
    conflicts.  A panic ([unreachable!]) is the absence of a value. *)

From stdpp Require Import sorting.
From S2P Require Import Prelude Strings Ids Mounts Platform HostApi Capability.
From Stdlib Require Import Lia.

(** ** Vocabulary *)

Inductive DenyReason :=
  | MissingGrant | DenyInvalidPath | DenyPathOutsideMount | UnknownCapability | UnknownSecret
  | NetworkDenied | BudgetDenied | ApprovalDenied | PolicyDenied | ResourceLimitExceeded
  | InternalInvariantViolation.

Inductive ObligationKind :=
  | KReserveResources | KUseScopedMounts | KApplyNetworkPolicy | KInjectSecretOnce
  | KInjectCredentialAccountOnce | KFirstPartyCredentialStagedViaHostPort | KAuditBefore
  | KRedactOutput | KEnforceResourceCeiling | KEnforceOutputLimit | KAuditAfter.

#[export] Instance DenyReason_eq_dec : EqDecision DenyReason.
Proof. solve_decision. Defined.
#[export] Instance ObligationKind_eq_dec : EqDecision ObligationKind.
Proof. solve_decision. Defined.

Definition OBLIGATION_EVALUATION_ORDER : list ObligationKind := [
  KReserveResources; KUseScopedMounts; KApplyNetworkPolicy; KInjectSecretOnce;
  KInjectCredentialAccountOnce; KFirstPartyCredentialStagedViaHostPort; KAuditBefore;
  KRedactOutput; KEnforceResourceCeiling; KEnforceOutputLimit; KAuditAfter ].

(** [{:?}] of [ObligationKind]. *)
Definition kind_debug (k : ObligationKind) : string :=
  match k with
  | KReserveResources => "ReserveResources" | KUseScopedMounts => "UseScopedMounts"
  | KApplyNetworkPolicy => "ApplyNetworkPolicy" | KInjectSecretOnce => "InjectSecretOnce"
  | KInjectCredentialAccountOnce => "InjectCredentialAccountOnce"
  | KFirstPartyCredentialStagedViaHostPort => "FirstPartyCredentialStagedViaHostPort"
  | KAuditBefore => "AuditBefore" | KRedactOutput => "RedactOutput"
  | KEnforceResourceCeiling => "EnforceResourceCeiling"
  | KEnforceOutputLimit => "EnforceOutputLimit" | KAuditAfter => "AuditAfter"
  end.

Record RuntimeCredentialAuthRequirement := {
  ra_provider : RuntimeCredentialAccountProviderId;
  ra_setup : RuntimeCredentialAccountSetup;
  ra_requester_extension : ExtensionId;
  ra_provider_scopes : list string;
}.

Section with_platform.
Context `{Platform}.

Inductive Obligation :=
  | AuditBefore
  | AuditAfter
  | RedactOutput
  | ReserveResources (reservation_id : ResourceReservationId)
  | UseScopedMounts (mounts : MountView)
  | InjectSecretOnce (handle : SecretHandle)
  | InjectCredentialAccountOnce (handle : SecretHandle)
      (provider : RuntimeCredentialAccountProviderId) (setup : RuntimeCredentialAccountSetup)
      (provider_scopes : list string) (requester_extension : ExtensionId)
  | FirstPartyCredentialStagedViaHostPort (capability_id : CapabilityId)
  | ApplyNetworkPolicy (policy : NetworkPolicy)
  | EnforceResourceCeiling (ceiling : ResourceCeiling)
  | EnforceOutputLimit (bytes : N).

#[export] Instance Obligation_eq_dec : EqDecision Obligation.
Proof. solve_decision. Defined.

(** [Obligation::kind] *)
Definition obligation_kind (o : Obligation) : ObligationKind :=
  match o with
  | AuditBefore => KAuditBefore
  | AuditAfter => KAuditAfter
  | RedactOutput => KRedactOutput
  | ReserveResources _ => KReserveResources
  | UseScopedMounts _ => KUseScopedMounts
  | InjectSecretOnce _ => KInjectSecretOnce
  | InjectCredentialAccountOnce _ _ _ _ _ => KInjectCredentialAccountOnce
  | FirstPartyCredentialStagedViaHostPort _ => KFirstPartyCredentialStagedViaHostPort
  | ApplyNetworkPolicy _ => KApplyNetworkPolicy
  | EnforceResourceCeiling _ => KEnforceResourceCeiling
  | EnforceOutputLimit _ => KEnforceOutputLimit
  end.

Definition credential_auth_requirement (o : Obligation) :
    option RuntimeCredentialAuthRequirement :=
  match o with
  | InjectCredentialAccountOnce _ provider setup provider_scopes requester_extension =>
      Some {| ra_provider := provider; ra_setup := setup;
              ra_requester_extension := requester_extension;
              ra_provider_scopes := provider_scopes |}
  | _ => None
  end.

(** [RuntimeCredentialRequirement::product_auth_requirement_for] ([capability.rs]) *)
Definition product_auth_requirement_for (r : RuntimeCredentialRequirement)
    (requester_extension : ExtensionId) : option RuntimeCredentialAuthRequirement :=
  match rc_source r with
  | ProductAuthAccount provider setup =>
      Some {| ra_provider := provider; ra_setup := setup;
              ra_requester_extension := requester_extension;
              ra_provider_scopes := rc_provider_scopes r |}
  | FromSecretHandle => None
  end.

(** ** [Obligations::new] *)

(** [None] is the [unreachable!] arm. *)
Definition extract_inject_handle (o : Obligation) : option SecretHandle :=
  match o with
  | InjectSecretOnce handle => Some handle
  | InjectCredentialAccountOnce handle _ _ _ _ => Some handle
  | _ => None
  end.

(** The loop over [rest]: [seen] are the handles inserted so far. *)
Fixpoint check_handles (kind : ObligationKind) (seen : gset (option SecretHandle))
    (rest : list Obligation) : Result (list Obligation) HostApiError :=
  match rest with
  | [] => Ok []
  | o :: rest' =>
      let handle := extract_inject_handle o in
      if bool_decide (handle ∈ seen) then
        Err (InvariantViolation ("duplicate " +:+ kind_debug kind
               +:+ " obligations for the same handle are not allowed"))
      else result_map (cons o) (check_handles kind ({[handle]} ∪ seen) rest')
  end.

Definition normalize_multi_inject (first : Obligation) (rest : list Obligation)
    (kind : ObligationKind) : Result (list Obligation) HostApiError :=
  result_map (cons first) (check_handles kind {[extract_inject_handle first]} rest).

Definition is_multi_inject (kind : ObligationKind) : bool :=
  match kind with KInjectSecretOnce | KInjectCredentialAccountOnce => true | _ => false end.

Definition of_kind (kind : ObligationKind) (o : Obligation) : bool :=
  bool_decide (obligation_kind o = kind).

(** One round of the loop over the evaluation order: what is pushed for [kind]. *)
Definition normalize_kind (obligations : list Obligation) (kind : ObligationKind) :
    Result (list Obligation) HostApiError :=
  match List.filter (of_kind kind) obligations with
  | [] => Ok []
  | first :: rest =>
      if is_multi_inject kind then normalize_multi_inject first rest kind
      else match rest with
           | _ :: _ => Err (InvariantViolation ("duplicate or conflicting " +:+ kind_debug kind
                              +:+ " obligations are not allowed"))
           | [] => Ok [first]
           end
  end.

Fixpoint normalize_kinds (obligations : list Obligation) (kinds : list ObligationKind) :
    Result (list Obligation) HostApiError :=
  match kinds with
  | [] => Ok []
  | kind :: kinds' =>
      and_then (normalize_kind obligations kind) (fun pushed =>
        result_map (app pushed) (normalize_kinds obligations kinds'))
  end.

(** The first loop: every kind has a place in the order. *)
Fixpoint check_kinds (obligations : list Obligation) : Result unit HostApiError :=
  match obligations with
  | [] => Ok tt
  | o :: rest =>
      reject_if (negb (bool_decide (obligation_kind o ∈ OBLIGATION_EVALUATION_ORDER)))
        (InvariantViolation (kind_debug (obligation_kind o)
           +:+ " is missing from OBLIGATION_EVALUATION_ORDER"))
        (check_kinds rest)
  end.

Definition obligations_new (obligations : list Obligation) :
    Result (list Obligation) HostApiError :=
  and_then (check_kinds obligations) (fun _ =>
    normalize_kinds obligations OBLIGATION_EVALUATION_ORDER).

Inductive Decision {Request : Type} :=
  | Allow (obligations : list Obligation)
  | Deny (reason : DenyReason)
  | RequireApproval (request : Request).
Global Arguments Decision : clear implicits.

(** ** The reference: a stable sort, unless two obligations claim one slot *)

(** What at most one obligation of a list may claim: its kind, and for the two
    injecting kinds the handle as well. *)
Definition slot (o : Obligation) : ObligationKind * option SecretHandle :=
  (obligation_kind o, if is_multi_inject (obligation_kind o) then extract_inject_handle o else None).

(** The obligations kind by kind, in the evaluation order. *)
Definition by_kind (obligations : list Obligation) : list Obligation :=
  flat_map (fun kind => List.filter (of_kind kind) obligations) OBLIGATION_EVALUATION_ORDER.

Definition kind_index (k : ObligationKind) : nat :=
  match k with
  | KReserveResources => 0 | KUseScopedMounts => 1 | KApplyNetworkPolicy => 2
  | KInjectSecretOnce => 3 | KInjectCredentialAccountOnce => 4
  | KFirstPartyCredentialStagedViaHostPort => 5 | KAuditBefore => 6 | KRedactOutput => 7
  | KEnforceResourceCeiling => 8 | KEnforceOutputLimit => 9 | KAuditAfter => 10
  end.

Definition kind_le (a b : Obligation) : Prop :=
  kind_index (obligation_kind a) <= kind_index (obligation_kind b).
End with_platform.
Arguments Obligation {_}.
Arguments Decision {_} Request.

Section facts.
Context `{Platform}.
Implicit Types (l out : list Obligation) (k : ObligationKind).

Lemma of_kind_true k o : of_kind k o = true <-> obligation_kind o = k.
Proof. unfold of_kind. apply bool_decide_eq_true. Qed.

Lemma of_kind_false k o : obligation_kind o <> k -> of_kind k o = false.
Proof. unfold of_kind. apply bool_decide_eq_false. Qed.

Lemma in_order k : k ∈ OBLIGATION_EVALUATION_ORDER.
Proof. apply list_elem_of_In. destruct k; simpl; tauto. Qed.

Lemma kind_index_inj : Inj (=) (=) kind_index.
Proof. by intros [] []. Qed.

Lemma order_increasing :
  StronglySorted (fun a b => kind_index a < kind_index b) OBLIGATION_EVALUATION_ORDER.
Proof. repeat (constructor; [| repeat (constructor; [simpl; lia |]); constructor]). constructor. Qed.

Lemma check_kinds_ok l : check_kinds l = Ok tt.
Proof.
  induction l as [| o l IH]; [done |]. simpl. unfold reject_if.
  rewrite bool_decide_eq_true_2; [done | apply in_order].
Qed.

Lemma check_handles_ok k seen l out :
  check_handles k seen l = Ok out
  <-> out = l /\ NoDup (extract_inject_handle <$> l)
      /\ forall o, o ∈ l -> extract_inject_handle o ∉ seen.
Proof.
  revert seen out. induction l as [| o l IH]; intros seen out; simpl.
  - split; [intros [= <-] | by intros (-> & _)]. repeat split; [constructor | set_solver].
  - rewrite NoDup_cons. case_bool_decide as Hin.
    + split; [done |]. intros (_ & _ & Ho). exfalso. apply (Ho o); [set_solver | done].
    + destruct (check_handles k _ l) as [out' | e] eqn:Hc; simpl.
      * apply IH in Hc as (-> & Hnd & Ho). split.
        -- intros [= <-]. repeat split; [| done |].
           ++ intros (o' & He & Ho')%list_elem_of_fmap. specialize (Ho o' Ho'). set_solver.
           ++ intros o' Ho'. rewrite elem_of_cons in Ho'. destruct Ho' as [-> |]; [done |].
              specialize (Ho o'). set_solver.
        -- by intros (-> & _).
      * split; [done |]. intros (-> & [Hnin Hnd] & Ho). exfalso.
        assert (check_handles k ({[extract_inject_handle o]} ∪ seen) l = Ok l) as Hok.
        { apply IH. repeat split; [done |]. intros o' Ho'. rewrite elem_of_union.
          intros [Heq%elem_of_singleton | Hs].
          - apply Hnin. rewrite <- Heq. by apply list_elem_of_fmap_2.
          - apply (Ho o'); [set_solver | done]. }
        congruence.
Qed.

(** One slot each, for obligations of one kind. *)
Lemma normalize_kind_ok l k out :
  normalize_kind l k = Ok out
  <-> out = List.filter (of_kind k) l /\ NoDup (slot <$> List.filter (of_kind k) l).
Proof.
  unfold normalize_kind.
  assert (forall o, o ∈ List.filter (of_kind k) l -> obligation_kind o = k) as Hk.
  { intros o (_ & Ho)%list_elem_of_In%List.filter_In. by apply of_kind_true. }
  destruct (List.filter (of_kind k) l) as [| o rest].
  - split; [intros [= <-]; split; [done | constructor] | by intros [-> _]].
  - destruct (is_multi_inject k) eqn:Hm.
    + assert (forall o', o' ∈ o :: rest -> slot o' = (k, extract_inject_handle o')) as Hs.
      { intros o' Ho'. unfold slot. by rewrite (Hk o' Ho'), Hm. }
      assert (slot <$> rest = pair k <$> (extract_inject_handle <$> rest)) as Hrest.
      { rewrite <- list_fmap_compose. apply list_fmap_ext. intros i o' Ho'. simpl. apply Hs.
        apply elem_of_cons. right. by eapply list_elem_of_lookup_2. }
      rewrite fmap_cons, NoDup_cons, Hrest, Hs by set_solver. rewrite NoDup_fmap by by intros ?? [=].
      rewrite list_elem_of_fmap_inj by by intros ?? [=].
      unfold normalize_multi_inject.
      destruct (check_handles k _ rest) as [out' | e] eqn:Hc; simpl.
      * apply check_handles_ok in Hc as (-> & Hnd & Ho). split; [intros [= <-] | by intros [-> _]].
        repeat split; [| done]. intros (o' & He & Ho')%list_elem_of_fmap.
        specialize (Ho o' Ho'). set_solver.
      * split; [done |]. intros (_ & Hnin & Hnd). exfalso.
        assert (check_handles k {[extract_inject_handle o]} rest = Ok rest) as Hok.
        { apply check_handles_ok. repeat split; [done |]. intros o' Ho' Heq%elem_of_singleton.
          apply Hnin. apply list_elem_of_fmap. exists o'. by split. }
        congruence.
    + destruct rest as [| o2 rest].
      * split; [intros [= <-] | by intros [-> _]]. split; [done |]. simpl. apply NoDup_singleton.
      * split; [done |]. intros [_ Hnd]. exfalso. simpl in Hnd.
        apply NoDup_cons in Hnd as [Hnin _]. apply Hnin. apply elem_of_cons. left.
        unfold slot. rewrite !Hk by set_solver. by rewrite Hm.
Qed.

Lemma normalize_kinds_ok l ks out :
  normalize_kinds l ks = Ok out
  <-> out = flat_map (fun k => List.filter (of_kind k) l) ks
      /\ forall k, k ∈ ks -> NoDup (slot <$> List.filter (of_kind k) l).
Proof.
  revert out. induction ks as [| k ks IH]; intros out; simpl.
  - split; [intros [= <-]; split; [done | set_solver] | by intros [-> _]].
  - destruct (normalize_kind l k) as [pushed | e] eqn:Hk; simpl.
    + apply normalize_kind_ok in Hk as [-> Hnd].
      destruct (normalize_kinds l ks) as [rest | e] eqn:Hks; simpl.
      * destruct (proj1 (IH rest) eq_refl) as [-> Hall]. split; [intros [= <-] | by intros [-> _]].
        split; [done |]. intros k' Hk'. rewrite elem_of_cons in Hk'.
        destruct Hk' as [-> |]; auto.
      * split; [done |]. intros [_ Hall]. exfalso.
        assert (Err e = Ok (flat_map (fun k => List.filter (of_kind k) l) ks)) as Hbad; [| done].
        apply IH. split; [done |]. intros k' Hk'. apply Hall. set_solver.
    + split; [done |]. intros [_ Hall]. exfalso.
      assert (normalize_kind l k = Ok (List.filter (of_kind k) l)); [| congruence].
      apply normalize_kind_ok. split; [done |]. apply Hall. set_solver.
Qed.

Lemma filter_of_kind_of_kind k k' l :
  List.filter (of_kind k) (List.filter (of_kind k') l)
  = if decide (k = k') then List.filter (of_kind k) l else [].
Proof.
  induction l as [| o l IH]; simpl; [by case_decide |].
  destruct (of_kind k' o) eqn:Hk'; simpl.
  - apply of_kind_true in Hk' as <-. destruct (of_kind k o) eqn:Hk; rewrite IH.
    + apply of_kind_true in Hk as <-. by rewrite !decide_True.
    + done.
  - rewrite IH. destruct (decide (k = k')) as [-> |]; [by rewrite Hk' | done].
Qed.

(** Sorting by kind keeps what there is of each kind, in its order. *)
Lemma by_kind_stable k l : List.filter (of_kind k) (by_kind l) = List.filter (of_kind k) l.
Proof.
  unfold by_kind.
  assert (forall ks, NoDup ks ->
    List.filter (of_kind k) (flat_map (fun k' => List.filter (of_kind k') l) ks)
    = if decide (k ∈ ks) then List.filter (of_kind k) l else []) as Hks.
  { induction ks as [| k' ks IH]; intros Hnd; [done |]. cbn [flat_map].
    apply NoDup_cons in Hnd as [Hnin Hnd]. rewrite List.filter_app, IH by done.
    rewrite filter_of_kind_of_kind. destruct (decide (k = k')) as [<- |].
    - rewrite (decide_False (P := k ∈ ks)) by done.
      rewrite decide_True by set_solver. apply app_nil_r.
    - destruct (decide (k ∈ ks)); [rewrite decide_True by set_solver; done |].
      by rewrite decide_False by set_solver. }
  rewrite Hks; [by rewrite decide_True by apply in_order |].
  apply (bool_decide_eq_true_1 _). reflexivity.
Qed.

Lemma by_kind_cons_perm o l : by_kind (o :: l) ≡ₚ o :: by_kind l.
Proof.
  unfold by_kind.
  assert (forall ks, NoDup ks ->
    flat_map (fun k => List.filter (of_kind k) (o :: l)) ks
    ≡ₚ (if decide (obligation_kind o ∈ ks) then [o] else [])
        ++ flat_map (fun k => List.filter (of_kind k) l) ks) as Hks.
  { induction ks as [| k ks IH]; intros Hnd; [done |].
    apply NoDup_cons in Hnd as [Hnin Hnd]. cbn [flat_map List.filter]. rewrite IH by done.
    destruct (of_kind k o) eqn:Hk.
    - apply of_kind_true in Hk as <-. rewrite (decide_False (P := _ ∈ ks)) by done.
      rewrite decide_True by set_solver. done.
    - assert (obligation_kind o <> k) as Hne by (intros Heq%of_kind_true; congruence).
      destruct (decide (obligation_kind o ∈ ks)).
      + rewrite decide_True by set_solver. simpl. by rewrite <- Permutation_middle.
      + by rewrite decide_False by set_solver. }
  rewrite Hks; [by rewrite decide_True by apply in_order |].
  apply (bool_decide_eq_true_1 _). reflexivity.
Qed.

Lemma by_kind_perm l : by_kind l ≡ₚ l.
Proof.
  induction l as [| o l IH]; [done |]. by rewrite by_kind_cons_perm, IH.
Qed.

(** A list already in the evaluation order is left alone. *)
Lemma by_kind_sorted_id l : StronglySorted kind_le l -> by_kind l = l.
Proof.
  assert (forall o l ks, StronglySorted (fun a b => kind_index a < kind_index b) ks ->
    obligation_kind o ∈ ks -> Forall (kind_le o) l ->
    flat_map (fun k => List.filter (of_kind k) (o :: l)) ks
    = o :: flat_map (fun k => List.filter (of_kind k) l) ks) as Hcons.
  { intros o l'. induction ks as [| k ks IH]; intros Hs Hin Hle; [set_solver |].
    apply StronglySorted_inv in Hs as [Hs Hlt]. rewrite Forall_forall in Hlt.
    cbn [flat_map].
    replace (List.filter (of_kind k) (o :: l')) with
      (if of_kind k o then o :: List.filter (of_kind k) l' else List.filter (of_kind k) l') by done.
    destruct (of_kind k o) eqn:Hk.
    - apply of_kind_true in Hk as <-. rewrite <- app_comm_cons. do 2 f_equal.
      clear IH Hs Hin. induction ks as [| k ks IH]; [done |]. simpl.
      rewrite of_kind_false.
      2:{ intros <-. specialize (Hlt _ ltac:(apply elem_of_cons; by left)). lia. }
      f_equal. apply IH. intros x Hx. apply Hlt. set_solver.
    - assert (obligation_kind o <> k) as Hne by (intros Heq%of_kind_true; congruence).
      apply elem_of_cons in Hin as [? | Hin]; [done |].
      rewrite (IH Hs Hin Hle). specialize (Hlt _ Hin).
      assert (List.filter (of_kind k) l' = []) as ->; [| done].
      clear -Hlt Hle. induction Hle as [| o' l' Ho' _ IH]; [done |]. simpl.
      rewrite of_kind_false; [done |]. intros <-. unfold kind_le in Ho'. lia. }
  induction 1 as [| o l _ IH Hle]; [done |].
  unfold by_kind in *. rewrite Hcons; [by rewrite IH | apply order_increasing | apply in_order | done].
Qed.

Lemma by_kind_is_sorted l : StronglySorted kind_le (by_kind l).
Proof.
  unfold by_kind. generalize order_increasing.
  induction OBLIGATION_EVALUATION_ORDER as [| k ks IH]; intros Hs; simpl; [constructor |].
  apply StronglySorted_inv in Hs as [Hs Hlt]. rewrite Forall_forall in Hlt.
  apply StronglySorted_app_2; [| | by apply IH].
  - intros a b (_ & Ha%of_kind_true)%list_elem_of_In%List.filter_In Hb.
    apply list_elem_of_In, in_flat_map in Hb as (k' & Hk'%list_elem_of_In & Hb).
    apply List.filter_In in Hb as [_ Hb%of_kind_true].
    unfold kind_le. rewrite Ha, Hb. specialize (Hlt _ Hk'). lia.
  - assert (forall o, o ∈ List.filter (of_kind k) l -> obligation_kind o = k) as Hk.
    { intros o (_ & Ho)%list_elem_of_In%List.filter_In. by apply of_kind_true. }
    induction (List.filter (of_kind k) l) as [| o rest IHr]; constructor.
    + apply IHr. intros; apply Hk. set_solver.
    + apply Forall_forall. intros o' Ho'. unfold kind_le. rewrite !Hk by set_solver. lia.
Qed.

Lemma nodup_slots_by_kind l :
  NoDup (slot <$> l) <-> forall k, k ∈ OBLIGATION_EVALUATION_ORDER ->
    NoDup (slot <$> List.filter (of_kind k) l).
Proof.
  split.
  - intros Hnd k _. induction l as [| o l IH]; [constructor |].
    rewrite fmap_cons, NoDup_cons in Hnd. destruct Hnd as [Hnin Hnd]. simpl.
    destruct (of_kind k o); [| auto]. rewrite fmap_cons, NoDup_cons. split; [| auto].
    intros (o' & He & (Ho' & _)%list_elem_of_In%List.filter_In)%list_elem_of_fmap.
    apply Hnin. rewrite He. apply list_elem_of_fmap_2. by apply list_elem_of_In.
  - intros Hall. induction l as [| o l IH]; [constructor |].
    rewrite fmap_cons, NoDup_cons. split.
    + intros (o' & He & Ho')%list_elem_of_fmap.
      specialize (Hall _ (in_order (obligation_kind o))). simpl in Hall.
      rewrite (proj2 (of_kind_true _ o)) in Hall by done.
      rewrite fmap_cons, NoDup_cons in Hall. destruct Hall as [Hnin _]. apply Hnin.
      rewrite He. apply list_elem_of_fmap_2. apply list_elem_of_In, List.filter_In.
      split; [by apply list_elem_of_In |]. apply of_kind_true. by injection He.
    + apply IH. intros k Hk. specialize (Hall k Hk). simpl in Hall.
      destruct (of_kind k o); [| done]. rewrite fmap_cons in Hall. by apply NoDup_cons in Hall as [_ ?].
Qed.

Lemma obligations_new_ok l out :
  obligations_new l = Ok out <-> NoDup (slot <$> l) /\ out = by_kind l.
Proof.
  unfold obligations_new, and_then. rewrite check_kinds_ok. rewrite normalize_kinds_ok.
  rewrite <- nodup_slots_by_kind. unfold by_kind. tauto.
Qed.

(** [Obligations::new] is a checked stable sort: it accepts a list exactly when no
    two obligations claim the same slot (kind, and handle for the injecting kinds), and
    its result is the one list with the same obligations that follows the evaluation
    order and keeps the given order within each kind.  Applied to its own result it
    changes nothing, so a serialized decision decodes to itself. *)
Theorem obligations_new_sorts l out :
  (obligations_new l = Ok out
   <-> NoDup (slot <$> l) /\ out ≡ₚ l /\ StronglySorted kind_le out
       /\ forall k, List.filter (of_kind k) out = List.filter (of_kind k) l)
  /\ (obligations_new l = Ok out -> obligations_new out = Ok out).
Proof.
  split.
  - rewrite obligations_new_ok. split.
    + intros [Hnd ->].
      split; [done | split; [apply by_kind_perm | split; [apply by_kind_is_sorted |]]].
      intros k. apply by_kind_stable.
    + intros (Hnd & _ & Hs & Hk). split; [done |]. rewrite <- (by_kind_sorted_id out Hs).
      unfold by_kind. by apply flat_map_ext.
  - intros [Hnd ->]%obligations_new_ok. apply obligations_new_ok. split.
    + by rewrite by_kind_perm.
    + symmetry. apply by_kind_sorted_id, by_kind_is_sorted.
Qed.
End facts.

Lemma obligations_new_sorts_witness :
  obligations_new (H := TestPlatform)
    [EnforceOutputLimit 5; InjectSecretOnce "b"; AuditBefore; InjectSecretOnce "a"]
  = Ok [InjectSecretOnce "b"; InjectSecretOnce "a"; AuditBefore; EnforceOutputLimit 5]
  /\ obligations_new (H := TestPlatform)
       [InjectSecretOnce "b"; InjectSecretOnce "a"; AuditBefore; EnforceOutputLimit 5]
     = Ok [InjectSecretOnce "b"; InjectSecretOnce "a"; AuditBefore; EnforceOutputLimit 5]
  /\ is_ok (obligations_new (H := TestPlatform) [InjectSecretOnce "a"; InjectSecretOnce "a"]) = false.
Proof.
  split; [vm_refl |]. split; [| vm_refl].
  apply (proj2 (obligations_new_sorts
    [EnforceOutputLimit 5; InjectSecretOnce "b"; AuditBefore; InjectSecretOnce "a"] _)).
  vm_refl.
Defined.
