(* ===== verification/Trust.v ===== *)
(** * Host trust policy

    Models [ironclaw_host_api/src/trust.rs] and [ironclaw_trust/src/decision.rs],
    [sources.rs], [policy.rs] and [invalidation.rs]: how a package identity and an
    untrusted request become an effective trust class with an authority ceiling, how
    the policy sources are changed at run time, and which changes are announced.  The
    sources are the four the crate defines.  A method behind a lock is a function of
    the locked state; a listener may evaluate the policy but cannot change it, so an
    announcement is the event handed to the listeners; the closure of [mutate_with] is a
    program over the six typed handles ([Mutation]). *)

From S2P Require Import Prelude Strings Ids Mounts Platform HostApi Capability.
Import HostApi.Resource.

Abbreviation PackageId := string.

(** ** [host_api/src/trust.rs] *)

Inductive RequestedTrustClass := Untrusted | ThirdParty | FirstPartyRequested | SystemRequested.

Inductive PackageSource :=
  | Bundled
  | LocalManifest (path : string)
  | Registry (url : string)
  | Admin.

#[export] Instance PackageSource_eq_dec : EqDecision PackageSource.
Proof. solve_decision. Defined.

#[export] Instance PackageSource_countable : Countable PackageSource.
Proof.
  apply (inj_countable'
    (fun s => match s with
              | Bundled => (0%N, "") | LocalManifest p => (1%N, p)
              | Registry u => (2%N, u) | Admin => (3%N, "")
              end)
    (fun '(n, t) => match n with
                    | 0%N => Bundled | 1%N => LocalManifest t | 2%N => Registry t | _ => Admin
                    end)).
  by intros [].
Defined.

Record PackageIdentity := {
  pi_package_id : PackageId;
  pi_source : PackageSource;
  pi_digest : option string;
  pi_signer : option string;
}.

(** ** [decision.rs] *)

Record EffectiveTrustClass := { class : TrustClass }.

#[export] Instance EffectiveTrustClass_eq_dec : EqDecision EffectiveTrustClass.
Proof. solve_decision. Defined.

Definition trust_sandbox : EffectiveTrustClass := {| class := Sandbox |}.
Definition trust_user_trusted : EffectiveTrustClass := {| class := UserTrusted |}.
Definition trust_first_party : EffectiveTrustClass := {| class := FirstParty |}.
Definition trust_system : EffectiveTrustClass := {| class := System |}.

Definition is_privileged (t : EffectiveTrustClass) : bool :=
  match class t with FirstParty | System => true | _ => false end.

Definition authority_level (t : EffectiveTrustClass) : N :=
  match class t with Sandbox => 0 | UserTrusted => 1 | FirstParty | System => 2 end.

(** [HostTrustAssignment] and [into_effective] *)
Record HostTrustAssignment := { assigned : TrustClass }.
Definition into_effective (a : HostTrustAssignment) : EffectiveTrustClass :=
  {| class := assigned a |}.

Inductive TrustProvenance :=
  | DefaultProvenance | BundledProvenance | AdminConfigProvenance
  | SignedRegistryProvenance (signer : string) | LocalManifestProvenance.

(** [limit_reduced<T>] for [T] with the comparison [lt]. *)
Definition limit_reduced {T} (lt : T -> T -> bool) (previous current : option T) : bool :=
  match previous, current with
  | None, Some _ => true
  | Some previous, Some current => lt current previous
  | None, None | Some _, None => false
  end.

Definition sandbox_quota_reduced (previous current : option SandboxQuota) : bool :=
  match previous, current with
  | None, Some _ => true
  | None, None | Some _, None => false
  | Some p, Some c =>
      limit_reduced N.ltb (sq_cpu_time_ms p) (sq_cpu_time_ms c)
      || limit_reduced N.ltb (sq_memory_bytes p) (sq_memory_bytes c)
      || limit_reduced N.ltb (sq_disk_bytes p) (sq_disk_bytes c)
      || limit_reduced N.ltb (sq_network_egress_bytes p) (sq_network_egress_bytes c)
      || limit_reduced N.ltb (sq_process_count p) (sq_process_count c)
  end.

Inductive TrustError := TrustInvariantViolation (reason : string).

Section with_platform.
Context `{Platform}.

Record AuthorityCeiling := {
  allowed_effects : list EffectKind;
  max_resource_ceiling : option ResourceCeiling;
}.

Definition authority_ceiling_empty : AuthorityCeiling :=
  {| allowed_effects := []; max_resource_ceiling := None |}.

Definition allows_effect (a : AuthorityCeiling) (e : EffectKind) : bool :=
  bool_decide (e ∈ allowed_effects a).

Definition resource_ceiling_reduced (previous current : option ResourceCeiling) : bool :=
  match previous, current with
  | None, Some _ => true
  | None, None | Some _, None => false
  | Some p, Some c =>
      limit_reduced decimal_lt (max_usd p) (max_usd c)
      || limit_reduced N.ltb (max_input_tokens p) (max_input_tokens c)
      || limit_reduced N.ltb (max_output_tokens p) (max_output_tokens c)
      || limit_reduced N.ltb (max_wall_clock_ms p) (max_wall_clock_ms c)
      || limit_reduced N.ltb (max_output_bytes p) (max_output_bytes c)
      || sandbox_quota_reduced (ceiling_sandbox p) (ceiling_sandbox c)
  end.

Definition is_reduction_from (self previous : AuthorityCeiling) : bool :=
  existsb (fun e => negb (bool_decide (e ∈ allowed_effects self))) (allowed_effects previous)
  || resource_ceiling_reduced (max_resource_ceiling previous) (max_resource_ceiling self).

Record TrustDecision := {
  effective_trust : EffectiveTrustClass;
  authority_ceiling : AuthorityCeiling;
  provenance : TrustProvenance;
  evaluated_at : DateTime;
}.

(** ** [sources.rs] *)

Record TrustPolicyInput := {
  in_identity : PackageIdentity;
  in_requested_trust : RequestedTrustClass;
  in_requested_authority : gset CapabilityId;
}.

Record SourceMatch := {
  sm_effective_trust : EffectiveTrustClass;
  sm_provenance : TrustProvenance;
  sm_allowed_effects : list EffectKind;
  sm_max_resource_ceiling : option ResourceCeiling;
}.

Record BundledEntry := {
  be_package_id : PackageId;
  be_digest : option string;
  be_effective_trust : EffectiveTrustClass;
  be_allowed_effects : list EffectKind;
  be_max_resource_ceiling : option ResourceCeiling;
}.

Record AdminEntry := {
  ae_package_id : PackageId;
  ae_source : PackageSource;
  ae_digest : option string;
  ae_effective_trust : EffectiveTrustClass;
  ae_allowed_effects : list EffectKind;
  ae_max_resource_ceiling : option ResourceCeiling;
}.

Record SignerEntry := {
  se_signer : string;
  se_label : option string;
  se_effective_trust : EffectiveTrustClass;
  se_allowed_effects : list EffectKind;
  se_max_resource_ceiling : option ResourceCeiling;
}.

(** [AdminSubject]: the package id and the source it is bound to. *)
Abbreviation AdminSubject := (PackageId * PackageSource)%type.
Abbreviation BundledRegistry := (gmap PackageId BundledEntry).
Abbreviation AdminConfig := (gmap AdminSubject AdminEntry).
Abbreviation SignedRegistry := (gmap string SignerEntry).

Definition bundled_entry_new (package_id : PackageId) (digest : option string)
    (trust : HostTrustAssignment) (effects : list EffectKind)
    (ceiling : option ResourceCeiling) : BundledEntry := {|
  be_package_id := package_id; be_digest := digest;
  be_effective_trust := into_effective trust;
  be_allowed_effects := effects; be_max_resource_ceiling := ceiling |}.

(** The four constructors of [AdminEntry]. *)
Definition for_bundled package_id digest trust effects ceiling : AdminEntry := {|
  ae_package_id := package_id; ae_source := Bundled; ae_digest := digest;
  ae_effective_trust := into_effective trust;
  ae_allowed_effects := effects; ae_max_resource_ceiling := ceiling |}.
Definition for_registry package_id registry_url digest trust effects ceiling : AdminEntry := {|
  ae_package_id := package_id; ae_source := Registry registry_url; ae_digest := digest;
  ae_effective_trust := into_effective trust;
  ae_allowed_effects := effects; ae_max_resource_ceiling := ceiling |}.
Definition for_admin package_id trust effects ceiling : AdminEntry := {|
  ae_package_id := package_id; ae_source := Admin; ae_digest := None;
  ae_effective_trust := into_effective trust;
  ae_allowed_effects := effects; ae_max_resource_ceiling := ceiling |}.
Definition for_local_manifest package_id manifest_path digest trust effects ceiling :
    AdminEntry := {|
  ae_package_id := package_id; ae_source := LocalManifest manifest_path; ae_digest := digest;
  ae_effective_trust := into_effective trust;
  ae_allowed_effects := effects; ae_max_resource_ceiling := ceiling |}.

Definition bundled_with_entries (es : list BundledEntry) : BundledRegistry :=
  foldl (fun m e => <[be_package_id e := e]> m) ∅ es.
Definition bundled_registry_upsert (e : BundledEntry) (m : BundledRegistry) : BundledRegistry :=
  <[be_package_id e := e]> m.
Definition bundled_registry_remove (id : PackageId) (m : BundledRegistry) : BundledRegistry :=
  delete id m.

Definition subject_from_entry (e : AdminEntry) : AdminSubject := (ae_package_id e, ae_source e).
Definition admin_with_entries (es : list AdminEntry) : AdminConfig :=
  foldl (fun m e => <[subject_from_entry e := e]> m) ∅ es.
Definition admin_config_upsert (e : AdminEntry) (m : AdminConfig) : AdminConfig :=
  <[subject_from_entry e := e]> m.
Definition admin_config_remove (id : PackageId) (source : PackageSource) (m : AdminConfig) :
    AdminConfig := delete (id, source) m.

Definition signed_with_signers (es : list SignerEntry) : SignedRegistry :=
  foldl (fun m e => <[se_signer e := e]> m) ∅ es.
Definition signed_registry_upsert (e : SignerEntry) (m : SignedRegistry) : SignedRegistry :=
  <[se_signer e := e]> m.
Definition signed_registry_remove (signer : string) (m : SignedRegistry) : SignedRegistry :=
  delete signer m.

(** [if let Some(pinned) = .. { match digest { Some(actual) if actual == pinned => {} .. } }] *)
Definition digest_matches (pinned actual : option string) : bool :=
  match pinned with
  | Some p => match actual with Some a => String.eqb a p | None => false end
  | None => true
  end.

Definition bundled_evaluate (m : BundledRegistry) (input : TrustPolicyInput) :
    option SourceMatch :=
  match pi_source (in_identity input) with
  | Bundled =>
      match m !! pi_package_id (in_identity input) with
      | None => None
      | Some entry =>
          if digest_matches (be_digest entry) (pi_digest (in_identity input)) then
            Some {| sm_effective_trust := be_effective_trust entry;
                    sm_provenance := BundledProvenance;
                    sm_allowed_effects := be_allowed_effects entry;
                    sm_max_resource_ceiling := be_max_resource_ceiling entry |}
          else None
      end
  | _ => None
  end.

Definition admin_evaluate (m : AdminConfig) (input : TrustPolicyInput) : option SourceMatch :=
  match m !! (pi_package_id (in_identity input), pi_source (in_identity input)) with
  | None => None
  | Some entry =>
      if digest_matches (ae_digest entry) (pi_digest (in_identity input)) then
        Some {| sm_effective_trust := ae_effective_trust entry;
                sm_provenance := AdminConfigProvenance;
                sm_allowed_effects := ae_allowed_effects entry;
                sm_max_resource_ceiling := ae_max_resource_ceiling entry |}
      else None
  end.

(** [Box<dyn PolicySource>]; the last two never match ([enabled] is the switch of
    [LocalDevOverride]). *)
Inductive PolicySource :=
  | BundledSource (m : BundledRegistry)
  | AdminSource (m : AdminConfig)
  | SignedSource (m : SignedRegistry)
  | LocalDevSource (overrides : gmap PackageId AdminEntry) (enabled : bool).

Definition source_name (s : PolicySource) : string :=
  match s with
  | BundledSource _ => "bundled" | AdminSource _ => "admin_config"
  | SignedSource _ => "signed_registry" | LocalDevSource _ _ => "local_dev_override"
  end.

(** [source.as_any().type_id()] *)
Definition type_id (s : PolicySource) : N :=
  match s with
  | BundledSource _ => 0 | AdminSource _ => 1 | SignedSource _ => 2 | LocalDevSource _ _ => 3
  end.

Definition source_evaluate (s : PolicySource) (input : TrustPolicyInput) :
    Result (option SourceMatch) TrustError :=
  match s with
  | BundledSource m => Ok (bundled_evaluate m input)
  | AdminSource m => Ok (admin_evaluate m input)
  | SignedSource _ => Ok None
  | LocalDevSource _ enabled => if negb enabled then Ok None else Ok None
  end.
End with_platform.
Arguments AuthorityCeiling {_}.

(** The registries, for the files that follow. *)
Abbreviation BundledRegistry := (gmap PackageId BundledEntry).
Abbreviation AdminConfig := (gmap (PackageId * PackageSource) AdminEntry).
Abbreviation SignedRegistry := (gmap string SignerEntry).


Section with_platform.
Context `{Platform}.

(** ** The chain of sources *)

Fixpoint ensure_unique_source_types_from (seen : gset N) (sources : list PolicySource) :
    Result unit TrustError :=
  match sources with
  | [] => Ok tt
  | s :: rest =>
      if bool_decide (type_id s ∈ seen) then
        Err (TrustInvariantViolation
               ("policy chain contains duplicate source type `" +:+ source_name s +:+ "`"))
      else ensure_unique_source_types_from ({[type_id s]} ∪ seen) rest
  end.

Definition ensure_unique_source_types (sources : list PolicySource) : Result unit TrustError :=
  ensure_unique_source_types_from ∅ sources.

Definition ensure_source_type_absent (sources : list PolicySource) (candidate : PolicySource) :
    Result unit TrustError :=
  if existsb (fun s => N.eqb (type_id s) (type_id candidate)) sources then
    Err (TrustInvariantViolation
           ("policy chain already contains source type `" +:+ source_name candidate +:+ "`"))
  else Ok tt.

(** [HostTrustPolicy] is its sources; [with_clock] and [new]. *)
Definition trust_policy_new (sources : list PolicySource) :
    Result (list PolicySource) TrustError :=
  result_map (fun _ => sources) (ensure_unique_source_types sources).

Definition fail_closed : list PolicySource := [].

Definition has_sources (sources : list PolicySource) : bool :=
  match sources with [] => false | _ => true end.

Definition add_source (source : PolicySource) (sources : list PolicySource) :
    Result unit TrustError * list PolicySource :=
  match ensure_source_type_absent sources source with
  | Err e => (Err e, sources)
  | Ok _ => (Ok tt, sources ++ [source])
  end.

(** ** Evaluation *)

Definition default_decision (now : DateTime) : TrustDecision := {|
  effective_trust := trust_sandbox;
  authority_ceiling := authority_ceiling_empty;
  provenance := DefaultProvenance;
  evaluated_at := now |}.

Definition decision_of_match (now : DateTime) (m : SourceMatch) : TrustDecision := {|
  effective_trust := sm_effective_trust m;
  authority_ceiling := {| allowed_effects := sm_allowed_effects m;
                          max_resource_ceiling := sm_max_resource_ceiling m |};
  provenance := sm_provenance m;
  evaluated_at := now |}.

Fixpoint evaluate_chain (now : DateTime) (input : TrustPolicyInput)
    (sources : list PolicySource) : Result TrustDecision TrustError :=
  match sources with
  | [] => Ok (default_decision now)
  | s :: rest =>
      match source_evaluate s input with
      | Err e => Err e
      | Ok (Some matched) => Ok (decision_of_match now matched)
      | Ok None => evaluate_chain now input rest
      end
  end.

(** [evaluate]: the read lock (or being inside a publication) only delays it. *)
Definition trust_evaluate (sources : list PolicySource) (now : DateTime)
    (input : TrustPolicyInput) : Result TrustDecision TrustError :=
  evaluate_chain now input sources.

(** ** [SourceMutators] *)

Inductive SourceMutation :=
  | BundledUpsert (entry : BundledEntry)
  | BundledRemove (package_id : PackageId)
  | AdminUpsert (entry : AdminEntry)
  | AdminRemove (package_id : PackageId) (source : PackageSource)
  | SignedUpsert (entry : SignerEntry)
  | SignedRemove (signer : string).

(** [downcast_ref::<T>()] for the three types the handles look for. *)
Definition as_bundled (s : PolicySource) : option BundledRegistry :=
  match s with BundledSource m => Some m | _ => None end.
Definition as_admin (s : PolicySource) : option AdminConfig :=
  match s with AdminSource m => Some m | _ => None end.
Definition as_signed (s : PolicySource) : option SignedRegistry :=
  match s with SignedSource m => Some m | _ => None end.

(** [find::<T>()] *)
Definition find_source {T} (downcast : PolicySource -> option T) (type_name : string)
    (sources : list PolicySource) : Result T TrustError :=
  match omap downcast sources with
  | [] => Err (TrustInvariantViolation
                 ("policy chain does not contain a source of type `" +:+ type_name +:+ "`"))
  | [first] => Ok first
  | _ => Err (TrustInvariantViolation
                ("policy chain contains duplicate source type `" +:+ type_name +:+ "`"))
  end.

Definition BUNDLED_TYPE : string := "ironclaw_trust::sources::BundledRegistry".
Definition ADMIN_TYPE : string := "ironclaw_trust::sources::AdminConfig".
Definition SIGNED_TYPE : string := "ironclaw_trust::sources::SignedRegistry".

(** A closure over the handles: each call returns to it, so it may look at what a
    removal returned and carry on after an error. *)
Inductive Mutation (R : Type) : Type :=
  | Return (r : Result R TrustError)
  | CallBundledUpsert (e : BundledEntry) (k : Result unit TrustError -> Mutation R)
  | CallBundledRemove (id : PackageId) (k : Result (option BundledEntry) TrustError -> Mutation R)
  | CallAdminUpsert (e : AdminEntry) (k : Result unit TrustError -> Mutation R)
  | CallAdminRemove (id : PackageId) (source : PackageSource)
      (k : Result (option AdminEntry) TrustError -> Mutation R)
  | CallSignedUpsert (e : SignerEntry) (k : Result unit TrustError -> Mutation R)
  | CallSignedRemove (signer : string) (k : Result (option SignerEntry) TrustError -> Mutation R).
Arguments Return {R}.
Arguments CallBundledUpsert {R}.
Arguments CallBundledRemove {R}.
Arguments CallAdminUpsert {R}.
Arguments CallAdminRemove {R}.
Arguments CallSignedUpsert {R}.
Arguments CallSignedRemove {R}.

(** One handle: look the source up, compute the answer, stage the change. *)
Definition stage {T A} (found : Result T TrustError) (answer : T -> A) (m : SourceMutation)
    (staged : list SourceMutation) : Result A TrustError * list SourceMutation :=
  match found with
  | Err e => (Err e, staged)
  | Ok registry => (Ok (answer registry), staged ++ [m])
  end.

(** The closure run against the live sources; what it staged. *)
Fixpoint run_mutation {R} (sources : list PolicySource) (m : Mutation R)
    (staged : list SourceMutation) : Result R TrustError * list SourceMutation :=
  match m with
  | Return r => (r, staged)
  | CallBundledUpsert e k =>
      let '(a, st) := stage (find_source as_bundled BUNDLED_TYPE sources) (fun _ => tt)
                        (BundledUpsert e) staged in
      run_mutation sources (k a) st
  | CallBundledRemove id k =>
      let '(a, st) := stage (find_source as_bundled BUNDLED_TYPE sources) (fun r => r !! id)
                        (BundledRemove id) staged in
      run_mutation sources (k a) st
  | CallAdminUpsert e k =>
      let '(a, st) := stage (find_source as_admin ADMIN_TYPE sources) (fun _ => tt)
                        (AdminUpsert e) staged in
      run_mutation sources (k a) st
  | CallAdminRemove id source k =>
      let '(a, st) := stage (find_source as_admin ADMIN_TYPE sources) (fun r => r !! (id, source))
                        (AdminRemove id source) staged in
      run_mutation sources (k a) st
  | CallSignedUpsert e k =>
      let '(a, st) := stage (find_source as_signed SIGNED_TYPE sources) (fun _ => tt)
                        (SignedUpsert e) staged in
      run_mutation sources (k a) st
  | CallSignedRemove signer k =>
      let '(a, st) := stage (find_source as_signed SIGNED_TYPE sources) (fun r => r !! signer)
                        (SignedRemove signer) staged in
      run_mutation sources (k a) st
  end.

Definition on_bundled (f : BundledRegistry -> BundledRegistry) (s : PolicySource) : PolicySource :=
  match s with BundledSource m => BundledSource (f m) | _ => s end.
Definition on_admin (f : AdminConfig -> AdminConfig) (s : PolicySource) : PolicySource :=
  match s with AdminSource m => AdminSource (f m) | _ => s end.
Definition on_signed (f : SignedRegistry -> SignedRegistry) (s : PolicySource) : PolicySource :=
  match s with SignedSource m => SignedSource (f m) | _ => s end.

(** One change of [commit]: [self.find::<T>()?.upsert(..)] on the shared source. *)
Definition commit_one (m : SourceMutation) (sources : list PolicySource) :
    Result unit TrustError * list PolicySource :=
  let apply {T} (found : Result T TrustError) (upd : PolicySource -> PolicySource) :=
    match found with
    | Err e => (Err e, sources)
    | Ok _ => (Ok tt, upd <$> sources)
    end in
  match m with
  | BundledUpsert e =>
      apply (find_source as_bundled BUNDLED_TYPE sources) (on_bundled (bundled_registry_upsert e))
  | BundledRemove id =>
      apply (find_source as_bundled BUNDLED_TYPE sources) (on_bundled (bundled_registry_remove id))
  | AdminUpsert e =>
      apply (find_source as_admin ADMIN_TYPE sources) (on_admin (admin_config_upsert e))
  | AdminRemove id source =>
      apply (find_source as_admin ADMIN_TYPE sources) (on_admin (admin_config_remove id source))
  | SignedUpsert e =>
      apply (find_source as_signed SIGNED_TYPE sources) (on_signed (signed_registry_upsert e))
  | SignedRemove signer =>
      apply (find_source as_signed SIGNED_TYPE sources) (on_signed (signed_registry_remove signer))
  end.

Fixpoint commit (staged : list SourceMutation) (sources : list PolicySource) :
    Result unit TrustError * list PolicySource :=
  match staged with
  | [] => (Ok tt, sources)
  | m :: rest =>
      match commit_one m sources with
      | (Err e, sources') => (Err e, sources')
      | (Ok _, sources') => commit rest sources'
      end
  end.

(** ** [TrustChange] and [InvalidationBus] *)

Record TrustChange := {
  tc_identity : PackageIdentity;
  tc_previous : EffectiveTrustClass;
  tc_current : EffectiveTrustClass;
  tc_previous_authority_ceiling : AuthorityCeiling;
  tc_current_authority_ceiling : AuthorityCeiling;
  tc_effective_at : DateTime;
}.

Definition authority_ceiling_reduced (c : TrustChange) : bool :=
  is_reduction_from (tc_current_authority_ceiling c) (tc_previous_authority_ceiling c).

(** [TrustChange::new] *)
Definition trust_change_new (identity : PackageIdentity) (previous current : TrustDecision) :
    option TrustChange :=
  let reduced := is_reduction_from (authority_ceiling current) (authority_ceiling previous) in
  if bool_decide (effective_trust previous = effective_trust current) && negb reduced then None
  else Some {| tc_identity := identity;
               tc_previous := effective_trust previous;
               tc_current := effective_trust current;
               tc_previous_authority_ceiling := authority_ceiling previous;
               tc_current_authority_ceiling := authority_ceiling current;
               tc_effective_at := evaluated_at current |}.

Definition is_downgrade (c : TrustChange) : bool :=
  (authority_level (tc_current c) <? authority_level (tc_previous c))%N.
Definition is_upgrade (c : TrustChange) : bool :=
  (authority_level (tc_previous c) <? authority_level (tc_current c))%N.
Definition is_kind_change (c : TrustChange) : bool :=
  bool_decide (tc_previous c <> tc_current c)
  && N.eqb (authority_level (tc_current c)) (authority_level (tc_previous c)).

(** [publish]: each listener, in registration order, is handed the event. *)
Definition publish {L} (listeners : list L) (change : TrustChange) : list (L * TrustChange) :=
  if bool_decide (tc_previous change = tc_current change)
     && negb (authority_ceiling_reduced change) then []
  else (fun l => (l, change)) <$> listeners.

Definition identity_changed (prev curr : PackageIdentity) : bool :=
  bool_decide (pi_package_id prev <> pi_package_id curr)
  || bool_decide (pi_source prev <> pi_source curr)
  || bool_decide (pi_digest prev <> pi_digest curr)
  || bool_decide (pi_signer prev <> pi_signer curr).

Definition authority_changed (prev curr : gset CapabilityId) : bool := bool_decide (prev <> curr).

Definition grant_retention_eligible (prev_identity curr_identity : PackageIdentity)
    (prev_trust curr_trust : EffectiveTrustClass) (prev_authority curr_authority : gset CapabilityId)
    : bool :=
  negb (identity_changed prev_identity curr_identity)
  && bool_decide (prev_trust = curr_trust)
  && negb (authority_changed prev_authority curr_authority).

(** ** [mutate_with]

    Returns the closure's result, the chain afterwards and what the listeners were
    handed.  [before] and [after] are what the clock reads at the two evaluations. *)
Definition mutate_with {L R} (listeners : list L) (before after : DateTime)
    (affected : PackageIdentity) (requested_authority : gset CapabilityId)
    (requested_trust : RequestedTrustClass) (f : Mutation R) (sources : list PolicySource) :
    Result R TrustError * list PolicySource * list (L * TrustChange) :=
  let probe := {| in_identity := affected; in_requested_trust := requested_trust;
                  in_requested_authority := requested_authority |} in
  match evaluate_chain before probe sources with
  | Err e => (Err e, sources, [])
  | Ok prev =>
      match run_mutation sources f [] with
      | (Err e, _) => (Err e, sources, [])
      | (Ok result, staged) =>
          match commit staged sources with
          | (Err e, sources') => (Err e, sources', [])
          | (Ok _, sources') =>
              match evaluate_chain after probe sources' with
              | Err e => (Err e, sources', [])
              | Ok curr =>
                  match trust_change_new affected prev curr with
                  | Some change => (Ok result, sources', publish listeners change)
                  | None => (Ok result, sources', [])
                  end
              end
          end
      end
  end.
End with_platform.
Arguments Return {_ R}.
Arguments CallBundledUpsert {_ R}.
Arguments CallBundledRemove {_ R}.
Arguments CallAdminUpsert {_ R}.
Arguments CallAdminRemove {_ R}.
Arguments CallSignedUpsert {_ R}.
Arguments CallSignedRemove {_ R}.
