(* ===== verification/Authorize.v ===== *)
(** * Capability authorization: grants, ceilings and obligations

    Models the deciding half of [ironclaw_authorization/src/lib.rs]: which grants match
    a context, how a grant's resource ceiling is intersected with the trust decision's,
    what an allowing decision obliges the runtime to do, and the authorizers over the
    context's own grants and over the grants of active leases.  [now i] is what the
    clock reads when the [i]-th grant is examined, so grants may expire while the list
    is walked. *)

From S2P Require Import Prelude Strings Ids Mounts Platform HostApi Capability Obligations Trust.
From Stdlib Require Import Lia.
Import HostApi.Resource.

(** ** Limits, for any type with Rust's [<] or [<=] *)

Definition limit_exceeds {T} (lt : T -> T -> bool) (grant authority : option T) : bool :=
  match grant, authority with
  | Some g, Some a => lt a g
  | None, Some _ => true
  | None, None | Some _, None => false
  end.

Definition stricter_limit {T} (lt : T -> T -> bool) (left right : option T) : option T :=
  match left, right with
  | Some l, Some r => if lt r l then Some r else Some l
  | Some l, None => Some l
  | None, Some r => Some r
  | None, None => None
  end.

Definition options_within_ceiling {T} (le : T -> T -> bool) (estimate maximum : option T) : bool :=
  match estimate, maximum with
  | Some e, Some m => le e m
  | None, Some _ => false
  | _, _ => true
  end.

Definition sandbox_quota_exceeds_authority (grant authority : option SandboxQuota) : bool :=
  match grant, authority with
  | None, Some _ => true
  | None, None | Some _, None => false
  | Some g, Some a =>
      limit_exceeds N.ltb (sq_cpu_time_ms g) (sq_cpu_time_ms a)
      || limit_exceeds N.ltb (sq_memory_bytes g) (sq_memory_bytes a)
      || limit_exceeds N.ltb (sq_disk_bytes g) (sq_disk_bytes a)
      || limit_exceeds N.ltb (sq_network_egress_bytes g) (sq_network_egress_bytes a)
      || limit_exceeds N.ltb (sq_process_count g) (sq_process_count a)
  end.

Definition intersect_sandbox_quotas (grant authority : option SandboxQuota) :
    option SandboxQuota :=
  match grant, authority with
  | None, None => None
  | Some q, None | None, Some q => Some q
  | Some g, Some a => Some {|
      sq_cpu_time_ms := stricter_limit N.ltb (sq_cpu_time_ms g) (sq_cpu_time_ms a);
      sq_memory_bytes := stricter_limit N.ltb (sq_memory_bytes g) (sq_memory_bytes a);
      sq_disk_bytes := stricter_limit N.ltb (sq_disk_bytes g) (sq_disk_bytes a);
      sq_network_egress_bytes :=
        stricter_limit N.ltb (sq_network_egress_bytes g) (sq_network_egress_bytes a);
      sq_process_count := stricter_limit N.ltb (sq_process_count g) (sq_process_count a) |}
  end.

Definition effects_are_covered (required allowed : list EffectKind) : bool :=
  forallb (fun e => bool_decide (e ∈ allowed)) required.

Definition network_policy_is_constrained (p : NetworkPolicy) : bool :=
  negb (bool_decide (Capability.allowed_targets p = []))
  || deny_private_ip_ranges p
  || bool_decide (is_Some (Capability.max_egress_bytes p)).

Section with_platform.
Context `{Platform} `{SerdeJson}.

(** ** Ceilings *)

Definition resource_ceiling_exceeds_authority (grant authority : option ResourceCeiling) : bool :=
  match grant, authority with
  | None, Some _ => true
  | None, None | Some _, None => false
  | Some g, Some a =>
      limit_exceeds decimal_lt (max_usd g) (max_usd a)
      || limit_exceeds N.ltb (max_input_tokens g) (max_input_tokens a)
      || limit_exceeds N.ltb (max_output_tokens g) (max_output_tokens a)
      || limit_exceeds N.ltb (max_wall_clock_ms g) (max_wall_clock_ms a)
      || limit_exceeds N.ltb (max_output_bytes g) (max_output_bytes a)
      || sandbox_quota_exceeds_authority (ceiling_sandbox g) (ceiling_sandbox a)
  end.

Definition grant_exceeds_authority_ceiling (g : CapabilityGrant) (a : AuthorityCeiling) : bool :=
  negb (effects_are_covered (gc_allowed_effects (constraints g)) (allowed_effects a))
  || resource_ceiling_exceeds_authority (gc_resource_ceiling (constraints g))
       (max_resource_ceiling a).

Definition intersect_resource_ceilings (grant authority : option ResourceCeiling) :
    option ResourceCeiling :=
  match grant, authority with
  | None, None => None
  | Some c, None | None, Some c => Some c
  | Some g, Some a => Some {|
      max_usd := stricter_limit decimal_lt (max_usd g) (max_usd a);
      max_input_tokens := stricter_limit N.ltb (max_input_tokens g) (max_input_tokens a);
      max_output_tokens := stricter_limit N.ltb (max_output_tokens g) (max_output_tokens a);
      max_wall_clock_ms := stricter_limit N.ltb (max_wall_clock_ms g) (max_wall_clock_ms a);
      max_output_bytes := stricter_limit N.ltb (max_output_bytes g) (max_output_bytes a);
      ceiling_sandbox := intersect_sandbox_quotas (ceiling_sandbox g) (ceiling_sandbox a) |}
  end.

Definition resource_estimate_is_covered (e : ResourceEstimate) (ceiling : option ResourceCeiling) :
    bool :=
  match ceiling with
  | None => true
  | Some c =>
      options_within_ceiling decimal_le (est_usd e) (max_usd c)
      && options_within_ceiling N.leb (est_input_tokens e) (max_input_tokens c)
      && options_within_ceiling N.leb (est_output_tokens e) (max_output_tokens c)
      && options_within_ceiling N.leb (est_wall_clock_ms e) (max_wall_clock_ms c)
      && options_within_ceiling N.leb (est_output_bytes e) (max_output_bytes c)
      && match ceiling_sandbox c with
         | Some s =>
             options_within_ceiling N.leb (est_network_egress_bytes e) (sq_network_egress_bytes s)
             && options_within_ceiling N.leb (est_process_count e) (sq_process_count s)
         | None => true
         end
  end.

(** ** Matching *)

Definition principal_matches_context (p : Principal) (c : ExecutionContext) : bool :=
  match p with
  | TenantPrincipal id => String.eqb id (ctx_tenant_id c)
  | UserPrincipal id => String.eqb id (ctx_user_id c)
  | AgentPrincipal id => bool_decide (ctx_agent_id c = Some id)
  | ProjectPrincipal id => bool_decide (ctx_project_id c = Some id)
  | MissionPrincipal id => bool_decide (ctx_mission_id c = Some id)
  | ThreadPrincipal id => bool_decide (ctx_thread_id c = Some id)
  | ExtensionPrincipal id => String.eqb id (ctx_extension_id c)
  | HostRuntime | SystemPrincipal _ => false
  end.

Definition grant_is_active (now : DateTime) (g : CapabilityGrant) : bool :=
  let not_expired :=
    match gc_expires_at (constraints g) with
    | Some expires_at => (now <? expires_at)%Z
    | None => true
    end in
  not_expired && bool_decide (gc_max_invocations (constraints g) <> Some 0%N).

Definition spawn_descriptor (d : CapabilityDescriptor) : CapabilityDescriptor := {|
  desc_id := desc_id d;
  desc_provider := desc_provider d;
  desc_runtime := desc_runtime d;
  desc_trust_ceiling := desc_trust_ceiling d;
  desc_description := desc_description d;
  desc_parameters_schema := desc_parameters_schema d;
  desc_effects := if bool_decide (SpawnProcess ∈ desc_effects d) then desc_effects d
                  else desc_effects d ++ [SpawnProcess];
  desc_default_permission := desc_default_permission d;
  desc_runtime_credentials := desc_runtime_credentials d;
  desc_network_targets := desc_network_targets d;
  desc_resource_profile := desc_resource_profile d |}.

(** ** Obligations *)

Definition descriptor_requires_mount_policy (d : CapabilityDescriptor) : bool :=
  existsb (fun e => match e with
                    | ReadFilesystem | WriteFilesystem | DeleteFilesystem | ExecuteCode => true
                    | _ => false
                    end) (desc_effects d).

Definition has_effect (e : EffectKind) (d : CapabilityDescriptor) : bool :=
  bool_decide (e ∈ desc_effects d).

(** The loop over the declared credentials; [None] is the early return. *)
Fixpoint credential_obligations (d : CapabilityDescriptor) (g : CapabilityGrant)
    (credentials : list RuntimeCredentialRequirement) : option (list Obligation) :=
  match credentials with
  | [] => Some []
  | c :: rest =>
      match rc_source c with
      | FromSecretHandle =>
          if bool_decide (rc_handle c ∈ gc_secrets (constraints g)) then
            cons (InjectSecretOnce (rc_handle c)) <$> credential_obligations d g rest
          else if rc_required c then None
          else credential_obligations d g rest
      | ProductAuthAccount provider setup =>
          if rc_required c then
            cons (InjectCredentialAccountOnce (rc_handle c) provider setup (rc_provider_scopes c)
                    (desc_provider d)) <$> credential_obligations d g rest
          else credential_obligations d g rest
      end
  end.

(** The secrets part of [obligations_for_grant]. *)
Definition secret_obligations (d : CapabilityDescriptor) (g : CapabilityGrant) :
    option (list Obligation) :=
  match desc_runtime_credentials d with
  | _ :: _ =>
      if negb (has_effect UseSecret d) then None
      else credential_obligations d g (desc_runtime_credentials d)
  | [] =>
      if has_effect UseSecret d then
        if bool_decide (desc_runtime d = FirstPartyRuntime)
           && bool_decide (gc_secrets (constraints g) = [])
        then Some [FirstPartyCredentialStagedViaHostPort (desc_id d)]
        else match gc_secrets (constraints g) with
             | [handle] => Some [InjectSecretOnce handle]
             | _ => None
             end
      else Some []
  end.

Definition mount_obligations (d : CapabilityDescriptor) (g : CapabilityGrant) : list Obligation :=
  if descriptor_requires_mount_policy d then [UseScopedMounts (gc_mounts (constraints g))] else [].

Definition network_obligations (d : CapabilityDescriptor) (g : CapabilityGrant) :
    list Obligation :=
  if has_effect Network d || network_policy_is_constrained (gc_network (constraints g))
  then [ApplyNetworkPolicy (gc_network (constraints g))] else [].

Definition ceiling_obligations (ceiling : option ResourceCeiling) : list Obligation :=
  match ceiling with
  | None => []
  | Some c => EnforceResourceCeiling c ::
      match max_output_bytes c with Some bytes => [EnforceOutputLimit bytes] | None => [] end
  end.

Definition obligations_for_grant (d : CapabilityDescriptor) (g : CapabilityGrant)
    (effective_resource_ceiling : option ResourceCeiling) : option (list Obligation) :=
  match secret_obligations d g with
  | None => None
  | Some secrets =>
      match obligations_new (mount_obligations d g ++ network_obligations d g ++ secrets
                             ++ ceiling_obligations effective_resource_ceiling) with
      | Ok obligations => Some obligations
      | Err _ => None
      end
  end.

(** ** The decision *)

Definition grant_matches (d : CapabilityDescriptor) (c : ExecutionContext) (now : DateTime)
    (g : CapabilityGrant) : bool :=
  String.eqb (grant_capability g) (desc_id d)
  && principal_matches_context (grantee g) c && grant_is_active now g.

(** The body of the loop for a matching grant: what it obliges to, if it serves. *)
Definition serve (d : CapabilityDescriptor) (estimate : ResourceEstimate)
    (authority : option AuthorityCeiling) (g : CapabilityGrant) : option (list Obligation) :=
  let effective := intersect_resource_ceilings (gc_resource_ceiling (constraints g))
                     (a ← authority; max_resource_ceiling a) in
  let authority_allows := match authority with
                          | Some a => effects_are_covered (desc_effects d) (allowed_effects a)
                          | None => true
                          end in
  if effects_are_covered (desc_effects d) (gc_allowed_effects (constraints g))
     && authority_allows && resource_estimate_is_covered estimate effective
  then obligations_for_grant d g effective
  else None.

Context {Request : Type}.

Fixpoint authorize_loop (now : nat -> DateTime) (d : CapabilityDescriptor)
    (c : ExecutionContext) (estimate : ResourceEstimate) (authority : option AuthorityCeiling)
    (i : nat) (saw_active_matching_grant : bool) (grants : list CapabilityGrant) :
    Decision Request :=
  match grants with
  | [] => Deny (if saw_active_matching_grant then PolicyDenied else MissingGrant)
  | g :: rest =>
      if grant_matches d c (now i) g then
        match serve d estimate authority g with
        | Some obligations => Allow obligations
        | None => authorize_loop now d c estimate authority (S i) true rest
        end
      else authorize_loop now d c estimate authority (S i) saw_active_matching_grant rest
  end.

Definition authorize_from_grants_with_authority_ceiling (now : nat -> DateTime)
    (c : ExecutionContext) (d : CapabilityDescriptor) (estimate : ResourceEstimate)
    (grants : list CapabilityGrant) (authority : option AuthorityCeiling) : Decision Request :=
  match context_validate c with
  | Err _ => Deny InternalInvariantViolation
  | Ok _ => authorize_loop now d c estimate authority 0 false grants
  end.

Definition authorize_from_grants (now : nat -> DateTime) (c : ExecutionContext)
    (d : CapabilityDescriptor) (estimate : ResourceEstimate) (grants : list CapabilityGrant) :
    Decision Request :=
  authorize_from_grants_with_authority_ceiling now c d estimate grants None.

Definition authorize_from_grants_with_trust (now : nat -> DateTime) (c : ExecutionContext)
    (d : CapabilityDescriptor) (estimate : ResourceEstimate) (grants : list CapabilityGrant)
    (trust : TrustDecision) : Decision Request :=
  match context_validate c with
  | Err _ => Deny InternalInvariantViolation
  | Ok _ =>
      if bool_decide (ctx_trust c <> class (effective_trust trust)) then Deny PolicyDenied
      else authorize_from_grants_with_authority_ceiling now c d estimate grants
             (Some (authority_ceiling trust))
  end.

(** ** [GrantAuthorizer] *)

Definition authorize_dispatch now c d estimate : Decision Request :=
  authorize_from_grants now c d estimate (ctx_grants c).
Definition authorize_spawn now c d estimate : Decision Request :=
  authorize_from_grants now c (spawn_descriptor d) estimate (ctx_grants c).
Definition authorize_dispatch_with_trust now c d estimate trust : Decision Request :=
  authorize_from_grants_with_trust now c d estimate (ctx_grants c) trust.
Definition authorize_spawn_with_trust now c d estimate trust : Decision Request :=
  authorize_from_grants_with_trust now c (spawn_descriptor d) estimate (ctx_grants c) trust.

(** ** [LeaseBackedAuthorizer]

    [lease_grants] is what the store's [active_grants_for_context] answers. *)

Definition validated (c : ExecutionContext) (k : Decision Request) : Decision Request :=
  match context_validate c with Err _ => Deny InternalInvariantViolation | Ok _ => k end.

Section lease_backed.
Variable lease_grants : ExecutionContext -> list CapabilityGrant.

Definition lb_authorize_dispatch now c d estimate : Decision Request :=
  validated c (authorize_from_grants now c d estimate (ctx_grants c ++ lease_grants c)).
Definition lb_authorize_spawn now c d estimate : Decision Request :=
  validated c (authorize_from_grants now c (spawn_descriptor d) estimate
                 (ctx_grants c ++ lease_grants c)).
Definition lb_authorize_dispatch_with_trust now c d estimate trust : Decision Request :=
  validated c (authorize_from_grants_with_trust now c d estimate
                 (ctx_grants c ++ lease_grants c) trust).
Definition lb_authorize_spawn_with_trust now c d estimate trust : Decision Request :=
  validated c (authorize_from_grants_with_trust now c (spawn_descriptor d) estimate
                 (ctx_grants c ++ lease_grants c) trust).
End lease_backed.
End with_platform.
