(* ===== verification/AuthorizeFacts.v ===== *)
(** * Capability authorization: theorems

    The intersection of two ceilings is their meet; the decision is the one of the
    first matching grant that serves the request; what an allowing decision
    guarantees; grants of leases only add authority. *)

From stdpp Require Import sorting.
From S2P Require Import Prelude Strings Ids Mounts Platform HostApi Capability Obligations Trust Authorize.
From Stdlib Require Import Lia.
Import HostApi.Resource.

(** ** Limits over a linear order *)

(** What the limits need of the comparisons of their type. *)
Class LimitOrder {T} (lt le : T -> T -> bool) := {
  lo_lt a b : lt a b = negb (le b a);
  lo_trans a b c : le a b = true -> le b c = true -> le a c = true;
  lo_total a b : le a b = true \/ le b a = true;
}.

#[export] Instance N_limit_order : LimitOrder N.ltb N.leb.
Proof.
  split; intros.
  - apply N.ltb_antisym.
  - rewrite N.leb_le in *. lia.
  - rewrite !N.leb_le. lia.
Qed.

#[export] Instance decimal_limit_order `{PlatformLaws} : LimitOrder decimal_lt decimal_le.
Proof.
  split.
  - apply dec_lt_not_le.
  - intros a b c. unfold decimal_le.
    destruct (dec_cmp a b) eqn:Hab; [apply dec_cmp_eq in Hab as -> | | done]; [done |].
    destruct (dec_cmp b c) eqn:Hbc; [apply dec_cmp_eq in Hbc as -> | | done]; intros _ _.
    + by rewrite Hab.
    + by rewrite (dec_cmp_lt_trans a b c).
  - intros a b. unfold decimal_le. rewrite (dec_cmp_antisym a b). destruct (dec_cmp a b); auto.
Qed.

Section limits.
Context {T} (lt le : T -> T -> bool) `{!LimitOrder lt le}.

(** An estimate fits the stricter of two limits exactly when it fits both. *)
Lemma within_stricter e a b :
  options_within_ceiling le e (stricter_limit lt a b)
  = options_within_ceiling le e a && options_within_ceiling le e b.
Proof.
  destruct a as [a |], b as [b |], e as [e |]; simpl; try done; try by rewrite andb_true_r.
  - rewrite (lo_lt (lt := lt)). destruct (le a b) eqn:Hab; simpl; destruct (le e a) eqn:Hea, (le e b) eqn:Heb;
      simpl; try done.
    + pose proof (lo_trans e a b Hea Hab). congruence.
    + destruct (lo_total a b) as [| Hba]; [congruence |].
      pose proof (lo_trans e b a Heb Hba). congruence.
  - by destruct (lt b a).
Qed.

(** A limit exceeds the stricter of two exactly when it exceeds one of them. *)
Lemma exceeds_stricter c a b :
  limit_exceeds lt c (stricter_limit lt a b) = limit_exceeds lt c a || limit_exceeds lt c b.
Proof.
  destruct a as [a |], b as [b |], c as [c |]; simpl; try done; try by rewrite orb_false_r.
  - rewrite (lo_lt (lt := lt) b a). destruct (le a b) eqn:Hab; simpl; rewrite ?(lo_lt (lt := lt) a c), ?(lo_lt (lt := lt) b c);
      destruct (le c a) eqn:Hca, (le c b) eqn:Hcb; simpl; try done.
    + pose proof (lo_trans c a b Hca Hab). congruence.
    + destruct (lo_total a b) as [| Hba]; [congruence |].
      pose proof (lo_trans c b a Hcb Hba). congruence.
  - by destruct (lt b a).
Qed.

Lemma exceeds_self c : limit_exceeds lt c c = false.
Proof. destruct c as [c |]; simpl; [| done]. rewrite (lo_lt (lt := lt)). by destruct (lo_total c c) as [-> | ->]. Qed.

(** What fits a limit fits every limit it does not exceed. *)
Lemma within_mono e a b :
  limit_exceeds lt a b = false -> options_within_ceiling le e a = true ->
  options_within_ceiling le e b = true.
Proof.
  destruct a as [a |], b as [b |], e as [e |]; simpl; try done.
  rewrite (lo_lt (lt := lt)), negb_false_iff. intros Hab Hea. by eapply lo_trans.
Qed.

(** A limit that fits one bound but not its successor witnesses a reduction. *)
Lemma exceeds_reduced c a b :
  limit_exceeds lt c a = false -> limit_exceeds lt c b = true -> limit_reduced lt a b = true.
Proof.
  destruct a as [a |], b as [b |], c as [c |]; simpl; try done.
  rewrite (lo_lt (lt := lt) a c), (lo_lt (lt := lt) b c), (lo_lt (lt := lt) b a), negb_false_iff, !negb_true_iff. intros Hca Hcb.
  destruct (le a b) eqn:Hab; [| done]. pose proof (lo_trans c a b Hca Hab). congruence.
Qed.
End limits.

(** ** Ceilings *)

(** Equations between conjunctions (disjunctions) of the same tests. *)
Local Ltac split_andb :=
  apply eq_true_iff_eq; rewrite ?andb_true_iff; tauto.
Local Ltac split_orb :=
  apply eq_true_iff_eq; rewrite ?orb_true_iff; tauto.

Lemma sandbox_exceeds_intersect c g a :
  sandbox_quota_exceeds_authority c (intersect_sandbox_quotas g a)
  = sandbox_quota_exceeds_authority c g || sandbox_quota_exceeds_authority c a.
Proof.
  destruct g as [g |], a as [a |], c as [c |]; simpl; try done; try by rewrite orb_false_r.
  rewrite !(exceeds_stricter N.ltb N.leb). split_orb.
Qed.

Lemma sandbox_exceeds_self q : sandbox_quota_exceeds_authority q q = false.
Proof. destruct q as [q |]; simpl; [| done]. by rewrite !(exceeds_self N.ltb N.leb). Qed.

Section ceilings.
Context `{PlatformLaws}.
Implicit Types (c g a : option ResourceCeiling).

Lemma ceiling_exceeds_intersect c g a :
  resource_ceiling_exceeds_authority c (intersect_resource_ceilings g a)
  = resource_ceiling_exceeds_authority c g || resource_ceiling_exceeds_authority c a.
Proof.
  destruct g as [g |], a as [a |], c as [c |]; simpl; try done; try by rewrite orb_false_r.
  rewrite sandbox_exceeds_intersect, (exceeds_stricter decimal_lt decimal_le),
    !(exceeds_stricter N.ltb N.leb). split_orb.
Qed.

Lemma covered_intersect e g a :
  resource_estimate_is_covered e (intersect_resource_ceilings g a)
  = resource_estimate_is_covered e g && resource_estimate_is_covered e a.
Proof.
  destruct g as [g |], a as [a |]; simpl; try done; try by rewrite andb_true_r.
  rewrite (within_stricter decimal_lt decimal_le), !(within_stricter N.ltb N.leb).
  destruct (ceiling_sandbox g) as [gs |], (ceiling_sandbox a) as [az |]; simpl;
    rewrite ?(within_stricter N.ltb N.leb); split_andb.
Qed.

Lemma ceiling_exceeds_self c : resource_ceiling_exceeds_authority c c = false.
Proof.
  destruct c as [c |]; simpl; [| done].
  by rewrite (exceeds_self decimal_lt decimal_le), !(exceeds_self N.ltb N.leb), sandbox_exceeds_self.
Qed.

(** The intersection of two resource ceilings is their greatest lower bound: an
    estimate is within it exactly when it is within both; it exceeds neither; and a
    ceiling that exceeds neither does not exceed it. *)
Theorem ceiling_intersection_exact e c g a :
  let i := intersect_resource_ceilings g a in
  resource_estimate_is_covered e i
  = resource_estimate_is_covered e g && resource_estimate_is_covered e a
  /\ resource_ceiling_exceeds_authority i g = false
  /\ resource_ceiling_exceeds_authority i a = false
  /\ resource_ceiling_exceeds_authority c i
     = resource_ceiling_exceeds_authority c g || resource_ceiling_exceeds_authority c a.
Proof.
  cbv zeta. split; [apply covered_intersect |].
  pose proof (ceiling_exceeds_intersect (intersect_resource_ceilings g a) g a) as Hi.
  rewrite ceiling_exceeds_self in Hi. symmetry in Hi. apply orb_false_iff in Hi as [Hg Ha].
  split; [done |]. split; [done |]. apply ceiling_exceeds_intersect.
Qed.
End ceilings.

(** ** The decision *)

Section decision.
Context `{PlatformLaws} `{SerdeJson} {Request : Type}.
Implicit Types (now : nat -> DateTime) (c : ExecutionContext) (d : CapabilityDescriptor)
  (g : CapabilityGrant) (o : list Obligation).

(** Some examined grant of the list matches / no grant before [k] serves. *)
Definition idle_before now c d estimate authority (grants : list CapabilityGrant) (k : nat) : Prop :=
  forall j g, j < k -> grants !! j = Some g -> grant_matches d c (now j) g = true ->
    serve d estimate authority g = None.

(** The decision, without the loop. *)
Inductive verdict now c d estimate (grants : list CapabilityGrant)
    (authority : option AuthorityCeiling) : Decision Request -> Prop :=
  | verdict_invalid e :
      context_validate c = Err e ->
      verdict now c d estimate grants authority (Deny InternalInvariantViolation)
  | verdict_allow k g o :
      context_validate c = Ok tt -> grants !! k = Some g -> grant_matches d c (now k) g = true ->
      serve d estimate authority g = Some o ->
      idle_before now c d estimate authority grants k ->
      verdict now c d estimate grants authority (Allow o)
  | verdict_policy k g :
      context_validate c = Ok tt -> grants !! k = Some g -> grant_matches d c (now k) g = true ->
      idle_before now c d estimate authority grants (length grants) ->
      verdict now c d estimate grants authority (Deny PolicyDenied)
  | verdict_missing :
      context_validate c = Ok tt ->
      (forall k g, grants !! k = Some g -> grant_matches d c (now k) g = false) ->
      verdict now c d estimate grants authority (Deny MissingGrant).

Lemma authorize_loop_spec now c d estimate authority i saw grants :
  match authorize_loop (Request := Request) now d c estimate authority i saw grants with
  | Allow o => exists k g, grants !! k = Some g /\ grant_matches d c (now (i + k)) g = true
      /\ serve d estimate authority g = Some o
      /\ idle_before (fun j => now (i + j)) c d estimate authority grants k
  | Deny r => idle_before (fun j => now (i + j)) c d estimate authority grants (length grants)
      /\ ((r = PolicyDenied /\ (saw = true \/
             exists k g, grants !! k = Some g /\ grant_matches d c (now (i + k)) g = true))
          \/ (r = MissingGrant /\ saw = false /\
             forall k g, grants !! k = Some g -> grant_matches d c (now (i + k)) g = false))
  | RequireApproval _ => False
  end.
Proof.
  revert i saw. induction grants as [| g grants IH]; intros i saw; simpl.
  - split; [intros j g ? Hg; done |]. destruct saw; [left; auto | right].
    split; [done |]. split; [done |]. intros; done.
  - assert (forall j, now (i + S j) = now (S i + j)) as Hnow by (intros; f_equal; lia).
    destruct (grant_matches d c (now i) g) eqn:Hm.
    + destruct (serve d estimate authority g) as [o |] eqn:Hs.
      * exists 0, g. rewrite Nat.add_0_r. repeat split; try done. intros j g' Hj; lia.
      * specialize (IH (S i) true). destruct (authorize_loop _ _ _ _ _ (S i) true _); [| | done].
        -- destruct IH as (k & g' & Hk & Hm' & Hs' & Hi). exists (S k), g'. rewrite Hnow.
           repeat split; try done. intros [| j] g'' Hj Hg Hgm; simpl in Hg.
           ++ by injection Hg as ->.
           ++ rewrite Hnow in Hgm. apply (Hi j); [lia | done..].
        -- destruct IH as (Hi & Hr). split.
           ++ intros [| j] g'' Hj Hg Hgm; simpl in Hg; [by injection Hg as -> |].
              rewrite Hnow in Hgm. apply (Hi j); [lia | done..].
           ++ left. destruct Hr as [[-> _] | (_ & ? & _)]; [| done]. split; [done |]. right.
              exists 0, g. by rewrite Nat.add_0_r.
    + specialize (IH (S i) saw). destruct (authorize_loop _ _ _ _ _ (S i) saw _); [| | done].
      * destruct IH as (k & g' & Hk & Hm' & Hs' & Hi). exists (S k), g'. rewrite Hnow.
        repeat split; try done. intros [| j] g'' Hj Hg Hgm; simpl in Hg.
        -- injection Hg as <-. rewrite Nat.add_0_r in Hgm. congruence.
        -- rewrite Hnow in Hgm. apply (Hi j); [lia | done..].
      * destruct IH as (Hi & Hr). split.
        -- intros [| j] g'' Hj Hg Hgm; simpl in Hg.
           ++ injection Hg as <-. rewrite Nat.add_0_r in Hgm. congruence.
           ++ rewrite Hnow in Hgm. apply (Hi j); [lia | done..].
        -- destruct Hr as [[-> [-> | (k & g' & Hk & Hm')]] | (-> & -> & Hn)].
           ++ left. auto.
           ++ left. split; [done |]. right. exists (S k), g'. by rewrite Hnow.
           ++ right. split; [done |]. split; [done |]. intros [| k] g' Hg; simpl in Hg.
              ** injection Hg as <-. by rewrite Nat.add_0_r.
              ** rewrite Hnow. by apply Hn.
Qed.

(** A verdict leaves no choice. *)
Lemma verdict_det now c d estimate grants authority v w :
  verdict now c d estimate grants authority v -> verdict now c d estimate grants authority w ->
  v = w.
Proof.
  intros Hv Hw.
  destruct Hv as [e He | k g o Hok Hk Hm Hs Hi | k g Hok Hk Hm Hi | Hok Hn],
    Hw as [e' He' | k' g' o' Hok' Hk' Hm' Hs' Hi' | k' g' Hok' Hk' Hm' Hi' | Hok' Hn'];
    try done; try congruence.
  - assert (k = k') as <-.
    { destruct (Nat.lt_trichotomy k k') as [Hlt | [? | Hlt]]; [| done |].
      - specialize (Hi' k g Hlt Hk Hm). congruence.
      - specialize (Hi k' g' Hlt Hk' Hm'). congruence. }
    congruence.
  - specialize (Hi' k g (lookup_lt_Some _ _ _ Hk) Hk Hm). congruence.
  - specialize (Hn' k g Hk). congruence.
  - specialize (Hi k' g' (lookup_lt_Some _ _ _ Hk') Hk' Hm'). congruence.
  - specialize (Hn' k g Hk). congruence.
  - specialize (Hn k' g' Hk'). congruence.
  - specialize (Hn k' g' Hk'). congruence.
Qed.

Lemma authorize_verdict now c d estimate grants authority :
  verdict now c d estimate grants authority
    (authorize_from_grants_with_authority_ceiling now c d estimate grants authority).
Proof.
  unfold authorize_from_grants_with_authority_ceiling.
  destruct (context_validate c) as [[] | e] eqn:Hv; [| by eapply verdict_invalid].
  pose proof (authorize_loop_spec now c d estimate authority 0 false grants) as Hl.
  destruct (authorize_loop _ _ _ _ _ _ _ _) as [o | r |]; [| | done]; simpl in Hl.
  - destruct Hl as (k & g & Hk & Hm & Hs & Hi). by eapply verdict_allow.
  - destruct Hl as (Hi & [[-> [? | (k & g & Hk & Hm)]] | (-> & _ & Hn)]); [done | |].
    + by eapply verdict_policy.
    + by apply verdict_missing.
Qed.

(** [C19] The authorizer's loop computes exactly the declarative verdict: it denies an
    invalid context, allows with the obligations of the first matching grant that
    serves the request, denies by policy when grants match but none serves, and reports
    a missing grant when none matches; it never asks for approval. *)
Theorem authorize_decides now c d estimate grants authority v :
  authorize_from_grants_with_authority_ceiling now c d estimate grants authority = v
  <-> verdict now c d estimate grants authority v.
Proof.
  pose proof (authorize_verdict now c d estimate grants authority) as Hv. split.
  - by intros <-.
  - intros Hw. by eapply verdict_det.
Qed.

(** *** What a served grant guarantees *)

Lemma effects_covered_iff required allowed :
  effects_are_covered required allowed = true <-> forall e, e ∈ required -> e ∈ allowed.
Proof.
  unfold effects_are_covered. rewrite forallb_forall. setoid_rewrite bool_decide_eq_true.
  setoid_rewrite <- list_elem_of_In. done.
Qed.

Lemma credential_obligations_sound d g creds l :
  credential_obligations d g creds = Some l ->
  forall x, x ∈ l ->
    (exists h, x = InjectSecretOnce h /\ h ∈ gc_secrets (constraints g))
    \/ exists h p s sc, x = InjectCredentialAccountOnce h p s sc (desc_provider d).
Proof.
  revert l. induction creds as [| cr creds IH]; intros l; simpl; [intros [= <-]; set_solver |].
  destruct (rc_source cr); [case_bool_decide |]; [| destruct (rc_required cr) .. ]; try done;
    try apply IH;
    (destruct (credential_obligations d g creds) as [l' |]; simpl; [| done]);
    intros [= <-] x [-> | Hx]%elem_of_cons; try (by apply (IH l')); [left | right]; eauto 10.
Qed.

Lemma secret_obligations_sound d g l :
  secret_obligations d g = Some l ->
  forall x, x ∈ l ->
    (exists h, x = InjectSecretOnce h /\ h ∈ gc_secrets (constraints g))
    \/ (exists h p s sc, x = InjectCredentialAccountOnce h p s sc (desc_provider d))
    \/ x = FirstPartyCredentialStagedViaHostPort (desc_id d).
Proof.
  unfold secret_obligations. destruct (desc_runtime_credentials d) as [| cr creds] eqn:Hc.
  - destruct (has_effect _ _); [| intros [= <-]; set_solver].
    destruct (_ && _); [intros [= <-] x ->%list_elem_of_singleton; auto |].
    destruct (gc_secrets (constraints g)) as [| h [|]]; try done.
    intros [= <-] x ->%list_elem_of_singleton. left. exists h. split; [done | set_solver].
  - destruct (negb _); [done |]. intros Hl x Hx.
    destruct (credential_obligations_sound _ _ _ _ Hl x Hx) as [? | ?]; auto.
Qed.

Lemma obligations_for_grant_elem d g ceiling o :
  obligations_for_grant d g ceiling = Some o ->
  exists secrets, secret_obligations d g = Some secrets
    /\ (forall x, x ∈ o <-> x ∈ mount_obligations d g \/ x ∈ network_obligations d g
          \/ x ∈ secrets \/ x ∈ ceiling_obligations ceiling)
    /\ NoDup (slot <$> o) /\ StronglySorted kind_le o.
Proof.
  unfold obligations_for_grant. destruct (secret_obligations d g) as [secrets |]; [| done].
  destruct (obligations_new _) as [o' |] eqn:Ho; [| done]. intros [= ->].
  apply obligations_new_ok in Ho as [Hnd ->]. exists secrets. split; [done |]. split; [| split].
  - intros x. rewrite by_kind_perm, !elem_of_app. tauto.
  - by rewrite by_kind_perm.
  - apply by_kind_is_sorted.
Qed.

(** The authority behind an allowing decision. *)
Record authorized_by (moment : DateTime) c d estimate (authority : option AuthorityCeiling) g o :
    Prop := {
  ab_capability : grant_capability g = desc_id d;
  ab_grantee : principal_matches_context (grantee g) c = true;
  ab_unexpired t : gc_expires_at (constraints g) = Some t -> (moment < t)%Z;
  ab_uses_left : gc_max_invocations (constraints g) <> Some 0%N;
  ab_effects e : e ∈ desc_effects d -> e ∈ gc_allowed_effects (constraints g)
    /\ forall a, authority = Some a -> e ∈ allowed_effects a;
  ab_estimate : resource_estimate_is_covered estimate (gc_resource_ceiling (constraints g)) = true
    /\ forall a, authority = Some a ->
         resource_estimate_is_covered estimate (max_resource_ceiling a) = true;
  ab_canonical : NoDup (slot <$> o) /\ StronglySorted kind_le o;
  ab_secrets h : InjectSecretOnce h ∈ o -> h ∈ gc_secrets (constraints g);
  ab_mounts m : UseScopedMounts m ∈ o <->
    m = gc_mounts (constraints g) /\ descriptor_requires_mount_policy d = true;
  ab_network p : ApplyNetworkPolicy p ∈ o <->
    p = gc_network (constraints g)
    /\ (Network ∈ desc_effects d \/ network_policy_is_constrained p = true);
  ab_ceiling r : EnforceResourceCeiling r ∈ o <->
    intersect_resource_ceilings (gc_resource_ceiling (constraints g))
      (a ← authority; max_resource_ceiling a) = Some r;
}.

Lemma elem_of_mount_obligations d g x :
  x ∈ mount_obligations d g <->
  x = UseScopedMounts (gc_mounts (constraints g)) /\ descriptor_requires_mount_policy d = true.
Proof. unfold mount_obligations. destruct (descriptor_requires_mount_policy d); set_solver. Qed.

Lemma elem_of_network_obligations d g x :
  x ∈ network_obligations d g <->
  x = ApplyNetworkPolicy (gc_network (constraints g))
  /\ (Network ∈ desc_effects d \/ network_policy_is_constrained (gc_network (constraints g)) = true).
Proof.
  unfold network_obligations, has_effect.
  destruct (bool_decide_reflect (Network ∈ desc_effects d)), (network_policy_is_constrained _);
    simpl; set_solver.
Qed.

Lemma elem_of_ceiling_obligations ceiling x :
  x ∈ ceiling_obligations ceiling <->
  exists r, ceiling = Some r /\ (x = EnforceResourceCeiling r
    \/ exists bytes, max_output_bytes r = Some bytes /\ x = EnforceOutputLimit bytes).
Proof.
  destruct ceiling as [r |]; simpl; [| set_solver].
  destruct (max_output_bytes r) as [b |] eqn:Hb; split.
  - intros [-> | ->%list_elem_of_singleton]%elem_of_cons; eauto 10.
  - intros (r' & [= <-] & [-> | (b' & Hb' & ->)]); [set_solver |].
    rewrite Hb in Hb'. injection Hb' as <-. set_solver.
  - intros ->%list_elem_of_singleton. eauto.
  - intros (r' & [= <-] & [-> | (b' & Hb' & ->)]); [set_solver | congruence].
Qed.

Lemma serve_sound (moment : DateTime) c d estimate authority g o :
  grant_matches d c moment g = true -> serve d estimate authority g = Some o ->
  authorized_by moment c d estimate authority g o.
Proof.
  unfold grant_matches, grant_is_active, serve. rewrite !andb_true_iff.
  intros ([Hcap Hp] & Hexp & Huses). destruct (_ && _ && _) eqn:Hc; [| done].
  rewrite !andb_true_iff, covered_intersect, andb_true_iff in Hc.
  destruct Hc as ((Heg & Hea) & Hcg & Hca). rewrite effects_covered_iff in Heg.
  intros Ho. apply obligations_for_grant_elem in Ho as (secrets & Hsec & Hx & Hcan).
  pose proof (secret_obligations_sound _ _ _ Hsec) as Hsound.
  split; try done.
  - by apply String.eqb_eq.
  - intros t Ht. rewrite Ht in Hexp. by apply Z.ltb_lt.
  - by apply bool_decide_eq_true in Huses.
  - intros e He. split; [auto |]. intros a ->. rewrite effects_covered_iff in Hea. auto.
  - split; [done |]. by intros a ->.
  - intros h. rewrite Hx, elem_of_mount_obligations, elem_of_network_obligations,
      elem_of_ceiling_obligations. naive_solver.
  - intros m. rewrite Hx, elem_of_mount_obligations, elem_of_network_obligations,
      elem_of_ceiling_obligations. split; [naive_solver |]. intros [-> ?]. by left.
  - intros p. rewrite Hx, elem_of_mount_obligations, elem_of_network_obligations,
      elem_of_ceiling_obligations. split; [naive_solver |]. intros [-> ?]. right. by left.
  - intros r. rewrite Hx, elem_of_mount_obligations, elem_of_network_obligations,
      elem_of_ceiling_obligations. split; [naive_solver |]. intros ->. right. right. right. eauto.
Qed.

Lemma allow_authorized now c d estimate grants authority o :
  authorize_from_grants_with_authority_ceiling (Request := Request) now c d estimate grants authority = Allow o ->
  ctx_resource_scope c = scope_of_context c /\ mount_view_validate (ctx_mounts c) = Ok tt
  /\ exists i g, grants !! i = Some g /\ authorized_by (now i) c d estimate authority g o.
Proof.
  intros Ho. pose proof (authorize_verdict now c d estimate grants authority) as Hv.
  rewrite Ho in Hv. inversion Hv as [| k g ? Hok Hk Hm Hs _ | |]; subst.
  apply context_validate_ok in Hok as [? ?]. split; [done |]. split; [done |].
  exists k, g. split; [done |]. by apply serve_sound.
Qed.

(** [C2] An allowing decision under a trust decision is backed by authority: the
    context is the one of its resource scope and carries the decided trust class, and
    one of the grants examined is for this capability, names a user-land principal of
    the context, is unexpired and has uses left; every declared effect lies within both
    the grant and the trust ceiling, the estimate within both resource ceilings; the
    obligations are canonical, inject only secrets of the grant, mount and network
    exactly what it says, and enforce exactly the intersected ceiling. *)
Theorem allow_is_authorized now c d estimate grants trust o :
  authorize_from_grants_with_trust (Request := Request) now c d estimate grants trust = Allow o ->
  ctx_resource_scope c = scope_of_context c
  /\ ctx_trust c = class (effective_trust trust)
  /\ exists i g, grants !! i = Some g
       /\ authorized_by (now i) c d estimate (Some (authority_ceiling trust)) g o
       /\ grantee g <> HostRuntime /\ forall s, grantee g <> SystemPrincipal s.
Proof.
  unfold authorize_from_grants_with_trust. destruct (context_validate c); [| done].
  case_bool_decide as Ht; [done |]. intros (Hs & _ & i & g & Hg & Ha)%allow_authorized.
  split; [done |]. split; [by destruct (decide (ctx_trust c = class (effective_trust trust))) |].
  exists i, g. split; [done |]. split; [done |]. apply ab_grantee in Ha.
  split; [| intros s]; intros Hp; by rewrite Hp in Ha.
Qed.

(** *** More grants, more authority *)

Lemma authorize_loop_app now c d estimate authority i saw grants more :
  match authorize_loop (Request := Request) now d c estimate authority i saw grants with
  | Allow o =>
      authorize_loop (Request := Request) now d c estimate authority i saw (grants ++ more) = Allow o
  | Deny r => authorize_loop (Request := Request) now d c estimate authority i saw (grants ++ more)
      = authorize_loop (Request := Request) now d c estimate authority (i + length grants)
          (bool_decide (r = PolicyDenied)) more
  | RequireApproval _ => False
  end.
Proof.
  revert i saw. induction grants as [| g grants IH]; intros i saw; simpl.
  - rewrite Nat.add_0_r. by destruct saw.
  - rewrite <- Nat.add_succ_comm.
    destruct (grant_matches d c (now i) g); [| apply IH].
    destruct (serve d estimate authority g); [done | apply IH].
Qed.

(** Every effect of a descriptor is one of its spawning form. *)
Lemma spawn_effects d e : e ∈ desc_effects (spawn_descriptor d) <->
  e ∈ desc_effects d \/ e = SpawnProcess.
Proof. simpl. case_bool_decide; [| set_solver]. split; [auto |]. by intros [| ->]. Qed.

Lemma serve_spawn d estimate authority g o :
  serve (spawn_descriptor d) estimate authority g = Some o -> serve d estimate authority g = Some o.
Proof.
  assert (forall allowed, effects_are_covered (desc_effects (spawn_descriptor d)) allowed = true ->
    effects_are_covered (desc_effects d) allowed = true) as Hcov.
  { intros allowed. rewrite !effects_covered_iff. intros Ha e He. apply Ha.
    apply spawn_effects. by left. }
  assert (forall e, e <> SpawnProcess -> has_effect e (spawn_descriptor d) = has_effect e d) as Heff.
  { intros e Hne. unfold has_effect. apply bool_decide_ext. rewrite spawn_effects. naive_solver. }
  assert (obligations_for_grant (spawn_descriptor d) g = obligations_for_grant d g) as Hobl.
  { unfold obligations_for_grant, secret_obligations, mount_obligations, network_obligations.
    rewrite !Heff by done. simpl.
    assert (descriptor_requires_mount_policy (spawn_descriptor d)
            = descriptor_requires_mount_policy d) as ->.
    { unfold descriptor_requires_mount_policy. simpl. case_bool_decide; [done |].
      rewrite existsb_app. simpl. by rewrite orb_false_r. }
    assert (forall creds, credential_obligations (spawn_descriptor d) g creds
            = credential_obligations d g creds) as Hcred.
    { induction creds as [| cr creds IHc]; [done |]. simpl. by rewrite IHc. }
    by rewrite Hcred. }
  unfold serve. rewrite Hobl. destruct (_ && _ && _) eqn:Hc; [| done].
  rewrite !andb_true_iff in Hc. destruct Hc as ((Hg & Ha) & Hr).
  rewrite (Hcov _ Hg), Hr. destruct authority as [a |]; [by rewrite (Hcov _ Ha) | done].
Qed.

Lemma loop_allows_somehow now c d estimate authority grants k g o :
  grants !! k = Some g -> grant_matches d c (now k) g = true ->
  serve d estimate authority g = Some o ->
  exists o', authorize_loop (Request := Request) now d c estimate authority 0 false grants = Allow o'.
Proof.
  intros Hk Hm Hs. pose proof (authorize_loop_spec now c d estimate authority 0 false grants) as Hl.
  destruct (authorize_loop _ _ _ _ _ _ _ _) as [o' | r |]; [eauto | | done].
  destruct Hl as [Hi _]. specialize (Hi k g (lookup_lt_Some _ _ _ Hk) Hk Hm). congruence.
Qed.

(** Leases only add authority, and spawning needs more than dispatching: what the
    context's grants allow, the lease-backed authorizer allows with the same
    obligations, whatever leases are active; and a capability that may be spawned may
    also be dispatched, the grant behind it allowing [SpawnProcess]. *)
Theorem authority_monotone now c d estimate trust leases :
  (forall o, authorize_dispatch_with_trust (Request := Request) now c d estimate trust = Allow o ->
     lb_authorize_dispatch_with_trust (Request := Request) leases now c d estimate trust = Allow o)
  /\ (forall o, authorize_spawn_with_trust (Request := Request) now c d estimate trust = Allow o ->
     lb_authorize_spawn_with_trust (Request := Request) leases now c d estimate trust = Allow o)
  /\ (forall o, lb_authorize_spawn_with_trust (Request := Request) leases now c d estimate trust = Allow o ->
     (exists o', lb_authorize_dispatch_with_trust (Request := Request) leases now c d estimate trust = Allow o')
     /\ exists g, g ∈ ctx_grants c ++ leases c /\ grant_capability g = desc_id d
          /\ SpawnProcess ∈ gc_allowed_effects (constraints g)).
Proof.
  assert (forall d' o, authorize_from_grants_with_trust (Request := Request) now c d' estimate
            (ctx_grants c) trust = Allow o ->
          validated (Request := Request) c (authorize_from_grants_with_trust now c d' estimate
            (ctx_grants c ++ leases c) trust) = Allow o) as Hmono.
  { intros d' o. unfold authorize_from_grants_with_trust, validated,
      authorize_from_grants_with_authority_ceiling.
    destruct (context_validate c); [| done]. case_bool_decide; [done |]. intros Ho.
    pose proof (authorize_loop_app now c d' estimate (Some (authority_ceiling trust)) 0 false
      (ctx_grants c) (leases c)) as Ha. by rewrite Ho in Ha. }
  split; [apply Hmono |]. split; [apply Hmono |]. intros o Ho.
  unfold lb_authorize_spawn_with_trust, lb_authorize_dispatch_with_trust, validated,
    authorize_from_grants_with_trust, authorize_from_grants_with_authority_ceiling in *.
  destruct (context_validate c) as [[] |]; [| done]. case_bool_decide; [done |].
  pose proof (authorize_loop_spec now c (spawn_descriptor d) estimate
    (Some (authority_ceiling trust)) 0 false (ctx_grants c ++ leases c)) as Hl.
  rewrite Ho in Hl. destruct Hl as (k & g & Hk & Hm & Hs & _). simpl in Hm. split.
  - eapply loop_allows_somehow; [done | exact Hm | by apply serve_spawn].
  - exists g. split; [by eapply list_elem_of_lookup_2 |].
    pose proof (serve_sound _ _ _ _ _ _ _ Hm Hs) as Hau.
    split; [exact (ab_capability _ _ _ _ _ _ _ Hau) |].
    apply (ab_effects _ _ _ _ _ _ _ Hau). apply spawn_effects. by right.
Qed.
End decision.
