(* ===== verification/TrustFacts.v ===== *)
(** * Host trust policy: theorems

    Effective trust comes from an entry of the host or is the sandbox; a mutation is
    all or nothing; a change that leaves an existing grant above the new ceiling is
    announced; a change of another package's entries is not. *)

From S2P Require Import Prelude Strings Ids Mounts Platform HostApi Capability Trust Authorize AuthorizeFacts.
From Stdlib Require Import Lia.
Import HostApi.Resource.

Section facts.
Context `{Platform}.
Implicit Types (sources : list PolicySource) (input : TrustPolicyInput) (now : DateTime).

(** ** Evaluation *)

(** An entry of the source vouches for the package: it is filed under the package's id
    (and, for the admin list, its origin) and its digest pin, if any, fits. *)
Definition vouches (s : PolicySource) (input : TrustPolicyInput) (d : TrustDecision) : Prop :=
  let id := in_identity input in
  match s with
  | BundledSource m => exists e, pi_source id = Bundled /\ m !! pi_package_id id = Some e
      /\ (forall pin, be_digest e = Some pin -> pi_digest id = Some pin)
      /\ effective_trust d = be_effective_trust e /\ provenance d = BundledProvenance
      /\ authority_ceiling d = {| allowed_effects := be_allowed_effects e;
                                  max_resource_ceiling := be_max_resource_ceiling e |}
  | AdminSource m => exists e, m !! (pi_package_id id, pi_source id) = Some e
      /\ (forall pin, ae_digest e = Some pin -> pi_digest id = Some pin)
      /\ effective_trust d = ae_effective_trust e /\ provenance d = AdminConfigProvenance
      /\ authority_ceiling d = {| allowed_effects := ae_allowed_effects e;
                                  max_resource_ceiling := ae_max_resource_ceiling e |}
  | SignedSource _ | LocalDevSource _ _ => False
  end.

Lemma digest_matches_true pinned actual :
  digest_matches pinned actual = true -> forall pin, pinned = Some pin -> actual = Some pin.
Proof.
  intros Hm pin ->. simpl in Hm. destruct actual as [a |]; [| done].
  apply String.eqb_eq in Hm. by subst.
Qed.

Lemma source_evaluate_vouches s input now :
  exists m, source_evaluate s input = Ok m
    /\ forall x, m = Some x -> vouches s input (decision_of_match now x).
Proof.
  destruct s as [m | m | m | m en]; simpl.
  - exists (bundled_evaluate m input). split; [done |]. unfold bundled_evaluate. intros x Hx.
    destruct (pi_source (in_identity input)) eqn:Hs; try done.
    destruct (m !! _) as [e |] eqn:He; [| done]. destruct (digest_matches _ _) eqn:Hd; [| done].
    injection Hx as <-. exists e. simpl. eauto 10 using digest_matches_true.
  - exists (admin_evaluate m input). split; [done |]. unfold admin_evaluate. intros x Hx.
    destruct (m !! _) as [e |] eqn:He; [| done]. destruct (digest_matches _ _) eqn:Hd; [| done].
    injection Hx as <-. exists e. simpl. eauto 10 using digest_matches_true.
  - by exists None.
  - exists None. by destruct en.
Qed.

Lemma source_evaluate_ext s input input' :
  pi_package_id (in_identity input) = pi_package_id (in_identity input') ->
  pi_source (in_identity input) = pi_source (in_identity input') ->
  pi_digest (in_identity input) = pi_digest (in_identity input') ->
  source_evaluate s input = source_evaluate s input'.
Proof.
  intros Hp Hs Hd. destruct s; simpl; try done.
  - unfold bundled_evaluate. by rewrite Hp, Hs, Hd.
  - unfold admin_evaluate. by rewrite Hp, Hs, Hd.
Qed.

(** Trust is never self-asserted.  Evaluation always decides; it is the sandbox
    with no authority unless an entry of the host's bundled or admin registry is filed
    for exactly this package (the admin one for exactly this origin) and its digest pin
    fits, and then class and ceiling are that entry's; what the package requests, and
    the signer it names, do not matter. *)
Theorem trust_never_self_asserted sources now input :
  exists d, trust_evaluate sources now input = Ok d
    /\ (d = default_decision now
        \/ exists s, s ∈ sources /\ vouches s input d)
    /\ forall requested authority signer,
         trust_evaluate sources now
           {| in_identity := {| pi_package_id := pi_package_id (in_identity input);
                                pi_source := pi_source (in_identity input);
                                pi_digest := pi_digest (in_identity input);
                                pi_signer := signer |};
              in_requested_trust := requested; in_requested_authority := authority |} = Ok d.
Proof.
  unfold trust_evaluate. induction sources as [| s sources (d & Hd & Hv & Hr)]; simpl.
  - exists (default_decision now). auto.
  - destruct (source_evaluate_vouches s input now) as (m & Hm & Hx). rewrite Hm.
    destruct m as [x |].
    + exists (decision_of_match now x). split; [done |]. split.
      * right. exists s. split; [apply elem_of_cons; by left | by apply Hx].
      * intros requested authority signer. erewrite <- source_evaluate_ext with (input := input);
          [by rewrite Hm | done..].
    + exists d. split; [done |]. split.
      * destruct Hv as [-> | (s' & Hs' & Hv)]; [by left | right].
        exists s'. split; [apply elem_of_cons; by right | done].
      * intros requested authority signer. erewrite <- source_evaluate_ext with (input := input);
          [rewrite Hm; apply Hr | done..].
Qed.

Lemma chain_evaluates sources now input : exists d, evaluate_chain now input sources = Ok d.
Proof.
  induction sources as [| s sources IH]; simpl; [eauto |].
  destruct (source_evaluate_vouches s input now) as (m & -> & _). destruct m; eauto.
Qed.

(** ** The chain keeps its shape *)

Definition count_type (t : N) sources : nat := length (List.filter (N.eqb t) (type_id <$> sources)).

Lemma find_source_count {T} (downcast : PolicySource -> option T) name t sources :
  (forall s, is_Some (downcast s) <-> type_id s = t) ->
  is_ok (find_source downcast name sources) = Nat.eqb (count_type t sources) 1.
Proof.
  intros Hd. unfold find_source, count_type.
  assert (length (omap downcast sources) = length (List.filter (N.eqb t) (type_id <$> sources))) as Hl.
  { induction sources as [| s sources IH]; [done |]. simpl.
    destruct (N.eqb_spec t (type_id s)) as [-> | Hne].
    - destruct (proj2 (Hd s) eq_refl) as [x Hx]. rewrite Hx. simpl. f_equal. exact IH.
    - destruct (downcast s) eqn:Hx; [| done]. exfalso. apply Hne. symmetry. apply Hd. by rewrite Hx. }
  rewrite <- Hl. by destruct (omap downcast sources) as [| x [| y l]].
Qed.

Lemma as_bundled_type s : is_Some (as_bundled s) <-> type_id s = 0%N.
Proof. destruct s; simpl; split; intros; try done; try (by destruct H0); eauto. Qed.
Lemma as_admin_type s : is_Some (as_admin s) <-> type_id s = 1%N.
Proof. destruct s; simpl; split; intros; try done; try (by destruct H0); eauto. Qed.
Lemma as_signed_type s : is_Some (as_signed s) <-> type_id s = 2%N.
Proof. destruct s; simpl; split; intros; try done; try (by destruct H0); eauto. Qed.

(** The type a staged change is for, and whether the chain has exactly one such source. *)
Definition mutation_type (m : SourceMutation) : N :=
  match m with
  | BundledUpsert _ | BundledRemove _ => 0
  | AdminUpsert _ | AdminRemove _ _ => 1
  | SignedUpsert _ | SignedRemove _ => 2
  end.

Definition addressable sources (m : SourceMutation) : Prop :=
  count_type (mutation_type m) sources = 1.

Lemma commit_one_spec m sources :
  addressable sources m ->
  exists sources', commit_one m sources = (Ok tt, sources')
    /\ type_id <$> sources' = type_id <$> sources.
Proof.
  unfold addressable. intros Hc.
  destruct m; simpl in Hc;
    [ pose proof (find_source_count as_bundled BUNDLED_TYPE _ sources as_bundled_type) as Hf
    | pose proof (find_source_count as_bundled BUNDLED_TYPE _ sources as_bundled_type) as Hf
    | pose proof (find_source_count as_admin ADMIN_TYPE _ sources as_admin_type) as Hf
    | pose proof (find_source_count as_admin ADMIN_TYPE _ sources as_admin_type) as Hf
    | pose proof (find_source_count as_signed SIGNED_TYPE _ sources as_signed_type) as Hf
    | pose proof (find_source_count as_signed SIGNED_TYPE _ sources as_signed_type) as Hf ];
    rewrite Hc in Hf; simpl; (destruct (find_source _ _ sources); [| done]);
    (eexists; split; [done |]); rewrite <- list_fmap_compose; apply list_fmap_ext;
    intros ? [] _; done.
Qed.

Lemma commit_spec staged sources :
  Forall (addressable sources) staged ->
  exists sources', commit staged sources = (Ok tt, sources')
    /\ type_id <$> sources' = type_id <$> sources.
Proof.
  revert sources. induction staged as [| m staged IH]; intros sources Hs; simpl; [eauto |].
  apply Forall_cons in Hs as [Hm Hs].
  destruct (commit_one_spec m sources Hm) as (s1 & -> & Ht).
  destruct (IH s1) as (s2 & -> & Ht2); [| exists s2; split; [done | congruence]].
  eapply Forall_impl; [exact Hs |]. intros m'. unfold addressable, count_type. by rewrite Ht.
Qed.

Lemma stage_addressable {T A} (downcast : PolicySource -> option T) name t (answer : T -> A) m
    sources staged a staged' :
  (forall s, is_Some (downcast s) <-> type_id s = t) -> mutation_type m = t ->
  stage (find_source downcast name sources) answer m staged = (a, staged') ->
  Forall (addressable sources) staged -> Forall (addressable sources) staged'.
Proof.
  intros Hd Ht Hst Hs. unfold stage in Hst. pose proof (find_source_count downcast name t sources Hd) as Hf.
  destruct (find_source downcast name sources); injection Hst as <- <-; [| done].
  apply Forall_app. split; [done |]. apply Forall_singleton. unfold addressable. rewrite Ht.
  simpl in Hf. symmetry in Hf. by apply Nat.eqb_eq in Hf.
Qed.

Lemma run_mutation_addressable {R} sources (f : Mutation R) staged r staged' :
  run_mutation sources f staged = (r, staged') ->
  Forall (addressable sources) staged -> Forall (addressable sources) staged'.
Proof.
  revert staged. induction f as [r0 | e k IH | i k IH | e k IH | i so k IH | e k IH | i k IH];
    intros staged; simpl; [by intros [= <- <-] | ..];
    destruct (stage _ _ _ _) as [a st] eqn:Hst; intros Hr Hs;
    (eapply IH; [exact Hr |]).
  all: eapply stage_addressable in Hst; [exact Hst | | | exact Hs].
  all: first [exact as_bundled_type | exact as_admin_type | exact as_signed_type | done].
Qed.
End facts.

(** ** Ceilings that shrink under a grant *)

Section reductions.
Context `{PlatformLaws}.

Lemma sandbox_exceeds_reduced g a b :
  sandbox_quota_exceeds_authority g a = false -> sandbox_quota_exceeds_authority g b = true ->
  sandbox_quota_reduced a b = true.
Proof.
  destruct g as [g |], a as [a |], b as [b |]; simpl; try done.
  rewrite !orb_false_iff, !orb_true_iff. intros ((((H1 & H2) & H3) & H4) & H5).
  intros [[[[Hx | Hx] | Hx] | Hx] | Hx];
    (eapply (exceeds_reduced N.ltb N.leb) in Hx; [| eassumption]); tauto.
Qed.

Lemma ceiling_exceeds_reduced g a b :
  resource_ceiling_exceeds_authority g a = false -> resource_ceiling_exceeds_authority g b = true ->
  resource_ceiling_reduced a b = true.
Proof.
  destruct g as [g |], a as [a |], b as [b |]; simpl; try done.
  rewrite !orb_false_iff, !orb_true_iff. intros (((((H1' & H2') & H3') & H4') & H5') & H6').
  intros [[[[[Hx | Hx] | Hx] | Hx] | Hx] | Hx];
    first [ eapply (exceeds_reduced decimal_lt decimal_le) in Hx
          | eapply (exceeds_reduced N.ltb N.leb) in Hx
          | eapply sandbox_exceeds_reduced in Hx ]; try eassumption; tauto.
Qed.

Lemma grant_exceeds_reduced g old new :
  grant_exceeds_authority_ceiling g old = false -> grant_exceeds_authority_ceiling g new = true ->
  is_reduction_from new old = true.
Proof.
  unfold grant_exceeds_authority_ceiling, is_reduction_from.
  rewrite orb_false_iff, !orb_true_iff, negb_false_iff, negb_true_iff.
  intros [He Hr] [He' | Hr']; [left | right; by eapply ceiling_exceeds_reduced].
  rewrite effects_covered_iff in He. apply existsb_exists.
  unfold effects_are_covered in He'.
  assert (exists e, In e (gc_allowed_effects (constraints g)) /\ e ∉ allowed_effects new)
    as (e & Hin & Hnot).
  { clear He Hr. induction (gc_allowed_effects (constraints g)) as [| e l IH]; [done |].
    simpl in He'. apply andb_false_iff in He' as [Hb | Hl].
    - exists e. split; [by left |]. by apply bool_decide_eq_false in Hb.
    - destruct (IH Hl) as (x & Hx & Hn). exists x. split; [by right | done]. }
  exists e. rewrite <- list_elem_of_In in Hin. split; [apply list_elem_of_In; auto |].
  by rewrite bool_decide_eq_false_2.
Qed.

(** No grant outlives its ceiling unannounced.  A mutation of a chain either
    fails, leaving every source as it was and telling no listener, or commits; and
    when it commits, if the affected package's trust class changed, or some grant that
    fitted the old authority ceiling exceeds the new one, then every registered
    listener is handed, in order, the one event that carries the old and the new
    decision. *)
Theorem mutation_announced {L R} (listeners : list L) before after affected authority requested
    (f : Mutation R) sources r sources' events old new :
  let probe := {| in_identity := affected; in_requested_trust := requested;
                  in_requested_authority := authority |} in
  mutate_with listeners before after affected authority requested f sources = (r, sources', events) ->
  trust_evaluate sources before probe = Ok old ->
  trust_evaluate sources' after probe = Ok new ->
  match r with
  | Err _ => sources' = sources /\ events = []
  | Ok _ =>
      type_id <$> sources' = type_id <$> sources
      /\ (effective_trust old <> effective_trust new
          \/ (exists g, grant_exceeds_authority_ceiling g (authority_ceiling old) = false
               /\ grant_exceeds_authority_ceiling g (authority_ceiling new) = true) ->
          events = (fun l => (l, {| tc_identity := affected;
                                    tc_previous := effective_trust old;
                                    tc_current := effective_trust new;
                                    tc_previous_authority_ceiling := authority_ceiling old;
                                    tc_current_authority_ceiling := authority_ceiling new;
                                    tc_effective_at := evaluated_at new |})) <$> listeners)
  end.
Proof.
  intros probe Hm Hold Hnew. unfold mutate_with in Hm. fold probe in Hm.
  unfold trust_evaluate in *. rewrite Hold in Hm.
  destruct (run_mutation sources f []) as [r0 staged] eqn:Hrun.
  pose proof (run_mutation_addressable sources f [] r0 staged Hrun (Forall_nil_2 _)) as Hst.
  destruct r0 as [result | e]; [| by injection Hm as <- <- <-].
  destruct (commit_spec staged sources Hst) as (s2 & Hc & Ht). rewrite Hc in Hm.
  destruct (chain_evaluates s2 after probe) as (curr & Hcurr). rewrite Hcurr in Hm.
  assert (r = Ok result /\ sources' = s2) as [-> ->]
    by (destruct (trust_change_new affected old curr); by injection Hm as <- <- _).
  rewrite Hcurr in Hnew. injection Hnew as ->. split; [done |]. intros Hinv.
  assert (bool_decide (effective_trust old = effective_trust new)
          && negb (is_reduction_from (authority_ceiling new) (authority_ceiling old)) = false)
    as Hcond.
  { apply andb_false_iff. destruct Hinv as [Hne | (g & Hg & Hg')].
    - left. by apply bool_decide_eq_false.
    - right. apply negb_false_iff. by eapply grant_exceeds_reduced. }
  unfold trust_change_new in Hm. rewrite Hcond in Hm. injection Hm as <-.
  unfold publish, authority_ceiling_reduced. simpl. by rewrite Hcond.
Qed.
End reductions.

(** ** Concrete policies *)

Section demo.
#[local] Existing Instance TestPlatform.

Definition ceiling_of (effects : list EffectKind) : AuthorityCeiling :=
  {| allowed_effects := effects; max_resource_ceiling := None |}.

Definition mailer : PackageIdentity := {|
  pi_package_id := "mailer"; pi_source := Bundled; pi_digest := None; pi_signer := None |}.
Definition indexer : PackageIdentity := {|
  pi_package_id := "indexer"; pi_source := Bundled; pi_digest := None; pi_signer := None |}.

Definition entry_for (id : PackageId) (effects : list EffectKind) : BundledEntry :=
  bundled_entry_new id None {| assigned := FirstParty |} effects None.

Definition shipped : list PolicySource :=
  [BundledSource (bundled_with_entries
     [entry_for "mailer" [Network; UseSecret]; entry_for "indexer" [ReadFilesystem]]);
   AdminSource ∅].

Definition mail_grant : CapabilityGrant := {|
  grant_id := 1%N; grant_capability := "mailer.send"; grantee := UserPrincipal "alice";
  issued_by := HostRuntime;
  constraints := {| gc_allowed_effects := [Network]; gc_mounts := [];
    gc_network := network_policy_default; gc_secrets := []; gc_resource_ceiling := None;
    gc_expires_at := None; gc_max_invocations := None |} |}.

Definition probe_of (id : PackageIdentity) : TrustPolicyInput := {|
  in_identity := id; in_requested_trust := SystemRequested; in_requested_authority := ∅ |}.

Lemma mutation_announced_witness :
  let f := CallBundledUpsert (entry_for "mailer" [UseSecret]) (fun r => Return r) in
  let '(r, sources', events) :=
    mutate_with ["leases"] 1 2 mailer ∅ SystemRequested f shipped in
  r = Ok tt /\ fst <$> events = ["leases"].
Proof.
  cbv zeta. destruct (mutate_with _ _ _ _ _ _ _ _) as [[r sources'] events] eqn:Hm.
  assert (r = Ok tt) as -> by (assert ((mutate_with ["leases"] 1 2 mailer ∅ SystemRequested
    (CallBundledUpsert (entry_for "mailer" [UseSecret]) (fun r => Return r)) shipped).1.1 = Ok tt)
    as Hr by vm_refl; by rewrite Hm in Hr).
  split; [done |].
  destruct (chain_evaluates shipped 1 (probe_of mailer)) as [old Hold].
  destruct (chain_evaluates sources' 2 (probe_of mailer)) as [new Hnew].
  pose proof (mutation_announced _ _ _ _ _ _ _ _ _ _ _ old new Hm Hold Hnew) as [_ Hev].
  rewrite Hev; [done |]. right. exists mail_grant.
  assert (old = decision_of_match 1 {| sm_effective_trust := trust_first_party;
    sm_provenance := BundledProvenance; sm_allowed_effects := [Network; UseSecret];
    sm_max_resource_ceiling := None |}) as ->.
  { assert (evaluate_chain 1 (probe_of mailer) shipped = Ok (decision_of_match 1
      {| sm_effective_trust := trust_first_party; sm_provenance := BundledProvenance;
         sm_allowed_effects := [Network; UseSecret]; sm_max_resource_ceiling := None |})) as Hx
      by vm_refl. rewrite Hx in Hold. by injection Hold as <-. }
  assert (new = decision_of_match 2 {| sm_effective_trust := trust_first_party;
    sm_provenance := BundledProvenance; sm_allowed_effects := [UseSecret];
    sm_max_resource_ceiling := None |}) as ->.
  { assert (evaluate_chain 2 (probe_of mailer) (mutate_with ["leases"] 1 2 mailer ∅ SystemRequested
      (CallBundledUpsert (entry_for "mailer" [UseSecret]) (fun r => Return r)) shipped).1.2
      = Ok (decision_of_match 2
      {| sm_effective_trust := trust_first_party; sm_provenance := BundledProvenance;
         sm_allowed_effects := [UseSecret]; sm_max_resource_ceiling := None |})) as Hx
      by vm_refl. rewrite Hm in Hx. simpl in Hx. rewrite Hx in Hnew. by injection Hnew as <-. }
  split; vm_refl.
Defined.

(** What [mutate_with] announces is the affected package only: a closure run on
    behalf of one package may take every effect and the privileged class from another,
    and no listener hears of it. *)
Theorem mutation_of_other_unannounced :
  let f := CallBundledRemove "mailer" (fun _ => Return (Ok tt)) in
  let run := mutate_with ["leases"] 1 2 indexer ∅ SystemRequested f shipped in
  run.1.1 = Ok tt /\ run.2 = []
  /\ effective_trust <$> (match trust_evaluate shipped 1 (probe_of mailer) with
                          | Ok d => Some d | Err _ => None end) = Some trust_first_party
  /\ (match trust_evaluate run.1.2 2 (probe_of mailer) with
      | Ok d => Some d | Err _ => None end) = Some (default_decision 2)
  /\ grant_exceeds_authority_ceiling mail_grant (ceiling_of [Network; UseSecret]) = false
  /\ grant_exceeds_authority_ceiling mail_grant authority_ceiling_empty = true.
Proof. cbv zeta. repeat split; vm_refl. Qed.
End demo.
