(* ===== verification/AuthorizeDemo.v ===== *)
(** * Capability authorization: concrete requests *)

From S2P Require Import Prelude Strings Ids Mounts Platform HostApi Capability Obligations Trust Authorize AuthorizeFacts.
From Stdlib Require Import Lia.
Import HostApi.Resource.

Section demo.
#[local] Existing Instance TestPlatform.
#[local] Instance UnitJson : SerdeJson := {| Value := unit |}.

Definition alice_scope : ResourceScope := {|
  tenant_id := "acme"; user_id := "alice"; agent_id := Some "helper"; project_id := None;
  mission_id := None; thread_id := Some "t1"; invocation_id := 7 |}.

Definition fetch_grant (expires : option DateTime) : CapabilityGrant := {|
  grant_id := 1; grant_capability := "web.fetch"; grantee := AgentPrincipal "helper";
  issued_by := UserPrincipal "alice";
  constraints := {| gc_allowed_effects := [Network; UseSecret; SpawnProcess]; gc_mounts := [];
    gc_network := {| Capability.allowed_targets := []; deny_private_ip_ranges := true;
                     max_egress_bytes := Some 1000%N |};
    gc_secrets := ["api_key"];
    gc_resource_ceiling := Some {| max_usd := None; max_input_tokens := None;
      max_output_tokens := None; max_wall_clock_ms := Some 500%N; max_output_bytes := Some 64%N;
      ceiling_sandbox := None |};
    gc_expires_at := expires; gc_max_invocations := None |} |}.

Definition alice_context (grants : list CapabilityGrant) : ExecutionContext := {|
  ctx_invocation_id := 7; ctx_correlation_id := 9; ctx_process_id := None;
  ctx_parent_process_id := None; ctx_tenant_id := "acme"; ctx_user_id := "alice";
  ctx_authenticated_actor_user_id := None; ctx_agent_id := Some "helper";
  ctx_project_id := None; ctx_mission_id := None; ctx_thread_id := Some "t1";
  ctx_extension_id := "web"; ctx_runtime := Wasm; ctx_trust := UserTrusted;
  ctx_grants := grants; ctx_mounts := []; ctx_resource_scope := alice_scope |}.

Definition fetch : CapabilityDescriptor := {|
  desc_id := "web.fetch"; desc_provider := "web"; desc_runtime := Wasm;
  desc_trust_ceiling := UserTrusted; desc_description := "fetch a page";
  desc_parameters_schema := tt; desc_effects := [Network; UseSecret];
  desc_default_permission := PermitAsk; desc_runtime_credentials := [];
  desc_network_targets := []; desc_resource_profile := None |}.

Definition small_estimate : ResourceEstimate := {|
  est_usd := None; est_input_tokens := None; est_output_tokens := None;
  est_wall_clock_ms := Some 100%N; est_output_bytes := Some 10%N;
  est_network_egress_bytes := None; est_process_count := None; est_concurrency_slots := None |}.

Definition web_trust : TrustDecision := {|
  effective_trust := trust_user_trusted;
  authority_ceiling := {| allowed_effects := [Network; UseSecret; SpawnProcess];
                          max_resource_ceiling := None |};
  provenance := AdminConfigProvenance; evaluated_at := 0 |}.

(** The first grant has expired by the time it is examined; the second serves. *)
Definition two_grants : list CapabilityGrant := [fetch_grant (Some 10%Z); fetch_grant None].

Abbreviation fetch_obligations := [
  ApplyNetworkPolicy {| Capability.allowed_targets := []; deny_private_ip_ranges := true;
                        max_egress_bytes := Some 1000%N |};
  InjectSecretOnce "api_key";
  EnforceResourceCeiling {| max_usd := None; max_input_tokens := None;
    max_output_tokens := None; max_wall_clock_ms := Some 500%N; max_output_bytes := Some 64%N;
    ceiling_sandbox := None |};
  EnforceOutputLimit 64 ].

Lemma fetch_allowed :
  authorize_dispatch_with_trust (Request := unit) (fun _ => 20%Z) (alice_context two_grants) fetch
    small_estimate web_trust = Allow fetch_obligations.
Proof. vm_refl. Qed.

Lemma allow_is_authorized_witness :
  exists g, g ∈ two_grants /\ grantee g <> HostRuntime.
Proof.
  destruct (allow_is_authorized (Request := unit) (fun _ => 20%Z) (alice_context two_grants) fetch
    small_estimate two_grants web_trust _ fetch_allowed) as (_ & _ & i & g & Hg & _ & Hh & _).
  exists g. split; [by eapply list_elem_of_lookup_2 | exact Hh].
Defined.

Lemma authority_monotone_witness :
  exists o, lb_authorize_dispatch_with_trust (Request := unit) (fun _ => [fetch_grant (Some 30%Z)])
    (fun _ => 20%Z) (alice_context two_grants) fetch small_estimate web_trust = Allow o.
Proof.
  eexists.
  apply (proj1 (authority_monotone (Request := unit) (fun _ => 20%Z) (alice_context two_grants) fetch
    small_estimate web_trust (fun _ => [fetch_grant (Some 30%Z)]))).
  exact fetch_allowed.
Defined.

Lemma authorize_decides_witness :
  verdict (Request := unit) (fun _ => 20%Z) (alice_context []) fetch small_estimate [] None
    (Deny MissingGrant).
Proof.
  apply (proj1 (authorize_decides (Request := unit) (fun _ => 20%Z) (alice_context []) fetch
    small_estimate [] None (Deny MissingGrant))).
  vm_refl.
Defined.
End demo.
