(* ===== verification/Leases.v ===== *)
(** * Capability leases: lifecycle and the in-memory store

    Models the lease half of [ironclaw_authorization/src/lib.rs]: the lease and its
    status, the guards and transitions both stores share, and
    [InMemoryCapabilityLeaseStore].  A store call is one function under the store's
    mutex; [now] is what the clock reads in it, [now i] for the [i]-th lease of a
    listing. *)

From stdpp Require Import sorting.
From S2P Require Import Prelude Strings Ids Mounts Filesystem Platform HostApi RunState Capability.
From Stdlib Require Import Lia.
Import HostApi.Resource.

Abbreviation InvocationFingerprint := string.

Inductive CapabilityLeaseStatus :=
  | LeaseActive | LeaseClaimed | LeaseDispatching | LeaseConsumed | LeaseRevoked.

#[export] Instance CapabilityLeaseStatus_eq_dec : EqDecision CapabilityLeaseStatus.
Proof. solve_decision. Defined.

Inductive CapabilityLeaseError :=
  | UnknownLease (lease_id : CapabilityGrantId)
  | ExpiredLease (lease_id : CapabilityGrantId)
  | ExhaustedLease (lease_id : CapabilityGrantId)
  | UnclaimedFingerprintLease (lease_id : CapabilityGrantId)
  | FingerprintMismatch (lease_id : CapabilityGrantId)
  | InactiveLease (lease_id : CapabilityGrantId) (status : CapabilityLeaseStatus)
  | LeasePersistence (reason : string)
  | LeaseVersionMismatch
  | LeaseCasExhausted.

#[export] Instance CapabilityLeaseError_eq_dec : EqDecision CapabilityLeaseError.
Proof. solve_decision. Defined.

(** [CapabilityLeaseKey] *)
Record CapabilityLeaseKey := {
  lk_tenant : TenantId;
  lk_user : UserId;
  lk_agent : option AgentId;
  lk_project : option ProjectId;
  lk_mission : option MissionId;
  lk_thread : option ThreadId;
  lk_invocation : InvocationId;
  lk_lease : CapabilityGrantId;
}.

#[export] Instance CapabilityLeaseKey_eq_dec : EqDecision CapabilityLeaseKey.
Proof. solve_decision. Defined.

#[export] Instance CapabilityLeaseKey_countable : Countable CapabilityLeaseKey.
Proof.
  apply (inj_countable'
    (fun k => (lk_tenant k, lk_user k, lk_agent k, lk_project k, lk_mission k, lk_thread k,
               lk_invocation k, lk_lease k))
    (fun '(t, u, a, p, m, h, i, l) =>
       {| lk_tenant := t; lk_user := u; lk_agent := a; lk_project := p; lk_mission := m;
          lk_thread := h; lk_invocation := i; lk_lease := l |})).
  by intros [].
Defined.

Definition lease_key_new (scope : ResourceScope) (lease_id : CapabilityGrantId) :
    CapabilityLeaseKey := {|
  lk_tenant := tenant_id scope; lk_user := user_id scope; lk_agent := agent_id scope;
  lk_project := project_id scope; lk_mission := mission_id scope; lk_thread := thread_id scope;
  lk_invocation := invocation_id scope; lk_lease := lease_id |}.

Section with_platform.
Context `{Platform}.

Record CapabilityLease := {
  lease_scope : ResourceScope;
  lease_grant : CapabilityGrant;
  lease_fingerprint : option InvocationFingerprint;
  lease_status : CapabilityLeaseStatus;
}.

#[export] Instance CapabilityLease_eq_dec : EqDecision CapabilityLease.
Proof. solve_decision. Defined.

(** [CapabilityLease::new] *)
Definition lease_new (scope : ResourceScope) (grant : CapabilityGrant) : CapabilityLease := {|
  lease_scope := scope; lease_grant := grant; lease_fingerprint := None;
  lease_status := LeaseActive |}.

Definition lease_id (l : CapabilityLease) : CapabilityGrantId := grant_id (lease_grant l).
Definition remaining (l : CapabilityLease) : option N :=
  gc_max_invocations (constraints (lease_grant l)).

Definition lease_with_status (s : CapabilityLeaseStatus) (l : CapabilityLease) : CapabilityLease := {|
  lease_scope := lease_scope l; lease_grant := lease_grant l;
  lease_fingerprint := lease_fingerprint l; lease_status := s |}.

(** [*remaining = n] *)
Definition set_remaining (n : N) (l : CapabilityLease) : CapabilityLease :=
  let g := lease_grant l in
  let gc := constraints g in {|
  lease_scope := lease_scope l;
  lease_grant := {| grant_id := grant_id g; grant_capability := grant_capability g;
    grantee := grantee g; issued_by := issued_by g;
    constraints := {| gc_allowed_effects := gc_allowed_effects gc; gc_mounts := gc_mounts gc;
      gc_network := gc_network gc; gc_secrets := gc_secrets gc;
      gc_resource_ceiling := gc_resource_ceiling gc; gc_expires_at := gc_expires_at gc;
      gc_max_invocations := Some n |} |};
  lease_fingerprint := lease_fingerprint l;
  lease_status := lease_status l |}.

(** ** Guards *)

Definition lease_is_expired (now : DateTime) (l : CapabilityLease) : bool :=
  match gc_expires_at (constraints (lease_grant l)) with
  | Some expires_at => (expires_at <=? now)%Z
  | None => false
  end.

Definition ensure_not_expired_or_exhausted (now : DateTime) (l : CapabilityLease) :
    Result unit CapabilityLeaseError :=
  if lease_is_expired now l then Err (ExpiredLease (lease_id l))
  else if bool_decide (remaining l = Some 0%N) then Err (ExhaustedLease (lease_id l))
  else Ok tt.

Definition ensure_claimable (now : DateTime) (l : CapabilityLease) (fp : InvocationFingerprint) :
    Result unit CapabilityLeaseError :=
  if bool_decide (lease_status l <> LeaseActive)
  then Err (InactiveLease (lease_id l) (lease_status l))
  else if bool_decide (lease_fingerprint l <> Some fp) then Err (FingerprintMismatch (lease_id l))
  else ensure_not_expired_or_exhausted now l.

(** [matches!(status, Claimed | Dispatching)] *)
Definition claimed_or_dispatching (s : CapabilityLeaseStatus) : bool :=
  match s with LeaseClaimed | LeaseDispatching => true | _ => false end.

Definition ensure_consumable (now : DateTime) (l : CapabilityLease) :
    Result unit CapabilityLeaseError :=
  match lease_status l with
  | LeaseConsumed => Err (ExhaustedLease (lease_id l))
  | LeaseRevoked => Err (InactiveLease (lease_id l) (lease_status l))
  | LeaseActive | LeaseClaimed | LeaseDispatching =>
      if bool_decide (is_Some (lease_fingerprint l))
         && negb (claimed_or_dispatching (lease_status l))
      then Err (UnclaimedFingerprintLease (lease_id l))
      else ensure_not_expired_or_exhausted now l
  end.

Definition lease_is_authorizing (now : DateTime) (l : CapabilityLease) (c : ExecutionContext) :
    bool :=
  bool_decide (lease_status l = LeaseActive)
  && N.eqb (invocation_id (lease_scope l)) (ctx_invocation_id c)
  && negb (lease_is_expired now l)
  && bool_decide (remaining l <> Some 0%N).

(** ** Transitions: the closures the stores run on a lease *)

Definition Transition : Type :=
  DateTime -> CapabilityLease -> Result CapabilityLease CapabilityLeaseError.

Definition to_revoked : Transition := fun _ l => Ok (lease_with_status LeaseRevoked l).

Definition to_claimed (fp : InvocationFingerprint) : Transition := fun now l =>
  result_map (fun _ => lease_with_status LeaseClaimed l) (ensure_claimable now l fp).

(** The state after a use, once [ensure_consumable] has passed. *)
Definition consumed (l : CapabilityLease) : CapabilityLease :=
  let was_claimed := claimed_or_dispatching (lease_status l) in
  if bool_decide (is_Some (lease_fingerprint l)) then
    lease_with_status LeaseConsumed
      (match remaining l with Some _ => set_remaining 0 l | None => l end)
  else
    match remaining l with
    | Some n =>
        let l' := set_remaining (n - 1) l in
        if N.eqb (n - 1) 0 then lease_with_status LeaseConsumed l'
        else if was_claimed then lease_with_status LeaseActive l' else l'
    | None => if was_claimed then lease_with_status LeaseActive l else l
    end.

Definition to_consumed : Transition := fun now l =>
  result_map (fun _ => consumed l) (ensure_consumable now l).

Definition apply_begin_dispatch_claimed_transition (fp : InvocationFingerprint) : Transition :=
  fun now l =>
  if bool_decide (lease_status l <> LeaseClaimed)
  then Err (InactiveLease (lease_id l) (lease_status l))
  else if bool_decide (lease_fingerprint l <> Some fp) then Err (FingerprintMismatch (lease_id l))
  else result_map (fun _ => lease_with_status LeaseDispatching l) (ensure_not_expired_or_exhausted now l).

Definition apply_abort_dispatch_claimed_transition : Transition := fun _ l =>
  match lease_status l with
  | LeaseDispatching => Ok (lease_with_status LeaseClaimed l)
  | LeaseClaimed => Ok l
  | _ => Err (InactiveLease (lease_id l) (lease_status l))
  end.

(** ** [InMemoryCapabilityLeaseStore] *)

Abbreviation Leases := (gmap CapabilityLeaseKey CapabilityLease).

Definition lease_issue (l : CapabilityLease) (leases : Leases) :
    Result CapabilityLease CapabilityLeaseError * Leases :=
  (Ok l, <[lease_key_new (lease_scope l) (lease_id l) := l]> leases).

(** [get_mut(..).ok_or(UnknownLease)?] and a transition in place. *)
Definition lease_update (now : DateTime) (scope : ResourceScope) (id : CapabilityGrantId)
    (f : Transition) (leases : Leases) :
    Result CapabilityLease CapabilityLeaseError * Leases :=
  let key := lease_key_new scope id in
  match leases !! key with
  | None => (Err (UnknownLease id), leases)
  | Some l =>
      match f now l with
      | Err e => (Err e, leases)
      | Ok l' => (Ok l', <[key := l']> leases)
      end
  end.

Definition lease_revoke now scope id := lease_update now scope id to_revoked.
Definition lease_claim now scope id fp := lease_update now scope id (to_claimed fp).
Definition lease_consume now scope id := lease_update now scope id to_consumed.
Definition lease_begin_dispatch_claimed now scope id fp :=
  lease_update now scope id (apply_begin_dispatch_claimed_transition fp).
Definition lease_abort_dispatch_claimed now scope id :=
  lease_update now scope id apply_abort_dispatch_claimed_transition.

Definition lease_get (scope : ResourceScope) (id : CapabilityGrantId) (leases : Leases) :
    option CapabilityLease := leases !! lease_key_new scope id.

(** [sort_by_key(|lease| lease.grant.id.as_uuid())] *)
Definition leases_for_scope (scope : ResourceScope) (leases : Leases) : list CapabilityLease :=
  sort_by_id lease_id
    (List.filter (fun l => same_scope_owner (lease_scope l) scope) (map_to_list leases).*2).

(** [filter] with a test that reads the clock. *)
Fixpoint filter_at {A} (f : nat -> A -> bool) (i : nat) (l : list A) : list A :=
  match l with
  | [] => []
  | x :: rest => if f i x then x :: filter_at f (S i) rest else filter_at f (S i) rest
  end.

Definition active_leases_for_context (now : nat -> DateTime) (c : ExecutionContext)
    (leases : Leases) : list CapabilityLease :=
  filter_at (fun i l => lease_is_authorizing (now i) l c) 0
    (leases_for_scope (ctx_resource_scope c) leases).

(** The trait's provided method. *)
Definition active_grants_for_context (now : nat -> DateTime) (c : ExecutionContext)
    (leases : Leases) : list CapabilityGrant :=
  lease_grant <$>
    List.filter (fun l => bool_decide (lease_fingerprint l = None))
      (active_leases_for_context now c leases).

(** ** The calls that change the store, as a trace *)

Inductive LeaseCall :=
  | Issue (l : CapabilityLease)
  | Revoke (scope : ResourceScope) (id : CapabilityGrantId)
  | Claim (scope : ResourceScope) (id : CapabilityGrantId) (fp : InvocationFingerprint)
  | Consume (scope : ResourceScope) (id : CapabilityGrantId)
  | BeginDispatch (scope : ResourceScope) (id : CapabilityGrantId) (fp : InvocationFingerprint)
  | AbortDispatch (scope : ResourceScope) (id : CapabilityGrantId).

Definition call_key (call : LeaseCall) : CapabilityLeaseKey :=
  match call with
  | Issue l => lease_key_new (lease_scope l) (lease_id l)
  | Revoke scope id | Claim scope id _ | Consume scope id | BeginDispatch scope id _
  | AbortDispatch scope id => lease_key_new scope id
  end.

(** What a call other than [Issue] does to the lease under its key. *)
Definition call_transition (call : LeaseCall) : Transition :=
  match call with
  | Issue l => fun _ _ => Ok l
  | Revoke _ _ => to_revoked
  | Claim _ _ fp => to_claimed fp
  | Consume _ _ => to_consumed
  | BeginDispatch _ _ fp => apply_begin_dispatch_claimed_transition fp
  | AbortDispatch _ _ => apply_abort_dispatch_claimed_transition
  end.

Definition lease_call (now : DateTime) (call : LeaseCall) :
    Leases -> Result CapabilityLease CapabilityLeaseError * Leases :=
  match call with
  | Issue l => lease_issue l
  | Revoke scope id => lease_revoke now scope id
  | Claim scope id fp => lease_claim now scope id fp
  | Consume scope id => lease_consume now scope id
  | BeginDispatch scope id fp => lease_begin_dispatch_claimed now scope id fp
  | AbortDispatch scope id => lease_abort_dispatch_claimed now scope id
  end.

(** Calls one after the other, each at its time, with their answers. *)
Fixpoint lease_run (calls : list (DateTime * LeaseCall)) (leases : Leases) :
    list (LeaseCall * Result CapabilityLease CapabilityLeaseError) * Leases :=
  match calls with
  | [] => ([], leases)
  | (now, call) :: rest =>
      let '(r, leases1) := lease_call now call leases in
      let '(log, leases2) := lease_run rest leases1 in
      ((call, r) :: log, leases2)
  end.
End with_platform.

Abbreviation Leases := (gmap CapabilityLeaseKey CapabilityLease).
