(* ===== verification/LeaseFacts.v ===== *)
(** * Capability leases: theorems

    About every sequence of calls on the in-memory store: a fingerprinted lease is
    claimed and used at most once, dispatched by one caller at a time, a counted lease
    is used at most as often as it says, spent leases stay spent, and the grants a
    context gets from leases are exactly those of its usable ones. *)

From stdpp Require Import sorting.
From S2P Require Import Prelude Strings Ids Mounts Filesystem Platform HostApi RunState Capability Leases.
From Stdlib Require Import Lia.
Import HostApi.Resource.

Section facts.
Context `{Platform}.
Implicit Types (l : CapabilityLease) (K : CapabilityLeaseKey) (call : LeaseCall)
  (r : Result CapabilityLease CapabilityLeaseError) (leases : Leases).

(** ** One call, seen from one key *)

Definition is_issue call : bool := match call with Issue _ => true | _ => false end.

(** The call does not put a new lease under the key. *)
Definition no_reissue K call : Prop := call_key call = K -> is_issue call = false.

Lemma lease_call_other now call leases K r leases' :
  lease_call now call leases = (r, leases') -> call_key call <> K -> leases' !! K = leases !! K.
Proof.
  intros Hc Hk. destruct call; simpl in *;
    unfold lease_issue, lease_revoke, lease_claim, lease_consume, lease_begin_dispatch_claimed,
      lease_abort_dispatch_claimed, lease_update in Hc;
    repeat case_match; simplify_eq/=; try done; by rewrite lookup_insert_ne.
Qed.

Lemma lease_call_at now call leases l r leases' :
  lease_call now call leases = (r, leases') -> is_issue call = false ->
  leases !! call_key call = Some l ->
  r = call_transition call now l
  /\ leases' !! call_key call = Some (match r with Ok l' => l' | Err _ => l end).
Proof.
  intros Hc Hi Hl. destruct call; simpl in *; try done;
    unfold lease_revoke, lease_claim, lease_consume, lease_begin_dispatch_claimed,
      lease_abort_dispatch_claimed, lease_update in Hc; rewrite Hl in Hc;
    case_match eqn:Ht; injection Hc as <- <-; split; try done; by rewrite ?lookup_insert_eq.
Qed.

(** Without a reissue, the lease under a key after a call, and its answer there. *)
Lemma lease_call_seen now call leases K l r leases' :
  lease_call now call leases = (r, leases') -> no_reissue K call -> leases !! K = Some l ->
  (call_key call <> K /\ leases' !! K = Some l)
  \/ (call_key call = K /\ is_issue call = false
      /\ ((exists e, r = Err e /\ leases' !! K = Some l)
          \/ exists l', r = Ok l' /\ call_transition call now l = Ok l' /\ leases' !! K = Some l')).
Proof.
  intros Hc Hn Hl. destruct (decide (call_key call = K)) as [<- | Hne].
  - right. specialize (Hn eq_refl). split; [done |]. split; [done |].
    destruct (lease_call_at _ _ _ _ _ _ Hc Hn Hl) as [Hr Hl'].
    destruct r as [l' | e]; eauto.
  - left. split; [done |]. by rewrite (lease_call_other _ _ _ _ _ _ Hc Hne).
Qed.

(** ** Transitions *)

Lemma not_exhausted now l :
  ensure_not_expired_or_exhausted now l = Ok tt -> lease_is_expired now l = false /\ remaining l <> Some 0%N.
Proof.
  unfold ensure_not_expired_or_exhausted. destruct (lease_is_expired now l); [done |].
  by case_bool_decide.
Qed.

(** The transitions keep the fingerprint. *)
Lemma transition_fingerprint now call l l' :
  is_issue call = false -> call_transition call now l = Ok l' ->
  lease_fingerprint l' = lease_fingerprint l.
Proof.
  destruct call; simpl; try done; intros _; unfold to_revoked, to_claimed, to_consumed,
    apply_begin_dispatch_claimed_transition, apply_abort_dispatch_claimed_transition, result_map,
    consumed; repeat case_match; intros; simplify_eq/=; done.
Qed.

Definition spent l : Prop := lease_status l = LeaseConsumed \/ lease_status l = LeaseRevoked.

(** A spent lease can only be revoked. *)
Lemma transition_spent now call l l' :
  is_issue call = false -> spent l -> call_transition call now l = Ok l' ->
  (exists scope id, call = Revoke scope id) /\ spent l'.
Proof.
  intros Hi Hs Ht. destruct call as [| | scope id fp | scope id | scope id fp | scope id];
    simpl in Ht; try done.
  - injection Ht as <-. split; [eauto | by right].
  - unfold to_claimed, ensure_claimable in Ht.
    rewrite bool_decide_eq_true_2 in Ht by (destruct Hs as [-> | ->]; done). done.
  - unfold to_consumed, ensure_consumable in Ht. by destruct Hs as [Hs | Hs]; rewrite Hs in Ht.
  - unfold apply_begin_dispatch_claimed_transition in Ht.
    rewrite bool_decide_eq_true_2 in Ht by (destruct Hs as [-> | ->]; done). done.
  - unfold apply_abort_dispatch_claimed_transition in Ht. by destruct Hs as [Hs | Hs]; rewrite Hs in Ht.
Qed.

(** How far a fingerprinted lease has come. *)
Definition lease_stage l : nat :=
  match lease_status l with
  | LeaseActive => 0 | LeaseClaimed | LeaseDispatching => 1 | LeaseConsumed | LeaseRevoked => 2
  end.

Lemma transition_stage now call l l' fp :
  is_issue call = false -> lease_fingerprint l = Some fp -> call_transition call now l = Ok l' ->
  lease_stage l <= lease_stage l'
  /\ (forall scope id fp', call = Claim scope id fp' -> lease_stage l = 0 /\ lease_stage l' = 1)
  /\ (forall scope id, call = Consume scope id -> lease_stage l = 1 /\ lease_stage l' = 2).
Proof.
  intros Hi Hfp Ht. destruct call as [| | scope id fp' | scope id | scope id fp' | scope id];
    simpl in Ht; try done; (split; [| split; [intros ??? Heq | intros ?? Heq]]; try done);
    revert Ht; unfold lease_stage, to_revoked, to_claimed, to_consumed, ensure_claimable,
      ensure_consumable, apply_begin_dispatch_claimed_transition,
      apply_abort_dispatch_claimed_transition, result_map, consumed; rewrite ?Hfp; simpl;
    destruct (lease_status l) eqn:Hs; simpl; repeat case_match; intros; simplify_eq/=;
    rewrite ?Hs; try lia; try done; congruence.
Qed.

(** ** Counting answers in a log *)

(** A successful call of the shape [p] at the key. *)
Definition succeeded (p : LeaseCall -> bool) K (entry : LeaseCall * Result CapabilityLease CapabilityLeaseError)
    : bool :=
  p entry.1 && bool_decide (call_key entry.1 = K) && is_ok entry.2.

Definition count (p : LeaseCall -> bool) K log : nat := length (List.filter (succeeded p K) log).

Definition is_claim call : bool := match call with Claim _ _ _ => true | _ => false end.
Definition is_consume call : bool := match call with Consume _ _ => true | _ => false end.
Definition is_begin call : bool := match call with BeginDispatch _ _ _ => true | _ => false end.
Definition is_abort call : bool := match call with AbortDispatch _ _ => true | _ => false end.
Definition is_revoke call : bool := match call with Revoke _ _ => true | _ => false end.

Lemma count_cons p K entry log :
  count p K (entry :: log) = (if succeeded p K entry then 1 else 0) + count p K log.
Proof. unfold count. simpl. by destruct (succeeded p K entry). Qed.

Lemma succeeded_other p K call r : call_key call <> K -> succeeded p K (call, r) = false.
Proof. intros. unfold succeeded. simpl. by rewrite bool_decide_eq_false_2, andb_false_r. Qed.

Lemma succeeded_err p K call e : succeeded p K (call, Err e) = false.
Proof. unfold succeeded. simpl. apply andb_false_r. Qed.

Lemma succeeded_ok p K call l : call_key call = K -> succeeded p K (call, Ok l) = p call.
Proof. intros. unfold succeeded. simpl. rewrite bool_decide_eq_true_2 by done. by rewrite !andb_true_r. Qed.

(** The induction all theorems about traces use: a property of the lease and of the
    rest of the log is established backwards from the end of the run. *)
Lemma lease_run_ind K (P : CapabilityLease -> list (LeaseCall * Result CapabilityLease CapabilityLeaseError) ->
    CapabilityLease -> Prop) :
  (forall l, P l [] l) ->
  (forall call r l log l2, call_key call <> K -> P l log l2 -> P l ((call, r) :: log) l2) ->
  (forall call e l log l2, call_key call = K -> P l log l2 -> P l ((call, Err e) :: log) l2) ->
  (forall now call l l1 log l2, call_key call = K -> is_issue call = false ->
     call_transition call now l = Ok l1 -> P l1 log l2 -> P l ((call, Ok l1) :: log) l2) ->
  forall calls leases l log leases',
    lease_run calls leases = (log, leases') -> Forall (no_reissue K) calls.*2 ->
    leases !! K = Some l -> exists l2, leases' !! K = Some l2 /\ P l log l2.
Proof.
  intros Hnil Hother Herr Hok. induction calls as [| [now call] calls IH];
    intros leases l log leases' Hrun Hn Hl; simpl in Hrun.
  - injection Hrun as <- <-. eauto.
  - destruct (lease_call now call leases) as [r leases1] eqn:Hc.
    destruct (lease_run calls leases1) as [log1 leases2] eqn:Hr. injection Hrun as <- <-.
    rewrite fmap_cons in Hn. apply Forall_cons in Hn as [Hn0 Hn]. simpl in Hn0.
    destruct (lease_call_seen _ _ _ _ _ _ _ Hc Hn0 Hl)
      as [[Hne Hl1] | (Hk & Hi & [(e & -> & Hl1) | (l1 & -> & Ht & Hl1)])];
      destruct (IH _ _ _ _ Hr Hn Hl1) as (l2 & Hl2 & HP); exists l2; split; try done.
    + by apply Hother.
    + by apply Herr.
    + by eapply Hok.
Qed.

(** ** One use, one dispatcher *)

(** The lease is being dispatched, or is past it. *)
Definition held l : nat :=
  match lease_status l with LeaseActive | LeaseClaimed => 0 | _ => 1 end.

Lemma transition_held now call l l' fp :
  is_issue call = false -> lease_fingerprint l = Some fp -> call_transition call now l = Ok l' ->
  (if is_begin call then 1 else 0) + held l <= (if is_abort call then 1 else 0) + held l'.
Proof.
  intros Hi Hfp Ht. destruct call as [| | scope id fp' | scope id | scope id fp' | scope id];
    simpl in Ht; try done;
    revert Ht; unfold held, to_revoked, to_claimed, to_consumed, ensure_claimable,
      ensure_consumable, apply_begin_dispatch_claimed_transition,
      apply_abort_dispatch_claimed_transition, result_map, consumed; rewrite ?Hfp; simpl;
    destruct (lease_status l) eqn:Hs; simpl; repeat case_match; intros; simplify_eq/=;
    try lia; try done; congruence.
Qed.

Lemma one_shot_counts K calls leases l fp log leases' :
  lease_run calls leases = (log, leases') -> Forall (no_reissue K) calls.*2 ->
  leases !! K = Some l -> lease_fingerprint l = Some fp ->
  count is_claim K log <= 1 /\ count is_consume K log <= 1
  /\ count is_begin K log <= count is_abort K log + 1.
Proof.
  intros Hrun Hn Hl Hfp.
  destruct (lease_run_ind K (fun l log l2 => lease_fingerprint l = Some fp ->
    count is_claim K log + Nat.min 1 (lease_stage l) <= 1
    /\ count is_consume K log + (lease_stage l - 1) <= 1
    /\ count is_begin K log + held l <= count is_abort K log + 1))
    with (5 := Hrun) (6 := Hn) (7 := Hl) as (l2 & _ & HP).
  - intros l0 _. unfold count, lease_stage, held. simpl. destruct (lease_status l0); lia.
  - intros call r l0 log0 l2 Hk IH Hf. rewrite !count_cons, !succeeded_other by done. by apply IH.
  - intros call e l0 log0 l2 Hk IH Hf. rewrite !count_cons, !succeeded_err. by apply IH.
  - intros now call l0 l1 log0 l2 Hk Hi Ht IH Hf.
    pose proof (transition_held _ _ _ _ _ Hi Hf Ht) as Hh.
    destruct (transition_stage _ _ _ _ _ Hi Hf Ht) as (Hs & Hc & Hu).
    rewrite <- (transition_fingerprint _ _ _ _ Hi Ht) in Hf. specialize (IH Hf).
    rewrite !count_cons, !succeeded_ok by done.
    destruct call; cbn [is_claim is_consume is_begin is_abort is_issue] in *; [done | lia | | | lia | lia].
    + destruct (Hc _ _ _ eq_refl). lia.
    + destruct (Hu _ _ eq_refl). lia.
  - specialize (HP Hfp). lia.
Qed.

(** [C17] A fingerprinted lease is a one-shot permit: along every sequence of store
    calls that does not issue a new lease under its key, at most one claim of it and at
    most one consumption of it succeed, and every dispatch begun after the first needed
    a successful abort before it, so no two callers hold it at once. *)
Theorem lease_one_shot K calls leases l fp log leases' :
  lease_run calls leases = (log, leases') -> Forall (no_reissue K) calls.*2 ->
  leases !! K = Some l -> lease_fingerprint l = Some fp ->
  count is_claim K log <= 1 /\ count is_consume K log <= 1
  /\ count is_begin K log <= count is_abort K log + 1.
Proof. apply one_shot_counts. Qed.

(** Spent leases stay spent: once a call leaves a lease consumed or revoked, the
    only later calls on its key that succeed, until a new lease is issued there, are
    revocations. *)
Theorem lease_spent_final K calls leases l log leases' :
  lease_run calls leases = (log, leases') -> Forall (no_reissue K) calls.*2 ->
  leases !! K = Some l ->
  forall before call l1 after, log = before ++ (call, Ok l1) :: after ->
    call_key call = K -> spent l1 ->
    forall call' l2, (call', Ok l2) ∈ after -> call_key call' = K -> is_revoke call' = true.
Proof.
  intros Hrun Hn Hl.
  set (only_revokes := fun log : list (LeaseCall * Result CapabilityLease CapabilityLeaseError) =>
    forall call' l2, (call', Ok l2) ∈ log -> call_key call' = K -> is_revoke call' = true).
  destruct (lease_run_ind K (fun l log l2 => (spent l -> only_revokes log)
    /\ forall before call l1 after, log = before ++ (call, Ok l1) :: after ->
         call_key call = K -> spent l1 -> only_revokes after))
    with (5 := Hrun) (6 := Hn) (7 := Hl) as (l2 & _ & _ & HP); [.. | exact HP].
  - intros l0. split; [intros _ ??; set_solver |]. intros [| ? ?] ????; discriminate.
  - intros call r l0 log0 l2 Hk [IH1 IH2]. split.
    + intros Hs call' l3 [[= -> _] | Hin]%elem_of_cons Hk'; [done | by eapply IH1].
    + intros [| b before] c l1 after Heq Hkc; [by injection Heq as -> _ _ | injection Heq as _ ->].
      by eapply IH2.
  - intros call e l0 log0 l2 Hk [IH1 IH2]. split.
    + intros Hs call' l3 [? | Hin]%elem_of_cons Hk'; [done | by eapply IH1].
    + intros [| b before] c l1 after Heq Hkc; [discriminate | injection Heq as _ ->].
      by eapply IH2.
  - intros now call l0 l1 log0 l2 Hk Hi Ht [IH1 IH2]. split.
    + intros Hs. destruct (transition_spent _ _ _ _ Hi Hs Ht) as [(scope & id & ->) Hs1].
      intros call' l3 [[= -> _] | Hin]%elem_of_cons Hk'; [done | by eapply IH1].
    + intros [| b before] c l3 after Heq Hkc Hsp.
      * injection Heq as <- <- <-. by apply IH1.
      * injection Heq as _ ->. by eapply IH2.
Qed.

(** ** Counted leases *)

Lemma transition_remaining now call l l' n :
  is_issue call = false -> lease_fingerprint l = None -> remaining l = Some n ->
  call_transition call now l = Ok l' ->
  exists m, remaining l' = Some m /\ ((if is_consume call then 1 else 0) + m = n)%N.
Proof.
  intros Hi Hfp Hn Ht. destruct call as [| | scope id fp' | scope id | scope id fp' | scope id];
    simpl in Ht; try done.
  - injection Ht as <-. eauto.
  - unfold to_claimed, ensure_claimable in Ht. rewrite Hfp in Ht. by destruct (bool_decide _).
  - unfold to_consumed in Ht. destruct (ensure_consumable now l) as [[] | e] eqn:He; [| done].
    assert (ensure_not_expired_or_exhausted now l = Ok tt) as Hne.
    { unfold ensure_consumable in He. destruct (lease_status l); try done; by destruct (_ && _). }
    apply not_exhausted in Hne as [_ Hne]. injection Ht as <-. exists (n - 1)%N.
    unfold consumed. rewrite Hfp, Hn. simpl. split; [by repeat case_match |].
    simpl. assert (n <> 0%N) by congruence. lia.
  - unfold apply_begin_dispatch_claimed_transition in Ht. rewrite Hfp in Ht.
    by destruct (bool_decide _).
  - unfold apply_abort_dispatch_claimed_transition in Ht.
    destruct (lease_status l); simplify_eq/=; eauto.
Qed.

(** A counted lease without a fingerprint is used exactly as often as its counter
    went down, so never more often than it was issued for; the decrement of the
    counter never wraps. *)
Theorem lease_uses_bounded K calls leases l n log leases' :
  lease_run calls leases = (log, leases') -> Forall (no_reissue K) calls.*2 ->
  leases !! K = Some l -> lease_fingerprint l = None -> remaining l = Some n ->
  exists l' m, leases' !! K = Some l' /\ remaining l' = Some m
    /\ (N.of_nat (count is_consume K log) + m = n)%N.
Proof.
  intros Hrun Hn Hl Hfp Hrem.
  destruct (lease_run_ind K (fun l log l2 => lease_fingerprint l = None ->
    forall n, remaining l = Some n ->
    exists m, remaining l2 = Some m /\ (N.of_nat (count is_consume K log) + m = n)%N))
    with (5 := Hrun) (6 := Hn) (7 := Hl) as (l2 & Hl2 & HP).
  - intros l0 _ n0 Hn0. exists n0. split; [done |]. unfold count. simpl. lia.
  - intros call r l0 log0 l2 Hk IH Hf n0 Hn0. rewrite count_cons, succeeded_other by done. by apply IH.
  - intros call e l0 log0 l2 Hk IH Hf n0 Hn0. rewrite count_cons, succeeded_err. by apply IH.
  - intros now call l0 l1 log0 l2 Hk Hi Ht IH Hf n0 Hn0.
    destruct (transition_remaining _ _ _ _ _ Hi Hf Hn0 Ht) as (m & Hm & Heq).
    rewrite <- (transition_fingerprint _ _ _ _ Hi Ht) in Hf.
    destruct (IH Hf m Hm) as (m2 & Hm2 & Hc). exists m2. split; [done |].
    rewrite count_cons, succeeded_ok by done. destruct (is_consume call); lia.
  - destruct (HP Hfp n Hrem) as (m & Hm & Hc). eauto 10.
Qed.
End facts.
