(* ===== verification/LeaseAuthority.v ===== *)
(** * Capability leases as authority

    What the lease store hands to the authorizer, and the composition of both: every
    record lies under its own key, the grants a context gets are exactly those of its
    usable leases, and an allowing decision of the lease-backed authorizer rests on a
    grant of the context or on such a lease. *)

From stdpp Require Import sorting.
From S2P Require Import Prelude Strings Ids Mounts Filesystem Platform HostApi RunState RunStateFacts Capability Obligations Trust Authorize AuthorizeFacts AuthorizeDemo Leases LeaseFacts.
From Stdlib Require Import Lia.
Import HostApi.Resource.

Section authority.
Context `{Platform}.
Implicit Types (l : CapabilityLease) (leases : Leases) (c : ExecutionContext).

(** ** The store's invariant *)

Definition own_key l : CapabilityLeaseKey := lease_key_new (lease_scope l) (lease_id l).

Definition leases_wf leases : Prop := map_Forall (fun k l => k = own_key l) leases.

Lemma transition_own_key now call l l' :
  is_issue call = false -> call_transition call now l = Ok l' -> own_key l' = own_key l.
Proof.
  destruct call; simpl; try done; intros _; unfold to_revoked, to_claimed, to_consumed,
    apply_begin_dispatch_claimed_transition, apply_abort_dispatch_claimed_transition, result_map,
    consumed; repeat case_match; intros; simplify_eq/=; done.
Qed.

Lemma lease_call_wf now call leases r leases' :
  lease_call now call leases = (r, leases') -> leases_wf leases -> leases_wf leases'.
Proof.
  intros Hc Hwf k l Hk. destruct (decide (call_key call = k)) as [<- | Hne].
  - destruct (is_issue call) eqn:Hi.
    + destruct call; try done. injection Hc as <- <-. simpl in Hk.
      rewrite lookup_insert_eq in Hk. by injection Hk as <-.
    + destruct (leases !! call_key call) as [l0 |] eqn:H0.
      * destruct (lease_call_at _ _ _ _ _ _ Hc Hi H0) as [Hr Hl]. rewrite Hl in Hk.
        injection Hk as <-. rewrite (Hwf _ _ H0). destruct r as [l1 | e]; [| done].
        symmetry. by eapply transition_own_key.
      * exfalso. destruct call; simpl in *; try done;
          unfold lease_revoke, lease_claim, lease_consume, lease_begin_dispatch_claimed,
            lease_abort_dispatch_claimed, lease_update in Hc; rewrite H0 in Hc; simplify_eq.
  - rewrite (lease_call_other _ _ _ _ _ _ Hc Hne) in Hk. by apply Hwf.
Qed.

Lemma lease_run_wf calls leases log leases' :
  lease_run calls leases = (log, leases') -> leases_wf leases -> leases_wf leases'.
Proof.
  revert leases log. induction calls as [| [now call] calls IH]; intros leases log Hr Hwf; simpl in Hr.
  - by injection Hr as <- <-.
  - destruct (lease_call now call leases) as [r l1] eqn:Hc.
    destruct (lease_run calls l1) as [log1 l2] eqn:Hrun. injection Hr as <- <-.
    eapply IH; [exact Hrun |]. by eapply lease_call_wf.
Qed.

Lemma own_key_scope l scope :
  own_key l = lease_key_new scope (lease_id l)
  <-> same_scope_owner (lease_scope l) scope = true
      /\ invocation_id (lease_scope l) = invocation_id scope.
Proof.
  unfold own_key, same_scope_owner. rewrite !andb_true_iff, !bool_decide_eq_true.
  unfold lease_key_new. split.
  - intros [= -> -> -> -> -> -> ->]. tauto.
  - intros [[[[[[-> ->] ->] ->] ->] ->] ->]. done.
Qed.

(** ** The grants of a context *)

(** The lease gives its context authority without being claimed first. *)
Record usable (t : DateTime) l : Prop := {
  us_active : lease_status l = LeaseActive;
  us_ambient : lease_fingerprint l = None;
  us_unexpired e : gc_expires_at (constraints (lease_grant l)) = Some e -> (t < e)%Z;
  us_left : remaining l <> Some 0%N;
}.

Lemma lease_is_authorizing_iff t l c :
  lease_is_authorizing t l c = true <->
  lease_status l = LeaseActive /\ invocation_id (lease_scope l) = ctx_invocation_id c
  /\ (forall e, gc_expires_at (constraints (lease_grant l)) = Some e -> (t < e)%Z)
  /\ remaining l <> Some 0%N.
Proof.
  unfold lease_is_authorizing, lease_is_expired.
  rewrite !andb_true_iff, !bool_decide_eq_true, N.eqb_eq, negb_true_iff.
  destruct (gc_expires_at _) as [e |].
  - rewrite Z.leb_gt. split.
    + intros [[[? ?] ?] ?]. repeat split; try done. by intros e' [= <-].
    + intros (? & ? & He & ?). repeat split; try done. by apply He.
  - split; [intros [[[? ?] ?] ?]; by repeat split | intros (? & ? & _ & ?); by repeat split].
Qed.

Lemma elem_of_filter_at {A} (f : nat -> A -> bool) i (xs : list A) x :
  x ∈ filter_at f i xs -> exists j, f (i + j) x = true /\ xs !! j = Some x.
Proof.
  revert i. induction xs as [| y xs IH]; intros i; simpl; [set_solver |].
  assert (x ∈ filter_at f (S i) xs -> exists j, f (i + j) x = true /\ (y :: xs) !! j = Some x) as Hl.
  { intros (j & Hf & Hj)%IH. exists (S j). by rewrite <- Nat.add_succ_comm. }
  destruct (f i y) eqn:Hf; [| done]. intros [-> | ?]%elem_of_cons; [| by apply Hl].
  exists 0. by rewrite Nat.add_0_r.
Qed.

Lemma filter_at_elem_of {A} (f : A -> bool) i (xs : list A) x :
  x ∈ filter_at (fun _ => f) i xs <-> x ∈ xs /\ f x = true.
Proof.
  split.
  - intros (j & ? & Hj)%elem_of_filter_at. split; [by eapply list_elem_of_lookup_2 | done].
  - revert i. induction xs as [| y xs IH]; intros i [Hin Hf]; [by apply not_elem_of_nil in Hin |].
    simpl. apply elem_of_cons in Hin as [-> | Hin].
    + rewrite Hf. apply elem_of_cons. by left.
    + destruct (f y); [apply elem_of_cons; right |]; by apply IH.
Qed.

Lemma elem_of_leases_for_scope scope leases l :
  l ∈ leases_for_scope scope leases
  <-> same_scope_owner (lease_scope l) scope = true /\ exists k, leases !! k = Some l.
Proof.
  unfold leases_for_scope, sort_by_id. rewrite merge_sort_Permutation.
  rewrite list_elem_of_In, filter_In, <- list_elem_of_In, elem_of_map_values. tauto.
Qed.

(** The lease store hands a valid context exactly the grants of its own usable
    leases: those found by [get] under the context's scope that are active, carry no
    fingerprint, have not expired and have uses left.  Claimed, dispatching, consumed
    and revoked leases, and leases bound to a fingerprint, give no ambient authority. *)
Theorem lease_grants_exact t c leases g :
  leases_wf leases -> context_validate c = Ok tt ->
  g ∈ active_grants_for_context (fun _ => t) c leases <->
  exists l, lease_get (ctx_resource_scope c) (lease_id l) leases = Some l
    /\ lease_grant l = g /\ usable t l.
Proof.
  intros Hwf [Hs _]%context_validate_ok.
  assert (invocation_id (ctx_resource_scope c) = ctx_invocation_id c) as Hinv by by rewrite Hs.
  unfold active_grants_for_context, active_leases_for_context.
  rewrite list_elem_of_fmap. setoid_rewrite list_elem_of_In at 1. setoid_rewrite filter_In.
  setoid_rewrite <- list_elem_of_In. setoid_rewrite filter_at_elem_of.
  setoid_rewrite lease_is_authorizing_iff. setoid_rewrite elem_of_leases_for_scope.
  unfold lease_get. split.
  - intros (l & -> & ((Ho & k & Hk) & Ha & Hi & He & Hr) & Hf%bool_decide_eq_true).
    exists l. split; [| split; [done | by split]].
    rewrite <- Hinv in Hi. rewrite <- (proj2 (own_key_scope l _) (conj Ho Hi)).
    by rewrite <- (Hwf _ _ Hk).
  - intros (l & Hl & <- & [Ha Hf He Hr]). exists l. split; [done |].
    symmetry in Hinv. assert (own_key l = lease_key_new (ctx_resource_scope c) (lease_id l)) as Hk
      by (symmetry; exact (Hwf _ _ Hl)).
    apply own_key_scope in Hk as [Ho Hi]. rewrite <- Hinv in Hi.
    split; [| by apply bool_decide_eq_true]. repeat split; try done. by exists (lease_key_new (ctx_resource_scope c) (lease_id l)).
Qed.

Lemma active_grant_usable now c leases g :
  leases_wf leases -> context_validate c = Ok tt ->
  g ∈ active_grants_for_context now c leases ->
  exists j l, lease_get (ctx_resource_scope c) (lease_id l) leases = Some l
    /\ lease_grant l = g /\ usable (now j) l.
Proof.
  intros Hwf [Hs _]%context_validate_ok. unfold active_grants_for_context, active_leases_for_context.
  intros (l & -> & [Hin Hf]%list_elem_of_In%filter_In)%list_elem_of_fmap.
  apply list_elem_of_In in Hin. apply elem_of_filter_at in Hin as (j & Ha & Hj). simpl in Ha.
  apply lease_is_authorizing_iff in Ha as (Ha & Hi & He & Hr).
  apply list_elem_of_lookup_2, elem_of_leases_for_scope in Hj as (Ho & k & Hk).
  exists j, l. apply bool_decide_eq_true in Hf. split; [| split; [done | by split]].
  assert (invocation_id (lease_scope l) = invocation_id (ctx_resource_scope c)) as Hi2 by by rewrite Hs.
  unfold lease_get. rewrite <- (proj2 (own_key_scope l _) (conj Ho Hi2)). by rewrite <- (Hwf _ _ Hk).
Qed.
End authority.

(** ** The lease-backed authorizer over the store *)

Section composed.
Context `{PlatformLaws} `{SerdeJson} {Request : Type}.

(** What the lease-backed authorizer allows over a lease store rests on authority
    that is there: the grant behind the decision covers the request as
    [authorized_by] says, and it is one of the context's own grants or the grant of a
    usable lease stored under the context's scope; so once a lease is claimed,
    consumed, revoked or expired, it allows nothing any more. *)
Theorem lease_backed_allow now clock c d estimate trust leases o :
  leases_wf leases ->
  lb_authorize_dispatch_with_trust (Request := Request)
    (fun c => active_grants_for_context clock c leases) now c d estimate trust = Allow o ->
  exists g t, authorized_by t c d estimate (Some (authority_ceiling trust)) g o
    /\ (g ∈ ctx_grants c
        \/ exists j l, lease_get (ctx_resource_scope c) (lease_id l) leases = Some l
             /\ lease_grant l = g /\ usable (clock j) l).
Proof.
  intros Hwf. unfold lb_authorize_dispatch_with_trust, validated, authorize_from_grants_with_trust.
  destruct (context_validate c) as [[] |] eqn:Hv; [| done]. case_bool_decide; [done |].
  intros (_ & _ & i & g & Hg & Ha)%allow_authorized. exists g, (now i). split; [done |].
  apply list_elem_of_lookup_2, elem_of_app in Hg as [Hg | Hg]; [by left | right].
  by apply active_grant_usable in Hg.
Qed.
End composed.

(** ** A one-shot lease and a counted lease *)

Section demo.
#[local] Existing Instance TestPlatform.
#[local] Existing Instance UnitJson.

Definition permit (fp : option InvocationFingerprint) (uses : option N) : CapabilityLease := {|
  lease_scope := alice_scope;
  lease_grant := {| grant_id := 5; grant_capability := "web.fetch";
    grantee := AgentPrincipal "helper"; issued_by := UserPrincipal "alice";
    constraints := {| gc_allowed_effects := [Network]; gc_mounts := [];
      gc_network := network_policy_default; gc_secrets := []; gc_resource_ceiling := None;
      gc_expires_at := Some 100%Z; gc_max_invocations := uses |} |};
  lease_fingerprint := fp;
  lease_status := LeaseActive |}.

Definition permit_key : CapabilityLeaseKey := lease_key_new alice_scope 5.

Definition stored (l : CapabilityLease) : Leases := <[permit_key := l]> ∅.

Definition resume_calls : list (DateTime * LeaseCall) := [
  (1, Claim alice_scope 5 "fp"); (2, Claim alice_scope 5 "fp");
  (3, BeginDispatch alice_scope 5 "fp"); (4, BeginDispatch alice_scope 5 "fp");
  (5, AbortDispatch alice_scope 5); (6, BeginDispatch alice_scope 5 "fp");
  (7, Consume alice_scope 5); (8, Consume alice_scope 5) ]%Z.

(** Which of the calls succeed. *)
Lemma resume_log :
  (fun '(_, r) => is_ok r) <$> (lease_run resume_calls (stored (permit (Some "fp") (Some 1%N)))).1
  = [true; false; true; false; true; true; true; false].
Proof. vm_refl. Qed.

Lemma no_issue_in (K : CapabilityLeaseKey) (calls : list (DateTime * LeaseCall)) :
  forallb (fun '(_, c) => negb (is_issue c)) calls = true -> Forall (no_reissue K) calls.*2.
Proof.
  induction calls as [| [t c] calls IH]; simpl; [constructor |].
  rewrite andb_true_iff, negb_true_iff. intros [Hc Hcs]. constructor; [by intros _ | auto].
Qed.

Lemma lease_one_shot_witness :
  count is_claim permit_key (lease_run resume_calls (stored (permit (Some "fp") (Some 1%N)))).1 <= 1
  /\ count is_consume permit_key
       (lease_run resume_calls (stored (permit (Some "fp") (Some 1%N)))).1 = 1.
Proof.
  destruct (lease_run resume_calls (stored (permit (Some "fp") (Some 1%N)))) as [log leases'] eqn:Hr.
  destruct (lease_one_shot permit_key resume_calls _ (permit (Some "fp") (Some 1%N)) "fp" log leases'
    Hr (no_issue_in _ resume_calls eq_refl) (lookup_insert_eq _ _ _) eq_refl) as (Hc & _ & _).
  split; [exact Hc |]. simpl.
  assert (log = (lease_run resume_calls (stored (permit (Some "fp") (Some 1%N)))).1) as -> by by rewrite Hr.
  vm_refl.
Defined.

Definition revoke_twice : list (DateTime * LeaseCall) :=
  [(7%Z, Revoke alice_scope 5); (8%Z, Revoke alice_scope 5)].

Definition consume_thrice : list (DateTime * LeaseCall) :=
  [(1%Z, Consume alice_scope 5); (2%Z, Consume alice_scope 5); (3%Z, Consume alice_scope 5)].

Lemma lease_spent_final_witness :
  exists call l1, (call, Ok l1) ∈
      (lease_run revoke_twice (stored (permit None None))).1
    /\ is_revoke call = true.
Proof.
  destruct (lease_run revoke_twice (stored (permit None None))) as [log leases'] eqn:Hr.
  set (revoked := lease_with_status LeaseRevoked (permit None None)).
  assert (log = [(Revoke alice_scope 5, Ok revoked); (Revoke alice_scope 5, Ok revoked)]) as Hlog.
  { assert ((lease_run revoke_twice (stored (permit None None))).1
      = [(Revoke alice_scope 5, Ok revoked); (Revoke alice_scope 5, Ok revoked)]) as Hx by vm_refl.
    by rewrite Hr in Hx. }
  exists (Revoke alice_scope 5), revoked. split; [rewrite Hlog; apply elem_of_cons; by left |].
  eapply (lease_spent_final permit_key _ _ (permit None None) log leases' Hr
    (no_issue_in _ revoke_twice eq_refl) (lookup_insert_eq _ _ _) [] (Revoke alice_scope 5) revoked
    [(Revoke alice_scope 5, Ok revoked)] Hlog eq_refl); [by right | | reflexivity].
  apply list_elem_of_singleton. reflexivity.
Defined.

Lemma lease_uses_bounded_witness :
  exists l m, (lease_run consume_thrice (stored (permit None (Some 2%N)))).2
              !! permit_key = Some l /\ remaining l = Some m /\ m = 0%N.
Proof.
  destruct (lease_run consume_thrice (stored (permit None (Some 2%N)))) as [log leases'] eqn:Hr.
  destruct (lease_uses_bounded permit_key _ _ (permit None (Some 2%N)) 2 log leases' Hr
    (no_issue_in _ consume_thrice eq_refl) (lookup_insert_eq _ _ _) eq_refl eq_refl) as (l & m & Hl & Hm & Heq).
  exists l, m. split; [exact Hl |]. split; [exact Hm |].
  assert (count is_consume permit_key (lease_run consume_thrice (stored (permit None (Some 2%N)))).1 = 2)
    as Hc by vm_refl.
  rewrite Hr in Hc. simpl in Hc. rewrite Hc in Heq. clear -Heq. lia.
Defined.

Lemma stored_wf l : own_key l = permit_key -> leases_wf (stored l).
Proof. intros Hk. apply map_Forall_insert_2; [done | apply map_Forall_empty]. Qed.

Lemma lease_grants_exact_witness :
  lease_grant (permit None None) ∈
    active_grants_for_context (fun _ => 20%Z) (alice_context []) (stored (permit None None)).
Proof.
  apply (proj2 (lease_grants_exact 20 (alice_context []) (stored (permit None None))
    (lease_grant (permit None None)) (stored_wf (permit None None) eq_refl) eq_refl)).
  exists (permit None None). split; [apply lookup_insert_eq |]. split; [reflexivity |].
  split; try reflexivity; [intros e [= <-]; reflexivity | discriminate].
Defined.

(** [web.fetch] with no secret. *)
Definition plain_fetch : CapabilityDescriptor := {|
  desc_id := "web.fetch"; desc_provider := "web"; desc_runtime := Wasm;
  desc_trust_ceiling := UserTrusted; desc_description := "fetch a page";
  desc_parameters_schema := tt; desc_effects := [Network];
  desc_default_permission := PermitAsk; desc_runtime_credentials := [];
  desc_network_targets := []; desc_resource_profile := None |}.

Lemma lease_backed_allow_witness :
  exists l, lease_get alice_scope (lease_id l) (stored (permit None None)) = Some l
    /\ usable 20 l.
Proof.
  assert (lb_authorize_dispatch_with_trust (Request := unit)
    (fun c => active_grants_for_context (fun _ => 20%Z) c (stored (permit None None)))
    (fun _ => 20%Z) (alice_context []) plain_fetch small_estimate web_trust
    = Allow [ApplyNetworkPolicy network_policy_default]) as Hallow by vm_refl.
  destruct (lease_backed_allow (Request := unit) (fun _ => 20%Z) (fun _ => 20%Z) (alice_context [])
    plain_fetch small_estimate web_trust (stored (permit None None))
    [ApplyNetworkPolicy network_policy_default] (stored_wf (permit None None) eq_refl) Hallow)
    as (g & t & _ & [Hg | (j & l & Hl & _ & Hu)]).
  - destruct (not_elem_of_nil g Hg).
  - exists l. split; [exact Hl | exact Hu].
Defined.
End demo.
