(* ===== verification/Actions.v ===== *)
(** * Host API: actions, approval requests and audit envelopes

    Models [ironclaw_host_api/src/action.rs] (what an execution wants to do),
    [approval.rs] (the request a user decides) and [audit.rs] (the record of a
    decision).  Event ids and timestamps are arguments. *)

From stdpp Require Import pretty.
From S2P Require Import Prelude Strings Ids Paths Mounts Filesystem Platform HostApi RunState Capability Obligations.
From Stdlib Require Import Ascii.
Import HostApi.Resource.

(** ** [action.rs] *)

Inductive SecretUseMode := InjectIntoRequest | InjectIntoEnvironment | ReadRaw.
Inductive ExtensionLifecycleOperation :=
  | ExtInstall | ExtUpdate | ExtRemove | ExtEnable | ExtDisable.
Inductive FileActionKind := FileRead | FileList | FileWrite | FileDelete.

(** [Display] *)
Definition secret_use_mode_text (m : SecretUseMode) : string :=
  match m with
  | InjectIntoRequest => "inject_into_request" | InjectIntoEnvironment => "inject_into_environment"
  | ReadRaw => "read_raw"
  end.
Definition network_method_text (m : NetworkMethod) : string :=
  match m with
  | MGet => "get" | MPost => "post" | MPut => "put" | MPatch => "patch" | MDelete => "delete"
  | MHead => "head"
  end.
Definition lifecycle_text (o : ExtensionLifecycleOperation) : string :=
  match o with
  | ExtInstall => "install" | ExtUpdate => "update" | ExtRemove => "remove"
  | ExtEnable => "enable" | ExtDisable => "disable"
  end.

(** [validate_network_host_pattern] *)
Definition validate_network_host_pattern (pattern : string) : Result unit HostApiError :=
  if String.eqb pattern "" || Nat.ltb 253 (str_len pattern) then
    Err (InvalidNetworkTarget pattern "host pattern must be non-empty and at most 253 bytes")
  else if String.eqb pattern "*" then Ok tt
  else if has_control pattern then
    Err (InvalidNetworkTarget pattern "host pattern must not contain NUL/control characters")
  else
    let host := default pattern (strip_prefix "*." pattern) in
    if String.eqb host "" || starts_with "." host || ends_with "." host || contains_str ".." host
       || any_byte (fun b => negb (is_ascii_alphanumeric b || Ascii.eqb b "." || Ascii.eqb b "-"
                                   || Ascii.eqb b "_")) host
    then Err (InvalidNetworkTarget pattern
                "host pattern must contain only ASCII host-label characters")
    else Ok tt.

Definition validate_declaration (p : NetworkTargetPattern) : Result unit HostApiError :=
  validate_network_host_pattern (ntp_host_pattern p).

Section with_platform.
Context `{Platform}.

(** [Action] with the request it may carry; the id of a request is
    [RunState.request_id], the rest of it [RequestBody]. *)
Inductive Action :=
  | ActReadFile (path : ScopedPath)
  | ActListDir (path : ScopedPath)
  | ActWriteFile (path : ScopedPath) (bytes : option N)
  | ActDeleteFile (path : ScopedPath)
  | ActDispatch (capability : CapabilityId) (estimated_resources : ResourceEstimate)
  | ActSpawnCapability (capability : CapabilityId) (estimated_resources : ResourceEstimate)
  | ActUseSecret (handle : SecretHandle) (mode : SecretUseMode)
  | ActNetwork (target : NetworkTarget) (method : NetworkMethod) (estimated_bytes : option N)
  | ActReserveResources (estimate : ResourceEstimate)
  | ActApprove (request : ApprovalRequest RequestBody)
  | ActExtensionLifecycle (extension_id : ExtensionId) (operation : ExtensionLifecycleOperation)
  | ActEmitExternalEffect (effect : EffectKind)
with RequestBody := request_body
  (correlation_id : CorrelationId)
  (requested_by : Principal)
  (action : Action)
  (invocation_fingerprint : option string)
  (reason : string)
  (reusable_scope : option ApprovalScope)
with ApprovalScope := approval_scope_of
  (principal : Principal) (action_pattern : ActionPattern) (expires_at : option DateTime)
with ActionPattern :=
  | ExactAction (action : Action)
  | CapabilityPattern (capability : CapabilityId)
  | PathPrefixPattern (action_kind : FileActionKind) (prefix : ScopedPath)
  | NetworkTargetPattern_ (target : NetworkTargetPattern).

Definition body_correlation_id (b : RequestBody) : CorrelationId :=
  let '(request_body c _ _ _ _ _) := b in c.
Definition body_requested_by (b : RequestBody) : Principal :=
  let '(request_body _ p _ _ _ _) := b in p.
Definition body_action (b : RequestBody) : Action :=
  let '(request_body _ _ a _ _ _) := b in a.
Definition body_fingerprint (b : RequestBody) : option string :=
  let '(request_body _ _ _ f _ _) := b in f.

(** ** [audit.rs] *)

Record ActionSummary := {
  as_kind : string;
  as_target : option string;
  as_effects : list EffectKind;
}.

Record DecisionSummary := {
  ds_kind : string;
  ds_reason : option DenyReason;
  ds_actor : option Principal;
}.

Record ActionResultSummary := {
  ar_success : bool;
  ar_status : option string;
  ar_output_bytes : option N;
}.

Inductive AuditStage :=
  | StageBefore | StageAfter | StageDenied | StageApprovalRequested | StageApprovalResolved
  | StageResourceReserved | StageResourceReconciled | StageResourceReleased.

Inductive ApprovalDecisionKind := DecisionApproved | DecisionDenied.

Definition as_wire_str (k : ApprovalDecisionKind) : string :=
  match k with DecisionApproved => "approved" | DecisionDenied => "denied" end.

Record AuditEnvelope := {
  au_event_id : N;
  au_correlation_id : CorrelationId;
  au_stage : AuditStage;
  au_timestamp : DateTime;
  au_tenant_id : TenantId;
  au_user_id : UserId;
  au_agent_id : option AgentId;
  au_project_id : option ProjectId;
  au_mission_id : option MissionId;
  au_thread_id : option ThreadId;
  au_invocation_id : InvocationId;
  au_process_id : option ProcessId;
  au_approval_request_id : option ApprovalRequestId;
  au_extension_id : option ExtensionId;
  au_action : ActionSummary;
  au_decision : DecisionSummary;
  au_result : option ActionResultSummary;
}.

Definition extension_from_principal (p : Principal) : option ExtensionId :=
  match p with ExtensionPrincipal id => Some id | _ => None end.

Definition network_target (method : NetworkMethod) (host : string) (port : option N) : string :=
  match port with
  | Some p => network_method_text method +:+ ":" +:+ host +:+ ":" +:+ pretty p
  | None => network_method_text method +:+ ":" +:+ host
  end.

Definition secret_target (handle : string) (mode : SecretUseMode) : string :=
  handle +:+ ":" +:+ secret_use_mode_text mode.

Definition summary (kind : string) (target : option string) (effects : list EffectKind) :
    ActionSummary := {| as_kind := kind; as_target := target; as_effects := effects |}.

Definition from_action `{UuidText} (a : Action) : ActionSummary :=
  match a with
  | ActReadFile path => summary "read_file" (Some path) [ReadFilesystem]
  | ActListDir path => summary "list_dir" (Some path) [ReadFilesystem]
  | ActWriteFile path _ => summary "write_file" (Some path) [Capability.WriteFilesystem]
  | ActDeleteFile path => summary "delete_file" (Some path) [DeleteFilesystem]
  | ActDispatch capability _ => summary "dispatch" (Some capability) [DispatchCapability]
  | ActSpawnCapability capability _ =>
      summary "spawn_capability" (Some capability) [DispatchCapability; SpawnProcess]
  | ActUseSecret handle mode => summary "use_secret" (Some (secret_target handle mode)) [UseSecret]
  | ActNetwork target method _ =>
      summary "network" (Some (network_target method (nt_host target) (nt_port target))) [Network]
  | ActReserveResources _ => summary "reserve_resources" None [ModifyBudget]
  | ActApprove request => summary "approve" (Some (uuid_text (request_id request))) [ModifyApproval]
  | ActExtensionLifecycle extension_id operation =>
      summary "extension_lifecycle" (Some (extension_id +:+ ":" +:+ lifecycle_text operation))
        [ModifyExtension]
  | ActEmitExternalEffect effect => summary "emit_external_effect" None [effect]
  end.

(** [AuditEnvelope::approval_resolved] *)
Definition approval_resolved `{UuidText} (event_id : N) (now : DateTime) (scope : ResourceScope)
    (request : ApprovalRequest RequestBody) (resolved_by : Principal)
    (decision : ApprovalDecisionKind) : AuditEnvelope := {|
  au_event_id := event_id;
  au_correlation_id := body_correlation_id (request_payload request);
  au_stage := StageApprovalResolved;
  au_timestamp := now;
  au_tenant_id := tenant_id scope;
  au_user_id := user_id scope;
  au_agent_id := agent_id scope;
  au_project_id := project_id scope;
  au_mission_id := mission_id scope;
  au_thread_id := thread_id scope;
  au_invocation_id := invocation_id scope;
  au_process_id := None;
  au_approval_request_id := Some (request_id request);
  au_extension_id := extension_from_principal (body_requested_by (request_payload request));
  au_action := from_action (body_action (request_payload request));
  au_decision := {| ds_kind := as_wire_str decision; ds_reason := None;
                    ds_actor := Some resolved_by |};
  au_result := None |}.

(** [AuditEnvelope::denied] *)
Definition audit_denied (event_id : N) (now : DateTime) (c : ExecutionContext)
    (stage : AuditStage) (action : ActionSummary) (reason : DenyReason) : AuditEnvelope := {|
  au_event_id := event_id;
  au_correlation_id := ctx_correlation_id c;
  au_stage := stage;
  au_timestamp := now;
  au_tenant_id := ctx_tenant_id c;
  au_user_id := ctx_user_id c;
  au_agent_id := ctx_agent_id c;
  au_project_id := ctx_project_id c;
  au_mission_id := ctx_mission_id c;
  au_thread_id := ctx_thread_id c;
  au_invocation_id := ctx_invocation_id c;
  au_process_id := ctx_process_id c;
  au_approval_request_id := None;
  au_extension_id := Some (ctx_extension_id c);
  au_action := action;
  au_decision := {| ds_kind := "deny"; ds_reason := Some reason; ds_actor := None |};
  au_result := None |}.
End with_platform.
