(* ===== verification/Approvals.v ===== *)
(** * Approval resolution

    Models [ironclaw_approvals/src/lib.rs]: a resolver reads a durable approval
    request, decides it, and issues a lease bound to the request's invocation
    fingerprint.  The two stores are one world seen through the interface
    [ResolverStores] (what the traits [ApprovalRequestStore] and
    [CapabilityLeaseStore] promise here); [others k] is what other tasks do to it
    before the resolver's [k]-th store call. *)

From stdpp Require Import sorting.
From S2P Require Import Prelude Strings Ids Mounts Filesystem Platform HostApi RunState RunStateFacts Capability Obligations Actions Leases LeaseFacts LeaseAuthority.
From Stdlib Require Import Lia.
Import HostApi.Resource.

(** ** The stores *)

Section interface.
Context `{Platform}.

Abbreviation Record_ := (ApprovalRecord RequestBody).
Abbreviation Approvals := (gmap ScopedKey Record_).

(** The calls the resolver makes, and what it may rely on: a read shows the visible
    record; a decision that succeeds is the in-memory decision; one that fails decides
    nothing or takes effect all the same (a lost answer); and so does an issue that
    fails: it leaves no lease, or the lease is there all the same. *)
Class ResolverStores (W : Type) := {
  approvals_view : W -> Approvals;
  leases_view : W -> Leases;
  w_get : ResourceScope -> ApprovalRequestId -> W -> Result (option Record_) RunStateError * W;
  w_approve : ResourceScope -> ApprovalRequestId -> W -> Result Record_ RunStateError * W;
  w_deny : ResourceScope -> ApprovalRequestId -> W -> Result Record_ RunStateError * W;
  w_issue : CapabilityLease -> W -> Result CapabilityLease CapabilityLeaseError * W;
  w_get_reads scope id w r w' : w_get scope id w = (r, w') ->
    approvals_view w' = approvals_view w /\ leases_view w' = leases_view w
    /\ forall found, r = Ok found ->
         found = (x ← approvals_view w !! key_new scope id;
                  if InMemoryApprovals.visible x then Some x else None);
  w_approve_decides scope id w r w' : w_approve scope id w = (r, w') ->
    leases_view w' = leases_view w
    /\ match r with
       | Ok x => InMemoryApprovals.approve scope id (approvals_view w) = (Ok x, approvals_view w')
       | Err e => approvals_view w' = approvals_view w
           \/ approvals_view w' = (InMemoryApprovals.approve scope id (approvals_view w)).2
       end;
  w_deny_decides scope id w r w' : w_deny scope id w = (r, w') ->
    leases_view w' = leases_view w
    /\ match r with
       | Ok x => InMemoryApprovals.deny scope id (approvals_view w) = (Ok x, approvals_view w')
       | Err e => approvals_view w' = approvals_view w
           \/ approvals_view w' = (InMemoryApprovals.deny scope id (approvals_view w)).2
       end;
  w_issue_inserts lease w r w' : w_issue lease w = (r, w') ->
    approvals_view w' = approvals_view w
    /\ match r with
       | Ok l => l = lease /\ leases_view w' = <[own_key lease := lease]> (leases_view w)
       | Err e => leases_view w' = leases_view w
           \/ leases_view w' = <[own_key lease := lease]> (leases_view w)
       end;
}.
End interface.

(** ** The resolver *)

Inductive ApprovedCapabilityAction := ForDispatch | ForSpawn.

Inductive ApprovalResolutionError :=
  | ResolveRunState (e : RunStateError)
  | NotPending (status : ApprovalStatus)
  | NotApproved (status : ApprovalStatus)
  | MissingInvocationFingerprint
  | UnsupportedAction
  | ResolveLease (e : CapabilityLeaseError).

Section resolver.
Context `{Platform} `{UuidText} {W : Type} `{!ResolverStores W}.
Variable others : nat -> W -> W.
(** Whether an audit sink is attached, and what its records are stamped with. *)
Variables (audit_sink : bool) (event_id : N) (now : DateTime).

Record LeaseApproval := {
  la_issued_by : Principal;
  la_constraints : GrantConstraints;
}.

(** The answer of a resolver call, the world after it, and what the sink was handed. *)
Abbreviation Resolved T := (Result T ApprovalResolutionError * W * list AuditEnvelope)%type.

Definition capability_for_action (action : Action) (expected : ApprovedCapabilityAction) :
    option CapabilityId :=
  match expected, action with
  | ForDispatch, ActDispatch capability _ | ForSpawn, ActSpawnCapability capability _ =>
      Some capability
  | _, _ => None
  end.

Definition emit_approval_resolved (scope : ResourceScope) (request : ApprovalRequest RequestBody)
    (resolved_by : Principal) (decision : ApprovalDecisionKind) : list AuditEnvelope :=
  if audit_sink then [approval_resolved event_id now scope request resolved_by decision] else [].

(** The lease [issue_lease_for_approved] issues; [fresh] is the new grant id. *)
Definition lease_for (fresh : CapabilityGrantId) (record : ApprovalRecord RequestBody)
    (capability : CapabilityId) (approval : LeaseApproval) (fp : InvocationFingerprint) :
    CapabilityLease := {|
  lease_scope := approval_scope record;
  lease_grant := {| grant_id := fresh; grant_capability := capability;
    grantee := body_requested_by (request_payload (approval_request record));
    issued_by := la_issued_by approval; constraints := la_constraints approval |};
  lease_fingerprint := Some fp;
  lease_status := LeaseActive |}.

Definition issue_lease_for_approved (fresh : CapabilityGrantId)
    (record : ApprovalRecord RequestBody) (capability : CapabilityId) (approval : LeaseApproval)
    (fp : InvocationFingerprint) (w : W) : Resolved CapabilityLease :=
  match w_issue (lease_for fresh record capability approval fp) w with
  | (Err e, w') => (Err (ResolveLease e), w', [])
  | (Ok lease, w') =>
      (Ok lease, w', emit_approval_resolved (approval_scope record) (approval_request record)
                       (la_issued_by approval) DecisionApproved)
  end.

(** [.get(scope, request_id).await?.ok_or(UnknownApprovalRequest)?] *)
Definition read_request (scope : ResourceScope) (id : ApprovalRequestId) (w : W) :
    Result (ApprovalRecord RequestBody) ApprovalResolutionError * W :=
  match w_get scope id w with
  | (Err e, w') => (Err (ResolveRunState e), w')
  | (Ok None, w') => (Err (ResolveRunState (UnknownApprovalRequest id)), w')
  | (Ok (Some record), w') => (Ok record, w')
  end.

(** The checks both lease-issuing paths make on the request. *)
Definition leasable (record : ApprovalRecord RequestBody) (expected : ApprovedCapabilityAction) :
    Result (CapabilityId * InvocationFingerprint) ApprovalResolutionError :=
  let body := request_payload (approval_request record) in
  match capability_for_action (body_action body) expected with
  | None => Err UnsupportedAction
  | Some capability =>
      match body_fingerprint body with
      | None => Err MissingInvocationFingerprint
      | Some fp => Ok (capability, fp)
      end
  end.

Definition approve_capability_action (fresh : CapabilityGrantId) (scope : ResourceScope)
    (id : ApprovalRequestId) (approval : LeaseApproval) (expected : ApprovedCapabilityAction)
    (w : W) : Resolved CapabilityLease :=
  match read_request scope id (others 0 w) with
  | (Err e, w1) => (Err e, w1, [])
  | (Ok record, w1) =>
      if bool_decide (approval_status record <> Pending)
      then (Err (NotPending (approval_status record)), w1, [])
      else
        match leasable record expected with
        | Err e => (Err e, w1, [])
        | Ok (capability, fp) =>
            match w_approve scope id (others 1 w1) with
            | (Err (ApprovalNotPending _ status), w2) => (Err (NotPending status), w2, [])
            | (Err e, w2) => (Err (ResolveRunState e), w2, [])
            | (Ok approved, w2) =>
                issue_lease_for_approved fresh approved capability approval fp (others 2 w2)
            end
        end
  end.

Definition retry_lease_issue_for_action (fresh : CapabilityGrantId) (scope : ResourceScope)
    (id : ApprovalRequestId) (approval : LeaseApproval) (expected : ApprovedCapabilityAction)
    (w : W) : Resolved CapabilityLease :=
  match read_request scope id (others 0 w) with
  | (Err e, w1) => (Err e, w1, [])
  | (Ok record, w1) =>
      if bool_decide (approval_status record <> Approved)
      then (Err (NotApproved (approval_status record)), w1, [])
      else
        match leasable record expected with
        | Err e => (Err e, w1, [])
        | Ok (capability, fp) =>
            issue_lease_for_approved fresh record capability approval fp (others 2 w1)
        end
  end.

Definition approve_dispatch fresh scope id approval :=
  approve_capability_action fresh scope id approval ForDispatch.
Definition approve_spawn fresh scope id approval :=
  approve_capability_action fresh scope id approval ForSpawn.
Definition retry_lease_issue_for_dispatch fresh scope id approval :=
  retry_lease_issue_for_action fresh scope id approval ForDispatch.
Definition retry_lease_issue_for_spawn fresh scope id approval :=
  retry_lease_issue_for_action fresh scope id approval ForSpawn.

(** [deny] *)
Definition deny_request (scope : ResourceScope) (id : ApprovalRequestId) (denied_by : Principal)
    (w : W) : Resolved (ApprovalRecord RequestBody) :=
  match read_request scope id (others 0 w) with
  | (Err e, w1) => (Err e, w1, [])
  | (Ok record, w1) =>
      if bool_decide (approval_status record <> Pending)
      then (Err (NotPending (approval_status record)), w1, [])
      else
        match w_deny scope id (others 1 w1) with
        | (Err (ApprovalNotPending _ status), w2) => (Err (NotPending status), w2, [])
        | (Err e, w2) => (Err (ResolveRunState e), w2, [])
        | (Ok denied, w2) =>
            (Ok denied, w2, emit_approval_resolved (approval_scope denied)
                              (approval_request denied) denied_by DecisionDenied)
        end
  end.
End resolver.

(** ** The in-memory stores *)

Section in_memory.
Context `{Platform}.

Abbreviation Memory := (gmap ScopedKey (ApprovalRecord RequestBody) * Leases)%type.

Definition on_approvals {T} (op : gmap ScopedKey (ApprovalRecord RequestBody) ->
    Result T RunStateError * gmap ScopedKey (ApprovalRecord RequestBody)) (w : Memory) :
    Result T RunStateError * Memory :=
  let '(r, m) := op w.1 in (r, (m, w.2)).

#[global, refine] Instance memory_stores : ResolverStores Memory := {|
  approvals_view := fst;
  leases_view := snd;
  w_get scope id := on_approvals (InMemoryApprovals.get_approval scope id);
  w_approve scope id := on_approvals (InMemoryApprovals.approve scope id);
  w_deny scope id := on_approvals (InMemoryApprovals.deny scope id);
  w_issue l w := let '(r, m) := lease_issue l w.2 in (r, (w.1, m));
|}.
Proof.
  - intros scope id [a l] r w'. unfold on_approvals. simpl. intros [= <- <-]. simpl.
    split; [done |]. split; [done |]. by intros found [= <-].
  - intros scope id [a l] r w'. unfold on_approvals. simpl.
    destruct (InMemoryApprovals.approve scope id a) as [r0 m]. intros [= <- <-]. simpl.
    split; [done |]. destruct r0; [done | by right].
  - intros scope id [a l] r w'. unfold on_approvals. simpl.
    destruct (InMemoryApprovals.deny scope id a) as [r0 m]. intros [= <- <-]. simpl.
    split; [done |]. destruct r0; [done | by right].
  - intros lease [a l] r w'. simpl. intros [= <- <-]. simpl. split; [done |]. by split.
Defined.
End in_memory.
