(* ===== verification/ApprovalFacts.v ===== *)
(** * Approval resolution: theorems

    A lease that the resolver issues is the lease of a request it decided at that
    moment; errors issue nothing and the window between decision and lease can be
    closed by a retry; one approval is one use. *)

From stdpp Require Import sorting.
From S2P Require Import Prelude Strings Ids Mounts Filesystem Platform HostApi RunState RunStateFacts Capability Obligations Actions AuthorizeDemo Leases LeaseFacts LeaseAuthority Approvals RunStateDemo.
From Stdlib Require Import Lia.
Import HostApi.Resource.

Section facts.
Context `{Platform} `{UuidText} {W : Type} `{!ResolverStores W}.
Implicit Types (w : W) (record : ApprovalRecord RequestBody).
Variable others : nat -> W -> W.
Variables (audit_sink : bool) (event_id : N) (now : DateTime).

(** Other tasks may decide, discard or add requests, but do not replace one. *)
Definition requests_kept : Prop := forall i k w x,
  approvals_view w !! k = Some x -> exists y, approvals_view (others i w) !! k = Some y
    /\ approval_request y = approval_request x /\ approval_scope y = approval_scope x.

Lemma approve_ok_inv scope id (m m' : gmap ScopedKey (ApprovalRecord RequestBody)) x :
  InMemoryApprovals.approve scope id m = (Ok x, m') ->
  exists y, m !! key_new scope id = Some y /\ approval_status y = Pending
    /\ x = with_approval_status Approved y /\ m' = <[key_new scope id := x]> m.
Proof.
  unfold InMemoryApprovals.approve, InMemoryApprovals.update_status, InMemoryApprovals.resolve_pending.
  destruct (m !! key_new scope id) as [y |]; [| done]. case_decide; [| done].
  intros [= <- <-]. by exists y.
Qed.

Lemma read_request_spec scope id w r w1 :
  read_request scope id w = (r, w1) ->
  approvals_view w1 = approvals_view w /\ leases_view w1 = leases_view w
  /\ forall x, r = Ok x -> approvals_view w !! key_new scope id = Some x.
Proof.
  unfold read_request. destruct (w_get scope id w) as [[found | e] w'] eqn:Hg;
    apply w_get_reads in Hg as (Ha & Hl & Hf).
  - specialize (Hf found eq_refl). subst found.
    destruct (approvals_view w !! key_new scope id) as [x |] eqn:Hx; simpl.
    + destruct (InMemoryApprovals.visible x); intros [= <- <-]; repeat split; try done.
      by intros ? [= <-].
    + intros [= <- <-]. by repeat split.
  - intros [= <- <-]. by repeat split.
Qed.

Lemma read_request_err scope id w e w1 le :
  read_request scope id w = (Err e, w1) -> e <> ResolveLease le.
Proof. unfold read_request. by destruct (w_get scope id w) as [[[x |] | e0] w']; intros [= <- _]. Qed.

Lemma leasable_err record expected e le : leasable record expected = Err e -> e <> ResolveLease le.
Proof.
  unfold leasable. destruct (capability_for_action _ _); [| by intros [= <-]].
  by destruct (body_fingerprint _); intros [= <-].
Qed.

Lemma leasable_kept record record' expected :
  approval_request record' = approval_request record ->
  leasable record' expected = leasable record expected.
Proof. intros Hr. unfold leasable. by rewrite Hr. Qed.

(** The last step of both paths. *)
Lemma issue_spec fresh record capability approval fp w r w' audits :
  issue_lease_for_approved audit_sink event_id now fresh record capability approval fp w
    = (r, w', audits) ->
  approvals_view w' = approvals_view w
  /\ match r with
     | Ok lease => lease = lease_for fresh record capability approval fp
         /\ leases_view w' = <[own_key lease := lease]> (leases_view w)
         /\ audits = emit_approval_resolved audit_sink event_id now (approval_scope record)
                       (approval_request record) (la_issued_by approval) DecisionApproved
     | Err e => (exists le, e = ResolveLease le) /\ audits = []
         /\ (leases_view w' = leases_view w
             \/ exists lease, lease = lease_for fresh record capability approval fp
                  /\ leases_view w' = <[own_key lease := lease]> (leases_view w))
     end.
Proof.
  unfold issue_lease_for_approved. destruct (w_issue _ w) as [[l | e] w1] eqn:Hi;
    apply w_issue_inserts in Hi as [Ha Hl]; intros [= <- <- <-]; (split; [done |]).
  - by destruct Hl as [-> ->].
  - split; [eauto |]. split; [done |]. destruct Hl; eauto.
Qed.

(** An approval fails before it decides, and changes no lease; or it has decided a
    pending request, and what it returns is the answer of issuing the lease. *)
Lemma approve_cases fresh scope id approval expected w r w' audits :
  approve_capability_action others audit_sink event_id now fresh scope id approval expected w
    = (r, w', audits) ->
  (exists e, r = Err e /\ audits = [] /\ forall Q : Leases -> Prop,
     (forall i w, Q (leases_view w) -> Q (leases_view (others i w))) ->
     Q (leases_view w) -> Q (leases_view w'))
  \/ exists w1 w2 record y capability fp,
    approvals_view w1 = approvals_view (others 0 w) /\ leases_view w1 = leases_view (others 0 w)
    /\ approvals_view w1 !! key_new scope id = Some record
    /\ leasable record expected = Ok (capability, fp)
    /\ approvals_view (others 1 w1) !! key_new scope id = Some y /\ approval_status y = Pending
    /\ approvals_view w2
       = <[key_new scope id := with_approval_status Approved y]> (approvals_view (others 1 w1))
    /\ leases_view w2 = leases_view (others 1 w1)
    /\ issue_lease_for_approved audit_sink event_id now fresh (with_approval_status Approved y)
         capability approval fp (others 2 w2) = (r, w', audits).
Proof.
  unfold approve_capability_action. intros Hrun.
  destruct (read_request scope id (others 0 w)) as [[record | e] w1] eqn:Hread;
    apply read_request_spec in Hread as (Ha1 & Hl1 & Hrec).
  2:{ injection Hrun as <- <- <-. left. eexists. split; [done |]. split; [done |]. intros Q HQ Hw. rewrite Hl1. auto. }
  specialize (Hrec record eq_refl). case_bool_decide.
  { injection Hrun as <- <- <-. left. eexists. split; [done |]. split; [done |]. intros Q HQ Hw. rewrite Hl1. auto. }
  destruct (leasable record expected) as [[capability fp] | e] eqn:Hls.
  2:{ injection Hrun as <- <- <-. left. eexists. split; [done |]. split; [done |]. intros Q HQ Hw. rewrite Hl1. auto. }
  destruct (w_approve scope id (others 1 w1)) as [[approved | e] w2] eqn:Happ;
    apply w_approve_decides in Happ as [Hl2 Ha2].
  - apply approve_ok_inv in Ha2 as (y & Hy & Hpend & -> & Hw2). right.
    exists w1, w2, record, y, capability, fp. rewrite Ha1. repeat (split; [done |]).
    by destruct (issue_lease_for_approved _ _ _ _ _ _ _ _ _) as [[r0 w3] au].
  - left. exists (match e with ApprovalNotPending _ status => NotPending status | _ => ResolveRunState e end).
    assert (forall Q : Leases -> Prop,
      (forall i w, Q (leases_view w) -> Q (leases_view (others i w))) ->
      Q (leases_view w) -> Q (leases_view w2)) as Hkeep.
    { intros Q HQ Hw. rewrite Hl2. apply HQ. rewrite Hl1. by apply HQ. }
    destruct e; injection Hrun as <- <- <-; by split.
Qed.

(** A lease is backed by an approval: at one instant, a pending request of this scope and
    id whose action is the expected kind was decided, and then exactly this lease was
    inserted, for that request's capability, requester, scope and fingerprint and with the
    approver's constraints. *)
Definition backed_lease (fresh : CapabilityGrantId) (scope : ResourceScope) (id : ApprovalRequestId)
    (approval : LeaseApproval) (expected : ApprovedCapabilityAction) (w' : W) (lease : CapabilityLease) : Prop :=
  exists before after record capability fp,
    approvals_view before !! key_new scope id = Some record
    /\ approval_status record = Pending /\ leasable record expected = Ok (capability, fp)
    /\ approvals_view after
       = <[key_new scope id := with_approval_status Approved record]> (approvals_view before)
    /\ leases_view after = leases_view before
    /\ lease = lease_for fresh record capability approval fp
    /\ approvals_view w' = approvals_view (others 2 after)
    /\ leases_view w' = <[own_key lease := lease]> (leases_view (others 2 after)).

(** [C18] A lease is backed by an approval.  Other tasks may do anything between the
    resolver's steps but replace a request or remove it.  An approval that returns a
    lease has decided a pending request and then inserted exactly that lease
    ([backed_lease]), and the sink hears of it once.  An approval that returns an error
    sends nothing to the sink, and changes no lease (whatever other tasks keep true of
    the leases stays true); only when the lease store itself failed to answer may the
    lease be there all the same, and then it is backed just as well. *)
Theorem approval_backs_lease fresh scope id approval expected w r w' audits :
  requests_kept ->
  approve_capability_action others audit_sink event_id now fresh scope id approval expected w
    = (r, w', audits) ->
  match r with
  | Ok lease => backed_lease fresh scope id approval expected w' lease
      /\ length audits = (if audit_sink then 1 else 0)
  | Err e => audits = []
      /\ ((forall Q : Leases -> Prop,
             (forall i w, Q (leases_view w) -> Q (leases_view (others i w))) ->
             Q (leases_view w) -> Q (leases_view w'))
          \/ exists le lease, e = ResolveLease le
               /\ backed_lease fresh scope id approval expected w' lease)
  end.
Proof.
  intros Hkept [(e & -> & -> & Hkeep) | (w1 & w2 & record & y & capability & fp & _ & Hl1 & Hrec & Hls & Hy & Hp
    & Hw2 & Hl2 & Hiss)]%approve_cases; [by split; [| left] |].
  apply issue_spec in Hiss as [Ha3 Hr].
  change (lease_for fresh (with_approval_status Approved y) capability approval fp)
    with (lease_for fresh y capability approval fp) in Hr.
  destruct (Hkept 1 _ _ _ Hrec) as (y' & Hy' & Hreq & _).
  assert (leasable y expected = Ok (capability, fp)) as Hly by (rewrite (leasable_kept record); [done | congruence]).
  assert (forall lease, lease = lease_for fresh y capability approval fp ->
    leases_view w' = <[own_key lease := lease]> (leases_view (others 2 w2)) ->
    backed_lease fresh scope id approval expected w' lease) as Hbacked.
  { intros lease Hlease Hl3. exists (others 1 w1), w2, y, capability, fp. by repeat (split; [done |]). }
  destruct r as [lease | e].
  - destruct Hr as (Hlease & Hl3 & ->). split; [by apply Hbacked |].
    unfold emit_approval_resolved. by destruct audit_sink.
  - destruct Hr as ([le ->] & -> & [Hl3 | (lease & Hlease & Hl3)]); (split; [done |]).
    + left. intros Q HQ Hw. rewrite Hl3. apply HQ. rewrite Hl2. apply HQ. rewrite Hl1. by apply HQ.
    + right. exists le, lease. split; [done | by apply Hbacked].
Qed.

(** ** Closing the window between decision and lease *)

(** Other tasks leave decided requests alone. *)
Definition decided_kept : Prop := forall i k w x,
  approvals_view w !! k = Some x -> approval_status x <> Pending ->
  approvals_view (others i w) !! k = Some x.

(** A lost lease can be re-issued.  When an approval fails because its lease could
    not be issued, the request is approved all the same and nothing was audited; no lease
    is there, or the very lease that was asked for, whose answer was lost; and a retry with the same terms, as soon as the store answers, issues
    exactly the lease the approval would have issued, without deciding anything. *)
Theorem lost_lease_recovered fresh scope id approval expected w e w' audits :
  requests_kept -> decided_kept -> (forall i w, leases_view (others i w) = leases_view w) ->
  approve_capability_action others audit_sink event_id now fresh scope id approval expected w
    = (Err (ResolveLease e), w', audits) ->
  audits = []
  /\ exists record capability fp,
       (leases_view w' = leases_view w
        \/ exists lease, lease = lease_for fresh record capability approval fp
             /\ leases_view w' = <[own_key lease := lease]> (leases_view w))
       /\ approvals_view w' !! key_new scope id = Some (with_approval_status Approved record)
       /\ leasable record expected = Ok (capability, fp)
       /\ forall fresh' w2 found w3 lease w4,
            approvals_view w2 !! key_new scope id = approvals_view w' !! key_new scope id ->
            w_get scope id (others 0 w2) = (Ok found, w3) ->
            w_issue (lease_for fresh' record capability approval fp) (others 2 w3) = (Ok lease, w4) ->
            lease = lease_for fresh' record capability approval fp
            /\ exists au, retry_lease_issue_for_action others audit_sink event_id now fresh' scope id
                 approval expected w2 = (Ok lease, w4, au).
Proof.
  intros Hkept Hdec Hquiet Hrun. unfold approve_capability_action in Hrun.
  destruct (read_request scope id (others 0 w)) as [[record | e0] w1] eqn:Hread.
  2:{ injection Hrun as -> _ _. by destruct (read_request_err _ _ _ _ _ e Hread). }
  apply read_request_spec in Hread as (Ha1 & Hl1 & Hrec).
  case_bool_decide; [congruence |]. specialize (Hrec record eq_refl).
  destruct (leasable record expected) as [[capability fp] | e0] eqn:Hls.
  2:{ injection Hrun as -> _ _. by destruct (leasable_err _ _ _ e Hls). }
  destruct (w_approve scope id (others 1 w1)) as [ra w2] eqn:Happ.
  apply w_approve_decides in Happ as [Hl2 Ha2].
  destruct ra as [approved | e0]; [| by destruct e0].
  apply approve_ok_inv in Ha2 as (y & Hy & Hpend & -> & Hw2).
  assert (approval_request y = approval_request record) as Hreq.
  { rewrite <- Ha1 in Hrec. destruct (Hkept 1 _ _ _ Hrec) as (y' & Hy' & Hr & _). congruence. }
  destruct (issue_lease_for_approved _ _ _ _ _ _ _ _ _) as [[r0 w3] au] eqn:Hiss.
  injection Hrun as -> -> ->. apply issue_spec in Hiss as [Ha3 (_ & -> & Hl3)].
  split; [done |].
  assert (approvals_view w' !! key_new scope id = Some (with_approval_status Approved y)) as Hdone.
  { rewrite Ha3. apply Hdec; [| done]. rewrite Hw2. apply lookup_insert_eq. }
  exists y, capability, fp. rewrite Hquiet, Hl2, Hquiet, Hl1, Hquiet in Hl3. split; [exact Hl3 |]. split; [done |].
  split; [by rewrite (leasable_kept _ _ _ Hreq) |].
  intros fresh' v2 found v3 lease v4 Hv2 Hget Hissue.
  rewrite Hdone in Hv2. apply (Hdec 0) in Hv2; [| done].
  assert (read_request scope id (others 0 v2) = (Ok (with_approval_status Approved y), v3)) as Hread.
  { unfold read_request. rewrite Hget. apply w_get_reads in Hget as (_ & _ & Hf).
    rewrite (Hf found eq_refl), Hv2. done. }
  pose proof Hissue as Hi. apply w_issue_inserts in Hi as [_ [-> _]]. split; [done |].
  eexists. unfold retry_lease_issue_for_action. rewrite Hread.
  rewrite bool_decide_eq_false_2 by (by intros Hn; apply Hn).
  rewrite (leasable_kept record) by exact Hreq. rewrite Hls.
  unfold issue_lease_for_approved.
  change (lease_for fresh' (with_approval_status Approved y) capability approval fp)
    with (lease_for fresh' y capability approval fp). by rewrite Hissue.
Qed.
End facts.

(** ** One approval, one use *)

Section one_use.
Context `{Platform} `{UuidText}.

Abbreviation Memory := (gmap ScopedKey (ApprovalRecord RequestBody) * Leases)%type.
Implicit Types (w : Memory).

(** One approval is one use.  After an approval over the in-memory stores returned
    a lease, whatever is then called on the lease store without issuing another lease
    under the same key, the lease is claimed at most once and consumed at most once;
    and wherever the request is still as the approval left it, approving or denying it
    again is refused, decides nothing and issues nothing. *)
Theorem one_approval_one_use audit_sink event_id now fresh scope id approval expected w lease w'
    audits :
  approve_capability_action (fun _ w => w) audit_sink event_id now fresh scope id approval expected w
    = (Ok lease, w', audits) ->
  (forall calls log leases', lease_run calls w'.2 = (log, leases') ->
     Forall (no_reissue (own_key lease)) calls.*2 ->
     count is_claim (own_key lease) log <= 1 /\ count is_consume (own_key lease) log <= 1)
  /\ forall w2, w2.1 !! key_new scope id = w'.1 !! key_new scope id ->
       (forall fresh' approval' expected',
          approve_capability_action (fun _ w => w) audit_sink event_id now fresh' scope id approval'
            expected' w2 = (Err (NotPending Approved), w2, []))
       /\ forall denied_by,
          deny_request (fun _ w => w) audit_sink event_id now scope id denied_by w2
          = (Err (NotPending Approved), w2, []).
Proof.
  intros [(e & ? & _) | (w1 & w2 & record & y & capability & fp & _ & _ & _ & _ & _ & _ & Hw2 & _ & Hiss)]%approve_cases;
    [done |]. apply issue_spec in Hiss as [Ha (Hlease & Hl & _)]. simpl in *. split.
  - intros calls log leases' Hrun Hn.
    assert (w'.2 !! own_key lease = Some lease) as Hk by (rewrite Hl; apply lookup_insert_eq).
    destruct (one_shot_counts _ _ _ lease fp _ _ Hrun Hn Hk) as (? & ? & _); [by subst | done].
  - intros w3 Hw3. rewrite Ha, Hw2, lookup_insert_eq in Hw3.
    assert (read_request scope id w3 = (Ok (with_approval_status Approved y), w3)) as Hread.
    { unfold read_request. destruct w3 as [a3 l3]. simpl in *. unfold on_approvals. simpl.
      by rewrite Hw3. }
    split; intros; unfold approve_capability_action, deny_request; rewrite Hread;
      by rewrite bool_decide_eq_true_2.
Qed.
End one_use.
