(* ===== verification/LeaseFs.v ===== *)
(** * The filesystem lease store

    Models [FilesystemCapabilityLeaseStore] of [ironclaw_authorization/src/lib.rs]: one
    JSON record per lease and one index of lease paths per owner, under the
    [/authorization] mount.  [env k m] is what other tasks do to the backend at the await
    point [m] of the [k]-th attempt of a call (in [issue], of the index update for
    [k = 0] and of the lease's write for [k = 1]; in a listing, before the [k]-th file);
    [now k] is what the clock reads in the [k]-th attempt.  The paths the store builds
    are accepted scoped paths, resolve under the mount, determine the scope and the
    lease, and are never the path of an index. *)

From stdpp Require Import sorting.
From S2P Require Import Prelude Strings Ids Paths Mounts Filesystem Platform HostApi Scoped Cas Composition RunState RunStateFacts RunStateFs Capability Leases.
From Stdlib Require Import Ascii Lia.
Import HostApi.Resource.

Definition CAS_RETRY_ATTEMPTS : nat := 3.

Definition LEASES_PREFIX : string := "/authorization/leases".

Definition lease_host_api_error (e : HostApiError) : CapabilityLeaseError :=
  LeasePersistence (host_error_text e).

Definition lease_persistence_error (e : FilesystemError) : CapabilityLeaseError :=
  match e with
  | VersionMismatch _ _ _ => LeaseVersionMismatch
  | _ => LeasePersistence (filesystem_error_text e)
  end.

Definition is_not_found (e : FilesystemError) : bool :=
  match e with NotFound _ _ => true | _ => false end.

(** [ScopedPath::new(..).map_err(lease_host_api_error)] *)
Definition lease_scoped_path (raw : string) : Result ScopedPath CapabilityLeaseError :=
  match scoped_path_new raw with Ok p => Ok p | Err e => Err (lease_host_api_error e) end.

(** ** Paths *)

Definition scope_segments (scope : ResourceScope) : list string :=
  option_list ((fun v => "agents/" +:+ v) <$> agent_id scope)
  ++ option_list ((fun v => "projects/" +:+ v) <$> project_id scope)
  ++ option_list ((fun v => "missions/" +:+ v) <$> mission_id scope)
  ++ option_list ((fun v => "threads/" +:+ v) <$> thread_id scope).

Definition within_tenant_scope (scope : ResourceScope) : string :=
  match scope_segments scope with
  | [] => "scope"
  | segments => join "/" segments
  end.

Definition lease_path `{UuidText} (scope : ResourceScope) (id : CapabilityGrantId) :
    Result ScopedPath CapabilityLeaseError :=
  lease_scoped_path (LEASES_PREFIX +:+ "/" +:+ within_tenant_scope scope +:+ "/"
                     +:+ uuid_text (invocation_id scope) +:+ "/" +:+ uuid_text id +:+ ".json").

Definition lease_index_path (scope : ResourceScope) : Result ScopedPath CapabilityLeaseError :=
  lease_scoped_path (LEASES_PREFIX +:+ "/" +:+ within_tenant_scope scope +:+ "/_lease_index.json").

Definition lease_owner_prefix (scope : ResourceScope) : Result ScopedPath CapabilityLeaseError :=
  lease_scoped_path (LEASES_PREFIX +:+ "/" +:+ within_tenant_scope scope).

Definition lease_join_scoped (prefix : ScopedPath) (leaf : string) :
    Result ScopedPath CapabilityLeaseError :=
  lease_scoped_path (trim_end_matches "/" prefix +:+ "/" +:+ leaf).

(** ** The tenant projection *)

Definition index_key_tenant_id : string := "tenant_id".
Definition index_name_authorization_tenant : string := "authorization_by_tenant".

(** The [unreachable!] arms are. *)
Lemma index_names_valid :
  index_key_new index_key_tenant_id = Ok index_key_tenant_id
  /\ index_name_new index_name_authorization_tenant = Ok index_name_authorization_tenant.
Proof. by vm_compute. Qed.

Definition tenant_index : IndexSpec := {|
  index_name := index_name_authorization_tenant;
  index_keys := [index_key_tenant_id];
  index_kind := IndexExact |}.

(** [CapabilityLeaseIndex] *)
Record CapabilityLeaseIndex := { paths : list ScopedPath }.

(** The await points of a call. *)
Inductive LeaseMoment := LmRead | LmIndex | LmWrite | LmFallback.

Section store.
Context `{Platform} {F : Type} `{RootFilesystem F} `{!IndexedFilesystem F} `{UuidText}.
Context `{JsonCodec CapabilityLease} `{JsonCodec CapabilityLeaseIndex}.
Variable resolver : ResourceScope -> Result MountView HostApiError.
Variable env : nat -> LeaseMoment -> F -> F.
Variable now : nat -> DateTime.

Abbreviation LResult T := (Result T CapabilityLeaseError).

Definition lease_serialize_pretty {A} `{JsonCodec A} (value : A) : LResult string :=
  match to_vec_pretty value with Ok b => Ok b | Err reason => Err (LeasePersistence reason) end.

Definition lease_deserialize {A} `{JsonCodec A} (bytes : string) : LResult A :=
  match from_slice bytes with Ok a => Ok a | Err reason => Err (LeasePersistence reason) end.

(** The record as written, with the tenant it belongs to. *)
Definition tenant_entry (scope : ResourceScope) (b : string) : Entry := {|
  body := b; content_type := JSON; kind := None;
  indexed := {[ index_key_tenant_id := IxText (tenant_id scope) ]} |}.

(** [Entry::bytes(entry.body).with_content_type(entry.content_type)] *)
Definition opaque_entry (e : Entry) : Entry := {|
  body := body e; content_type := content_type e; kind := None; indexed := ∅ |}.

Definition ensure_tenant_id_index (scope : ResourceScope) (prefix : ScopedPath) (fs : F) :
    LResult unit * F :=
  match scoped_ensure_index resolver scope prefix tenant_index fs with
  | (Ok _, fs') => (Ok tt, fs')
  | (Err (Unsupported _ _), fs') => (Ok tt, fs')
  | (Err e, fs') => (Err (lease_persistence_error e), fs')
  end.

(** The write both record kinds end in: a backend that takes only bytes answers
    [Unsupported] and gets the plain bytes, unconditionally. *)
Definition put_or_opaque (k : nat) (scope : ResourceScope) (path : ScopedPath) (e : Entry)
    (expectation : CasExpectation) (fs : F) : LResult unit * F :=
  match scoped_put resolver scope path e expectation (env k LmWrite fs) with
  | (Ok _, fs') => (Ok tt, fs')
  | (Err (Unsupported _ _), fs') =>
      match scoped_put resolver scope path (opaque_entry e) Any (env k LmFallback fs') with
      | (Ok _, fs'') => (Ok tt, fs'')
      | (Err err, fs'') => (Err (lease_persistence_error err), fs'')
      end
  | (Err err, fs') => (Err (lease_persistence_error err), fs')
  end.

(** [ensure_tenant_id_index(.., &lease_owner_prefix(scope)?).await?] and the write. *)
Definition write_tenant_entry (k : nat) (scope : ResourceScope) (path : ScopedPath) (b : string)
    (expectation : CasExpectation) (fs : F) : LResult unit * F :=
  match lease_owner_prefix scope with
  | Err e => (Err e, fs)
  | Ok prefix =>
      match ensure_tenant_id_index scope prefix (env k LmIndex fs) with
      | (Err e, fs') => (Err e, fs')
      | (Ok _, fs') => put_or_opaque k scope path (tenant_entry scope b) expectation fs'
      end
  end.

(** ** One lease *)

Definition read_lease_versioned (k : nat) (scope : ResourceScope) (id : CapabilityGrantId)
    (fs : F) : LResult (option (CapabilityLease * RecordVersion)) * F :=
  match lease_path scope id with
  | Err e => (Err e, fs)
  | Ok path =>
      match scoped_get resolver scope path (env k LmRead fs) with
      | (Err e, fs') => (Err (lease_persistence_error e), fs')
      | (Ok None, fs') => (Ok None, fs')
      | (Ok (Some ve), fs') =>
          (result_map (fun l => Some (l, ve_version ve)) (lease_deserialize (body (ve_entry ve))), fs')
      end
  end.

Definition read_lease (scope : ResourceScope) (id : CapabilityGrantId) (fs : F) :
    LResult (option CapabilityLease) * F :=
  let '(r, fs') := read_lease_versioned 0 scope id fs in (result_map (fmap fst) r, fs').

Definition write_lease_raw (k : nat) (l : CapabilityLease) (expectation : CasExpectation) (fs : F) :
    LResult unit * F :=
  match lease_path (lease_scope l) (lease_id l) with
  | Err e => (Err e, fs)
  | Ok path =>
      match lease_serialize_pretty l with
      | Err e => (Err e, fs)
      | Ok b => write_tenant_entry k (lease_scope l) path b expectation fs
      end
  end.

Definition write_lease (l : CapabilityLease) (fs : F) : LResult unit * F :=
  write_lease_raw 1 l Any fs.

(** One pass of the loop of [update_lease_cas]; [None] is [continue]. *)
Definition update_lease_attempt (k : nat) (scope : ResourceScope) (id : CapabilityGrantId)
    (mutate : Transition) (fs : F) : option (LResult CapabilityLease) * F :=
  match read_lease_versioned k scope id fs with
  | (Err e, fs1) => (Some (Err e), fs1)
  | (Ok None, fs1) => (Some (Err (UnknownLease id)), fs1)
  | (Ok (Some (l, version)), fs1) =>
      match mutate (now k) l with
      | Err e => (Some (Err e), fs1)
      | Ok l' =>
          match write_lease_raw k l' (Version version) fs1 with
          | (Ok _, fs2) => (Some (Ok l'), fs2)
          | (Err LeaseVersionMismatch, fs2) => (None, fs2)
          | (Err e, fs2) => (Some (Err e), fs2)
          end
      end
  end.

(** [for _ in 0..CAS_RETRY_ATTEMPTS], from attempt [k] on. *)
Fixpoint update_lease_loop (left k : nat) (scope : ResourceScope) (id : CapabilityGrantId)
    (mutate : Transition) (fs : F) : LResult CapabilityLease * F :=
  match left with
  | 0 => (Err LeaseCasExhausted, fs)
  | S left' =>
      match update_lease_attempt k scope id mutate fs with
      | (Some r, fs') => (r, fs')
      | (None, fs') => update_lease_loop left' (S k) scope id mutate fs'
      end
  end.

Definition update_lease_cas (scope : ResourceScope) (id : CapabilityGrantId) (mutate : Transition)
    (fs : F) : LResult CapabilityLease * F :=
  update_lease_loop CAS_RETRY_ATTEMPTS 0 scope id mutate fs.

(** ** The index of an owner *)

Definition read_lease_index (scope : ResourceScope) (fs : F) :
    LResult (option (list ScopedPath)) * F :=
  match lease_index_path scope with
  | Err e => (Err e, fs)
  | Ok path =>
      match scoped_get resolver scope path (env 0 LmRead fs) with
      | (Err e, fs') => (Err (lease_persistence_error e), fs')
      | (Ok None, fs') => (Ok None, fs')
      | (Ok (Some ve), fs') =>
          (result_map (fun index => Some (paths index)) (lease_deserialize (body (ve_entry ve))), fs')
      end
  end.

(** [paths.sort_by(..)] and [paths.dedup_by(..)] on texts. *)
Definition text_le (a b : string) : Prop := Is_true (String.leb a b).
#[local] Instance text_le_dec a b : Decision (text_le a b).
Proof. unfold text_le. apply _. Defined.

Fixpoint dedup (l : list string) : list string :=
  match l with
  | x :: ((y :: _) as rest) => if String.eqb x y then dedup rest else x :: dedup rest
  | _ => l
  end.

Definition write_lease_index (scope : ResourceScope) (ps : list ScopedPath) (fs : F) :
    LResult unit * F :=
  match lease_index_path scope with
  | Err e => (Err e, fs)
  | Ok path =>
      match lease_serialize_pretty {| paths := dedup (merge_sort text_le ps) |} with
      | Err e => (Err e, fs)
      | Ok b => write_tenant_entry 0 scope path b Any fs
      end
  end.

Definition index_lease_path (scope : ResourceScope) (path : ScopedPath) (fs : F) : LResult unit * F :=
  match read_lease_index scope fs with
  | (Err e, fs') => (Err e, fs')
  | (Ok found, fs') =>
      let ps := default [] found in
      write_lease_index scope (if bool_decide (path ∈ ps) then ps else ps ++ [path]) fs'
  end.

(** ** Listings *)

Definition list_subdir_names (scope : ResourceScope) (prefix : ScopedPath) (fs : F) :
    LResult (list string) * F :=
  match scoped_list_dir resolver scope prefix (env 0 LmIndex fs) with
  | (Ok es, fs') =>
      (Ok (de_name <$> List.filter (fun e => match de_file_type e with Directory => true | _ => false end) es),
       fs')
  | (Err e, fs') =>
      if is_not_found e then (Ok [], fs') else (Err (lease_persistence_error e), fs')
  end.

(** [for entry in entries { .. out.push(join_scoped(root, &entry.name)?); }] *)
Fixpoint join_files (root : ScopedPath) (es : list DirEntry) : LResult (list ScopedPath) :=
  match es with
  | [] => Ok []
  | e :: rest =>
      match de_file_type e with
      | File =>
          match lease_join_scoped root (de_name e) with
          | Err err => Err err
          | Ok p => result_map (cons p) (join_files root rest)
          end
      | _ => join_files root rest
      end
  end.

Definition list_lease_files (k : nat) (scope : ResourceScope) (root : ScopedPath) (fs : F) :
    LResult (list ScopedPath) * F :=
  match scoped_list_dir resolver scope root (env k LmWrite fs) with
  | (Ok es, fs') => (join_files root es, fs')
  | (Err e, fs') =>
      if is_not_found e then (Ok [], fs') else (Err (lease_persistence_error e), fs')
  end.

Fixpoint scan_subdirs (k : nat) (scope : ResourceScope) (owner_prefix : ScopedPath)
    (subdirs : list string) (fs : F) : LResult (list ScopedPath) * F :=
  match subdirs with
  | [] => (Ok [], fs)
  | subdir :: rest =>
      match lease_join_scoped owner_prefix subdir with
      | Err e => (Err e, fs)
      | Ok root =>
          match list_lease_files k scope root fs with
          | (Err e, fs') => (Err e, fs')
          | (Ok ps, fs') =>
              let '(r, fs'') := scan_subdirs (S k) scope owner_prefix rest fs' in
              (result_map (app ps) r, fs'')
          end
      end
  end.

Definition scan_lease_paths (scope : ResourceScope) (fs : F) : LResult (list ScopedPath) * F :=
  match lease_owner_prefix scope with
  | Err e => (Err e, fs)
  | Ok owner_prefix =>
      match list_subdir_names scope owner_prefix fs with
      | (Err e, fs') => (Err e, fs')
      | (Ok subdirs, fs') => scan_subdirs 0 scope owner_prefix subdirs fs'
      end
  end.

Definition list_lease_paths_from_index_or_scan (scope : ResourceScope) (fs : F) :
    LResult (list ScopedPath) * F :=
  match read_lease_index scope fs with
  | (Err e, fs') => (Err e, fs')
  | (Ok (Some ps), fs') => (Ok ps, fs')
  | (Ok None, fs') => scan_lease_paths scope fs'
  end.

Definition read_lease_file (k : nat) (scope : ResourceScope) (path : ScopedPath) (fs : F) :
    LResult CapabilityLease * F :=
  match scoped_get resolver scope path (env k LmFallback fs) with
  | (Err e, fs') => (Err (lease_persistence_error e), fs')
  | (Ok None, fs') =>
      (Err (LeasePersistence
              ("filesystem capability lease store: lease file missing: " +:+ path)), fs')
  | (Ok (Some ve), fs') => (lease_deserialize (body (ve_entry ve)), fs')
  end.

(** The leases of the files that can be read. *)
Fixpoint read_lease_files (k : nat) (scope : ResourceScope) (ps : list ScopedPath) (fs : F) :
    list CapabilityLease * F :=
  match ps with
  | [] => ([], fs)
  | path :: rest =>
      let '(r, fs1) := read_lease_file k scope path fs in
      let '(ls, fs2) := read_lease_files (S k) scope rest fs1 in
      (match r with Ok l => l :: ls | Err _ => ls end, fs2)
  end.

(** ** The store's methods *)

Definition fs_lease_issue (l : CapabilityLease) (fs : F) : LResult CapabilityLease * F :=
  match lease_path (lease_scope l) (lease_id l) with
  | Err e => (Err e, fs)
  | Ok path =>
      match index_lease_path (lease_scope l) path fs with
      | (Err e, fs1) => (Err e, fs1)
      | (Ok _, fs1) => let '(r, fs2) := write_lease l fs1 in (result_map (fun _ => l) r, fs2)
      end
  end.

Definition fs_lease_revoke scope id := update_lease_cas scope id to_revoked.
Definition fs_lease_claim scope id fp := update_lease_cas scope id (to_claimed fp).
Definition fs_lease_consume scope id := update_lease_cas scope id to_consumed.
Definition fs_lease_begin_dispatch_claimed scope id fp :=
  update_lease_cas scope id (apply_begin_dispatch_claimed_transition fp).
Definition fs_lease_abort_dispatch_claimed scope id :=
  update_lease_cas scope id apply_abort_dispatch_claimed_transition.

(** [self.read_lease(..).await.ok().flatten()] *)
Definition fs_lease_get (scope : ResourceScope) (id : CapabilityGrantId) (fs : F) :
    option CapabilityLease * F :=
  match read_lease scope id fs with
  | (Ok found, fs') => (found, fs')
  | (Err _, fs') => (None, fs')
  end.

Definition fs_leases_for_scope (scope : ResourceScope) (fs : F) : list CapabilityLease * F :=
  match list_lease_paths_from_index_or_scan scope fs with
  | (Err _, fs') => ([], fs')
  | (Ok ps, fs') =>
      let '(ls, fs'') := read_lease_files 0 scope ps fs' in
      (sort_by_id lease_id (List.filter (fun l => same_scope_owner (lease_scope l) scope) ls), fs'')
  end.

Definition fs_active_leases_for_context (c : ExecutionContext) (fs : F) : list CapabilityLease * F :=
  let '(ls, fs') := fs_leases_for_scope (ctx_resource_scope c) fs in
  (filter_at (fun i l => lease_is_authorizing (now i) l c) 0 ls, fs').

(** The calls that change the store. *)
Definition fs_lease_call (call : LeaseCall) : F -> LResult CapabilityLease * F :=
  match call with
  | Issue l => fs_lease_issue l
  | Revoke scope id => fs_lease_revoke scope id
  | Claim scope id fp => fs_lease_claim scope id fp
  | Consume scope id => fs_lease_consume scope id
  | BeginDispatch scope id fp => fs_lease_begin_dispatch_claimed scope id fp
  | AbortDispatch scope id => fs_lease_abort_dispatch_claimed scope id
  end.
End store.


(** ** Segments *)

(** [within_tenant_scope] as segments. *)
Definition scope_parts (scope : ResourceScope) : list string :=
  match axes scope with [] => ["scope"] | parts => parts end.

Lemma within_tenant_scope_path scope : "/" +:+ within_tenant_scope scope = path_of (scope_parts scope).
Proof.
  unfold within_tenant_scope, scope_segments, scope_parts, axes, path_of.
  destruct (agent_id scope), (project_id scope), (mission_id scope), (thread_id scope);
    simpl; rewrite ?app_assoc_s; reflexivity.
Qed.

Lemma scope_parts_nonempty scope : scope_parts scope <> [].
Proof. unfold scope_parts. by destruct (axes scope). Qed.

Lemma scope_parts_ok scope : scope_ok scope -> Forall segment_ok (scope_parts scope).
Proof.
  intros Hs%axes_ok. unfold scope_parts. destruct (axes scope); [| done].
  apply Forall_singleton. by repeat split.
Qed.

Section places.
Context `{UuidText}.

Lemma uuid_any_byte g n :
  (forall c, g c = true -> byte_in 45 122 c = false \/ Ascii.eqb c "/" = true
                           \/ Ascii.eqb c "\" = true) ->
  any_byte g (uuid_text n) = false.
Proof.
  intros Hg. eapply any_byte_impl; [| exact (uuid_text_chars n)]. intros c Hgc.
  apply negb_true_iff, not_true_iff_false.
  intros (H1 & H2 & H3)%uuid_byte_plain. destruct (Hg c Hgc) as [? | [? | ?]]; congruence.
Qed.

Lemma uuid_segment n : segment_ok (uuid_text n).
Proof.
  split.
  - apply uuid_text_nonempty.
  - intros Heq. pose proof (uuid_text_chars n) as Hc. by rewrite Heq in Hc.
  - intros Heq. pose proof (uuid_text_chars n) as Hc. by rewrite Heq in Hc.
  - apply uuid_any_byte. intros c Hc. rewrite Ascii.eqb_sym in Hc. auto.
  - apply uuid_any_byte. intros c Hc. rewrite Ascii.eqb_sym in Hc. auto.
  - apply has_control_plain, uuid_any_byte. intros c Hc%negb_true_iff. by left.
Qed.

Lemma uuid_not_label n l :
  any_byte (fun c => negb (is_ascii_digit c || byte_in 97 102 c || Ascii.eqb c "-")) l = true ->
  uuid_text n <> l.
Proof. intros Hl <-. pose proof (uuid_text_chars n). congruence. Qed.

Lemma uuid_no_dot n : contains_char "." (uuid_text n) = false.
Proof.
  eapply any_byte_impl; [| exact (uuid_text_chars n)].
  intros c Hc%Ascii.eqb_eq. by subst c.
Qed.

(** The segments of a lease and of an owner's index below the mount. *)
Definition lease_tail (scope : ResourceScope) (id : CapabilityGrantId) : list string :=
  "leases" :: scope_parts scope ++ [uuid_text (invocation_id scope); leaf id].

Definition index_tail (scope : ResourceScope) : list string :=
  "leases" :: scope_parts scope ++ ["_lease_index.json"].

Lemma lease_tail_ok scope id : scope_ok scope -> Forall segment_ok (lease_tail scope id).
Proof.
  intros Hs. constructor; [by repeat split |]. apply Forall_app; split; [by apply scope_parts_ok |].
  repeat constructor; try apply uuid_segment; apply leaf_ok.
Qed.

Lemma index_tail_ok scope : scope_ok scope -> Forall segment_ok (index_tail scope).
Proof.
  intros Hs. constructor; [by repeat split |]. apply Forall_app; split; [by apply scope_parts_ok |].
  apply Forall_singleton. by repeat split.
Qed.

(** Paths under the mount do not look like host paths. *)
Lemma authorization_path_ok tail :
  tail <> [] -> Forall segment_ok tail ->
  lease_scoped_path (path_of ("authorization" :: tail)) = Ok (path_of ("authorization" :: tail)).
Proof.
  intros Hn Ht. unfold lease_scoped_path.
  pose proof (scoped_path_of_normal ("authorization" :: tail)) as Hp.
  unfold scoped_path_of in Hp. destruct (scoped_path_new _) as [p | e] eqn:He.
  - f_equal. assert (Ok p = Ok (path_of ("authorization" :: tail)) :> Result _ RunStateError) as [= ->];
      [| done].
    apply Hp; [done | | by destruct tail..]. constructor; [by repeat split | done].
  - discriminate Hp; [done | | by destruct tail..]. constructor; [by repeat split | done].
Qed.

Lemma below_prefix scope rest :
  rest <> [] ->
  LEASES_PREFIX +:+ "/" +:+ within_tenant_scope scope +:+ path_of rest
  = path_of ("authorization" :: "leases" :: scope_parts scope ++ rest).
Proof.
  intros Hn. pose proof (scope_parts_nonempty scope) as Hs.
  change ("authorization" :: "leases" :: scope_parts scope ++ rest)
    with (["authorization"; "leases"] ++ (scope_parts scope ++ rest)).
  rewrite path_of_app by (try done; by destruct (scope_parts scope)).
  rewrite path_of_app, <- within_tenant_scope_path by done.
  change LEASES_PREFIX with (path_of ["authorization"; "leases"]). by rewrite !app_assoc_s.
Qed.

Lemma lease_path_ok scope id :
  scope_ok scope -> lease_path scope id = Ok (path_of ("authorization" :: lease_tail scope id)).
Proof.
  intros Hs. unfold lease_path.
  change ("/" +:+ uuid_text (invocation_id scope) +:+ "/" +:+ uuid_text id +:+ ".json")
    with ("/" +:+ join "/" [uuid_text (invocation_id scope); leaf id]).
  change ("/" +:+ join "/" [uuid_text (invocation_id scope); leaf id])
    with (path_of [uuid_text (invocation_id scope); leaf id]).
  rewrite below_prefix by done. apply authorization_path_ok; [done | by apply lease_tail_ok].
Qed.

Lemma lease_index_path_ok scope :
  scope_ok scope -> lease_index_path scope = Ok (path_of ("authorization" :: index_tail scope)).
Proof.
  intros Hs. unfold lease_index_path.
  change "/_lease_index.json" with (path_of ["_lease_index.json"]).
  rewrite below_prefix by done. apply authorization_path_ok; [done | by apply index_tail_ok].
Qed.

Lemma scope_parts_axes scope : scope_parts scope = axes scope \/ scope_parts scope = ["scope"] /\ axes scope = [].
Proof. unfold scope_parts. destruct (axes scope); auto. Qed.

Lemma axes_head scope rest x :
  axes scope <> [] -> hd_error (axes scope ++ rest) = Some x ->
  x ∈ ["agents"; "projects"; "missions"; "threads"].
Proof.
  unfold axes. destruct (agent_id scope), (project_id scope), (mission_id scope), (thread_id scope);
    simpl; try done; intros _ [= <-]; set_solver.
Qed.

Lemma axes_cancel scope scope' rest rest' :
  (forall l, l ∈ ["agents"; "projects"; "missions"; "threads"] -> hd_error rest <> Some l) ->
  (forall l, l ∈ ["agents"; "projects"; "missions"; "threads"] -> hd_error rest' <> Some l) ->
  axes scope ++ rest = axes scope' ++ rest' ->
  agent_id scope = agent_id scope' /\ project_id scope = project_id scope'
  /\ mission_id scope = mission_id scope' /\ thread_id scope = thread_id scope' /\ rest = rest'.
Proof.
  intros Hr Hr'. unfold axes. rewrite <- !app_assoc. intros Heq.
  do 4 (apply axis_cancel in Heq as [-> Heq];
    [| repeat (apply axis_head; [done | ..]); apply Hr || apply Hr'; set_solver
     | repeat (apply axis_head; [done | ..]); apply Hr || apply Hr'; set_solver]).
  done.
Qed.

(** The tail determines the scope below the owner, and the lease. *)
Lemma lease_tail_inj scope scope' id id' :
  lease_tail scope id = lease_tail scope' id' ->
  agent_id scope = agent_id scope' /\ project_id scope = project_id scope'
  /\ mission_id scope = mission_id scope' /\ thread_id scope = thread_id scope'
  /\ invocation_id scope = invocation_id scope' /\ id = id'.
Proof.
  assert (forall n rest l, l ∈ ["agents"; "projects"; "missions"; "threads"] ->
    hd_error (uuid_text n :: rest) <> Some l) as Hu.
  { intros n rest l Hl [= Heq]. revert Heq. apply uuid_not_label.
    rewrite !elem_of_cons, elem_of_nil in Hl. by destruct Hl as [-> | [-> | [-> | [-> | []]]]]. }
  assert (forall s s' i i', axes s <> [] ->
    axes s ++ [uuid_text (invocation_id s); leaf i]
    <> ["scope"] ++ [uuid_text (invocation_id s'); leaf i']) as Hx.
  { intros s s' i i' Hn Heq.
    assert ("scope" ∈ ["agents"; "projects"; "missions"; "threads"]) as Hin
      by (eapply axes_head; [done | by rewrite Heq]).
    rewrite !elem_of_cons, elem_of_nil in Hin. by destruct Hin as [? | [? | [? | [? | []]]]]. }
  unfold lease_tail. intros [= Heq].
  destruct (scope_parts_axes scope) as [Hs | [Hs Ha]], (scope_parts_axes scope') as [Hs' | [Hs' Ha']];
    rewrite Hs, Hs' in Heq.
  - apply axes_cancel in Heq as (-> & -> & -> & -> & [= Hi%uuid_text_inj Hl%leaf_inj]); [| by apply Hu..].
    done.
  - destruct (axes scope) eqn:He; [discriminate Heq |]. exfalso. eapply (Hx scope scope' id id').
    + by rewrite He.
    + by rewrite He.
  - destruct (axes scope') eqn:He; [discriminate Heq |]. exfalso. eapply (Hx scope' scope id' id).
    + by rewrite He.
    + by rewrite He.
  - injection Heq as Hi%uuid_text_inj Hl%leaf_inj. unfold axes in Ha, Ha'.
    destruct (agent_id scope), (agent_id scope'), (project_id scope), (project_id scope'),
      (mission_id scope), (mission_id scope'), (thread_id scope), (thread_id scope'); done.
Qed.

Lemma index_not_lease scope scope' id : index_tail scope <> lease_tail scope' id.
Proof.
  unfold index_tail, lease_tail. intros [= Heq].
  change [uuid_text (invocation_id scope'); leaf id]
    with ([uuid_text (invocation_id scope')] ++ [leaf id]) in Heq.
  rewrite app_assoc in Heq. apply app_inj_tail in Heq as [_ Heq].
  change "_lease_index.json" with ("_lease_index" +:+ ".json") in Heq.
  unfold leaf in Heq. pose proof (uuid_text_chars id) as Hc.
  assert (forall a b, a +:+ ".json" = b +:+ ".json" -> contains_char "." a = false ->
    contains_char "." b = false -> a = b) as Hinj.
  { intros a b Hab Ha Hb. by apply (split_first_sep "." a "json" b "json" Ha Hb) in Hab as [? _]. }
  apply Hinj in Heq; [by rewrite <- Heq in Hc | done | apply uuid_no_dot].
Qed.
End places.
