(* ===== verification/LeaseFsFacts.v ===== *)
(** * The filesystem lease store refines the in-memory one

    Over any backend that keeps versions and declares indexes, whatever other tasks
    do between its reads and writes, a call of the store is the in-memory call on the
    leases the backend holds at one instant. *)

From stdpp Require Import sorting.
From S2P Require Import Prelude Strings Ids Paths Mounts Filesystem Platform HostApi Scoped Cas Composition RunState RunStateFacts RunStateFs Capability Leases LeaseFacts LeaseAuthority LeaseFs.
From Stdlib Require Import Ascii Lia.
Import HostApi.Resource.

(** Declaring an index changes no entry, and its refusal is not a lost race; record
    writes are served. *)
Class IndexedStore (F : Type) `{VersionedStore F} `{!IndexedFilesystem F} := {
  ensure_keeps p s fs r fs' :
    fs_ensure_index p s fs = (r, fs') ->
    same_entries fs fs' /\ forall p' x f, r <> Err (VersionMismatch p' x f);
  put_served p e cas fs p' op fs' : fs_put p e cas fs <> (Err (Unsupported p' op), fs');
}.

#[global, refine] Instance InMemory_indexed_store : IndexedStore InMemory.State := {}.
Proof.
  - intros p s fs r fs'. simpl. unfold InMemory.ensure_index.
    case_bool_decide; [by intros [= <- <-] |]. cbv zeta.
    destruct (List.find _ _); [case_bool_decide |]; by intros [= <- <-].
  - intros p e cas fs p' op fs'. simpl. unfold InMemory.put.
    destruct (existsb _ _); [done |].
    destruct (InMemory.check_cas p cas _) eqn:Hc; [done |]. intros [= -> _].
    unfold InMemory.check_cas in Hc. by repeat case_match.
Defined.

Section facts.
Context `{Platform} {F : Type} `{IndexedStore F} `{UuidText}.
Context `{JsonCodec CapabilityLease} `{JsonCodec CapabilityLeaseIndex}.
Variable resolver : ResourceScope -> Result MountView HostApiError.
Context `{!StoreMounts resolver "authorization"}.
Variable env : nat -> LeaseMoment -> F -> F.
Variable now : nat -> DateTime.

Local Abbreviation storable_ := (storable resolver "authorization" _).
Local Abbreviation root := (root_of resolver "authorization" _).
Local Abbreviation attempt := (update_lease_attempt resolver env now).
Local Abbreviation loop := (update_lease_loop resolver env now).
Local Abbreviation call_fs := (fs_lease_call resolver env now).

(** ** Where leases are *)

Definition lease_place (scope : ResourceScope) (id : CapabilityGrantId) : VirtualPath :=
  path_of (root scope ++ lease_tail scope id).

Lemma key_scope scope scope' id id' :
  lease_key_new scope id = lease_key_new scope' id' -> scope = scope' /\ id = id'.
Proof. destruct scope, scope'. by intros [= -> -> -> -> -> -> -> ->]. Qed.

Lemma under_root_ok scope tail :
  storable_ scope -> Forall segment_ok tail -> Forall segment_ok (root scope ++ tail).
Proof. intros Hs Ht. apply Forall_app. split; [by apply root_segments | done]. Qed.

Lemma under_root_nonempty scope tail : storable_ scope -> root scope ++ tail <> [].
Proof. intros [Hn _]%root_segments. by destruct (root scope). Qed.

Lemma lease_place_inj scope scope' id id' :
  storable_ scope -> storable_ scope' -> lease_place scope id = lease_place scope' id' ->
  scope = scope' /\ id = id'.
Proof.
  intros Hs Hs' Heq. apply path_of_inj in Heq;
    [| apply under_root_ok; [done | by apply lease_tail_ok, storable_axes]..
     | by apply under_root_nonempty | by apply under_root_nonempty].
  apply mounts_apart in Heq as (Ht & Hu & Htl); [| done..].
  apply lease_tail_inj in Htl as (Ha & Hp & Hm & Hth & Hi & ->). split; [| done].
  destruct scope, scope'. simpl in *. by subst.
Qed.

Lemma index_place_not_lease scope scope' id :
  storable_ scope -> storable_ scope' ->
  path_of (root scope ++ index_tail scope) <> lease_place scope' id.
Proof.
  intros Hs Hs' Heq. apply path_of_inj in Heq;
    [| apply under_root_ok; [done | by apply index_tail_ok, storable_axes]
     | apply under_root_ok; [done | by apply lease_tail_ok, storable_axes]
     | by apply under_root_nonempty | by apply under_root_nonempty].
  apply mounts_apart in Heq as (_ & _ & Htl); [| done..]. by apply index_not_lease in Htl.
Qed.

Lemma resolve_lease scope id op :
  storable_ scope -> op = ReadFile \/ op = WriteFile ->
  resolve_with_permission resolver scope (path_of ("authorization" :: lease_tail scope id)) op
  = Ok (lease_place scope id).
Proof. intros Hs Hop. apply mounts_resolve; [done | done | by apply lease_tail_ok, storable_axes]. Qed.

(** Every record is filed under its own scope and id. *)
Definition filed (fs : F) : Prop := forall scope id e v,
  storable_ scope -> entry_at fs (lease_place scope id) = Some (e, v) ->
  exists l, from_slice (body e) = Ok l /\ lease_scope l = scope /\ lease_id l = id.

(** The backend holds the leases of an in-memory store. *)
Definition holds_leases (fs : F) (m : Leases) : Prop := forall scope id, storable_ scope ->
  match entry_at fs (lease_place scope id) with
  | None => m !! lease_key_new scope id = None
  | Some (e, _) =>
      exists l, from_slice (body e) = Ok l /\ m !! lease_key_new scope id = Some l
  end.

(** The same leases in both states; indexes may differ. *)
Definition same_leases (fs fs' : F) : Prop := forall scope id, storable_ scope ->
  entry_at fs' (lease_place scope id) = entry_at fs (lease_place scope id).

Definition lease_others : F -> F -> Prop :=
  rtc (fun fs fs' => same_leases fs fs' \/ exists k m, fs' = env k m fs).

Lemma same_entries_leases fs fs' : same_entries fs fs' -> same_leases fs fs'.
Proof. intros Hs scope id _. apply Hs. Qed.

Lemma leases_step fs fs' : same_leases fs fs' -> lease_others fs fs'.
Proof. intros Hs. apply rtc_once. by left. Qed.

Lemma entries_step fs fs' : same_entries fs fs' -> lease_others fs fs'.
Proof. intros Hs. by apply leases_step, same_entries_leases. Qed.

Lemma env_step k m fs : lease_others fs (env k m fs).
Proof. apply rtc_once. right. eauto. Qed.

Lemma filed_same fs fs' : same_leases fs fs' -> filed fs -> filed fs'.
Proof. intros Hs Hf scope id e v Hsc. rewrite (Hs scope id Hsc). by apply Hf. Qed.

(** Other tasks keep every record under its own scope and id. *)
Definition keeps_filed : Prop := forall k m fs, filed fs -> filed (env k m fs).

(** Between a read and the write of its attempt, other tasks never put a different
    record under the version that was read. *)
Definition no_lease_reincarnation : Prop := forall k fs fs1 q e v e',
  same_entries (env k LmIndex fs) fs1 -> entry_at fs q = Some (e, v) ->
  entry_at (env k LmWrite fs1) q = Some (e', v) -> e' = e.

Lemma filed_others fs fs' : keeps_filed -> lease_others fs fs' -> filed fs -> filed fs'.
Proof.
  intros Hk. induction 1 as [| fs1 fs2 fs3 [Hs | (k & m & ->)] _ IH]; [done | |]; intros Hf; apply IH.
  - by eapply filed_same.
  - by apply Hk.
Qed.

(** ** One write *)

Lemma write_tenant_entry_spec k scope path b cas fs r fs' :
  write_tenant_entry resolver env k scope path b cas fs = (r, fs') ->
  (exists e, r = Err e /\ (exists reason, e = LeasePersistence reason) /\ lease_others fs fs')
  \/ exists fs1, same_entries (env k LmIndex fs) fs1
       /\ match r with
          | Ok _ => wrote_once resolver scope path cas (tenant_entry scope b) (env k LmWrite fs1) fs'
          | Err e => e = LeaseVersionMismatch /\ same_entries (env k LmWrite fs1) fs'
              /\ exists vp, resolve_with_permission resolver scope path WriteFile = Ok vp
                   /\ ~ cas_holds cas (entry_at (env k LmWrite fs1) vp)
          end.
Proof.
  unfold write_tenant_entry. destruct (lease_owner_prefix scope) as [prefix | e] eqn:Hpre.
  2:{ intros [= <- <-]. left. exists e. split; [done |]. split; [| reflexivity].
      unfold lease_owner_prefix, lease_scoped_path in Hpre. destruct (scoped_path_new _); [done |].
      injection Hpre as <-. by eexists. }
  destruct (ensure_tenant_id_index _ _ _ _) as [ri fs1] eqn:Hi.
  assert (same_entries (env k LmIndex fs) fs1
          /\ forall e, ri = Err e -> exists reason, e = LeasePersistence reason) as [Hs Hri].
  { revert Hi. unfold ensure_tenant_id_index, scoped_ensure_index, guarded.
    destruct (resolve_with_permission _ _ _ _) as [vp | e] eqn:Hres.
    - destruct (fs_ensure_index _ _ _) as [r1 fs2] eqn:He. apply ensure_keeps in He as [Hs Hn].
      destruct r1 as [[] | e]; [by intros [= <- <-] |].
      destruct e; intros [= <- <-]; (split; [done |]); intros e' [= <-]; try by eexists.
      by destruct (Hn path0 expected found).
    - assert (forall p' x f, e <> VersionMismatch p' x f) as Hn.
      { intros p' x f ->. revert Hres.
        unfold resolve_with_permission, mount_view, resolve_with_permission_view.
        destruct (resolver scope); simpl; [| done]. destruct (resolve_with_grant _ _) as [[??] |]; [| done].
        by case_match. }
      destruct e; intros [= <- <-]; (split; [done |]); intros e' [= <-]; try by eexists.
      by destruct (Hn path0 expected found). }
  assert (lease_others fs fs1) as Ho by (etrans; [apply env_step | by apply entries_step]).
  destruct ri as [[] | e].
  2:{ intros [= <- <-]. left. exists e. auto. }
  unfold put_or_opaque. destruct (scoped_put _ _ _ _ _ _) as [rp fs2] eqn:Hp.
  pose proof Hp as Hsp. apply scoped_put_spec in Hsp. destruct rp as [v | e].
  { intros [= <- <-]. right. by exists fs1. }
  destruct Hsp as [Hs2 Hmis].
  assert (lease_others fs fs2) as Ho2
    by (etrans; [exact Ho |]; etrans; [apply env_step | by apply entries_step]).
  destruct e; try (intros [= <- <-]; left; eexists; by eauto).
  - intros [= <- <-]. right. exists fs1. split; [done |]. split; [done |]. split; [done |].
    apply Hmis. eauto.
  - exfalso. revert Hp. unfold scoped_put, guarded.
    destruct (resolve_with_permission _ _ _ _) eqn:Hres; [apply put_served |].
    intros [= -> _]. revert Hres.
    unfold resolve_with_permission, mount_view, resolve_with_permission_view.
    destruct (resolver scope); simpl; [| done]. destruct (resolve_with_grant _ _) as [[??] |]; [| done].
    by case_match.
Qed.

(** A lease written over the instant [fs], at its own place. *)
Definition wrote_lease (l : CapabilityLease) (cas : CasExpectation) (fs fs' : F) : Prop :=
  let place := lease_place (lease_scope l) (lease_id l) in
  cas_holds cas (entry_at fs place)
  /\ (exists e v, entry_at fs' place = Some (e, v) /\ from_slice (body e) = Ok l)
  /\ forall q, q <> place -> entry_at fs' q = entry_at fs q.

Lemma write_lease_raw_spec k l cas fs r fs' :
  storable_ (lease_scope l) ->
  write_lease_raw resolver env k l cas fs = (r, fs') ->
  (exists e, r = Err e /\ (exists reason, e = LeasePersistence reason) /\ lease_others fs fs')
  \/ exists fs1, same_entries (env k LmIndex fs) fs1
       /\ match r with
          | Ok _ => wrote_lease l cas (env k LmWrite fs1) fs'
          | Err e => e = LeaseVersionMismatch /\ same_entries (env k LmWrite fs1) fs'
              /\ ~ cas_holds cas (entry_at (env k LmWrite fs1) (lease_place (lease_scope l) (lease_id l)))
          end.
Proof.
  intros Hs. unfold write_lease_raw. rewrite lease_path_ok by by apply storable_axes.
  unfold lease_serialize_pretty. destruct (to_vec_pretty l) as [b | reason] eqn:Hb.
  2:{ intros [= <- <-]. left. eexists. split; [done |]. split; [eauto | reflexivity]. }
  intros [? | (fs1 & Hs1 & Hr)]%write_tenant_entry_spec; [by left | right]. exists fs1. split; [done |].
  destruct r as [[] | e].
  - destruct Hr as (vp & v & Hvp & Hc & Hnew & Hold).
    rewrite resolve_lease in Hvp by auto. injection Hvp as <-.
    split; [done |]. split; [| done]. exists (tenant_entry (lease_scope l) b), v. split; [done |].
    by apply json_roundtrip.
  - destruct Hr as (-> & Hsame & vp & Hvp & Hn). rewrite resolve_lease in Hvp by auto.
    by injection Hvp as <-.
Qed.

Lemma wrote_lease_holds l cas fs fs' m :
  storable_ (lease_scope l) -> wrote_lease l cas fs fs' -> holds_leases fs m ->
  holds_leases fs' (<[own_key l := l]> m).
Proof.
  intros Hs (_ & (e & v & Hnew & Hd) & Hold) Hm scope id Hsc.
  destruct (decide (lease_place scope id = lease_place (lease_scope l) (lease_id l))) as [Heq | Hne].
  - rewrite Heq, Hnew. apply lease_place_inj in Heq as [-> ->]; [| done..].
    exists l. split; [done |]. apply lookup_insert_eq.
  - rewrite Hold by done. rewrite lookup_insert_ne; [by apply Hm |].
    intros [Hk1 Hk2]%key_scope. apply Hne. congruence.
Qed.

Lemma wrote_lease_filed l cas fs fs' :
  storable_ (lease_scope l) -> wrote_lease l cas fs fs' -> filed fs -> filed fs'.
Proof.
  intros Hs (_ & (e & v & Hnew & Hd) & Hold) Hf scope id e' v' Hsc He.
  destruct (decide (lease_place scope id = lease_place (lease_scope l) (lease_id l))) as [Heq | Hne].
  - rewrite Heq, Hnew in He. injection He as <- <-.
    apply lease_place_inj in Heq as [-> ->]; [| done..]. by exists l.
  - rewrite Hold in He by done. by eapply Hf.
Qed.

(** ** One attempt *)

(** The refusals of the store's own logic. *)
Definition lease_refusal (e : CapabilityLeaseError) : bool :=
  match e with LeasePersistence _ | LeaseVersionMismatch | LeaseCasExhausted => false | _ => true end.

(** A transition of a lease: it stays the same lease, and errors are refusals. *)
Record lawful (f : Transition) : Prop := {
  lawful_keeps t l l' : f t l = Ok l' -> lease_scope l' = lease_scope l /\ lease_id l' = lease_id l;
  lawful_refuses t l e : f t l = Err e -> lease_refusal e = true;
}.

Lemma call_lawful call : is_issue call = false -> lawful (call_transition call).
Proof.
  intros Hi. split.
  - intros t l l' Hf. apply transition_own_key in Hf; [| done].
    by apply key_scope in Hf as [-> ->].
  - intros t l e. destruct call; simpl; try done;
      unfold to_revoked, to_claimed, to_consumed, ensure_claimable, ensure_consumable,
        apply_begin_dispatch_claimed_transition, apply_abort_dispatch_claimed_transition,
        ensure_not_expired_or_exhausted; repeat (case_match; simpl); by intros [= <-].
Qed.

Lemma read_lease_versioned_spec k scope id fs r fs' :
  storable_ scope -> read_lease_versioned resolver env k scope id fs = (r, fs') ->
  lease_others fs fs'
  /\ match r with
     | Ok None => entry_at fs' (lease_place scope id) = None
     | Ok (Some (l, v)) =>
         exists e, entry_at fs' (lease_place scope id) = Some (e, v) /\ from_slice (body e) = Ok l
     | Err e => lease_refusal e = false /\ e <> LeaseCasExhausted
     end.
Proof.
  intros Hs. unfold read_lease_versioned. rewrite lease_path_ok by by apply storable_axes.
  unfold scoped_get, guarded. rewrite resolve_lease by auto.
  destruct (fs_get _ _) as [[found | e] fs1] eqn:Hg; apply get_reads in Hg as [Hsame Hf].
  - specialize (Hf found eq_refl).
    assert (lease_others fs fs1) as Ho by (etrans; [apply env_step | by apply entries_step]).
    rewrite <- Hsame in Hf. destruct found as [ve |]; simpl in Hf.
    + unfold lease_deserialize. destruct (from_slice _) as [l | reason] eqn:Hd; intros [= <- <-];
        (split; [done |]); [| done]. by exists (ve_entry ve).
    + by intros [= <- <-].
  - intros [= <- <-]. split; [etrans; [apply env_step | by apply entries_step] |]. by destruct e.
Qed.

Section update.
Variables (scope : ResourceScope) (id : CapabilityGrantId) (f : Transition).
Hypothesis scope_storable : storable_ scope.
Hypothesis f_lawful : lawful f.
Hypothesis env_filed : keeps_filed.

Local Abbreviation place := (lease_place scope id).
Local Abbreviation key := (lease_key_new scope id).

(** The call took effect at the instant [moment]. *)
Definition takes_effect (t : DateTime) (l' : CapabilityLease) (moment fs' : F) : Prop :=
  forall m, holds_leases moment m ->
    lease_update t scope id f m = (Ok l', <[key := l']> m)
    /\ holds_leases fs' (<[key := l']> m).

Lemma holds_at fs m e v l :
  holds_leases fs m -> entry_at fs place = Some (e, v) -> from_slice (body e) = Ok l ->
  m !! key = Some l.
Proof using scope_storable.
  intros Hm He Hd. specialize (Hm scope id scope_storable). rewrite He in Hm.
  destruct Hm as (l0 & Hd0 & Hk). congruence.
Qed.

(** The [k]-th attempt, begun at [fs], lost a race for this lease: it read a version of
    the record that, when the backend refused its write, was no longer there. *)
Definition raced (k : nat) (fs fs' : F) : Prop :=
  exists l v fs1 fs2,
    read_lease_versioned resolver env k scope id fs = (Ok (Some (l, v)), fs1)
    /\ (exists e, entry_at fs1 place = Some (e, v))
    /\ same_entries (env k LmIndex fs1) fs2 /\ same_entries (env k LmWrite fs2) fs'
    /\ forall e, entry_at fs' place <> Some (e, v).

(** Lost attempts in a row, each begun where the one before it ended. *)
Inductive lost_attempts : nat -> F -> nat -> F -> Prop :=
  | lost_none k fs : lost_attempts k fs k fs
  | lost_one k fs fs1 j fs2 :
      attempt k scope id f fs = (None, fs1) -> raced k fs fs1 ->
      lost_attempts (S k) fs1 j fs2 -> lost_attempts k fs j fs2.

Lemma attempt_spec k fs o fs' :
  filed fs -> attempt k scope id f fs = (o, fs') ->
  filed fs'
  /\ match o with
     | Some (Ok l') => no_lease_reincarnation ->
         exists moment, lease_others fs moment /\ takes_effect (now k) l' moment fs'
     | Some (Err e) =>
         lease_others fs fs' /\ e <> LeaseCasExhausted
         /\ (lease_refusal e = true -> forall m, holds_leases fs' m ->
               lease_update (now k) scope id f m = (Err e, m))
     | None => lease_others fs fs' /\ raced k fs fs'
     end.
Proof using H2 scope_storable f_lawful env_filed.
  intros Hf. unfold update_lease_attempt.
  destruct (read_lease_versioned _ _ _ _ _ _) as [r fs1] eqn:Hread.
  pose proof Hread as [Ho1 Hr]%read_lease_versioned_spec; [| done].
  pose proof (filed_others _ _ env_filed Ho1 Hf) as Hf1. destruct r as [[[l v] |] | e].
  2:{ intros [= <- <-]. split; [done |]. split; [done |]. split; [done |]. intros _ m Hm.
      specialize (Hm scope id scope_storable). rewrite Hr in Hm.
      unfold lease_update. by rewrite Hm. }
  2:{ intros [= <- <-]. destruct Hr as [Hr1 Hr2]. split; [done |]. split; [done |].
      split; [done |]. by rewrite Hr1. }
  destruct Hr as (e & He & Hd).
  destruct (Hf1 scope id e v scope_storable He) as (l0 & Hd0 & Hsc & Hid).
  assert (l0 = l) as -> by congruence.
  destruct (f (now k) l) as [l' | err] eqn:Hfl.
  2:{ intros [= <- <-]. split; [done |]. split; [done |].
      pose proof (lawful_refuses f f_lawful _ _ _ Hfl) as Href.
      split; [by intros -> |]. intros _ m Hm. unfold lease_update.
      by rewrite (holds_at fs1 m e v l Hm He Hd), Hfl. }
  pose proof (lawful_keeps f f_lawful _ _ _ Hfl) as [Hsc' Hid'].
  rewrite Hsc in Hsc'. rewrite Hid in Hid'.
  assert (storable_ (lease_scope l')) as Hst by by rewrite Hsc'.
  destruct (write_lease_raw _ _ _ _ _ _) as [rw fs2] eqn:Hw.
  apply write_lease_raw_spec in Hw as [(e' & -> & [reason ->] & Ho2) | (fs3 & Hs3 & Hr)]; [| | done].
  { intros [= <- <-].
    assert (lease_others fs fs2) as Ho by (by etrans).
    split; [by eapply filed_others |]. split; [done |]. by split. }
  rewrite Hsc', Hid' in Hr. assert (lease_others fs1 (env k LmWrite fs3)) as Ho3.
  { etrans; [apply env_step |]. etrans; [by apply entries_step | apply env_step]. }
  pose proof (filed_others _ _ env_filed Ho3 Hf1) as Hf3. destruct rw as [[] | e'].
  - intros [= <- <-]. split; [by eapply wrote_lease_filed |].
    intros env_fresh. exists (env k LmWrite fs3). split; [by etrans |]. intros m Hm.
    pose proof Hr as ([e' Hc] & _). rewrite Hsc', Hid' in Hc.
    assert (e' = e) as -> by (by eapply env_fresh).
    unfold lease_update. rewrite (holds_at _ m e v l Hm Hc Hd), Hfl. split; [done |].
    pose proof (wrote_lease_holds _ _ _ _ m Hst Hr Hm) as Hh. unfold own_key in Hh.
    by rewrite Hsc', Hid' in Hh.
  - destruct Hr as (-> & Hs & Hn). intros [= <- <-].
    assert (lease_others fs fs2) as Ho
      by (etrans; [exact Ho1 |]; etrans; [exact Ho3 | by apply entries_step]).
    split; [by eapply filed_others |]. split; [done |]. exists l, v, fs1, fs3.
    split; [done |]. split; [by exists e |]. split; [done |]. split; [done |].
    intros e' He'. apply Hn. exists e'. by rewrite <- Hs.
Qed.

Lemma loop_spec n k fs r fs' :
  filed fs -> loop n k scope id f fs = (r, fs') ->
  filed fs'
  /\ match r with
     | Ok l' => no_lease_reincarnation ->
         exists j moment, lease_others fs moment /\ takes_effect (now j) l' moment fs'
     | Err e =>
         lease_others fs fs'
         /\ (lease_refusal e = true -> exists j, forall m, holds_leases fs' m ->
               lease_update (now j) scope id f m = (Err e, m))
     end.
Proof using H2 scope_storable f_lawful env_filed.
  revert k fs. induction n as [| n IH]; intros k fs Hf; simpl.
  - intros [= <- <-]. split; [done |]. by split; [reflexivity |].
  - destruct (attempt k scope id f fs) as [o fs1] eqn:Ha.
    apply attempt_spec in Ha as [Hf1 Ha]; [| done]. destruct o as [[l' | e] |].
    + intros [= <- <-]. split; [done |]. intros Hn.
      destruct (Ha Hn) as (moment & Ho & Ht). by exists k, moment.
    + intros [= <- <-]. split; [done |]. destruct Ha as (Ho & Hne & Hr). split; [done |].
      intros He. exists k. by apply Hr.
    + destruct Ha as [Ho _]. intros Hl. apply IH in Hl as [Hf2 Hr]; [| done].
      split; [done |]. destruct r as [l' | e].
      * intros Hn. destruct (Hr Hn) as (j & moment & Ho2 & Ht). exists j, moment. split; [by etrans | done].
      * destruct Hr as (Ho2 & Hr). by split; [etrans |].
Qed.

(** The loop is lost attempts, and then the attempt that decides, or none is left. *)
Lemma loop_attempts n k fs r fs' :
  filed fs -> loop n k scope id f fs = (r, fs') ->
  exists j fsj, lost_attempts k fs j fsj
    /\ (j < k + n /\ attempt j scope id f fsj = (Some r, fs') /\ r <> Err LeaseCasExhausted
        \/ j = k + n /\ fs' = fsj /\ r = Err LeaseCasExhausted).
Proof using H2 scope_storable f_lawful env_filed.
  revert k fs. induction n as [| n IH]; intros k fs Hf; simpl.
  - intros [= <- <-]. exists k, fs. split; [constructor | right]. by rewrite Nat.add_0_r.
  - destruct (attempt k scope id f fs) as [o fs1] eqn:Ha.
    pose proof (attempt_spec _ _ _ _ Hf Ha) as [Hf1 Hs]. destruct o as [r' |].
    + intros [= <- <-]. exists k, fs. split; [constructor | left]. split; [lia |]. split; [done |].
      destruct r' as [l' | e]; [done |]. destruct Hs as (_ & Hne & _). congruence.
    + intros Hl. destruct (IH _ _ Hf1 Hl) as (j & fsj & Hlost & Hend). exists j, fsj.
      split; [by eapply lost_one; [| apply Hs |] |].
      destruct Hend as [(Hj & ?) | (-> & ?)]; [left | right]; split; [lia | done | lia | done].
Qed.
End update.

(** ** The calls *)

Definition call_scope (call : LeaseCall) : ResourceScope :=
  match call with
  | Issue l => lease_scope l
  | Revoke scope _ | Claim scope _ _ | Consume scope _ | BeginDispatch scope _ _
  | AbortDispatch scope _ => scope
  end.

Definition call_id (call : LeaseCall) : CapabilityGrantId :=
  match call with
  | Issue l => lease_id l
  | Revoke _ id | Claim _ id _ | Consume _ id | BeginDispatch _ id _ | AbortDispatch _ id => id
  end.

Lemma call_is_update call :
  is_issue call = false ->
  (forall fs, call_fs call fs
     = loop CAS_RETRY_ATTEMPTS 0 (call_scope call) (call_id call) (call_transition call) fs)
  /\ forall t m, lease_call t call m
     = lease_update t (call_scope call) (call_id call) (call_transition call) m.
Proof. by destruct call. Qed.

Lemma scoped_get_same scope p fs r fs' :
  scoped_get resolver scope p fs = (r, fs') -> same_entries fs fs'.
Proof.
  unfold scoped_get, guarded. destruct (resolve_with_permission _ _ _ _).
  - by intros [Hs _]%get_reads.
  - by intros [= _ <-].
Qed.

(** The backend's own errors. *)
Definition transient (e : CapabilityLeaseError) : bool :=
  match e with LeasePersistence _ | LeaseVersionMismatch => true | _ => false end.

Lemma transient_no_refusal e : transient e = true -> lease_refusal e = false /\ e <> LeaseCasExhausted.
Proof. by destruct e. Qed.

(** The index of an owner is no lease. *)
Lemma index_lease_path_spec scope p fs r fs' :
  storable_ scope -> index_lease_path resolver env scope p fs = (r, fs') ->
  lease_others fs fs' /\ forall e, r = Err e -> transient e = true.
Proof.
  intros Hs. unfold index_lease_path.
  destruct (read_lease_index _ _ _ _) as [ri fs1] eqn:Hri.
  assert (lease_others fs fs1 /\ forall e, ri = Err e -> transient e = true) as [Ho1 He1].
  { revert Hri. unfold read_lease_index. rewrite lease_index_path_ok by by apply storable_axes.
    destruct (scoped_get _ _ _ _) as [[[ve |] | e] fs2] eqn:Hg;
      apply scoped_get_same in Hg; intros [= <- <-];
      (split; [etrans; [apply env_step | by apply entries_step] |]); intros e' He'; try done.
    - unfold lease_deserialize in He'. destruct (from_slice _); [done |]. by injection He' as <-.
    - injection He' as <-. by destruct e. }
  destruct ri as [found | e]; [| intros [= <- <-]; split; [done | intros e' [= <-]; by apply He1]].
  cbv zeta. unfold write_lease_index. rewrite lease_index_path_ok by by apply storable_axes.
  unfold lease_serialize_pretty. destruct (to_vec_pretty _) as [b | reason].
  2:{ intros [= <- <-]. split; [done |]. by intros e [= <-]. }
  intros [(e & -> & [reason ->] & Ho2) | (fs2 & Hs2 & Hr)]%write_tenant_entry_spec.
  { split; [by etrans |]. by intros e [= <-]. }
  assert (lease_others fs1 (env 0 LmWrite fs2)) as Ho2.
  { etrans; [apply env_step |]. etrans; [by apply entries_step | apply env_step]. }
  destruct r as [[] | e].
  - destruct Hr as (vp & v & Hvp & _ & _ & Hold). rewrite mounts_resolve in Hvp;
      [| done | auto | by apply index_tail_ok, storable_axes]. injection Hvp as <-.
    split; [| done]. etrans; [exact Ho1 |]. etrans; [exact Ho2 |]. apply leases_step.
    intros scope' id' Hs'. apply Hold. intros Heq. symmetry in Heq.
    by apply index_place_not_lease in Heq.
  - destruct Hr as (-> & Hsame & _). split; [| by intros e [= <-]].
    etrans; [exact Ho1 |]. etrans; [exact Ho2 | by apply entries_step].
Qed.

(** Issuing is the insertion of the lease at the instant of its write. *)
Lemma issue_linearizes l fs r fs' :
  storable_ (lease_scope l) -> keeps_filed -> filed fs ->
  fs_lease_issue resolver env l fs = (r, fs') ->
  filed fs'
  /\ match r with
     | Ok l' => l' = l /\ exists moment, lease_others fs moment
         /\ forall m, holds_leases moment m -> holds_leases fs' (<[own_key l := l]> m)
     | Err e => lease_others fs fs' /\ transient e = true
     end.
Proof.
  intros Hs Hk Hf. unfold fs_lease_issue. rewrite lease_path_ok by by apply storable_axes.
  destruct (index_lease_path _ _ _ _ _) as [ri fs1] eqn:Hi.
  apply index_lease_path_spec in Hi as [Ho1 He1]; [| done].
  pose proof (filed_others _ _ Hk Ho1 Hf) as Hf1. destruct ri as [[] | e].
  2:{ intros [= <- <-]. split; [done |]. split; [done | by apply He1]. }
  unfold write_lease. destruct (write_lease_raw _ _ _ _ _ _) as [rw fs2] eqn:Hw.
  apply write_lease_raw_spec in Hw as [(e & -> & [reason ->] & Ho2) | (fs3 & Hs3 & Hr)]; [| | done].
  { intros [= <- <-]. assert (lease_others fs fs2) as Ho by (by etrans).
    split; [by eapply filed_others |]. by split. }
  assert (lease_others fs (env 1 LmWrite fs3)) as Ho3.
  { etrans; [exact Ho1 |]. etrans; [apply env_step |]. etrans; [by apply entries_step | apply env_step]. }
  pose proof (filed_others _ _ Hk Ho3 Hf) as Hf3. destruct rw as [[] | e]; intros [= <- <-].
  - split; [by eapply wrote_lease_filed |]. split; [done |]. exists (env 1 LmWrite fs3).
    split; [done |]. intros m Hm. by eapply wrote_lease_holds.
  - destruct Hr as (-> & Hsame & _).
    assert (lease_others fs fs2) as Ho by (etrans; [exact Ho3 | by apply entries_step]).
    split; [by eapply filed_others |]. by split.
Qed.

(** [C21] The filesystem lease store is linearizable to the in-memory one, over a backend
    that keeps versions and serves record writes.  Provided that other tasks and
    processes, whatever else they do between its reads and writes, keep every record
    under its own scope and id and never put a different record under a version a call
    has read (by deleting and re-creating it; without this the claim is false,
    [Cas.recreated_record_is_overwritten]): a call that succeeds is, at one instant, the
    in-memory call on the leases the backend holds then, and changes no other lease; a
    refusal is the in-memory refusal on the leases held at the end; and a call that fails
    changes no lease. *)
Theorem fs_leases_linearizable call fs r fs' :
  keeps_filed -> no_lease_reincarnation -> filed fs -> storable_ (call_scope call) ->
  call_fs call fs = (r, fs') ->
  filed fs'
  /\ match r with
     | Ok l => exists k moment, lease_others fs moment
         /\ forall m, holds_leases moment m -> exists m',
              lease_call (now k) call m = (Ok l, m') /\ holds_leases fs' m'
     | Err e => lease_others fs fs'
         /\ (lease_refusal e = true -> exists k, forall m, holds_leases fs' m ->
              lease_call (now k) call m = (Err e, m))
     end.
Proof.
  intros Hk Hn Hf Hs Hrun. destruct (is_issue call) eqn:Hi.
  - destruct call as [l | | | | |]; try done.
    apply issue_linearizes in Hrun as [Hf' Hr]; [| done..]. split; [done |]. destruct r as [l' | e].
    + destruct Hr as (-> & moment & Ho & Hh). exists 0, moment. split; [done |]. intros m Hm.
      exists (<[own_key l := l]> m). split; [done | by apply Hh].
    + destruct Hr as [Ho [Hr _]%transient_no_refusal]. split; [done |]. by rewrite Hr.
  - destruct (call_is_update call Hi) as [Hc Hm]. rewrite Hc in Hrun.
    apply loop_spec in Hrun as [Hf' Hr]; [| done | by apply call_lawful | done..].
    split; [done |]. destruct r as [l' | e].
    + destruct (Hr Hn) as (k & moment & Ho & Ht). exists k, moment. split; [done |]. intros m Hh.
      eexists. rewrite Hm. by apply Ht.
    + destruct Hr as (Ho & Hr). split; [done |]. intros He.
      destruct (Hr He) as [k Hx]. exists k. intros m Hh. rewrite Hm. by apply Hx.
Qed.

(** [C31] A lease call ends.  As long as other tasks keep every record under its own
    scope and id: a revocation, claim, consumption, beginning or putting back is at most
    three attempts, each begun where the one before it ended.  All but the last lost a
    race: each read a version of this very lease that another task had replaced or
    removed when the backend refused its write.  It reports [CasExhausted] when three
    attempts were lost, and otherwise the answer of the attempt that was not, so one
    attempt without interference is enough.  Issuing has no loop, and never reports it. *)
Theorem lease_calls_terminate call fs r fs' :
  keeps_filed -> filed fs -> storable_ (call_scope call) ->
  call_fs call fs = (r, fs') ->
  if is_issue call then r <> Err LeaseCasExhausted
  else exists j fsj,
    lost_attempts (call_scope call) (call_id call) (call_transition call) 0 fs j fsj
    /\ (j < 3 /\ attempt j (call_scope call) (call_id call) (call_transition call) fsj = (Some r, fs')
         /\ r <> Err LeaseCasExhausted
        \/ j = 3 /\ fs' = fsj /\ r = Err LeaseCasExhausted).
Proof.
  intros Hk Hf Hs Hrun. destruct (is_issue call) eqn:Hi.
  - destruct call as [l | | | | |]; try done.
    apply issue_linearizes in Hrun as [_ Hr]; [| done..].
    destruct r as [| e]; [done |]. destruct Hr as [_ [_ Hne]%transient_no_refusal]. congruence.
  - destruct (call_is_update call Hi) as [Hc _]. rewrite Hc in Hrun.
    by apply loop_attempts in Hrun; [| done | by apply call_lawful | |].
Qed.
End facts.
