(* ===== verification/LeaseFsDemo.v ===== *)
(** * Approvals and the filesystem lease store: concrete runs

    A pending dispatch request over the in-memory stores, and over a lease store whose
    first calls fail.  The production mount views serve the [/authorization] alias;
    another process that writes the same lease between a read and its write shows the
    retry loop at work, and that the hypotheses of its theorems can hold. *)

From stdpp Require Import sorting.
From S2P Require Import Prelude Strings Ids Paths Mounts Filesystem Platform HostApi Scoped Cas Composition RunState RunStateFacts RunStateFs RunStateDemo Capability Obligations AuthorizeDemo Leases LeaseFacts LeaseAuthority Actions Approvals ApprovalFacts LeaseFs LeaseFsFacts.
From Stdlib Require Import Ascii Lia.
Import HostApi.Resource.

Section demo.
#[local] Existing Instance TestPlatform.

Abbreviation Memory := (gmap ScopedKey (ApprovalRecord RequestBody) * Leases)%type.

(** ** A lease store that refuses its next [n] leases *)

#[global, refine] Instance flaky_stores : ResolverStores (Memory * nat) := {|
  approvals_view w := w.1.1;
  leases_view w := w.1.2;
  w_get scope id w := let '(r, m) := w_get scope id w.1 in (r, (m, w.2));
  w_approve scope id w := let '(r, m) := w_approve scope id w.1 in (r, (m, w.2));
  w_deny scope id w := let '(r, m) := w_deny scope id w.1 in (r, (m, w.2));
  w_issue l w :=
    match w.2 with
    | 0 => let '(r, m) := w_issue l w.1 in (r, (m, 0))
    | S n => (Err (LeasePersistence "store unavailable"), (w.1, n))
    end;
|}.
Proof.
  - intros scope id [w n] r w'. cbn [fst snd]. destruct (w_get scope id w) as [r0 m] eqn:Hg.
    intros [= <- <-]. exact (w_get_reads scope id w r0 m Hg).
  - intros scope id [w n] r w'. cbn [fst snd]. destruct (w_approve scope id w) as [r0 m] eqn:Hg.
    intros [= <- <-]. exact (w_approve_decides scope id w r0 m Hg).
  - intros scope id [w n] r w'. cbn [fst snd]. destruct (w_deny scope id w) as [r0 m] eqn:Hg.
    intros [= <- <-]. exact (w_deny_decides scope id w r0 m Hg).
  - intros lease [w n] r w'. cbn [fst snd]. destruct n as [| n].
    + destruct (w_issue lease w) as [r0 m] eqn:Hg. intros [= <- <-].
      exact (w_issue_inserts lease w r0 m Hg).
    + intros [= <- <-]. split; [done | by left].
Defined.

(** ** The request *)

Definition fetch_request : ApprovalRecord RequestBody := {|
  approval_scope := alice_scope;
  approval_request := {| request_id := 9;
    request_payload := request_body 3 (AgentPrincipal "helper")
      (ActDispatch "web.fetch" small_estimate) (Some "fp") "fetch a page" None |};
  approval_status := Pending |}.

Definition fetch_key : ScopedKey := key_new alice_scope 9.

Definition asked : Memory := (<[fetch_key := fetch_request]> ∅, ∅).

Definition terms : LeaseApproval := {|
  la_issued_by := UserPrincipal "alice";
  la_constraints := constraints (lease_grant (permit None (Some 1%N))) |}.

(** The lease of the approved request. *)
Definition fetch_lease (fresh : CapabilityGrantId) : CapabilityLease :=
  lease_for fresh (with_approval_status Approved fetch_request) "web.fetch" terms "fp".

Definition alone {W} : nat -> W -> W := fun _ w => w.

Lemma alone_keeps {W} `{!ResolverStores W} : requests_kept (alone (W := W)).
Proof. intros i k w x Hx. by exists x. Qed.

Lemma alone_decided {W} `{!ResolverStores W} : decided_kept (alone (W := W)).
Proof. by intros i k w x Hx _. Qed.

Definition approved_run :=
  approve_capability_action (alone (W := Memory)) true 1 50%Z 5 alice_scope 9 terms ForDispatch asked.

Lemma approved_answer : approved_run.1.1 = Ok (fetch_lease 5).
Proof. vm_refl. Qed.

Lemma approval_backs_lease_witness :
  exists before record, approvals_view (W := Memory) before !! fetch_key = Some record
    /\ approval_status record = Pending.
Proof.
  destruct approved_run as [[r w'] audits] eqn:Hrun.
  assert (r = Ok (fetch_lease 5)) as Hr by (rewrite <- approved_answer, Hrun; reflexivity).
  pose proof (approval_backs_lease (alone (W := Memory)) true 1 50%Z 5 alice_scope 9 terms ForDispatch
    asked r w' audits alone_keeps Hrun) as Hb.
  rewrite Hr in Hb. destruct Hb as [(before & _ & record & _ & _ & Hin & Hp & _) _].
  exists before, record. split; [exact Hin | exact Hp].
Defined.

(** The store refuses the first lease, and answers the retry. *)
Definition flaky_run :=
  approve_capability_action (alone (W := Memory * nat)) true 1 50%Z 5 alice_scope 9 terms ForDispatch
    (asked, 1).

Lemma flaky_answer :
  flaky_run.1.1 = Err (ResolveLease (LeasePersistence "store unavailable")).
Proof. vm_refl. Qed.

Lemma lost_lease_recovered_witness :
  flaky_run.1.2.1.1 !! fetch_key = Some (with_approval_status Approved fetch_request)
  /\ leases_view flaky_run.1.2 = ∅
  /\ (retry_lease_issue_for_action (alone (W := Memory * nat)) true 1 60%Z 6 alice_scope 9 terms
        ForDispatch flaky_run.1.2).1.1 = Ok (fetch_lease 6).
Proof.
  assert (flaky_run.1.2.1.1 !! fetch_key = Some (with_approval_status Approved fetch_request)) as Happ
    by vm_refl.
  split; [exact Happ |]. split; [by vm_refl |].
  destruct flaky_run as [[r w'] audits] eqn:Hrun.
  assert (r = Err (ResolveLease (LeasePersistence "store unavailable"))) as Hr
    by (rewrite <- flaky_answer, Hrun; reflexivity).
  rewrite Hr in Hrun.
  destruct (lost_lease_recovered (alone (W := Memory * nat)) true 1 50%Z 5 alice_scope 9 terms
    ForDispatch (asked, 1) _ w' audits alone_keeps alone_decided (fun _ _ => eq_refl) Hrun)
    as (_ & record & capability & fp & _ & _ & _ & _).
  assert ((retry_lease_issue_for_action (alone (W := Memory * nat)) true 1 60%Z 6 alice_scope 9 terms
        ForDispatch flaky_run.1.2).1.1 = Ok (fetch_lease 6)) as Hx by vm_refl.
  rewrite Hrun in Hx. exact Hx.
Defined.

Lemma one_approval_one_use_witness :
  (approve_capability_action (fun _ w => w) true 1 50%Z 6 alice_scope 9 terms ForDispatch
    approved_run.1.2).1.1 = Err (NotPending Approved).
Proof.
  destruct approved_run as [[r w'] audits] eqn:Hrun.
  assert (r = Ok (fetch_lease 5)) as Hr by (rewrite <- approved_answer, Hrun; reflexivity).
  rewrite Hr in Hrun.
  destruct (one_approval_one_use true 1 50%Z 5 alice_scope 9 terms ForDispatch asked (fetch_lease 5)
    w' audits Hrun) as [_ Hagain].
  destruct (Hagain w' eq_refl) as [Ha _].
  exact (f_equal (fun x => x.1.1) (Ha 6%N terms ForDispatch)).
Defined.
End demo.


#[export] Instance authorization_mounts slack :
  StoreMounts (invocation_mount_view slack) "authorization" :=
  production_mounts slack "authorization" ltac:(unfold per_user_labels; set_solver).

#[export] Instance CapabilityLeaseIndex_eq_dec : EqDecision CapabilityLeaseIndex.
Proof. solve_decision. Defined.

(** A text of the records of a countable family. *)
#[refine] Definition family_codec {A B} `{Countable B} `{!EqDecision A} (make : B -> A)
    (parts : A -> B) : JsonCodec A := {|
  to_vec_pretty a :=
    if decide (a = make (parts a)) then Ok (positive_text (encode (parts a)))
    else Err "not of the family";
  from_slice b :=
    match text_positive b ≫= decode with
    | Some p => Ok (make p)
    | None => Err "not a record"
    end;
|}.
Proof.
  intros a b. case_decide as Ha; [| done]. intros [= <-].
  rewrite text_positive_text. simpl. by rewrite decode_encode, <- Ha.
Defined.

Section demo.
#[local] Existing Instance TestPlatform.

Definition status_number (s : CapabilityLeaseStatus) : nat :=
  match s with
  | LeaseActive => 0 | LeaseClaimed => 1 | LeaseDispatching => 2 | LeaseConsumed => 3
  | LeaseRevoked => 4
  end.
Definition number_status (n : nat) : CapabilityLeaseStatus :=
  match n with
  | 0 => LeaseActive | 1 => LeaseClaimed | 2 => LeaseDispatching | 3 => LeaseConsumed
  | _ => LeaseRevoked
  end.

(** The same lease under another id. *)
Definition numbered (id : CapabilityGrantId) (l : CapabilityLease) : CapabilityLease :=
  let g := lease_grant l in {|
  lease_scope := lease_scope l;
  lease_grant := {| grant_id := id; grant_capability := grant_capability g; grantee := grantee g;
    issued_by := issued_by g; constraints := constraints g |};
  lease_fingerprint := lease_fingerprint l;
  lease_status := lease_status l |}.

#[local] Instance permit_codec : JsonCodec CapabilityLease :=
  family_codec (B := N * nat * option string * option N)
    (fun '(id, s, fp, uses) => numbered id (lease_with_status (number_status s) (permit fp uses)))
    (fun l => (lease_id l, status_number (lease_status l), lease_fingerprint l, remaining l)).

(** Indexes of alice's leases 5 and 6. *)
Definition alice_path (id : CapabilityGrantId) : ScopedPath :=
  path_of ("authorization" :: lease_tail alice_scope id).

#[local] Instance index_codec : JsonCodec CapabilityLeaseIndex :=
  family_codec (B := list N)
    (fun ids => {| paths := alice_path <$> ids |})
    (fun i => omap (fun p => List.find (fun id => String.eqb p (alice_path id)) [5%N; 6%N])
                (paths i)).

Lemma alice_storable : production_scope alice_scope.
Proof.
  split; [by repeat (constructor; [vm_compute; reflexivity |]); constructor |].
  split; [| done]. apply (owner_ok_acme "alice"); [literal_segment | discriminate].
Qed.

Abbreviation view := (invocation_mount_view false).

Definition alice_place : VirtualPath := lease_place view alice_scope 5.

Definition record_of (l : CapabilityLease) : Entry :=
  tenant_entry alice_scope (match to_vec_pretty l with Ok b => b | Err _ => "" end).

(** The backend with one lease. *)
Definition one_lease : InMemory.State :=
  (InMemory.put alice_place (record_of (permit None (Some 2%N))) Absent InMemory.new).2.

(** Another process that uses the lease once more, before the write of each attempt up
    to the [last]. *)
Definition rival (last k : nat) (m : LeaseMoment) (s : InMemory.State) : InMemory.State :=
  match m, InMemory.entries s !! alice_place with
  | LmWrite, Some st =>
      if decide (k <= last /\ (InMemory.version st < 5)%N)
      then InMemory.with_entries
             <[alice_place := {| InMemory.entry := record_of (permit None (Some 1%N));
                                 InMemory.version := next_version (InMemory.version st) |}]> s
      else s
  | _, _ => s
  end.

Lemma filed_one s l st :
  InMemory.entry st = record_of l -> from_slice (body (record_of l)) = Ok l ->
  lease_scope l = alice_scope -> lease_id l = 5%N ->
  filed view s -> filed view (InMemory.with_entries <[alice_place := st]> s).
Proof.
  intros He Hd Hs Hi Hf scope id e v Hsc. rewrite entry_at_overwrite. case_decide as Hp.
  - intros [= <- _]. apply lease_place_inj in Hp as [<- <-]; [| exact alice_storable | done].
    exists l. by rewrite He.
  - intros Hx. by apply (Hf scope id e v Hsc).
Qed.

Lemma new_filed : filed view InMemory.new.
Proof. intros scope id e v _. simpl. by rewrite lookup_empty. Qed.

Lemma one_lease_filed : filed view one_lease.
Proof.
  assert (one_lease = InMemory.with_entries
    <[alice_place := {| InMemory.entry := record_of (permit None (Some 2%N));
                        InMemory.version := 1%N |}]> InMemory.new) as -> by vm_refl.
  apply (filed_one _ (permit None (Some 2%N))); [done | vm_refl | done | done | exact new_filed].
Qed.

Lemma rival_filed last : keeps_filed view (rival last).
Proof.
  intros k m s Hf. unfold rival. destruct m; try done.
  destruct (InMemory.entries s !! alice_place) as [st |]; [| done]. case_decide; [| done].
  apply (filed_one _ (permit None (Some 1%N))); [done | vm_refl | done | done | done].
Qed.

Lemma rival_fresh last : no_lease_reincarnation (rival last).
Proof.
  intros k s s1 q e v e' Hs He He'. assert (entry_at s1 q = Some (e, v)) as Hx by by rewrite Hs.
  unfold rival in He'. destruct (InMemory.entries s1 !! alice_place) as [st |] eqn:Hst; [| congruence].
  case_decide as Hv; [| congruence]. rewrite entry_at_overwrite in He'.
  destruct (decide (alice_place = q)) as [<- |]; [| congruence].
  unfold entry_at, InMemory_versioned in Hx. rewrite Hst in Hx. simpl in Hx, He'.
  injection Hx as _ <-. injection He' as _ Hne. destruct Hv as [_ Hv].
  by apply next_version_ne in Hv.
Qed.

(** The first attempt loses to the other process; the second uses the lease up. *)
Definition contended_use :=
  fs_lease_call view (rival 0) (fun _ => 20%Z) (Consume alice_scope 5) one_lease.

Lemma contended_answer :
  contended_use.1 = Ok (lease_with_status LeaseConsumed (permit None (Some 0%N))).
Proof. vm_refl. Qed.

Lemma fs_leases_linearizable_witness :
  exists moment,
    lease_others view (rival 0) one_lease moment
    /\ forall m, holds_leases view moment m -> exists m',
         lease_call 20%Z (Consume alice_scope 5) m
           = (Ok (lease_with_status LeaseConsumed (permit None (Some 0%N))), m')
         /\ holds_leases view contended_use.2 m'.
Proof.
  destruct contended_use as [r fs'] eqn:Hrun.
  assert (r = Ok (lease_with_status LeaseConsumed (permit None (Some 0%N)))) as Hr
    by (rewrite <- contended_answer, Hrun; reflexivity).
  rewrite Hr in Hrun.
  pose proof (fs_leases_linearizable view (rival 0) (fun _ => 20%Z) (Consume alice_scope 5) one_lease
    (Ok (lease_with_status LeaseConsumed (permit None (Some 0%N)))) fs') as Hlin.
  specialize (Hlin (rival_filed 0) (rival_fresh 0) one_lease_filed alice_storable Hrun).
  destruct Hlin as [_ (k & moment & Ho & Hm)].
  exists moment. exact (conj Ho Hm).
Defined.

(** A process that interferes with every attempt. *)
Definition beaten_revoke :=
  fs_lease_call view (rival 2) (fun _ => 20%Z) (Revoke alice_scope 5) one_lease.

Lemma beaten_answer : beaten_revoke.1 = Err LeaseCasExhausted.
Proof. vm_refl. Qed.

Lemma lease_calls_terminate_witness :
  exists fs' : InMemory.State,
    lost_attempts view (rival 2) (fun _ => 20%Z) alice_scope 5 (call_transition (Revoke alice_scope 5))
      0 one_lease 3 fs'.
Proof.
  destruct beaten_revoke as [r fs'] eqn:Hrun.
  assert (r = Err LeaseCasExhausted) as Hr by (rewrite <- beaten_answer, Hrun; reflexivity).
  destruct (lease_calls_terminate view (rival 2) (fun _ => 20%Z) (Revoke alice_scope 5) one_lease r fs'
    (rival_filed 2) one_lease_filed alice_storable Hrun) as (j & fsj & Hlost & [(_ & _ & Hne) | (Hj & _)]).
  - destruct (Hne Hr).
  - exists fsj. rewrite Hj in Hlost. exact Hlost.
Defined.

(** ** Two processes issue a lease each *)

(** Alice's mounts, the one for leases. *)
Definition alice_view (scope : ResourceScope) : Result MountView HostApiError :=
  Ok [{| alias := "/authorization"; target := "/tenants/acme/users/alice/authorization";
         permissions := read_write_list_delete |}].

Definition quiet (_ : nat) (_ : LeaseMoment) (s : InMemory.State) : InMemory.State := s.

(** The second process issues its lease between the first one's read of the owner's
    index and its write. *)
Definition second_issuer (k : nat) (m : LeaseMoment) (s : InMemory.State) : InMemory.State :=
  match k, m with
  | 0, LmWrite => (fs_lease_issue alice_view quiet (numbered 6 (permit None None)) s).2
  | _, _ => s
  end.

Definition both_issued : Result CapabilityLease CapabilityLeaseError * InMemory.State :=
  fs_lease_issue alice_view second_issuer (permit None None) InMemory.new.

(** Listing loses a lease.  The index of an owner is rewritten from what was read,
    without a version: when two processes issue a lease for one owner at the same
    time, both calls succeed and both leases are stored, but the listing, and with it
    the authorizer, knows only one of them. *)
Theorem concurrent_issue_unlisted :
  both_issued.1 = Ok (permit None None)
  /\ (fs_lease_get alice_view quiet alice_scope 6 both_issued.2).1 = Some (numbered 6 (permit None None))
  /\ (fs_leases_for_scope alice_view quiet alice_scope both_issued.2).1 = [permit None None]
  /\ (fs_leases_for_scope alice_view quiet alice_scope
        (fs_lease_issue alice_view quiet (permit None None)
          (fs_lease_issue alice_view quiet (numbered 6 (permit None None)) InMemory.new).2).2).1
     = [permit None None; numbered 6 (permit None None)].
Proof. repeat split; vm_refl. Qed.
End demo.
