(* ===== verification/RuntimePolicy.v ===== *)
(** * Runtime profile resolution

    Models [ironclaw_host_api/src/runtime_policy.rs] (the vocabulary) and
    [ironclaw_runtime_policy/src/resolver.rs] (the resolver that turns a deployment,
    a requested profile and an org policy into the policy the host enforces).  The
    enums are closed here, so the panicking wildcard arms do not exist. *)

From S2P Require Import Prelude.
From Stdlib Require Import Lia.

(** ** The vocabulary *)

Inductive DeploymentMode := LocalSingleUser | HostedMultiTenant | EnterpriseDedicated.

Inductive RuntimeProfile :=
  | SecureDefault
  | LocalSafe | LocalDev | LocalYolo
  | HostedSafe | HostedDev | HostedYoloTenantScoped
  | EnterpriseSafe | EnterpriseDev | EnterpriseYoloDedicated
  | Sandboxed | Experiment.

Inductive FilesystemBackendKind :=
  | ScopedVirtual | HostWorkspace | HostWorkspaceAndHome | TenantWorkspace | OrgDedicatedWorkspace.

Inductive ProcessBackendKind :=
  | NoProcess | Docker | Srt | SmolVm | LocalHost | TenantSandbox | OrgDedicatedRunner.

Inductive NetworkMode := NetDeny | NetBrokered | Allowlist | DirectLogged | Direct.

Inductive SecretMode :=
  | SecretDeny | BrokeredHandles | TenantBroker | OrgBroker | ScrubbedEnv | InheritedEnv.

Inductive ApprovalPolicy := AskAlways | AskWrites | AskDestructive | ApprovalOrgPolicy | Minimal.

Inductive AuditMode := LocalMinimal | Standard | AuditOrgPolicy.

#[export] Instance DeploymentMode_eq_dec : EqDecision DeploymentMode.
Proof. solve_decision. Defined.
#[export] Instance RuntimeProfile_eq_dec : EqDecision RuntimeProfile.
Proof. solve_decision. Defined.
#[export] Instance FilesystemBackendKind_eq_dec : EqDecision FilesystemBackendKind.
Proof. solve_decision. Defined.
#[export] Instance ProcessBackendKind_eq_dec : EqDecision ProcessBackendKind.
Proof. solve_decision. Defined.
#[export] Instance NetworkMode_eq_dec : EqDecision NetworkMode.
Proof. solve_decision. Defined.
#[export] Instance SecretMode_eq_dec : EqDecision SecretMode.
Proof. solve_decision. Defined.
#[export] Instance ApprovalPolicy_eq_dec : EqDecision ApprovalPolicy.
Proof. solve_decision. Defined.

Definition deployment_as_str (d : DeploymentMode) : string :=
  match d with
  | LocalSingleUser => "local_single_user" | HostedMultiTenant => "hosted_multi_tenant"
  | EnterpriseDedicated => "enterprise_dedicated"
  end.

Definition profile_as_str (p : RuntimeProfile) : string :=
  match p with
  | SecureDefault => "secure_default"
  | LocalSafe => "local_safe" | LocalDev => "local_dev" | LocalYolo => "local_yolo"
  | HostedSafe => "hosted_safe" | HostedDev => "hosted_dev"
  | HostedYoloTenantScoped => "hosted_yolo_tenant_scoped"
  | EnterpriseSafe => "enterprise_safe" | EnterpriseDev => "enterprise_dev"
  | EnterpriseYoloDedicated => "enterprise_yolo_dedicated"
  | Sandboxed => "sandboxed" | Experiment => "experiment"
  end.

Record ParseRuntimePolicyEnumError := { pe_kind : string; pe_value : string }.

(** [FromStr] *)
Definition deployment_from_str (value : string) :
    Result DeploymentMode ParseRuntimePolicyEnumError :=
  if String.eqb value "local_single_user" then Ok LocalSingleUser
  else if String.eqb value "hosted_multi_tenant" then Ok HostedMultiTenant
  else if String.eqb value "enterprise_dedicated" then Ok EnterpriseDedicated
  else Err {| pe_kind := "deployment mode"; pe_value := value |}.

Definition profile_from_str (value : string) :
    Result RuntimeProfile ParseRuntimePolicyEnumError :=
  if String.eqb value "secure_default" then Ok SecureDefault
  else if String.eqb value "local_safe" then Ok LocalSafe
  else if String.eqb value "local_dev" then Ok LocalDev
  else if String.eqb value "local_yolo" then Ok LocalYolo
  else if String.eqb value "hosted_safe" then Ok HostedSafe
  else if String.eqb value "hosted_dev" then Ok HostedDev
  else if String.eqb value "hosted_yolo_tenant_scoped" then Ok HostedYoloTenantScoped
  else if String.eqb value "enterprise_safe" then Ok EnterpriseSafe
  else if String.eqb value "enterprise_dev" then Ok EnterpriseDev
  else if String.eqb value "enterprise_yolo_dedicated" then Ok EnterpriseYoloDedicated
  else if String.eqb value "sandboxed" then Ok Sandboxed
  else if String.eqb value "experiment" then Ok Experiment
  else Err {| pe_kind := "runtime profile"; pe_value := value |}.

Definition is_local (p : RuntimeProfile) : bool :=
  match p with LocalSafe | LocalDev | LocalYolo => true | _ => false end.
Definition is_hosted (p : RuntimeProfile) : bool :=
  match p with HostedSafe | HostedDev | HostedYoloTenantScoped => true | _ => false end.
Definition is_enterprise (p : RuntimeProfile) : bool :=
  match p with EnterpriseSafe | EnterpriseDev | EnterpriseYoloDedicated => true | _ => false end.
Definition is_yolo (p : RuntimeProfile) : bool :=
  match p with LocalYolo | HostedYoloTenantScoped | EnterpriseYoloDedicated => true | _ => false end.
Definition allows_minimal_approval_bypass (p : RuntimeProfile) : bool :=
  match p with LocalYolo | HostedYoloTenantScoped => true | _ => false end.

Record EffectiveRuntimePolicy := {
  deployment : DeploymentMode;
  requested_profile : RuntimeProfile;
  resolved_profile : RuntimeProfile;
  filesystem_backend : FilesystemBackendKind;
  process_backend : ProcessBackendKind;
  network_mode : NetworkMode;
  secret_mode : SecretMode;
  approval_policy : ApprovalPolicy;
  audit_mode : AuditMode;
}.

Definition was_reduced (p : EffectiveRuntimePolicy) : bool :=
  bool_decide (requested_profile p <> resolved_profile p).

(** ** The resolver *)

Record OrgPolicyConstraints := {
  max_profile : option RuntimeProfile;
  admin_approves_dedicated_yolo : bool;
}.

Record ResolveRequest := {
  req_deployment : DeploymentMode;
  req_profile : RuntimeProfile;
  org_policy : OrgPolicyConstraints;
  yolo_disclosure_acknowledged : bool;
}.

(** [ResolveRequest::new] *)
Definition resolve_request_new (d : DeploymentMode) (p : RuntimeProfile) : ResolveRequest := {|
  req_deployment := d; req_profile := p;
  org_policy := {| max_profile := None; admin_approves_dedicated_yolo := false |};
  yolo_disclosure_acknowledged := false |}.

Inductive ResolveError :=
  | IncompatibleDeployment (d : DeploymentMode) (p : RuntimeProfile)
  | YoloRequiresDisclosure (p : RuntimeProfile)
  | DedicatedYoloRequiresOrgAdminApproval
  | OrgPolicyCeilingFamilyMismatch (requested ceiling : RuntimeProfile).

Definition is_compatible (d : DeploymentMode) (p : RuntimeProfile) : bool :=
  match d, p with
  | _, SecureDefault | _, Sandboxed | _, Experiment => true
  | LocalSingleUser, LocalSafe | LocalSingleUser, LocalDev | LocalSingleUser, LocalYolo => true
  | HostedMultiTenant, HostedSafe | HostedMultiTenant, HostedDev
  | HostedMultiTenant, HostedYoloTenantScoped => true
  | EnterpriseDedicated, EnterpriseSafe | EnterpriseDedicated, EnterpriseDev
  | EnterpriseDedicated, EnterpriseYoloDedicated => true
  | _, _ => false
  end.

Inductive ProfileFamily := FamilyLocal | FamilyHosted | FamilyEnterprise.

#[export] Instance ProfileFamily_eq_dec : EqDecision ProfileFamily.
Proof. solve_decision. Defined.

Definition family_rank (p : RuntimeProfile) : option (ProfileFamily * nat) :=
  match p with
  | LocalSafe => Some (FamilyLocal, 1) | LocalDev => Some (FamilyLocal, 2)
  | LocalYolo => Some (FamilyLocal, 3)
  | HostedSafe => Some (FamilyHosted, 1) | HostedDev => Some (FamilyHosted, 2)
  | HostedYoloTenantScoped => Some (FamilyHosted, 3)
  | EnterpriseSafe => Some (FamilyEnterprise, 1) | EnterpriseDev => Some (FamilyEnterprise, 2)
  | EnterpriseYoloDedicated => Some (FamilyEnterprise, 3)
  | _ => None
  end.

Definition narrow_to_ceiling (requested ceiling : RuntimeProfile) :
    Result RuntimeProfile ResolveError :=
  match family_rank requested, family_rank ceiling with
  | Some (req_family, req_rank), Some (ceil_family, ceil_rank) =>
      if bool_decide (req_family <> ceil_family)
      then Err (OrgPolicyCeilingFamilyMismatch requested ceiling)
      else if Nat.ltb ceil_rank req_rank then Ok ceiling else Ok requested
  | _, _ => Err (OrgPolicyCeilingFamilyMismatch requested ceiling)
  end.

Definition sandboxed_filesystem_for (d : DeploymentMode) : FilesystemBackendKind :=
  match d with
  | LocalSingleUser => ScopedVirtual | HostedMultiTenant => TenantWorkspace
  | EnterpriseDedicated => OrgDedicatedWorkspace
  end.
Definition sandboxed_secret_for (d : DeploymentMode) : SecretMode :=
  match d with
  | LocalSingleUser => BrokeredHandles | HostedMultiTenant => TenantBroker
  | EnterpriseDedicated => OrgBroker
  end.
Definition audit_for (d : DeploymentMode) : AuditMode :=
  match d with
  | LocalSingleUser => LocalMinimal | HostedMultiTenant => Standard
  | EnterpriseDedicated => AuditOrgPolicy
  end.

(** The choices of [backends_for], in its tuple's order. *)
Definition Backends : Type :=
  FilesystemBackendKind * ProcessBackendKind * NetworkMode * SecretMode * ApprovalPolicy * AuditMode.

Definition backends_for (d : DeploymentMode) (p : RuntimeProfile) : Backends :=
  match p with
  | SecureDefault => (ScopedVirtual, NoProcess, NetBrokered, BrokeredHandles, AskAlways, audit_for d)
  | LocalSafe => (HostWorkspace, LocalHost, NetBrokered, ScrubbedEnv, AskWrites, LocalMinimal)
  | LocalDev => (HostWorkspace, LocalHost, DirectLogged, ScrubbedEnv, AskDestructive, LocalMinimal)
  | LocalYolo => (HostWorkspaceAndHome, LocalHost, Direct, InheritedEnv, Minimal, LocalMinimal)
  | HostedSafe => (TenantWorkspace, TenantSandbox, NetBrokered, TenantBroker, AskWrites, Standard)
  | HostedDev => (TenantWorkspace, TenantSandbox, Allowlist, TenantBroker, AskDestructive, Standard)
  | HostedYoloTenantScoped =>
      (TenantWorkspace, TenantSandbox, Allowlist, TenantBroker, Minimal, Standard)
  | EnterpriseSafe =>
      (OrgDedicatedWorkspace, OrgDedicatedRunner, NetBrokered, OrgBroker, ApprovalOrgPolicy,
       AuditOrgPolicy)
  | EnterpriseDev =>
      (OrgDedicatedWorkspace, OrgDedicatedRunner, Allowlist, OrgBroker, ApprovalOrgPolicy,
       AuditOrgPolicy)
  | EnterpriseYoloDedicated =>
      (OrgDedicatedWorkspace, OrgDedicatedRunner, DirectLogged, OrgBroker, ApprovalOrgPolicy,
       AuditOrgPolicy)
  | Sandboxed =>
      (sandboxed_filesystem_for d, Srt, NetBrokered, sandboxed_secret_for d, AskWrites, audit_for d)
  | Experiment =>
      (sandboxed_filesystem_for d, SmolVm, Allowlist, sandboxed_secret_for d, AskDestructive,
       audit_for d)
  end.

Definition map_to_effective (d : DeploymentMode) (requested resolved : RuntimeProfile) :
    EffectiveRuntimePolicy :=
  let '(fs, process, network, secret, approval, audit) := backends_for d resolved in {|
  deployment := d; requested_profile := requested; resolved_profile := resolved;
  filesystem_backend := fs; process_backend := process; network_mode := network;
  secret_mode := secret; approval_policy := approval; audit_mode := audit |}.

Definition resolve_policy (req : ResolveRequest) : Result EffectiveRuntimePolicy ResolveError :=
  if negb (is_compatible (req_deployment req) (req_profile req))
  then Err (IncompatibleDeployment (req_deployment req) (req_profile req))
  else if is_yolo (req_profile req) && negb (yolo_disclosure_acknowledged req)
  then Err (YoloRequiresDisclosure (req_profile req))
  else if bool_decide (req_profile req = EnterpriseYoloDedicated)
          && negb (admin_approves_dedicated_yolo (org_policy req))
  then Err DedicatedYoloRequiresOrgAdminApproval
  else
    match match max_profile (org_policy req) with
          | Some ceiling => narrow_to_ceiling (req_profile req) ceiling
          | None => Ok (req_profile req)
          end with
    | Err e => Err e
    | Ok resolved => Ok (map_to_effective (req_deployment req) (req_profile req) resolved)
    end.

(** ** What the resolver promises *)

(** How much each choice lets an invocation do, widest last. *)
Definition filesystem_width (k : FilesystemBackendKind) : nat :=
  match k with
  | ScopedVirtual => 0 | TenantWorkspace | OrgDedicatedWorkspace => 1 | HostWorkspace => 2
  | HostWorkspaceAndHome => 3
  end.
Definition process_width (k : ProcessBackendKind) : nat :=
  match k with
  | NoProcess => 0 | Srt | Docker | SmolVm => 1 | TenantSandbox | OrgDedicatedRunner => 2
  | LocalHost => 3
  end.
Definition network_width (m : NetworkMode) : nat :=
  match m with NetDeny => 0 | NetBrokered => 1 | Allowlist => 2 | DirectLogged => 3 | Direct => 4 end.
Definition secret_width (m : SecretMode) : nat :=
  match m with
  | SecretDeny => 0 | BrokeredHandles | TenantBroker | OrgBroker => 1 | ScrubbedEnv => 2
  | InheritedEnv => 3
  end.
Definition approval_width (p : ApprovalPolicy) : nat :=
  match p with
  | AskAlways => 0 | AskWrites => 1 | ApprovalOrgPolicy => 2 | AskDestructive => 2 | Minimal => 3
  end.

(** [p] allows nothing [q] does not. *)
Definition no_wider (p q : EffectiveRuntimePolicy) : bool :=
  Nat.leb (filesystem_width (filesystem_backend p)) (filesystem_width (filesystem_backend q))
  && Nat.leb (process_width (process_backend p)) (process_width (process_backend q))
  && Nat.leb (network_width (network_mode p)) (network_width (network_mode q))
  && Nat.leb (secret_width (secret_mode p)) (secret_width (secret_mode q))
  && Nat.leb (approval_width (approval_policy p)) (approval_width (approval_policy q)).

(** Nothing of the provider's machine: its filesystem, shell, environment or an
    unmediated network. *)
Definition off_host (p : EffectiveRuntimePolicy) : bool :=
  match filesystem_backend p with HostWorkspace | HostWorkspaceAndHome => false | _ => true end
  && match process_backend p with LocalHost => false | _ => true end
  && match secret_mode p with ScrubbedEnv | InheritedEnv => false | _ => true end
  && match network_mode p with Direct => false | _ => true end.

(** [rank p <= rank c] within one family. *)
Definition within_ceiling (p c : RuntimeProfile) : bool :=
  match family_rank p, family_rank c with
  | Some (f, i), Some (g, j) => bool_decide (f = g) && Nat.leb i j
  | _, _ => false
  end.

(** The conditions under which resolution succeeds. *)
Definition resolvable (req : ResolveRequest) : bool :=
  is_compatible (req_deployment req) (req_profile req)
  && (negb (is_yolo (req_profile req)) || yolo_disclosure_acknowledged req)
  && (bool_decide (req_profile req <> EnterpriseYoloDedicated)
      || admin_approves_dedicated_yolo (org_policy req))
  && match max_profile (org_policy req) with
     | None => true
     | Some c => within_ceiling (req_profile req) c || within_ceiling c (req_profile req)
     end.

(** A decision over the finitely many requests. *)
Definition all_deployments : list DeploymentMode :=
  [LocalSingleUser; HostedMultiTenant; EnterpriseDedicated].
Definition all_profiles : list RuntimeProfile :=
  [SecureDefault; LocalSafe; LocalDev; LocalYolo; HostedSafe; HostedDev; HostedYoloTenantScoped;
   EnterpriseSafe; EnterpriseDev; EnterpriseYoloDedicated; Sandboxed; Experiment].

Definition all_requests : list ResolveRequest :=
  d ← all_deployments; p ← all_profiles; c ← None :: (Some <$> all_profiles);
  a ← [true; false]; y ← [true; false];
  [{| req_deployment := d; req_profile := p;
      org_policy := {| max_profile := c; admin_approves_dedicated_yolo := a |};
      yolo_disclosure_acknowledged := y |}].

Lemma all_requests_complete req : req ∈ all_requests.
Proof.
  destruct req as [d p [c a] y]. unfold all_requests.
  apply list_elem_of_bind. exists d. split; [| destruct d; set_solver].
  apply list_elem_of_bind. exists p. split; [| destruct p; set_solver].
  apply list_elem_of_bind. exists c. split;
    [| destruct c as [c |]; [right; apply list_elem_of_fmap_2; destruct c; set_solver | left]].
  apply list_elem_of_bind. exists a. split; [| destruct a; set_solver].
  apply list_elem_of_bind. exists y. split; [| destruct y; set_solver].
  by apply list_elem_of_singleton.
Qed.

Lemma decide_requests (f : ResolveRequest -> bool) req :
  forallb f all_requests = true -> f req = true.
Proof. rewrite forallb_forall. intros Hf. apply Hf, list_elem_of_In, all_requests_complete. Qed.

(** The safety of one request's resolution, decided. *)
Definition implies (a b : bool) : bool := negb a || b.

Definition resolves_safely (req : ResolveRequest) : bool :=
  match resolve_policy req with
  | Err _ => true
  | Ok p =>
      bool_decide (deployment p = req_deployment req)
      && bool_decide (requested_profile p = req_profile req)
      && is_compatible (deployment p) (resolved_profile p)
      && match max_profile (org_policy req) with
         | Some c => within_ceiling (resolved_profile p) c
         | None => true
         end
      && no_wider p (map_to_effective (req_deployment req) (req_profile req) (req_profile req))
      && implies (bool_decide (req_deployment req <> LocalSingleUser)) (off_host p)
      && implies (is_yolo (resolved_profile p) || bool_decide (approval_policy p = Minimal))
           (yolo_disclosure_acknowledged req)
      && implies (bool_decide (resolved_profile p = EnterpriseYoloDedicated))
           (admin_approves_dedicated_yolo (org_policy req))
  end.

Lemma all_resolve_safely req : resolves_safely req = true.
Proof. apply decide_requests. by vm_compute. Qed.

Lemma all_resolvable req : is_ok (resolve_policy req) = resolvable req.
Proof.
  apply Bool.eqb_prop, (decide_requests (fun req => Bool.eqb (is_ok (resolve_policy req)) (resolvable req))).
  by vm_compute.
Qed.

Lemma implies_true a b : implies a b = true <-> (a = true -> b = true).
Proof. unfold implies. destruct a, b; naive_solver. Qed.

(** [C23] Safety of resolution.  A resolved policy belongs to the deployment asked for
    and to a profile that deployment may run, within the org's ceiling; it never allows
    more than the requested profile would, in any of filesystem, processes, network,
    secrets or approvals; outside a single-user machine it touches nothing of the
    host; approvals are minimal only where the operator acknowledged the disclosure,
    and the dedicated enterprise mode needs the admin's approval too. *)
Theorem resolve_safe req p :
  resolve_policy req = Ok p ->
  deployment p = req_deployment req /\ requested_profile p = req_profile req
  /\ is_compatible (deployment p) (resolved_profile p) = true
  /\ (forall c, max_profile (org_policy req) = Some c -> within_ceiling (resolved_profile p) c = true)
  /\ no_wider p (map_to_effective (req_deployment req) (req_profile req) (req_profile req)) = true
  /\ (req_deployment req <> LocalSingleUser -> off_host p = true)
  /\ (is_yolo (resolved_profile p) = true \/ approval_policy p = Minimal ->
      yolo_disclosure_acknowledged req = true)
  /\ (resolved_profile p = EnterpriseYoloDedicated ->
      admin_approves_dedicated_yolo (org_policy req) = true).
Proof.
  intros Hr. pose proof (all_resolve_safely req) as Hall. unfold resolves_safely in Hall.
  rewrite Hr, !andb_true_iff, !implies_true, !orb_true_iff, !bool_decide_eq_true in Hall.
  destruct Hall as [[[[[[[Hd Hq] Hc] Hm] Hw] Hh] Hy] Ha].
  split_and!; try done. intros c Hx. by rewrite Hx in Hm.
Qed.

(** Resolution fails closed and never silently: it succeeds exactly when the
    deployment may run the profile, disclosure and admin approval are there where the
    profile asks for them, and the org's ceiling is of the profile's family; the policy
    is then that of the smaller of profile and ceiling, and it is flagged as reduced
    exactly when that is not the profile asked for. *)
Theorem resolve_exact req :
  is_ok (resolve_policy req) = resolvable req
  /\ forall p, resolve_policy req = Ok p ->
       p = map_to_effective (req_deployment req) (req_profile req) (resolved_profile p)
       /\ resolved_profile p
          = match max_profile (org_policy req) with
            | Some c => if within_ceiling (req_profile req) c then req_profile req else c
            | None => req_profile req
            end
       /\ (was_reduced p = true <-> resolved_profile p <> req_profile req).
Proof.
  split; [apply all_resolvable |].
  intros p. unfold resolve_policy. destruct (negb _); [done |]. destruct (_ && negb _); [done |].
  destruct (_ && negb _); [done |].
  assert (forall q, resolved_profile (map_to_effective (req_deployment req) (req_profile req) q) = q
    /\ requested_profile (map_to_effective (req_deployment req) (req_profile req) q)
       = req_profile req) as Hq.
  { intros q. unfold map_to_effective. by destruct (backends_for _ _) as [[[[[??]?]?]?]?]. }
  unfold was_reduced. destruct (max_profile (org_policy req)) as [c |]; simpl.
  - unfold narrow_to_ceiling, within_ceiling.
    destruct (family_rank (req_profile req)) as [[f i] |], (family_rank c) as [[g j] |]; try done.
    destruct (decide (f = g)) as [<- | Hne];
      [rewrite bool_decide_eq_false_2 by (intros Hx; by apply Hx)
      | by rewrite bool_decide_eq_true_2 by done].
    rewrite bool_decide_eq_true_2 by done. simpl.
    destruct (Nat.ltb_spec j i), (Nat.leb_spec i j); try lia; intros [= <-];
      destruct (Hq c) as [Hc1 Hc2], (Hq (req_profile req)) as [Hp1 Hp2];
      rewrite ?Hc1, ?Hc2, ?Hp1, ?Hp2, bool_decide_eq_true; split_and!; try done; naive_solver.
  - intros [= <-]. destruct (Hq (req_profile req)) as [Hp1 Hp2].
    rewrite Hp1, Hp2, bool_decide_eq_true. split_and!; try done; naive_solver.
Qed.

(** Wire names round-trip: a name parses to a mode or profile exactly when it is
    the name of that mode or profile. *)
Theorem wire_names_roundtrip :
  (forall s d, deployment_from_str s = Ok d <-> s = deployment_as_str d)
  /\ forall s p, profile_from_str s = Ok p <-> s = profile_as_str p.
Proof.
  split.
  - intros s d. unfold deployment_from_str. split; [| intros ->; by destruct d].
    repeat (match goal with |- context [String.eqb s ?t] => destruct (String.eqb_spec s t) end;
      [by intros [= <-] |]). done.
  - intros s p. unfold profile_from_str. split; [| intros ->; by destruct p].
    repeat (match goal with |- context [String.eqb s ?t] => destruct (String.eqb_spec s t) end;
      [by intros [= <-] |]). done.
Qed.

(** Witness: an org whose ceiling narrows an acknowledged local yolo request. *)
Definition narrowed_request : ResolveRequest := {|
  req_deployment := LocalSingleUser; req_profile := LocalYolo;
  org_policy := {| max_profile := Some LocalDev; admin_approves_dedicated_yolo := false |};
  yolo_disclosure_acknowledged := true |}.

Lemma resolve_safe_witness :
  exists p, resolve_policy narrowed_request = Ok p /\ resolved_profile p = LocalDev
    /\ within_ceiling (resolved_profile p) LocalDev = true.
Proof.
  exists (map_to_effective LocalSingleUser LocalYolo LocalDev). split; [reflexivity |].
  split; [reflexivity |].
  destruct (resolve_safe narrowed_request (map_to_effective LocalSingleUser LocalYolo LocalDev) eq_refl)
    as (_ & _ & _ & Hc & _).
  exact (Hc LocalDev eq_refl).
Defined.
