(* ===== verification/Network.v ===== *)
(** * Network egress

    Models [ironclaw_network]: the static policy ([policy.rs]), host resolution
    ([resolver.rs]), targets of URLs ([url_target.rs]), the policed HTTP egress
    ([egress.rs]) and the limits its transport enforces ([transport.rs]).  URL parsing,
    DNS and the HTTP client are arguments; the part of [std::net] the crate uses, the
    parser and [Display] of IP addresses and their classes, is modelled first.  Texts are ASCII. *)

From stdpp Require Import pretty.
From S2P Require Import Prelude Strings Ids Platform HostApi Capability.
From Stdlib Require Import Ascii Lia.

Record Ipv4Addr := { octet1 : N; octet2 : N; octet3 : N; octet4 : N }.

(** The eight 16-bit segments, most significant first. *)
Record Ipv6Addr := { segments : list N }.

Inductive IpAddr := V4 (ip : Ipv4Addr) | V6 (ip : Ipv6Addr).

#[export] Instance Ipv4Addr_eq_dec : EqDecision Ipv4Addr.
Proof. solve_decision. Defined.
#[export] Instance IpAddr_eq_dec : EqDecision IpAddr.
Proof.
  assert (EqDecision Ipv6Addr) by solve_decision. solve_decision.
Defined.

Definition octets (ip : Ipv4Addr) : list N := [octet1 ip; octet2 ip; octet3 ip; octet4 ip].

(** ** The parser *)

Definition Reader T : Type := string -> option (T * string).

(** [char::to_digit] *)
Definition to_digit (radix : N) (c : ascii) : option N :=
  let n := N_of_ascii c in
  let d := if byte_in 48 57 c then Some (n - 48)%N
           else if byte_in 97 102 c then Some (n - 87)%N
           else if byte_in 65 70 c then Some (n - 55)%N
           else None in
  match d with Some v => if (v <? radix)%N then Some v else None | None => None end.

(** The digit loop of [read_number]; too many digits fail it. *)
Fixpoint read_digits (radix : N) (max_digits count : nat) (result : N) (s : string) :
    option (N * nat * string) :=
  match s with
  | String c rest =>
      match to_digit radix c with
      | Some d =>
          if Nat.ltb max_digits (S count) then None
          else read_digits radix max_digits (S count) (result * radix + d)%N rest
      | None => Some (result, count, s)
      end
  | "" => Some (result, count, s)
  end.

Definition read_number (radix : N) (max_digits : nat) (allow_zero_prefix : bool) (bound : N) :
    Reader N := fun s =>
  let has_leading_zero := starts_with "0" s in
  match read_digits radix max_digits 0 0 s with
  | None => None
  | Some (result, count, rest) =>
      if (bound <? result)%N then None
      else if Nat.eqb count 0 then None
      else if negb allow_zero_prefix && has_leading_zero && Nat.ltb 1 count then None
      else Some (result, rest)
  end.

(** [read_given_char] and [read_separator] *)
Definition read_given_char (c : ascii) (s : string) : option string :=
  match s with
  | String x rest => if Ascii.eqb x c then Some rest else None
  | "" => None
  end.

Definition read_separator {T} (sep : ascii) (index : nat) (inner : Reader T) : Reader T := fun s =>
  if Nat.ltb 0 index
  then match read_given_char sep s with Some rest => inner rest | None => None end
  else inner s.

Definition read_octet (index : nat) : Reader N :=
  read_separator "." index (read_number 10 3 false 255).

Definition read_ipv4_addr : Reader Ipv4Addr := fun s =>
  match read_octet 0 s with None => None | Some (a, s1) =>
  match read_octet 1 s1 with None => None | Some (b, s2) =>
  match read_octet 2 s2 with None => None | Some (c, s3) =>
  match read_octet 3 s3 with None => None | Some (d, s4) =>
    Some ({| octet1 := a; octet2 := b; octet3 := c; octet4 := d |}, s4)
  end end end end.

(** [read_groups]: the groups read from index [i] with [left] slots, whether the last two
    are an embedded IPv4 address, and the rest. *)
Fixpoint read_groups (left i : nat) (s : string) : list N * bool * string :=
  match left with
  | 0 => ([], false, s)
  | S left' =>
      match (if Nat.ltb 0 left' then read_separator ":" i read_ipv4_addr s else None) with
      | Some (ip, rest) =>
          ([octet1 ip * 256 + octet2 ip; octet3 ip * 256 + octet4 ip]%N, true, rest)
      | None =>
          match read_separator ":" i (read_number 16 4 true 65535) s with
          | Some (g, rest) =>
              let '(gs, ipv4, rest') := read_groups left' (S i) rest in (g :: gs, ipv4, rest')
          | None => ([], false, s)
          end
      end
  end.

Definition read_ipv6_addr : Reader Ipv6Addr := fun s =>
  let '(head, head_ipv4, s1) := read_groups 8 0 s in
  if Nat.eqb (length head) 8 then Some ({| segments := head |}, s1)
  else if head_ipv4 then None
  else
    match read_given_char ":" s1 with
    | None => None
    | Some s2 =>
        match read_given_char ":" s2 with
        | None => None
        | Some s3 =>
            let '(tail, _, s4) := read_groups (8 - (length head + 1)) 0 s3 in
            Some ({| segments := head ++ repeat 0%N (8 - length head - length tail) ++ tail |}, s4)
        end
    end.

(** [str::parse::<IpAddr>]: the whole text, as IPv4 or else as IPv6. *)
Definition parse_ip (s : string) : option IpAddr :=
  match (match read_ipv4_addr s with
         | Some (ip, rest) => Some (V4 ip, rest)
         | None => match read_ipv6_addr s with Some (ip, rest) => Some (V6 ip, rest) | None => None end
         end) with
  | Some (ip, "") => Some ip
  | _ => None
  end.

(** ** Classes of addresses *)

Definition v4_is_private (ip : Ipv4Addr) : bool :=
  (octet1 ip =? 10)%N
  || (octet1 ip =? 172)%N && (16 <=? octet2 ip)%N && (octet2 ip <=? 31)%N
  || (octet1 ip =? 192)%N && (octet2 ip =? 168)%N.
Definition v4_is_loopback (ip : Ipv4Addr) : bool := (octet1 ip =? 127)%N.
Definition v4_is_link_local (ip : Ipv4Addr) : bool := (octet1 ip =? 169)%N && (octet2 ip =? 254)%N.
Definition v4_is_broadcast (ip : Ipv4Addr) : bool := bool_decide (octets ip = [255; 255; 255; 255]%N).
Definition v4_is_documentation (ip : Ipv4Addr) : bool :=
  bool_decide (take 3 (octets ip) ∈ [[192; 0; 2]; [198; 51; 100]; [203; 0; 113]]%N).
Definition v4_is_multicast (ip : Ipv4Addr) : bool := (224 <=? octet1 ip)%N && (octet1 ip <=? 239)%N.

Definition segment (ip : Ipv6Addr) (i : nat) : N := nth i (segments ip) 0%N.

Definition v6_is_loopback (ip : Ipv6Addr) : bool := bool_decide (segments ip = [0; 0; 0; 0; 0; 0; 0; 1]%N).
Definition v6_is_unspecified (ip : Ipv6Addr) : bool := bool_decide (segments ip = repeat 0%N 8).
Definition v6_is_unique_local (ip : Ipv6Addr) : bool := (N.land (segment ip 0) 65024 =? 64512)%N.
Definition v6_is_unicast_link_local (ip : Ipv6Addr) : bool :=
  (N.land (segment ip 0) 65472 =? 65152)%N.
Definition v6_is_multicast (ip : Ipv6Addr) : bool := (N.shiftr (segment ip 0) 8 =? 255)%N.

(** [to_ipv4_mapped]: [::ffff:a.b.c.d] *)
Definition to_ipv4_mapped (ip : Ipv6Addr) : option Ipv4Addr :=
  if bool_decide (take 6 (segments ip) = [0; 0; 0; 0; 0; 65535]%N) then
    let hi := segment ip 6 in
    let lo := segment ip 7 in
    Some {| octet1 := N.shiftr hi 8; octet2 := N.land hi 255;
            octet3 := N.shiftr lo 8; octet4 := N.land lo 255 |}
  else None.

(** ** Text *)

(** [Display] *)
Definition ipv4_text (ip : Ipv4Addr) : string :=
  pretty (octet1 ip) +:+ "." +:+ pretty (octet2 ip) +:+ "." +:+ pretty (octet3 ip) +:+ "."
  +:+ pretty (octet4 ip).

Definition ipv4_wf (ip : Ipv4Addr) : Prop := Forall (fun o => o <= 255)%N (octets ip).

Example parse_mapped :
  parse_ip "::ffff:127.0.0.1" = Some (V6 {| segments := [0; 0; 0; 0; 0; 65535; 32512; 1]%N |}).
Proof. reflexivity. Qed.

(** ** IPv4 texts are canonical *)

Definition digit_char (d : N) : ascii := ascii_of_N (48 + d).

Lemma to_digit_decimal c d : to_digit 10 c = Some d <-> (d < 10)%N /\ c = digit_char d.
Proof.
  unfold to_digit, digit_char. split.
  - destruct (byte_in 48 57 c) eqn:H1; cbv zeta beta iota.
    + apply byte_in_true in H1. destruct (N.ltb_spec (N_of_ascii c - 48) 10); [| lia].
      intros [= <-]. split; [lia |].
      replace (48 + (N_of_ascii c - 48))%N with (N_of_ascii c) by lia.
      by rewrite ascii_N_embedding.
    + destruct (byte_in 97 102 c) eqn:H2; [| destruct (byte_in 65 70 c) eqn:H3; [| done]].
      * apply byte_in_true in H2. destruct (N.ltb_spec (N_of_ascii c - 87) 10); [lia | done].
      * apply byte_in_true in H3. destruct (N.ltb_spec (N_of_ascii c - 55) 10); [lia | done].
  - intros [Hd ->].
    assert (d ∈ [0; 1; 2; 3; 4; 5; 6; 7; 8; 9]%N) as Hin by (rewrite !elem_of_cons; lia).
    rewrite !elem_of_cons, elem_of_nil in Hin.
    by destruct Hin as [-> | [-> | [-> | [-> | [-> | [-> | [-> | [-> | [-> | [-> | []]]]]]]]]]].
Qed.

(** The text goes on with something else than a digit, or ends. *)
Definition no_digit (s : string) : Prop :=
  match s with String c _ => to_digit 10 c = None | "" => True end.

Lemma read_digits_stop m k r s : no_digit s -> read_digits 10 m k r s = Some (r, k, s).
Proof. destruct s as [| c s]; simpl; [done |]. by intros ->. Qed.

Lemma read_digits_digit m k r d s :
  (d < 10)%N -> k < m ->
  read_digits 10 m k r (String (digit_char d) s) = read_digits 10 m (S k) (r * 10 + d)%N s.
Proof.
  intros Hd Hk. simpl. rewrite (proj2 (to_digit_decimal _ d) (conj Hd eq_refl)).
  by destruct (Nat.ltb_spec m (S k)); [lia |].
Qed.

(** Every number of at most three digits has one text without leading zeros. *)
Definition digits10 : list N := [0; 1; 2; 3; 4; 5; 6; 7; 8; 9]%N.
Definition text2 (a b : N) : string := String (digit_char a) (String (digit_char b) "").
Definition text3 (a b c : N) : string := String (digit_char a) (text2 b c).

Lemma elem_of_digits10 d : (d < 10)%N -> d ∈ digits10.
Proof. intros Hd. unfold digits10. rewrite !elem_of_cons. lia. Qed.

Lemma pretty1 a : (a < 10)%N -> pretty a = String (digit_char a) "".
Proof.
  intros Ha%elem_of_digits10.
  assert (Forall (fun a => pretty a = String (digit_char a) "") digits10) as Hall
    by (repeat constructor).
  by rewrite Forall_forall in Hall; apply Hall.
Qed.

Lemma pretty2 a b : (a < 10)%N -> (b < 10)%N -> a <> 0%N -> pretty (a * 10 + b)%N = text2 a b.
Proof.
  intros Ha%elem_of_digits10 Hb%elem_of_digits10 Hn.
  assert (forallb (fun a => forallb (fun b => N.eqb a 0
            || String.eqb (pretty (a * 10 + b)%N) (text2 a b)) digits10) digits10 = true) as Hall
    by vm_refl.
  rewrite forallb_forall in Hall. specialize (Hall a (proj1 (list_elem_of_In _ _) Ha)).
  rewrite forallb_forall in Hall. specialize (Hall b (proj1 (list_elem_of_In _ _) Hb)).
  apply orb_true_iff in Hall as [Hz%N.eqb_eq | He%String.eqb_eq]; [done | done].
Qed.

Lemma pretty3 a b c :
  (a < 10)%N -> (b < 10)%N -> (c < 10)%N -> a <> 0%N ->
  pretty (a * 100 + b * 10 + c)%N = text3 a b c.
Proof.
  intros Ha%elem_of_digits10 Hb%elem_of_digits10 Hc%elem_of_digits10 Hn.
  assert (forallb (fun a => forallb (fun b => forallb (fun c => N.eqb a 0
            || String.eqb (pretty (a * 100 + b * 10 + c)%N) (text3 a b c)) digits10) digits10)
            digits10 = true) as Hall by vm_refl.
  rewrite forallb_forall in Hall. specialize (Hall a (proj1 (list_elem_of_In _ _) Ha)).
  rewrite forallb_forall in Hall. specialize (Hall b (proj1 (list_elem_of_In _ _) Hb)).
  rewrite forallb_forall in Hall. specialize (Hall c (proj1 (list_elem_of_In _ _) Hc)).
  apply orb_true_iff in Hall as [Hz%N.eqb_eq | He%String.eqb_eq]; [done | done].
Qed.

Lemma digit_zero d s : (d < 10)%N -> starts_with "0" (String (digit_char d) s) = N.eqb d 0.
Proof.
  intros Hd%elem_of_digits10. unfold digits10 in Hd. rewrite !elem_of_cons, elem_of_nil in Hd.
  by destruct Hd as [-> | [-> | [-> | [-> | [-> | [-> | [-> | [-> | [-> | [-> | []]]]]]]]]]].
Qed.

(** The digits at the head of a text: none, one, two, three, or too many. *)
Lemma digits_cases s :
  no_digit s
  \/ (exists a t, (a < 10)%N /\ s = String (digit_char a) t /\ no_digit t)
  \/ (exists a b t, (a < 10)%N /\ (b < 10)%N /\ s = text2 a b +:+ t /\ no_digit t)
  \/ (exists a b c t, (a < 10)%N /\ (b < 10)%N /\ (c < 10)%N /\ s = text3 a b c +:+ t /\ no_digit t)
  \/ read_digits 10 3 0 0 s = None.
Proof.
  assert (forall t, no_digit t \/ exists d t', (d < 10)%N /\ t = String (digit_char d) t') as Hc.
  { intros [| c t]; [by left |]. simpl. destruct (to_digit 10 c) as [d |] eqn:Hd; [right | by left].
    apply to_digit_decimal in Hd as [Hd ->]. eauto. }
  destruct (Hc s) as [? | (a & t1 & Ha & ->)]; [tauto | right].
  destruct (Hc t1) as [? | (b & t2 & Hb & ->)]; [left; eauto | right].
  destruct (Hc t2) as [? | (c & t3 & Hcc & ->)]; [left; by exists a, b, t2 | right].
  destruct (Hc t3) as [? | (d & t4 & Hd & ->)]; [left; by exists a, b, c, t3 | right].
  rewrite !read_digits_digit by (done || lia). simpl.
  by rewrite (proj2 (to_digit_decimal _ d) (conj Hd eq_refl)).
Qed.

(** An octet is read exactly from its decimal text. *)
Lemma read_octet_iff s n rest :
  read_number 10 3 false 255 s = Some (n, rest) <->
  (n <= 255)%N /\ s = pretty n +:+ rest /\ no_digit rest.
Proof.
  unfold read_number. split.
  - destruct (digits_cases s) as [Hn | [(a & t & Ha & -> & Hn) | [(a & b & t & Ha & Hb & -> & Hn)
      | [(a & b & c & t & Ha & Hb & Hc & -> & Hn) | Hn]]]]; [| | | | by rewrite Hn].
    + rewrite read_digits_stop by done. done.
    + rewrite read_digits_digit, read_digits_stop by (done || lia). cbv zeta. simpl Nat.eqb.
      rewrite andb_false_r. destruct (N.ltb_spec 255 (0 * 10 + a)); [done |].
      intros [= <- <-]. split; [done |]. replace (0 * 10 + a)%N with a by lia. by rewrite pretty1.
    + change (text2 a b +:+ t) with (String (digit_char a) (String (digit_char b) t)).
      rewrite digit_zero, !read_digits_digit, read_digits_stop by (done || lia). cbv zeta.
      simpl Nat.eqb. rewrite andb_true_r. destruct (N.ltb_spec 255 ((0 * 10 + a) * 10 + b)); [done |].
      simpl. destruct (N.eqb_spec a 0); [done |].
      intros [= <- <-]. split; [done |]. replace ((0 * 10 + a) * 10 + b)%N with (a * 10 + b)%N by lia.
      by rewrite pretty2.
    + change (text3 a b c +:+ t)
        with (String (digit_char a) (String (digit_char b) (String (digit_char c) t))).
      rewrite digit_zero, !read_digits_digit, read_digits_stop by (done || lia). cbv zeta.
      simpl Nat.eqb. rewrite andb_true_r.
      destruct (N.ltb_spec 255 (((0 * 10 + a) * 10 + b) * 10 + c)); [done |].
      simpl. destruct (N.eqb_spec a 0); [done |].
      intros [= <- <-]. split; [done |].
      replace (((0 * 10 + a) * 10 + b) * 10 + c)%N with (a * 100 + b * 10 + c)%N by lia.
      by rewrite pretty3.
  - intros (Hn & -> & Hr). destruct (N.ltb_spec n 10); [| destruct (N.ltb_spec n 100)].
    + rewrite pretty1 by done. change (String (digit_char n) "" +:+ rest) with (String (digit_char n) rest).
      rewrite read_digits_digit, read_digits_stop by (done || lia). cbv zeta. simpl Nat.eqb.
      rewrite andb_false_r. replace (0 * 10 + n)%N with n by lia.
      by destruct (N.ltb_spec 255 n); [lia |].
    + pose proof (N.div_mod n 10 ltac:(done)) as Hdm. pose proof (N.mod_lt n 10 ltac:(done)) as Hm.
      set (a := (n / 10)%N) in *. set (b := (n mod 10)%N) in *. clearbody a b.
      replace n with (a * 10 + b)%N by lia. rewrite pretty2 by lia.
      change (text2 a b +:+ rest) with (String (digit_char a) (String (digit_char b) rest)).
      rewrite digit_zero, !read_digits_digit, read_digits_stop by (done || lia). cbv zeta.
      simpl Nat.eqb. rewrite andb_true_r. replace ((0 * 10 + a) * 10 + b)%N with (a * 10 + b)%N by lia.
      destruct (N.ltb_spec 255 (a * 10 + b)); [lia |]. by destruct (N.eqb_spec a 0); [lia |].
    + pose proof (N.div_mod n 10 ltac:(done)) as Hdm. pose proof (N.mod_lt n 10 ltac:(done)) as Hm.
      pose proof (N.div_mod (n / 10) 10 ltac:(done)) as Hdm2.
      pose proof (N.mod_lt (n / 10) 10 ltac:(done)) as Hm2.
      set (a := (n / 10 / 10)%N) in *. set (b := (n / 10 mod 10)%N) in *.
      set (c := (n mod 10)%N) in *. set (q := (n / 10)%N) in *. clearbody a b c q.
      replace n with (a * 100 + b * 10 + c)%N by lia. rewrite pretty3 by lia.
      change (text3 a b c +:+ rest)
        with (String (digit_char a) (String (digit_char b) (String (digit_char c) rest))).
      rewrite digit_zero, !read_digits_digit, read_digits_stop by (done || lia). cbv zeta.
      simpl Nat.eqb. rewrite andb_true_r.
      replace (((0 * 10 + a) * 10 + b) * 10 + c)%N with (a * 100 + b * 10 + c)%N by lia.
      destruct (N.ltb_spec 255 (a * 100 + b * 10 + c)); [lia |]. by destruct (N.eqb_spec a 0); [lia |].
Qed.

Lemma read_later_octet_iff i s n rest :
  read_octet (S i) s = Some (n, rest) <->
  (n <= 255)%N /\ s = "." +:+ pretty n +:+ rest /\ no_digit rest.
Proof.
  unfold read_octet, read_separator. simpl. destruct s as [| c s]; simpl.
  - split; [done |]. by intros (_ & ? & _).
  - destruct (Ascii.eqb_spec c ".") as [-> | Hne].
    + rewrite read_octet_iff. split; [intros (? & -> & ?); done | by intros (? & [= ->] & ?)].
    + split; [done |]. intros (_ & [= ?] & _). done.
Qed.

Lemma no_digit_dot s : no_digit ("." +:+ s).
Proof. done. Qed.

Lemma read_ipv4_iff s ip :
  read_ipv4_addr s = Some (ip, "") <-> ipv4_wf ip /\ s = ipv4_text ip.
Proof.
  unfold read_ipv4_addr, ipv4_wf, ipv4_text, octets. split.
  - destruct (read_octet 0 s) as [[a s1] |] eqn:Ha; [| done].
    destruct (read_octet 1 s1) as [[b s2] |] eqn:Hb; [| done].
    destruct (read_octet 2 s2) as [[c s3] |] eqn:Hc; [| done].
    destruct (read_octet 3 s3) as [[d s4] |] eqn:Hd; [| done].
    intros [= <- ->]. simpl.
    apply read_octet_iff in Ha as (Ha & -> & _).
    apply read_later_octet_iff in Hb as (Hb & -> & _), Hc as (Hc & -> & _), Hd as (Hd & -> & _).
    split; [by repeat constructor |]. by rewrite app_nil_r_s.
  - intros [Hwf ->]. destruct ip as [a b c d]. simpl in *.
    repeat (apply Forall_cons in Hwf as [? Hwf]).
    change (read_octet 0) with (read_number 10 3 false 255).
    rewrite (proj2 (read_octet_iff _ a _)) by (split; [done |]; split; [reflexivity | done]).
    rewrite (proj2 (read_later_octet_iff 0 _ b _)) by (split; [done |]; split; [reflexivity | done]).
    rewrite (proj2 (read_later_octet_iff 1 _ c _)) by (split; [done |]; split; [reflexivity | done]).
    rewrite (proj2 (read_later_octet_iff 2 _ d "")); [done |].
    split; [done |]. split; [by rewrite app_nil_r_s | done].
Qed.

(** An IPv4 address has exactly one accepted text, its dotted decimal [Display]:
    what parses to it is that text (no leading zeros, no octal, no short forms), so a
    policy check on the text and one on the address see the same host. *)
Theorem ipv4_text_canonical s ip :
  parse_ip s = Some (V4 ip) <-> ipv4_wf ip /\ s = ipv4_text ip.
Proof.
  unfold parse_ip. rewrite <- read_ipv4_iff. split.
  - destruct (read_ipv4_addr s) as [[ip' [|]] |]; [by intros [= <-] | done |].
    by destruct (read_ipv6_addr s) as [[ip' [|]] |].
  - by intros ->.
Qed.

Import HostApi.Resource.

(** ** Texts *)

Definition ascii_lower (c : ascii) : ascii :=
  if is_ascii_uppercase c then ascii_of_N (N_of_ascii c + 32) else c.

Fixpoint to_ascii_lowercase (s : string) : string :=
  match s with "" => "" | String c s' => String (ascii_lower c) (to_ascii_lowercase s') end.

Definition eq_ignore_ascii_case (a b : string) : bool :=
  String.eqb (to_ascii_lowercase a) (to_ascii_lowercase b).

Definition is_trim_whitespace (c : ascii) : bool := byte_in 9 13 c || byte_in 32 32 c.

Fixpoint trim_start (s : string) : string :=
  match s with
  | String c s' => if is_trim_whitespace c then trim_start s' else s
  | "" => ""
  end.

Fixpoint trim_end (s : string) : string :=
  match s with
  | "" => ""
  | String c s' =>
      match trim_end s' with
      | "" => if is_trim_whitespace c then "" else String c ""
      | t => String c t
      end
  end.

Definition trim (s : string) : string := trim_end (trim_start s).

(** ** [policy.rs] *)

Section policy.

(** [NetworkRequest] and [NetworkPermit] *)
Record NetworkRequest := {
  nr_scope : ResourceScope;
  nr_target : NetworkTarget;
  nr_method : NetworkMethod;
  nr_estimated_bytes : option N;
}.

Record NetworkPermit := {
  np_scope : ResourceScope;
  np_target : NetworkTarget;
  np_method : NetworkMethod;
  np_estimated_bytes : option N;
}.

Inductive NetworkPolicyError :=
  | TargetDenied (scope : ResourceScope) (target : NetworkTarget)
  | PrivateTargetDenied (scope : ResourceScope) (target : NetworkTarget)
  | EgressEstimateRequired (scope : ResourceScope) (limit : N)
  | EgressLimitExceeded (scope : ResourceScope) (estimated limit : N).

Definition network_policy_error_text (e : NetworkPolicyError) : string :=
  match e with
  | TargetDenied _ _ => "network target is not allowed by policy"
  | PrivateTargetDenied _ _ =>
      "network target is private, loopback, link-local, documentation, or otherwise host-local"
  | EgressEstimateRequired _ limit =>
      "network egress estimate is required when limit " +:+ pretty limit +:+ " is configured"
  | EgressLimitExceeded _ estimated limit =>
      "network egress estimate " +:+ pretty estimated +:+ " exceeds limit " +:+ pretty limit
  end.

Definition is_carrier_grade_nat_v4 (ip : Ipv4Addr) : bool :=
  (octet1 ip =? 100)%N && (64 <=? octet2 ip)%N && (octet2 ip <=? 127)%N.

Definition is_documentation_v6 (ip : Ipv6Addr) : bool :=
  (segment ip 0 =? 8193)%N && (segment ip 1 =? 3512)%N.

Definition is_private_or_loopback_v4 (ip : Ipv4Addr) : bool :=
  v4_is_private ip || v4_is_loopback ip || v4_is_link_local ip || v4_is_broadcast ip
  || v4_is_documentation ip || v4_is_multicast ip || (octet1 ip =? 0)%N
  || is_carrier_grade_nat_v4 ip.

Definition is_private_or_loopback_ip (ip : IpAddr) : bool :=
  match ip with
  | V4 ip => is_private_or_loopback_v4 ip
  | V6 ip =>
      match to_ipv4_mapped ip with
      | Some mapped => is_private_or_loopback_v4 mapped
      | None =>
          v6_is_loopback ip || v6_is_unspecified ip || v6_is_unique_local ip
          || v6_is_unicast_link_local ip || v6_is_multicast ip || is_documentation_v6 ip
      end
  end.

(** [if policy.deny_private_ip_ranges && let Ok(ip) = .. && is_private_or_loopback_ip(ip)] *)
Definition private_literal_denied (policy : NetworkPolicy) (target : NetworkTarget) : bool :=
  deny_private_ip_ranges policy
  && match parse_ip (nt_host target) with
     | Some ip => is_private_or_loopback_ip ip
     | None => false
     end.

Definition host_matches_pattern (host pattern : string) : bool :=
  let host := to_ascii_lowercase host in
  let pattern := to_ascii_lowercase pattern in
  if String.eqb pattern "*" then true
  else
    match strip_prefix "*." pattern with
    | Some suffix =>
        match strip_suffix ("." +:+ suffix) host with
        | None => false
        | Some prefix => negb (String.eqb prefix "") && negb (contains_char "." prefix)
        end
    | None => String.eqb host pattern
    end.

Definition target_matches_pattern (target : NetworkTarget) (pattern : NetworkTargetPattern) : bool :=
  match ntp_scheme pattern with
  | Some scheme => bool_decide (scheme = nt_scheme target)
  | None => true
  end
  && match ntp_port pattern with
     | Some port => bool_decide (Some port = nt_port target)
     | None => true
     end
  && host_matches_pattern (nt_host target) (ntp_host_pattern pattern).

Definition network_policy_allows (policy : NetworkPolicy) (target : NetworkTarget) : bool :=
  match allowed_targets policy with
  | [] => false
  | patterns =>
      if private_literal_denied policy target then false
      else existsb (target_matches_pattern target) patterns
  end.

Definition authorize_static_policy (policy : NetworkPolicy) (request : NetworkRequest) :
    Result NetworkPermit NetworkPolicyError :=
  let checked :=
    if private_literal_denied policy (nr_target request)
    then Err (PrivateTargetDenied (nr_scope request) (nr_target request))
    else if negb (network_policy_allows policy (nr_target request))
    then Err (TargetDenied (nr_scope request) (nr_target request))
    else Ok {| np_scope := nr_scope request; np_target := nr_target request;
               np_method := nr_method request; np_estimated_bytes := nr_estimated_bytes request |} in
  match max_egress_bytes policy with
  | None => checked
  | Some limit =>
      match nr_estimated_bytes request with
      | None => Err (EgressEstimateRequired (nr_scope request) limit)
      | Some estimated =>
          if (limit <? estimated)%N
          then Err (EgressLimitExceeded (nr_scope request) estimated limit)
          else checked
      end
  end.
End policy.

(** ** [url_target.rs] *)

(** What [url::Url] answers about a URL it accepts. *)
Record Url := {
  url_scheme : string;
  url_username : string;
  url_password : option string;
  url_host : option string;
  url_port_or_known_default : option N;
}.

Inductive NetworkTargetUrlError :=
  | UrlParse (reason : string)
  | UserinfoDenied
  | UnsupportedScheme (scheme : string)
  | MissingHost.

Definition target_url_error_text (e : NetworkTargetUrlError) : string :=
  match e with
  | UrlParse reason => "invalid URL: " +:+ reason
  | UserinfoDenied => "URL userinfo is not allowed"
  | UnsupportedScheme scheme => "unsupported URL scheme " +:+ scheme
  | MissingHost => "URL host is required"
  end.

Definition default_port (scheme : NetworkScheme) : N :=
  match scheme with Http => 80 | Https => 443 end.

(** ** [error.rs] and [types.rs] *)

Record NetworkUsage := {
  nu_request_bytes : N;
  nu_response_bytes : N;
  nu_resolved_ip : option IpAddr;
}.

Record NetworkHttpResponse := {
  rs_status : N;
  rs_headers : list (string * string);
  rs_body : string;
  rs_usage : NetworkUsage;
}.

Inductive NetworkHttpError :=
  | InvalidUrl (reason : string) (request_bytes response_bytes : N)
  | HttpPolicyDenied (reason : string) (request_bytes response_bytes : N)
  | Dns (reason : string) (request_bytes response_bytes : N)
  | Transport (reason : string) (request_bytes response_bytes : N)
  | ResponseBodyLimit (limit request_bytes response_bytes : N)
      (partial_response : option NetworkHttpResponse).

Definition http_error_text (e : NetworkHttpError) : string :=
  match e with
  | InvalidUrl reason _ _ => "invalid network URL: " +:+ reason
  | HttpPolicyDenied reason _ _ => "network policy denied request: " +:+ reason
  | Dns reason _ _ => "network DNS resolution failed: " +:+ reason
  | Transport reason _ _ => "network transport failed: " +:+ reason
  | ResponseBodyLimit limit _ _ _ => "network response body exceeded limit " +:+ pretty limit
  end.

Definition error_request_bytes (e : NetworkHttpError) : N :=
  match e with
  | InvalidUrl _ n _ | HttpPolicyDenied _ n _ | Dns _ n _ | Transport _ n _
  | ResponseBodyLimit _ n _ _ => n
  end.

Definition error_response_bytes (e : NetworkHttpError) : N :=
  match e with
  | InvalidUrl _ _ n | HttpPolicyDenied _ _ n | Dns _ _ n | Transport _ _ n
  | ResponseBodyLimit _ _ n _ => n
  end.

Definition into_partial_response (e : NetworkHttpError) : option NetworkHttpResponse :=
  match e with ResponseBodyLimit _ _ _ partial => partial | _ => None end.

Record NetworkHttpRequest := {
  hr_scope : ResourceScope;
  hr_method : NetworkMethod;
  hr_url : string;
  hr_headers : list (string * string);
  hr_body : string;
  hr_policy : NetworkPolicy;
  hr_response_body_limit : option N;
  hr_timeout_ms : option N;
}.

Record NetworkTransportRequest := {
  tr_method : NetworkMethod;
  tr_url : string;
  tr_headers : list (string * string);
  tr_body : string;
  tr_resolved_ips : list IpAddr;
  tr_response_body_limit : option N;
  tr_timeout_ms : option N;
}.

(** ** [egress.rs] *)

Definition add_len (total : N) (len : nat) : N := sat_add64 total (N.min (N.of_nat len) u64_max).

Definition method_label (m : NetworkMethod) : string :=
  match m with
  | MGet => "GET" | MPost => "POST" | MPut => "PUT" | MPatch => "PATCH" | MDelete => "DELETE"
  | MHead => "HEAD"
  end.

Definition estimate_http_request_bytes (method : NetworkMethod) (url : string)
    (headers : list (string * string)) (body : string) : N :=
  let total := fold_left add_len
    [str_len (method_label method); 1; str_len url; 11] 0%N in
  let total := fold_left (fun total '(name, value) =>
    fold_left add_len [str_len name; 2; str_len value; 2] total) headers total in
  fold_left add_len [2; str_len body] total.

Definition reject_caller_host_header (headers : list (string * string)) :
    Result unit NetworkHttpError :=
  if existsb (fun '(name, _) => eq_ignore_ascii_case (trim name) "host") headers
  then Err (HttpPolicyDenied "caller-provided Host header is not allowed" 0 0)
  else Ok tt.

Section egress.
(** [url::Url::parse], the resolver [R], the worker thread the resolution runs on (an
    error of [spawn_blocking], if any) and the transport [T]. *)
Variable url_parse : string -> Result Url string.
Variable resolve_ips : string -> N -> Result (list IpAddr) NetworkHttpError.
Variable worker_failure : option string.
Variable transport : NetworkTransportRequest -> Result NetworkHttpResponse NetworkHttpError.

Definition network_target_for_url (raw : string) : Result NetworkTarget NetworkTargetUrlError :=
  match url_parse raw with
  | Err reason => Err (UrlParse reason)
  | Ok url =>
      if negb (String.eqb (url_username url) "") || bool_decide (is_Some (url_password url))
      then Err UserinfoDenied
      else
        match (if String.eqb (url_scheme url) "http" then Some Http
               else if String.eqb (url_scheme url) "https" then Some Https else None) with
        | None => Err (UnsupportedScheme (url_scheme url))
        | Some scheme =>
            match url_host url with
            | Some host =>
                if String.eqb (trim host) "" then Err MissingHost
                else Ok {| nt_scheme := scheme; nt_host := to_ascii_lowercase host;
                           nt_port := url_port_or_known_default url |}
            | None => Err MissingHost
            end
        end
  end.

Definition network_target_for_http_url (raw : string) (request_bytes : N) :
    Result NetworkTarget NetworkHttpError :=
  match network_target_for_url raw with
  | Ok target => Ok target
  | Err e => Err (InvalidUrl (target_url_error_text e) request_bytes 0)
  end.

Definition resolve_public_ips (target : NetworkTarget) (policy : NetworkPolicy) (request_bytes : N) :
    Result (list IpAddr) NetworkHttpError :=
  match (match parse_ip (nt_host target) with
         | Some ip => Ok [ip]
         | None =>
             let port := default (default_port (nt_scheme target)) (nt_port target) in
             match resolve_ips (nt_host target) port with
             | Ok ips => Ok ips
             | Err e => Err (Dns (http_error_text e) request_bytes (error_response_bytes e))
             end
         end) with
  | Err e => Err e
  | Ok [] => Err (Dns "network target did not resolve to any IP addresses" request_bytes 0)
  | Ok resolved_ips =>
      if deny_private_ip_ranges policy && existsb is_private_or_loopback_ip resolved_ips
      then Err (HttpPolicyDenied "network target resolves to a private or host-local IP"
                  request_bytes 0)
      else Ok resolved_ips
  end.

(** [PolicyNetworkHttpEgress::execute], with what the transport was asked to send. *)
Definition execute (request : NetworkHttpRequest) :
    Result NetworkHttpResponse NetworkHttpError * list NetworkTransportRequest :=
  let estimated := estimate_http_request_bytes (hr_method request) (hr_url request)
                     (hr_headers request) (hr_body request) in
  match reject_caller_host_header (hr_headers request) with
  | Err e => (Err e, [])
  | Ok _ =>
      match network_target_for_http_url (hr_url request) estimated with
      | Err e => (Err e, [])
      | Ok target =>
          match authorize_static_policy (hr_policy request)
                  {| nr_scope := hr_scope request; nr_target := target;
                     nr_method := hr_method request; nr_estimated_bytes := Some estimated |} with
          | Err e => (Err (HttpPolicyDenied (network_policy_error_text e) estimated 0), [])
          | Ok permit =>
              match worker_failure with
              | Some e =>
                  (Err (Transport ("network resolver worker failed: " +:+ e) estimated 0), [])
              | None =>
                  match resolve_public_ips target (hr_policy request) estimated with
                  | Err e => (Err e, [])
                  | Ok resolved_ips =>
                      let sent := {| tr_method := np_method permit; tr_url := hr_url request;
                        tr_headers := hr_headers request; tr_body := hr_body request;
                        tr_resolved_ips := resolved_ips;
                        tr_response_body_limit := hr_response_body_limit request;
                        tr_timeout_ms := hr_timeout_ms request |} in
                      (transport sent, [sent])
                  end
              end
          end
      end
  end.

(** [SystemNetworkResolver::resolve_ips] over the system's [to_socket_addrs]. *)
Definition system_resolve_ips (to_socket_addrs : string -> N -> Result (list IpAddr) string)
    (host : string) (port : N) : Result (list IpAddr) NetworkHttpError :=
  match parse_ip host with
  | Some ip => Ok [ip]
  | None =>
      match to_socket_addrs host port with
      | Ok ips => Ok ips
      | Err reason => Err (Dns reason 0 0)
      end
  end.
End egress.

(** ** [transport.rs]: the limits *)

Definition DEFAULT_RESPONSE_BODY_LIMIT : N := 10 * 1024 * 1024.
Definition MAX_RESPONSE_BODY_LIMIT : N := DEFAULT_RESPONSE_BODY_LIMIT.

Definition effective_response_body_limit (requested : option N) : N :=
  N.min (default DEFAULT_RESPONSE_BODY_LIMIT requested) MAX_RESPONSE_BODY_LIMIT.

(** Durations in milliseconds. *)
Definition effective_request_timeout (requested_ms : option N) (default_ms : N) : N :=
  match requested_ms with
  | Some ms => N.min (N.max ms 1) default_ms
  | None => default_ms
  end.

(** What [response.chunk()] yields: chunks, then the end or an error. *)
Inductive Chunks :=
  | ChunksEnd
  | ChunksError (reason : string)
  | Chunk (bytes : string) (rest : Chunks).

Section body.
Variables (status : N) (headers : list (string * string)) (request_bytes : N).
Variable resolved_ips : list IpAddr.
Variable limit : N.

Definition response_with (body : string) (response_bytes : N) : NetworkHttpResponse := {|
  rs_status := status; rs_headers := headers; rs_body := body;
  rs_usage := {| nu_request_bytes := request_bytes; nu_response_bytes := response_bytes;
                 nu_resolved_ip := hd_error resolved_ips |} |}.

(** The loop of [ReqwestNetworkTransport::execute] over the chunks, [body] so far. *)
Fixpoint read_response_body (chunks : Chunks) (body : string) :
    Result NetworkHttpResponse NetworkHttpError :=
  let current_len := N.of_nat (str_len body) in
  match chunks with
  | ChunksEnd => Ok (response_with body current_len)
  | ChunksError reason => Err (Transport reason request_bytes current_len)
  | Chunk bytes rest =>
      let remaining := sat_sub limit current_len in
      if (remaining <? N.of_nat (str_len bytes))%N then
        let body' := body +:+ String.substring 0 (Nat.min (N.to_nat remaining) (str_len bytes)) bytes in
        Err (ResponseBodyLimit limit request_bytes (sat_add64 limit 1)
               (Some (response_with body' (sat_add64 limit 1))))
      else
        let body' := body +:+ bytes in
        let response_bytes := N.of_nat (str_len body') in
        if (limit <? response_bytes)%N then
          Err (ResponseBodyLimit limit request_bytes response_bytes
                 (Some (response_with (String.substring 0 (N.to_nat limit) body') response_bytes)))
        else read_response_body rest body'
  end.
End body.
