(* ===== verification/NetworkFacts.v ===== *)
(** * Network egress: theorems

    Host patterns cover exactly one more label; nothing is sent that the policy does
    not allow or, where private ranges are denied, to an address that is not public;
    bodies stay within the limit. *)

From stdpp Require Import pretty.
From S2P Require Import Prelude Strings Ids Platform HostApi Capability AuthorizeDemo Network.
From Stdlib Require Import Ascii Lia.
Import HostApi.Resource.

(** ** Host patterns *)

(** A host matches a pattern exactly when, up to ASCII case, the pattern is [*],
    or is the host itself and no wildcard, or is [*.suffix] and the host is [suffix]
    with exactly one more non-empty label in front: neither the bare suffix, nor a
    deeper subdomain, nor a name that merely ends in the same letters. *)
Theorem host_pattern_exact host pattern :
  host_matches_pattern host pattern = true <->
  to_ascii_lowercase pattern = "*"
  \/ (exists suffix label,
       to_ascii_lowercase pattern = "*." +:+ suffix
       /\ to_ascii_lowercase host = label +:+ "." +:+ suffix
       /\ label <> "" /\ contains_char "." label = false)
  \/ (starts_with "*." (to_ascii_lowercase pattern) = false
      /\ to_ascii_lowercase host = to_ascii_lowercase pattern).
Proof.
  unfold host_matches_pattern. set (h := to_ascii_lowercase host). set (p := to_ascii_lowercase pattern).
  destruct (String.eqb_spec p "*") as [Hp | Hp]; [tauto |].
  destruct (strip_prefix "*." p) as [suffix |] eqn:Hs.
  - apply strip_prefix_iff in Hs. destruct (strip_suffix ("." +:+ suffix) h) as [label |] eqn:Hl.
    + apply strip_suffix_iff in Hl. rewrite andb_true_iff, !negb_true_iff, String.eqb_neq. split.
      * intros [Hn Hd]. right. left. by exists suffix, label.
      * intros [? | [(suffix' & label' & Hp' & Hh & Hn & Hd) | [Hno _]]]; [done | |].
        -- rewrite Hs in Hp'. apply app_inj_l_s in Hp' as <-. rewrite Hl in Hh.
           apply app_inj_r_s in Hh as ->. done.
        -- rewrite Hs in Hno. by rewrite (proj2 (starts_with_iff _ _) (ex_intro _ suffix eq_refl)) in Hno.
    + split; [done |]. intros [? | [(suffix' & label' & Hp' & Hh & _) | [Hno _]]]; [done | |].
      * rewrite Hs in Hp'. apply app_inj_l_s in Hp' as <-.
        assert (strip_suffix ("." +:+ suffix) h = Some label') as Hx by by apply strip_suffix_iff.
        congruence.
      * rewrite Hs in Hno. by rewrite (proj2 (starts_with_iff _ _) (ex_intro _ suffix eq_refl)) in Hno.
  - assert (starts_with "*." p = false) as Hno.
    { apply not_true_iff_false. intros [t Ht]%starts_with_iff.
      assert (strip_prefix "*." p = Some t) as Hx by by apply strip_prefix_iff. congruence. }
    rewrite String.eqb_eq. split; [tauto |].
    intros [? | [(suffix' & label' & Hp' & _) | [_ ?]]]; [done | | done].
    assert (strip_prefix "*." p = Some suffix') as Hx by by apply strip_prefix_iff. congruence.
Qed.

(** ** What is sent *)

(** A request the policy lets through for a target. *)
Record permitted (policy : NetworkPolicy) (target : NetworkTarget) (estimated : N) : Prop := {
  pm_pattern : exists pattern, pattern ∈ allowed_targets policy
                 /\ target_matches_pattern target pattern = true;
  pm_egress limit : max_egress_bytes policy = Some limit -> (estimated <= limit)%N;
  pm_literal : private_literal_denied policy target = false;
}.

Lemma authorize_permitted policy request permit estimated :
  nr_estimated_bytes request = Some estimated ->
  authorize_static_policy policy request = Ok permit ->
  permitted policy (nr_target request) estimated /\ np_method permit = nr_method request.
Proof.
  intros He. unfold authorize_static_policy. rewrite He. cbv zeta.
  destruct (private_literal_denied policy (nr_target request)) eqn:Hl.
  { destruct (max_egress_bytes policy) as [limit |]; [by destruct (N.ltb _ _) | done]. }
  destruct (network_policy_allows policy (nr_target request)) eqn:Ha; simpl.
  2:{ destruct (max_egress_bytes policy) as [limit |]; [by destruct (N.ltb _ _) | done]. }
  assert (exists pattern, pattern ∈ allowed_targets policy
            /\ target_matches_pattern (nr_target request) pattern = true) as Hp.
  { unfold network_policy_allows in Ha. rewrite Hl in Ha.
    destruct (allowed_targets policy) as [| x xs]; [done |].
    apply existsb_exists in Ha as (pattern & Hin & Hm). exists pattern.
    by rewrite list_elem_of_In. }
  destruct (max_egress_bytes policy) as [limit |] eqn:Hlim.
  - destruct (N.ltb_spec limit estimated); [done |]. intros [= <-]. split; [| done].
    split; [done | | done]. rewrite Hlim. by intros ? [= <-].
  - intros [= <-]. split; [| done]. split; [done | | done]. by rewrite Hlim.
Qed.

Lemma resolve_public_spec resolve target policy n ips :
  resolve_public_ips resolve target policy n = Ok ips ->
  ips <> [] /\ (deny_private_ip_ranges policy = true ->
                forall ip, ip ∈ ips -> is_private_or_loopback_ip ip = false).
Proof.
  unfold resolve_public_ips. destruct (match parse_ip _ with Some _ => _ | None => _ end) as [found | e];
    [| done].
  destruct found as [| ip found]; [done |].
  destruct (deny_private_ip_ranges policy); simpl.
  - destruct (_ || _) eqn:Hany; [done |]. intros [= <-]. split; [done |]. intros _ x Hx.
    apply not_true_iff_false. intros Hp. apply not_true_iff_false in Hany. apply Hany.
    change (existsb is_private_or_loopback_ip (ip :: found) = true).
    apply existsb_exists. exists x. by rewrite <- list_elem_of_In.
  - by intros [= <-].
Qed.

(** [C22] Egress stays within the policy.  Whatever the URL parser, the resolver and the
    transport answer, a request is either refused with nothing sent, or sent exactly
    once, unchanged, for an HTTP or HTTPS target without user info that an allowed
    pattern matches, with its estimated size within the egress limit and no caller
    Host header, pinned to the addresses that were checked: at least one, and all of
    them public when the policy denies private ranges.  A later DNS answer cannot
    redirect it. *)
Theorem egress_contained url_parse resolve worker transport request r sent :
  execute url_parse resolve worker transport request = (r, sent) ->
  (sent = [] /\ exists e, r = Err e)
  \/ exists s target estimated,
       sent = [s] /\ r = transport s
       /\ (tr_method s, tr_url s, tr_headers s, tr_body s)
          = (hr_method request, hr_url request, hr_headers request, hr_body request)
       /\ network_target_for_url url_parse (hr_url request) = Ok target
       /\ estimated = estimate_http_request_bytes (hr_method request) (hr_url request)
                        (hr_headers request) (hr_body request)
       /\ permitted (hr_policy request) target estimated
       /\ Forall (fun '(name, _) => eq_ignore_ascii_case (trim name) "host" = false)
            (hr_headers request)
       /\ tr_resolved_ips s <> []
       /\ (deny_private_ip_ranges (hr_policy request) = true ->
           forall ip, ip ∈ tr_resolved_ips s -> is_private_or_loopback_ip ip = false).
Proof.
  unfold execute. cbv zeta. set (estimated := estimate_http_request_bytes _ _ _ _).
  destruct (reject_caller_host_header (hr_headers request)) eqn:Hh.
  2:{ intros [= <- <-]. left. eauto. }
  unfold network_target_for_http_url.
  destruct (network_target_for_url url_parse (hr_url request)) as [target | e] eqn:Ht.
  2:{ intros [= <- <-]. left. eauto. }
  destruct (authorize_static_policy _ _) as [permit | e] eqn:Ha.
  2:{ intros [= <- <-]. left. eauto. }
  destruct worker as [reason |]; [intros [= <- <-]; left; eauto |].
  destruct (resolve_public_ips _ _ _ _) as [ips | e] eqn:Hr.
  2:{ intros [= <- <-]. left. eauto. }
  intros [= <- <-]. right. eexists _, target, estimated. split; [reflexivity |].
  split; [reflexivity |]. apply (authorize_permitted _ _ _ estimated) in Ha as [Hp Hm]; [| done].
  simpl in *. apply resolve_public_spec in Hr as [Hn Hpub].
  split; [by rewrite Hm |]. split; [done |]. split; [done |]. split; [done |].
  split; [| by split]. unfold reject_caller_host_header in Hh.
  destruct (existsb _ _) eqn:Hx in Hh; [done |].
  apply Forall_forall. intros [name value] Hin. apply not_true_iff_false. intros Hhost.
  apply not_true_iff_false in Hx. apply Hx, existsb_exists. exists (name, value).
  by rewrite <- list_elem_of_In.
Qed.

(** ** Bodies *)

Fixpoint chunks_text (chunks : Chunks) : string :=
  match chunks with
  | ChunksEnd | ChunksError _ => ""
  | Chunk bytes rest => bytes +:+ chunks_text rest
  end.

Lemma substring_app a b n :
  str_len a <= n -> String.substring 0 n (a +:+ b) = a +:+ String.substring 0 (n - str_len a) b.
Proof.
  unfold str_len. revert n. induction a as [| c a IH]; intros n Hn; simpl in *.
  - by rewrite Nat.sub_0_r.
  - destruct n as [| n]; [lia |]. simpl. refine (f_equal (String c) (IH n _)). lia.
Qed.

Lemma substring_prefix a b n :
  n <= str_len a -> String.substring 0 n (a +:+ b) = String.substring 0 n a.
Proof.
  unfold str_len. revert n. induction a as [| c a IH]; intros n Hn; simpl in *.
  - assert (n = 0) as -> by lia. by destruct b.
  - destruct n as [| n]; [done |]. simpl. refine (f_equal (String c) (IH n _)). lia.
Qed.

Lemma str_len_app a b : str_len (a +:+ b) = str_len a + str_len b.
Proof. apply length_app_s. Qed.

Lemma read_body_spec status headers n ips limit chunks body :
  (N.of_nat (str_len body) <= limit)%N ->
  match read_response_body status headers n ips limit chunks body with
  | Ok resp =>
      rs_body resp = body +:+ chunks_text chunks
      /\ (N.of_nat (str_len (rs_body resp)) <= limit)%N
      /\ nu_response_bytes (rs_usage resp) = N.of_nat (str_len (rs_body resp))
  | Err e =>
      (exists reason received, e = Transport reason n received /\ (received <= limit)%N)
      \/ exists partial,
           e = ResponseBodyLimit limit n (sat_add64 limit 1) (Some partial)
           /\ rs_body partial = String.substring 0 (N.to_nat limit) (body +:+ chunks_text chunks)
           /\ (limit < N.of_nat (str_len (body +:+ chunks_text chunks)))%N
  end.
Proof.
  revert body. induction chunks as [| reason | bytes rest IH]; intros body Hb; simpl.
  - rewrite app_nil_r_s. by repeat split.
  - left. eauto.
  - unfold sat_sub. destruct (N.ltb_spec (limit - N.of_nat (str_len body)) (N.of_nat (str_len bytes))) as [Hlt | Hge].
    + right. eexists. split; [reflexivity |]. simpl. split.
      * rewrite substring_app by lia. f_equal.
        rewrite Nat.min_l by lia. rewrite substring_prefix by lia. f_equal. lia.
      * rewrite !str_len_app. lia.
    + destruct (N.ltb_spec limit (N.of_nat (str_len (body +:+ bytes)))) as [Hx | Hx].
      { rewrite str_len_app in Hx. lia. }
      specialize (IH (body +:+ bytes) Hx). by rewrite app_assoc_s in IH.
Qed.

(** A response body never exceeds the limit in force, which is at most 10 MiB
    whatever the caller asks for: a body that is returned is exactly the bytes
    received, all of them within the limit; a longer one is cut at the limit and
    reported, and an overrun is noticed before its bytes are kept. *)
Theorem response_body_bounded status headers n ips requested chunks :
  (effective_response_body_limit requested <= 10485760)%N
  /\ match read_response_body status headers n ips (effective_response_body_limit requested) chunks "" with
     | Ok resp =>
         rs_body resp = chunks_text chunks
         /\ (N.of_nat (str_len (rs_body resp)) <= effective_response_body_limit requested)%N
     | Err e =>
         forall partial, into_partial_response e = Some partial ->
           rs_body partial
             = String.substring 0 (N.to_nat (effective_response_body_limit requested)) (chunks_text chunks)
           /\ (effective_response_body_limit requested < N.of_nat (str_len (chunks_text chunks)))%N
     end.
Proof.
  split.
  { unfold effective_response_body_limit, MAX_RESPONSE_BODY_LIMIT, DEFAULT_RESPONSE_BODY_LIMIT. lia. }
  pose proof (read_body_spec status headers n ips (effective_response_body_limit requested) chunks "") as Hs.
  specialize (Hs ltac:(simpl; lia)).
  destruct (read_response_body _ _ _ _ _ _ _) as [resp | e].
  - destruct Hs as (Hb & Hl & _). by split.
  - intros partial Hp. destruct Hs as [(reason & m & -> & _) | (p & -> & Hb & Hl)]; [done |].
    injection Hp as <-. by split.
Qed.

(** ** A request that is sent, and one that would reach a private address *)

Definition demo_url (raw : string) : Result Url string :=
  Ok {| url_scheme := "https"; url_username := ""; url_password := None;
        url_host := Some "Api.Example.test"; url_port_or_known_default := Some 443%N |}.

Definition demo_request : NetworkHttpRequest := {|
  hr_scope := alice_scope; hr_method := MGet; hr_url := "https://Api.Example.test/v1";
  hr_headers := [("accept", "text/plain")]; hr_body := "";
  hr_policy := {| allowed_targets := [{| ntp_scheme := Some Https; ntp_host_pattern := "*.example.test";
                                         ntp_port := None |}];
                  deny_private_ip_ranges := true; max_egress_bytes := Some 4096%N |};
  hr_response_body_limit := None; hr_timeout_ms := None |}.

Definition answers (ip : IpAddr) (host : string) (port : N) : Result (list IpAddr) NetworkHttpError :=
  Ok [ip].

Definition public_ip : IpAddr := V4 {| octet1 := 93; octet2 := 184; octet3 := 216; octet4 := 34 |}.
Definition mapped_loopback : IpAddr := V6 {| segments := [0; 0; 0; 0; 0; 65535; 32512; 1]%N |}.

Definition no_transport (s : NetworkTransportRequest) : Result NetworkHttpResponse NetworkHttpError :=
  Err (Transport "offline" 0 0).

(** A name that resolves to a mapped loopback address is refused. *)
Example rebinding_refused :
  (execute demo_url (answers mapped_loopback) None no_transport demo_request).2 = [].
Proof. by vm_compute. Qed.

Lemma egress_contained_witness :
  exists s, (execute demo_url (answers public_ip) None no_transport demo_request).2 = [s]
    /\ forall ip, ip ∈ tr_resolved_ips s -> is_private_or_loopback_ip ip = false.
Proof.
  destruct (execute demo_url (answers public_ip) None no_transport demo_request) as [r sent] eqn:Hrun.
  assert (length sent = 1) as Hlen by (change sent with (r, sent).2; rewrite <- Hrun; vm_refl).
  destruct (egress_contained demo_url (answers public_ip) None no_transport demo_request r sent Hrun)
    as [[Hnil _] | (s & target & estimated & Hs & _ & _ & _ & _ & _ & _ & _ & Hpub)].
  - rewrite Hnil in Hlen. discriminate Hlen.
  - exists s. split; [exact Hs | exact (Hpub eq_refl)].
Defined.
