(* ===== verification/Programs.v ===== *)
(** * Programs that call their environment

    An [async fn] that works through [dyn] traits is a tree: it returns, or makes a call
    and goes on with the answer.  [wp] reasons over every answer, whatever other tasks
    did meanwhile; [alone] is a run that nothing disturbs; a [Pool] interleaves many such programs call by call. *)

From stdpp Require Import relations.
From S2P Require Import Prelude.
From Stdlib Require Import Lia.

Declare Scope prog_scope.
Delimit Scope prog_scope with prog.

(** A sum over a list. *)
Fixpoint total {A} (f : A -> nat) (l : list A) : nat :=
  match l with [] => 0 | x :: l' => f x + total f l' end.

(** A list of the lists gets one element more. *)
Lemma total_insert {A} (f : A -> nat) ls i l x :
  ls !! i = Some l -> total (total f) (<[i := x :: l]> ls) = f x + total (total f) ls.
Proof.
  revert i. induction ls as [| l0 ls IH]; intros [| i] Hi; simpl in *; try done.
  - injection Hi as ->. lia.
  - rewrite (IH _ Hi). lia.
Qed.

Lemma total_le {A} (f g : A -> nat) l :
  (forall i x, l !! i = Some x -> f x <= g x) -> total f l <= total g l.
Proof.
  induction l as [| x l IH]; intros Hle; simpl; [done |].
  pose proof (Hle 0 x eq_refl). specialize (IH (fun i => Hle (S i))). lia.
Qed.

Section programs.
Context {C : Type} {Answer : C -> Type}.

Inductive Prog (R : Type) : Type :=
  | Ret (r : R)
  | Ask (c : C) (k : Answer c -> Prog R).
Arguments Ret {R} r.
Arguments Ask {R} c k.

Fixpoint prog_bind {R T} (p : Prog R) (f : R -> Prog T) : Prog T :=
  match p with
  | Ret r => f r
  | Ask c k => Ask c (fun a => prog_bind (k a) f)
  end.

Definition ask (c : C) : Prog (Answer c) := Ask c Ret.

Definition prog_map {R T} (f : R -> T) (p : Prog R) : Prog T := prog_bind p (fun r => Ret (f r)).

(** A call with its answer. *)
Record Event := event { asked : C; answered : Answer asked }.

(** ** Runs *)

Definition next {R} (p : Prog R) (e : Event) (p' : Prog R) : Prop :=
  match p with
  | Ret _ => False
  | Ask c k => exists a, e = event c a /\ p' = k a
  end.

(** A program with the calls it has made, the latest first. *)
Definition pstep {R} (x y : Prog R * list Event) : Prop :=
  exists e, next x.1 e y.1 /\ y.2 = e :: x.2.

Definition runs {R} (p p' : Prog R) (h : list Event) : Prop := rtc pstep (p, []) (p', h).

(** At most so many calls. *)
Fixpoint within {R} (n : nat) (p : Prog R) {struct p} : Prop :=
  match p with
  | Ret _ => True
  | Ask c k => match n with 0 => False | S n' => forall a, within n' (k a) end
  end.

(** ** Reasoning over every answer

    [G h c] is guaranteed of every call [c] made after the calls [h]; [Q h r] of every
    result [r]. *)

Section wp.
Variable G : list Event -> C -> Prop.

Fixpoint wp {R} (p : Prog R) (h : list Event) (Q : list Event -> R -> Prop) : Prop :=
  match p with
  | Ret r => Q h r
  | Ask c k => G h c /\ forall a, wp (k a) (event c a :: h) Q
  end.

Lemma wp_bind {R T} (p : Prog R) (f : R -> Prog T) h Q :
  wp p h (fun h' r => wp (f r) h' Q) -> wp (prog_bind p f) h Q.
Proof.
  revert h. induction p as [r | c k IH]; intros h; simpl; [done |].
  intros [Hg Hk]. split; [done |]. intros a. by apply IH.
Qed.

Lemma wp_mono {R} (p : Prog R) h (Q Q' : list Event -> R -> Prop) :
  wp p h Q -> (forall h' r, Q h' r -> Q' h' r) -> wp p h Q'.
Proof.
  revert h. induction p as [r | c k IH]; intros h Hw Hq; simpl in *; [by apply Hq |].
  destruct Hw as [Hg Hk]. split; [done |]. intros a. by apply IH.
Qed.

Lemma wp_step {R} (p p' : Prog R) h h' Q :
  rtc pstep (p, h) (p', h') -> wp p h Q -> wp p' h' Q.
Proof.
  intros Hrun. remember (p, h) as x eqn:Hx. remember (p', h') as y eqn:Hy.
  revert p h Hx. induction Hrun as [x | x z y [e [Hn Hh]] _ IH]; intros p h -> Hw.
  - by injection Hy as <- <-.
  - destruct z as [q hq]. simpl in *. subst hq. destruct p as [r | c k]; simpl in Hn; [done |].
    destruct Hn as (a & -> & ->). apply (IH Hy (k a) (event c a :: h) eq_refl). apply Hw.
Qed.

(** A result comes with a longer history. *)
Lemma wp_history {R} (p : Prog R) h Q :
  wp p h Q -> wp p h (fun h' r => Q h' r /\ h `suffix_of` h').
Proof.
  revert h. induction p as [r | c k IH]; intros h Hw; simpl in *; [done |].
  destruct Hw as [Hg Hk]. split; [done |]. intros a. eapply wp_mono; [apply IH, Hk |].
  intros h' r [Hq Hs]. split; [done |]. etrans; [| exact Hs]. by apply suffix_cons_r.
Qed.

(** A step of a sequence: what follows knows the result of the first and that the history
    has grown. *)
Lemma wp_then {R T} (p : Prog R) (f : R -> Prog T) h (Q : list Event -> R -> Prop) Q' :
  wp p h Q -> (forall h' r, h `suffix_of` h' -> Q h' r -> wp (f r) h' Q') ->
  wp (prog_bind p f) h Q'.
Proof.
  intros Hp Hf. apply wp_bind. eapply wp_mono; [exact (wp_history _ _ _ Hp) |]. intros h' r [Hq Hs]. by apply Hf.
Qed.

(** What a run guarantees at its next call, and at its end. *)
Lemma wp_asks {R} (p : Prog R) c k h Q : wp p [] Q -> runs p (Ask c k) h -> G h c.
Proof. intros Hw Hrun. by apply (wp_step _ _ _ _ _ Hrun) in Hw as [Hg _]. Qed.

Lemma wp_returns {R} (p : Prog R) r h Q : wp p [] Q -> runs p (Ret r) h -> Q h r.
Proof. intros Hw Hrun. by apply (wp_step _ _ _ _ _ Hrun) in Hw. Qed.
End wp.

(** A guarantee held at every call of a history, given the calls before. *)
Fixpoint guaranteed (G : list Event -> C -> Prop) (h : list Event) : Prop :=
  match h with
  | [] => True
  | e :: h' => G h' (asked e) /\ guaranteed G h'
  end.

Lemma runs_guaranteed {R} (G : list Event -> C -> Prop) (p p' : Prog R) h Q :
  wp G p [] Q -> runs p p' h -> guaranteed G h.
Proof.
  intros Hw Hrun.
  assert (forall x y : Prog R * list Event, rtc pstep x y ->
    wp G x.1 x.2 Q -> guaranteed G x.2 -> guaranteed G y.2) as Hx.
  { intros x y Hxy. induction Hxy as [x | [q hx] [q' hz] y [e [Hn Hh]] _ IH]; [done |].
    intros Hwx Hc. destruct q as [r | c k]; simpl in *; [done |].
    destruct Hn as (a & -> & ->). subst hz. destruct Hwx as [Hg Hk]. by apply IH. }
  exact (Hx _ _ Hrun Hw I).
Qed.

Lemma wp_guarantee {R} (G G' : list Event -> C -> Prop) (p : Prog R) h Q :
  wp G p h Q -> (forall h' c, G h' c -> G' h' c) -> wp G' p h Q.
Proof.
  revert h. induction p as [r | c k IH]; intros h Hw Hg; simpl in *; [done |].
  destruct Hw as [H1 H2]. split; [by apply Hg |]. intros a. by apply IH.
Qed.

(** A run only adds to its history. *)
Lemma runs_history {R} (p p' : Prog R) h h' :
  rtc pstep (p, h) (p', h') -> exists l, h' = l ++ h.
Proof.
  intros Hrun. remember (p, h) as x eqn:Hx. remember (p', h') as y eqn:Hy.
  revert p h Hx. induction Hrun as [x | x z y [e [Hn Hh]] _ IH]; intros p h ->.
  - injection Hy as _ <-. by exists [].
  - destruct z as [q hq]. simpl in *. subst hq. destruct (IH Hy q (e :: h) eq_refl) as [l ->].
    exists (l ++ [e]). by rewrite <- app_assoc.
Qed.

Definition count_calls (f : C -> bool) (h : list Event) : nat :=
  total (fun e => if f (asked e) then 1 else 0) h.

Lemma count_none f h : Forall (fun e => f (asked e) = false) h -> count_calls f h = 0.
Proof. unfold count_calls. induction 1 as [| e h He _ IH]; simpl; by rewrite ?He. Qed.

(** A call that is only made when none like it has been is made once. *)
Lemma runs_once {R} (f : C -> bool) (G : list Event -> C -> Prop) (p p' : Prog R) h Q :
  (forall h c, G h c -> f c = true -> Forall (fun e => f (asked e) = false) h) ->
  wp G p [] Q -> runs p p' h -> count_calls f h <= 1.
Proof.
  intros Hf Hw Hrun.
  assert (forall x y : Prog R * list Event, rtc pstep x y ->
    wp G x.1 x.2 Q -> count_calls f x.2 <= 1 -> count_calls f y.2 <= 1) as Hx.
  { intros x y Hxy. induction Hxy as [x | [q hx] [q' hz] y [e [Hn Hh]] _ IH]; [done |].
    intros Hwx Hc. destruct q as [r | c k]; simpl in *; [done |].
    destruct Hn as (a & -> & ->). subst hz. destruct Hwx as [Hg Hk]. apply IH; [apply Hk |].
    unfold count_calls in *. simpl. destruct (f c) eqn:Hfc; [| done].
    pose proof (count_none f hx (Hf _ _ Hg Hfc)) as Hz. unfold count_calls in Hz. lia. }
  exact (Hx _ _ Hrun Hw (le_S _ _ (le_n 0))).
Qed.

Lemma within_more {R} n m (p : Prog R) : within n p -> n <= m -> within m p.
Proof.
  revert n m. induction p as [r | c k IH]; intros n m Hw Hle; simpl in *; [exact I |].
  destruct n as [| n]; [done |]. destruct m as [| m]; [inversion Hle |].
  intros a. apply (IH a n); [apply Hw | by apply le_S_n].
Qed.

Lemma within_bind {R T} n m (p : Prog R) (f : R -> Prog T) :
  within n p -> (forall r, within m (f r)) -> within (n + m) (prog_bind p f).
Proof.
  revert n. induction p as [r | c k IH]; intros n Hp Hf; simpl.
  - apply (within_more m); [apply Hf | apply Nat.le_add_l].
  - simpl in Hp. destruct n as [| n]; [done |]. intros a. apply IH; [apply Hp | done].
Qed.

(** Every run of a bounded program makes at most that many calls. *)
Lemma within_runs {R} n (p p' : Prog R) h : within n p -> runs p p' h -> length h <= n.
Proof.
  intros Hw Hrun. revert n Hw.
  assert (forall x y : Prog R * list Event, rtc pstep x y -> forall n, within n (fst x) ->
            length (snd y) <= n + length (snd x)) as Hx.
  { intros x y Hxy. induction Hxy as [x | [q hq] z y [e [Hn Hh]] _ IH]; intros m Hm;
      [apply Nat.le_add_l |].
    simpl in *. destruct q as [r | c k]; simpl in Hn; [done |].
    destruct Hn as (a & -> & Hz). simpl in Hm. destruct m as [| m]; [done |].
    specialize (IH m). rewrite Hz, Hh in IH. specialize (IH (Hm a)). simpl in *.
    by rewrite Nat.add_succ_r in IH. }
  intros n Hw. specialize (Hx _ _ Hrun n Hw). simpl in Hx. by rewrite Nat.add_0_r in Hx.
Qed.

(** ** Against a concrete environment *)

Section handler.
Context {W : Type}.
Variable handle : forall c : C, W -> Answer c * W.

(** One call answered; a program that has returned stays as it is. *)
Definition prog_turn {R} (p : Prog R) (w : W) : Prog R * W * list Event :=
  match p with
  | Ret r => (p, w, [])
  | Ask c k => let '(a, w') := handle c w in (k a, w', [event c a])
  end.

(** Alone, to the end. *)
Fixpoint prog_run {R} (p : Prog R) (w : W) : R * W :=
  match p with
  | Ret r => (r, w)
  | Ask c k => let '(a, w') := handle c w in prog_run (k a) w'
  end.
End handler.

(** ** Alone

    A run that nothing disturbs, in a world whose answers are a relation. *)

Section alone.
Context {W : Type}.
Variable answers : forall c : C, W -> Answer c -> W -> Prop.

Fixpoint alone {R} (p : Prog R) (w : W) (r : R) (w' : W) : Prop :=
  match p with
  | Ret r0 => r = r0 /\ w' = w
  | Ask c k => exists a w1, answers c w a w1 /\ alone (k a) w1 r w'
  end.

Lemma alone_bind {R T} (p : Prog R) (f : R -> Prog T) w r w' :
  alone (prog_bind p f) w r w' <-> exists x w1, alone p w x w1 /\ alone (f x) w1 r w'.
Proof.
  revert w. induction p as [x | c k IH]; intros w; simpl.
  - split; [eauto | by intros (? & ? & [-> ->] & Hf)].
  - split.
    + intros (a & w1 & Ha & (x & w2 & Hp & Hf)%IH). eauto 10.
    + intros (x & w1 & (a & w2 & Ha & Hp) & Hf). exists a, w2. split; [done |]. apply IH. eauto.
Qed.
End alone.

(** ** Pools

    Several programs over one world; [answers c w a w'] says which answers a call may
    get.  One step is one call of one program. *)

Section pool.
Context {R W : Type}.
Variable answers : forall c : C, W -> Answer c -> W -> Prop.
(** What may happen to the world outside the pool. *)
Variable outside : W -> W -> Prop.

Record Pool := {
  pool_threads : list (Prog R * list Event);
  pool_world : W;
}.

Inductive pool_step : Pool -> Pool -> Prop :=
  | turn i c k h a threads w w' :
      threads !! i = Some (Ask c k, h) -> answers c w a w' ->
      pool_step {| pool_threads := threads; pool_world := w |}
                {| pool_threads := <[i := (k a, event c a :: h)]> threads; pool_world := w' |}
  | elsewhere threads w w' :
      outside w w' ->
      pool_step {| pool_threads := threads; pool_world := w |}
                {| pool_threads := threads; pool_world := w' |}.

Definition pool_of (programs : list (Prog R)) (w : W) : Pool :=
  {| pool_threads := (fun p => (p, [])) <$> programs; pool_world := w |}.

(** Every thread of a pool is on a run of its own. *)
Lemma pool_runs programs w pool i p p' h :
  rtc pool_step (pool_of programs w) pool -> programs !! i = Some p ->
  pool_threads pool !! i = Some (p', h) -> runs p p' h.
Proof.
  intros Hrun Hp. revert p' h.
  remember (pool_of programs w) as start eqn:Hs.
  assert (forall p' h, pool_threads start !! i = Some (p', h) -> runs p p' h) as Hinit.
  { subst start. intros p' h Ht. simpl in Ht. rewrite list_lookup_fmap, Hp in Ht.
    injection Ht as <- <-. constructor. }
  clear Hs. induction Hrun as [x | x z y Hstep _ IH]; intros p' h Ht; [by apply Hinit |].
  apply IH; [| done]. destruct Hstep as [j c k hj a threads w1 w2 Hj Ha | threads w1 w2 Ho];
    simpl in *; [| done].
  intros q hq Hq. destruct (decide (j = i)) as [-> | Hne].
  - rewrite list_lookup_insert_eq in Hq by (by eapply lookup_lt_Some). injection Hq as <- <-.
    eapply rtc_r; [exact (Hinit _ _ Hj) |]. exists (event c a). split; [| done].
    simpl. eauto.
  - rewrite list_lookup_insert_ne in Hq by done. by apply Hinit.
Qed.

Lemma pool_length programs w pool :
  rtc pool_step (pool_of programs w) pool -> length (pool_threads pool) = length programs.
Proof.
  intros Hrun. remember (pool_of programs w) as start eqn:Hs.
  rewrite <- (length_fmap (fun p => (p, @nil Event)) programs).
  change ((fun p => (p, [])) <$> programs) with (pool_threads (pool_of programs w)). rewrite <- Hs.
  clear Hs. induction Hrun as [x | x z y Hstep _ IH]; [done |]. rewrite IH.
  destruct Hstep; simpl; [apply length_insert | done].
Qed.

(** *** What every step keeps *)

(** A property of the world and of all histories, that every call a program may make and
    every step elsewhere keeps. *)
Lemma pool_induction (J : W -> list (list Event) -> Prop) (guarantee : list Event -> C -> Prop)
    programs w pool :
  (forall w hs i h c a w', J w hs -> hs !! i = Some h -> guarantee h c -> answers c w a w' ->
     J w' (<[i := event c a :: h]> hs)) ->
  (forall w hs w', J w hs -> outside w w' -> J w' hs) ->
  Forall (fun p => wp guarantee p [] (fun _ _ => True)) programs ->
  J w ((fun _ => []) <$> programs) ->
  rtc pool_step (pool_of programs w) pool ->
  J (pool_world pool) (snd <$> pool_threads pool).
Proof.
  intros Hans Hout Hp Hj Hrun.
  assert (J (pool_world (pool_of programs w)) (snd <$> pool_threads (pool_of programs w))
    /\ Forall (fun t => wp guarantee t.1 t.2 (fun _ _ => True)) (pool_threads (pool_of programs w)))
    as Hstart.
  { simpl. split; [by rewrite <- list_fmap_compose | by apply Forall_fmap]. }
  assert (J (pool_world pool) (snd <$> pool_threads pool)
    /\ Forall (fun t => wp guarantee t.1 t.2 (fun _ _ => True)) (pool_threads pool)) as [Hend _];
    [| done].
  revert Hstart. generalize (pool_of programs w) as start, Hrun. clear Hp Hj Hrun.
  intros start Hrun. induction Hrun as [x | x z y Hstep _ IH]; [done |].
  intros [Hw Ht]. apply IH. destruct Hstep as [i c k h a threads w1 w2 Hi Ha | threads w1 w2 Ho];
    simpl in *.
  - destruct (Forall_lookup_1 _ _ _ _ Ht Hi) as [Hg Hk]. split.
    + rewrite list_fmap_insert. eapply Hans; [done | | done | done].
      by rewrite list_lookup_fmap, Hi.
    + apply Forall_insert; [done | apply Hk].
  - split; [by eapply Hout | done].
Qed.

(** An invariant of the world, and a predicate on histories over the world, that every
    answer establishes and every step keeps. *)
Lemma pool_invariant (I : W -> Prop) (H : W -> list Event -> Prop)
    (guarantee : list Event -> C -> Prop) programs w pool :
  (forall w c h a w', I w -> H w h -> guarantee h c -> answers c w a w' ->
     I w' /\ H w' (event c a :: h)) ->
  (forall w w', I w -> outside w w' -> I w') ->
  (forall w c a w' h, I w -> answers c w a w' -> H w h -> H w' h) ->
  (forall w w' h, I w -> outside w w' -> H w h -> H w' h) ->
  (forall w, H w []) ->
  Forall (fun p => wp guarantee p [] (fun _ _ => True)) programs ->
  I w -> rtc pool_step (pool_of programs w) pool ->
  I (pool_world pool) /\ Forall (fun t => H (pool_world pool) t.2) (pool_threads pool).
Proof.
  intros Hans Hout Hkeep Hkeepo Hnil Hp Hi Hrun.
  destruct (pool_induction (fun w hs => I w /\ Forall (H w) hs) guarantee programs w pool)
    as [Hw Hh]; [.. | by rewrite Forall_fmap in Hh]; try done.
  - intros w1 hs i h c a w2 [Hw Hh] Hhi Hg Ha.
    pose proof (Forall_lookup_1 _ _ _ _ Hh Hhi) as Hth.
    destruct (Hans _ _ _ _ _ Hw Hth Hg Ha) as [Hw2 Hh2]. split; [done |].
    apply Forall_insert; [| done]. eapply Forall_impl; [exact Hh |]. eauto.
  - intros w1 hs w2 [Hw Hh] Ho. split; [by eapply Hout |]. eapply Forall_impl; [exact Hh |]. eauto.
  - split; [done |]. apply Forall_fmap, Forall_true. intros p. apply Hnil.
Qed.

(** A count of events over all programs, bounded through the world. *)
Lemma pool_count (weight : Event -> nat) (I : W -> nat -> Prop)
    (guarantee : list Event -> C -> Prop) programs w pool :
  (forall w n h c a w', I w n -> guarantee h c -> answers c w a w' ->
     I w' (weight (event c a) + n)) ->
  (forall w n w', I w n -> outside w w' -> I w' n) ->
  Forall (fun p => wp guarantee p [] (fun _ _ => True)) programs ->
  I w 0 -> rtc pool_step (pool_of programs w) pool ->
  I (pool_world pool) (total (total weight) (snd <$> pool_threads pool)).
Proof.
  intros Hans Hout Hp Hi Hrun.
  apply (pool_induction (fun w hs => I w (total (total weight) hs)) guarantee programs w pool); try done.
  - intros w1 hs i h c a w2 Hw Hhi Hg Ha.
    replace (total (total weight) (<[i := event c a :: h]> hs))
      with (weight (event c a) + total (total weight) hs); [by eapply Hans |].
    symmetry. by apply total_insert.
  - intros w1 hs w2 Hw Ho. by eapply Hout.
  - replace (total (total weight) ((fun _ => []) <$> programs)) with 0; [done |].
    clear. by induction programs.
Qed.
End pool.

(** *** A pool run by a schedule *)

Section schedule.
Context {R W : Type}.

(** One turn: a program and what answers its call. *)
Definition pool_turn (turn : nat * (forall c : C, W -> Answer c * W)) (pool : @Pool R W) : Pool :=
  let '(i, handle) := turn in
  match pool_threads pool !! i with
  | Some (p, h) =>
      let '(p', w', es) := prog_turn handle p (pool_world pool) in
      {| pool_threads := <[i := (p', es ++ h)]> (pool_threads pool); pool_world := w' |}
  | None => pool
  end.

Definition pool_schedule (turns : list (nat * (forall c : C, W -> Answer c * W)))
    (pool : @Pool R W) : Pool :=
  fold_left (fun pool turn => pool_turn turn pool) turns pool.

Lemma pool_schedule_steps answers outside turns pool :
  Forall (fun turn : nat * (forall c : C, W -> Answer c * W) =>
    forall c w, answers c w (turn.2 c w).1 (turn.2 c w).2) turns ->
  rtc (pool_step answers outside) pool (pool_schedule turns pool).
Proof.
  intros Hans. revert pool. induction Hans as [| [i handle] turns Ht _ IH]; intros pool; [constructor |].
  simpl. etrans; [| apply IH]. destruct pool as [threads w].
  unfold pool_turn. simpl. destruct (threads !! i) as [[p h] |] eqn:Hi; [| constructor].
  destruct p as [r | c k]; simpl.
  - rewrite list_insert_id by done. constructor.
  - specialize (Ht c w). simpl in Ht. destruct (handle c w) as [a w'] eqn:Ha.
    apply rtc_once. by constructor.
Qed.
End schedule.
End programs.

Arguments Prog {C} Answer R.
Arguments Ret {C Answer R} r.
Arguments Ask {C Answer R} c k.
Arguments Event {C} Answer.

Notation "'let*' x := p 'in' q" := (prog_bind p (fun x => q))
  (at level 10, x pattern, p at level 100, q at level 200) : prog_scope.
(** [p?], the error converted by [f]. *)
Notation "'let?' x := p 'else' f 'in' q" :=
  (prog_bind p (fun r => match r with Ok x => q | Err e => Ret (Err (f e)) end))
  (at level 10, x pattern, p at level 100, f at level 100, q at level 200) : prog_scope.
