(* ===== verification/Dispatch.v ===== *)
(** * Host API: the dispatch port

    Models [ironclaw_host_api/src/dispatch.rs]: an already authorized request, its
    normalised result, and the failures the port surfaces, with their stable tokens. *)

From S2P Require Import Prelude Strings Ids Mounts Platform HostApi Capability Obligations.
From Stdlib Require Import Ascii Lia.
Import HostApi.Resource.

(** ** Failures *)

Inductive DispatchInputIssueCode := MissingRequired | UnexpectedField | TypeMismatch | InvalidValue.

Record DispatchInputIssue := {
  dii_path : string;
  dii_code : DispatchInputIssueCode;
  dii_expected : option string;
  dii_received : option string;
  dii_schema_path : option string;
}.

Inductive DispatchFailureDetail := InvalidInput (issues : list DispatchInputIssue).

Inductive RuntimeDispatchErrorKind :=
  | RBackend | RClient | RExecutor | RExitFailure | RExtensionRuntimeMismatch
  | RFilesystemDenied | RGuest | RInputEncode | RInvalidResult | RManifest | RMemory
  | RMethodMissing | RNetworkDenied | ROperationFailed | ROutputDecode | ROutputTooLarge
  | RPolicyDenied | RResource | RSecretDenied | RUndeclaredCapability | RUnsupportedRunner
  | RUnknown.

#[export] Instance RuntimeDispatchErrorKind_eq_dec : EqDecision RuntimeDispatchErrorKind.
Proof. solve_decision. Defined.

Definition INPUT_ENCODE_HUMAN_SUMMARY : string := "the tool input could not be encoded".

Definition runtime_kind_as_str (k : RuntimeDispatchErrorKind) : string :=
  match k with
  | RBackend => "Backend" | RClient => "Client" | RExecutor => "Executor"
  | RExitFailure => "ExitFailure" | RExtensionRuntimeMismatch => "ExtensionRuntimeMismatch"
  | RFilesystemDenied => "FilesystemDenied" | RGuest => "Guest" | RInputEncode => "InputEncode"
  | RInvalidResult => "InvalidResult" | RManifest => "Manifest" | RMemory => "Memory"
  | RMethodMissing => "MethodMissing" | RNetworkDenied => "NetworkDenied"
  | ROperationFailed => "OperationFailed" | ROutputDecode => "OutputDecode"
  | ROutputTooLarge => "OutputTooLarge" | RPolicyDenied => "PolicyDenied"
  | RResource => "Resource" | RSecretDenied => "SecretDenied"
  | RUndeclaredCapability => "UndeclaredCapability" | RUnsupportedRunner => "UnsupportedRunner"
  | RUnknown => "Unknown"
  end.

Definition runtime_kind_human_summary (k : RuntimeDispatchErrorKind) : string :=
  match k with
  | RBackend => "the tool's backend failed"
  | RClient => "the tool client failed to run"
  | RExecutor => "the tool executor failed"
  | RExitFailure => "the tool exited with an error"
  | RExtensionRuntimeMismatch => "the tool runtime did not match its extension"
  | RFilesystemDenied => "the tool was denied filesystem access"
  | RGuest => "the tool reported an internal error"
  | RInputEncode => INPUT_ENCODE_HUMAN_SUMMARY
  | RInvalidResult => "the tool returned an invalid result"
  | RManifest => "the tool manifest is invalid"
  | RMemory => "the tool exceeded its memory limit"
  | RMethodMissing => "the tool method is not available"
  | RNetworkDenied => "the tool was denied network access"
  | ROperationFailed => "the tool operation failed"
  | ROutputDecode => "the tool output could not be decoded"
  | ROutputTooLarge => "the tool output was too large"
  | RPolicyDenied => "the tool call was denied by policy"
  | RResource => "the tool ran out of resources"
  | RSecretDenied => "the tool was denied access to a required secret"
  | RUndeclaredCapability => "the tool used an undeclared capability"
  | RUnsupportedRunner => "the tool runner is not supported"
  | RUnknown => "the tool failed for an unknown reason"
  end.

Definition runtime_kind_event (k : RuntimeDispatchErrorKind) : string :=
  match k with
  | RBackend => "backend" | RClient => "client" | RExecutor => "executor"
  | RExitFailure => "exit_failure" | RExtensionRuntimeMismatch => "extension.runtime_mismatch"
  | RFilesystemDenied => "filesystem_denied" | RGuest => "guest" | RInputEncode => "input_encode"
  | RInvalidResult => "invalid_result" | RManifest => "manifest" | RMemory => "memory"
  | RMethodMissing => "method_missing" | RNetworkDenied => "network_denied"
  | ROperationFailed => "operation_failed" | ROutputDecode => "output_decode"
  | ROutputTooLarge => "output_too_large" | RPolicyDenied => "policy_denied"
  | RResource => "resource" | RSecretDenied => "secret_denied"
  | RUndeclaredCapability => "undeclared_capability" | RUnsupportedRunner => "unsupported_runner"
  | RUnknown => "unknown"
  end.

Inductive DispatchFailureKind :=
  | KindUnknownCapability | KindUnknownProvider | KindRuntimeMismatch
  | KindMissingRuntimeBackend | KindUnsupportedRuntime | KindAuthRequired
  | KindRuntime (kind : RuntimeDispatchErrorKind).

Definition failure_as_str (k : DispatchFailureKind) : string :=
  match k with
  | KindUnknownCapability => "UnknownCapability"
  | KindUnknownProvider => "UnknownProvider"
  | KindRuntimeMismatch => "RuntimeMismatch"
  | KindMissingRuntimeBackend => "MissingRuntimeBackend"
  | KindUnsupportedRuntime => "UnsupportedRuntime"
  | KindAuthRequired => "AuthRequired"
  | KindRuntime kind => runtime_kind_as_str kind
  end.

Definition failure_human_summary (k : DispatchFailureKind) : string :=
  match k with
  | KindUnknownCapability => "the requested tool was not found"
  | KindUnknownProvider => "the tool provider was not found"
  | KindRuntimeMismatch => "the tool runtime did not match"
  | KindMissingRuntimeBackend => "the tool runtime backend is unavailable"
  | KindUnsupportedRuntime => "the tool runtime is not supported"
  | KindAuthRequired => "the tool requires authentication"
  | KindRuntime kind => runtime_kind_human_summary kind
  end.

Inductive DispatchError :=
  | DispatchUnknownCapability (capability : CapabilityId)
  | DispatchUnknownProvider (capability : CapabilityId) (provider : ExtensionId)
  | DispatchRuntimeMismatch (capability : CapabilityId)
      (descriptor_runtime package_runtime : RuntimeKind)
  | DispatchMissingRuntimeBackend (runtime : RuntimeKind)
  | DispatchUnsupportedRuntime (capability : CapabilityId) (runtime : RuntimeKind)
  | DispatchAuthRequired (capability : CapabilityId) (required_secrets : list SecretHandle)
      (credential_requirements : list RuntimeCredentialAuthRequirement)
  | DispatchMcp (kind : RuntimeDispatchErrorKind)
  | DispatchScript (kind : RuntimeDispatchErrorKind)
  | DispatchWasm (kind : RuntimeDispatchErrorKind) (safe_summary : option string)
  | DispatchFirstParty (kind : RuntimeDispatchErrorKind) (safe_summary : option string)
      (detail : option DispatchFailureDetail).

Definition failure_kind (e : DispatchError) : DispatchFailureKind :=
  match e with
  | DispatchUnknownCapability _ => KindUnknownCapability
  | DispatchUnknownProvider _ _ => KindUnknownProvider
  | DispatchRuntimeMismatch _ _ _ => KindRuntimeMismatch
  | DispatchMissingRuntimeBackend _ => KindMissingRuntimeBackend
  | DispatchUnsupportedRuntime _ _ => KindUnsupportedRuntime
  | DispatchAuthRequired _ _ _ => KindAuthRequired
  | DispatchMcp kind | DispatchScript kind | DispatchWasm kind _ | DispatchFirstParty kind _ _ =>
      KindRuntime kind
  end.

Definition dispatch_event_kind (e : DispatchError) : string :=
  match e with
  | DispatchUnknownCapability _ => "unknown_capability"
  | DispatchUnknownProvider _ _ => "unknown_provider"
  | DispatchRuntimeMismatch _ _ _ => "runtime_mismatch"
  | DispatchMissingRuntimeBackend _ => "missing_runtime_backend"
  | DispatchUnsupportedRuntime _ _ => "unsupported_runtime"
  | DispatchAuthRequired _ _ _ => "auth_required"
  | DispatchMcp kind | DispatchScript kind | DispatchWasm kind _ | DispatchFirstParty kind _ _ =>
      runtime_kind_event kind
  end.

(** ** Display text *)

Record CapabilityDisplayText := { cdt_text : string; cdt_truncated : bool }.

(** [str::is_char_boundary]: the end, or a byte that is no UTF-8 continuation. *)
Definition is_char_boundary (s : string) (i : nat) : bool :=
  Nat.eqb i (str_len s)
  || match String.get i s with
     | Some c => negb (byte_in 128 191 c)
     | None => false
     end.

(** [while !is_char_boundary(end) { end -= 1 }]; index 0 is a boundary. *)
Fixpoint boundary_below (s : string) (i : nat) : nat :=
  match i with
  | 0 => 0
  | S i' => if is_char_boundary s i then i else boundary_below s i'
  end.

Definition truncate_capability_display_text (text : string) (max_bytes : nat) :
    CapabilityDisplayText :=
  if Nat.leb (str_len text) max_bytes then {| cdt_text := text; cdt_truncated := false |}
  else {| cdt_text := String.substring 0 (boundary_below text max_bytes) text;
          cdt_truncated := true |}.

Record CapabilityDisplayOutputPreview := {
  cdp_output_summary : option string;
  cdp_output_preview : string;
  cdp_output_kind : string;
  cdp_subtitle : option string;
  cdp_truncated : bool;
}.

(** ** Requests and results *)

Section with_platform.
Context `{Platform} `{SerdeJson}.

Record CapabilityDispatchRequest := {
  dr_capability_id : CapabilityId;
  dr_scope : ResourceScope;
  dr_authenticated_actor_user_id : option UserId;
  dr_estimate : ResourceEstimate;
  dr_mounts : option MountView;
  dr_resource_reservation : option ResourceReservation;
  dr_input : Value;
}.

Record CapabilityDispatchResult := {
  ds_capability_id : CapabilityId;
  ds_provider : ExtensionId;
  ds_runtime : RuntimeKind;
  ds_output : Value;
  ds_display_preview : option CapabilityDisplayOutputPreview;
  ds_usage : ResourceUsage;
  ds_receipt : ResourceReceipt;
}.
End with_platform.

(** ** Truncation *)

Lemma boundary_below_le s i : boundary_below s i <= i.
Proof. induction i as [| i IH]; cbn [boundary_below]; [lia |]. destruct (is_char_boundary s (S i)); lia. Qed.

(** No later boundary is skipped, and the cut is at one. *)
Lemma boundary_below_greatest s i :
  (boundary_below s i = 0 \/ is_char_boundary s (boundary_below s i) = true)
  /\ forall j, boundary_below s i < j <= i -> is_char_boundary s j = false.
Proof.
  induction i as [| i [IH1 IH2]]; cbn [boundary_below]; [split; [by left | lia] |].
  destruct (is_char_boundary s (S i)) eqn:Hb; [split; [by right | lia] |].
  split; [done |]. intros j Hj. destruct (decide (j = S i)) as [-> | Hne]; [done |].
  apply IH2. lia.
Qed.
