(* ===== verification/Processes.v ===== *)
(** * Background processes

    Models [ironclaw_processes]: the records and errors ([types.rs]), the in-memory
    stores ([memory_store.rs]), the cancellation registry ([cancellation.rs]), the
    background manager and its detached task ([services.rs]) and the host operations
    ([host.rs]).  A task is a program over the calls [ProcessCall]; [handle_process] is
    the in-memory world that answers them. *)

From stdpp Require Import sorting.
From S2P Require Import Prelude Strings Ids Paths Mounts Filesystem Platform HostApi RunState LimitCheck Capability Programs.
From Stdlib Require Import Ascii Lia.
Import HostApi.Resource.

(** ** [sanitize_error_kind] ([ironclaw_events/src/runtime_event.rs]) *)

Definition MAX_ERROR_KIND_LEN : nat := 64.
Definition MAX_ERROR_KIND_SEGMENT_LEN : nat := 24.
Definition UNCLASSIFIED_ERROR_KIND : string := "Unclassified".

Definition is_error_kind_char (c : ascii) : bool :=
  byte_in 97 122 c || byte_in 48 57 c || Ascii.eqb c "_".

Definition starts_lowercase (s : string) : bool :=
  match s with String c _ => byte_in 97 122 c | "" => false end.

Definition is_safe_error_kind (value : string) : bool :=
  if String.eqb value "" || Nat.ltb MAX_ERROR_KIND_LEN (str_len value) then false
  else if negb (starts_lowercase value) then false
  else if any_byte (fun c => negb (is_error_kind_char c)
                             && negb (Ascii.eqb c "." || Ascii.eqb c ":")) value then false
  else forallb (fun segment =>
         negb (String.eqb segment "" || Nat.ltb MAX_ERROR_KIND_SEGMENT_LEN (str_len segment))
         && starts_lowercase segment)
         (flat_map (split_on ":") (split_on "." value)).

Definition sanitize_error_kind (kind : string) : string :=
  if is_safe_error_kind kind then kind else UNCLASSIFIED_ERROR_KIND.

(** ** [types.rs] *)

Inductive ProcessStatus := ProcRunning | ProcCompleted | ProcFailed | ProcKilled.

#[export] Instance ProcessStatus_eq_dec : EqDecision ProcessStatus.
Proof. solve_decision. Defined.

Definition proc_is_terminal (s : ProcessStatus) : bool := bool_decide (s <> ProcRunning).

Section with_platform.
Context `{Platform} `{SerdeJson}.

Inductive ProcessError :=
  | UnknownProcess (process_id : ProcessId)
  | ProcessAlreadyExists (process_id : ProcessId)
  | InvalidTransition (process_id : ProcessId) (from to : ProcessStatus)
  | ResourceReservationMismatch (process_id : ProcessId) (expected : ResourceReservationId)
      (actual : option ResourceReservationId)
  | ResourceReservationAlreadyAssigned (process_id : ProcessId)
      (reservation_id : ResourceReservationId)
  | ResourceReservationNotOwned (process_id : ProcessId)
      (reservation_id : option ResourceReservationId)
  | ProcResource (e : ResourceError)
  | ResourceCleanupFailed (original : ProcessError) (cleanup : ResourceError)
  | ProcessResultStoreUnavailable
  | ProcessResultUnavailable (process_id : ProcessId)
  | InvalidStoredRecord (reason : string)
  | ProcInvalidPath (reason : string)
  | ProcFilesystem (e : FilesystemError)
  | ProcSerialization (reason : string)
  | ProcDeserialization (reason : string).

Fixpoint is_filesystem_not_found (e : ProcessError) : bool :=
  match e with
  | ProcFilesystem (NotFound _ _) => true
  | ResourceCleanupFailed original _ => is_filesystem_not_found original
  | _ => false
  end.

Record ProcessRecord := {
  pr_process_id : ProcessId;
  pr_parent_process_id : option ProcessId;
  pr_invocation_id : InvocationId;
  pr_scope : ResourceScope;
  pr_authenticated_actor_user_id : option UserId;
  pr_extension_id : ExtensionId;
  pr_capability_id : CapabilityId;
  pr_runtime : RuntimeKind;
  pr_status : ProcessStatus;
  pr_grants : list CapabilityGrant;
  pr_mounts : MountView;
  pr_estimated_resources : ResourceEstimate;
  pr_resource_reservation_id : option ResourceReservationId;
  pr_error_kind : option string;
}.

Record ProcessStart := {
  ps_process_id : ProcessId;
  ps_parent_process_id : option ProcessId;
  ps_invocation_id : InvocationId;
  ps_scope : ResourceScope;
  ps_authenticated_actor_user_id : option UserId;
  ps_extension_id : ExtensionId;
  ps_capability_id : CapabilityId;
  ps_runtime : RuntimeKind;
  ps_grants : list CapabilityGrant;
  ps_mounts : MountView;
  ps_estimated_resources : ResourceEstimate;
  ps_resource_reservation_id : option ResourceReservationId;
  ps_input : Value;
}.

Record ProcessExit := {
  pe_process_id : ProcessId;
  pe_scope : ResourceScope;
  pe_extension_id : ExtensionId;
  pe_capability_id : CapabilityId;
  pe_runtime : RuntimeKind;
  pe_status : ProcessStatus;
  pe_error_kind : option string;
}.

Record ProcessResultRecord := {
  res_process_id : ProcessId;
  res_scope : ResourceScope;
  res_status : ProcessStatus;
  res_output : option Value;
  res_output_ref : option VirtualPath;
  res_error_kind : option string;
}.

Definition from_terminal (r : ProcessRecord) : ProcessExit := {|
  pe_process_id := pr_process_id r; pe_scope := pr_scope r;
  pe_extension_id := pr_extension_id r; pe_capability_id := pr_capability_id r;
  pe_runtime := pr_runtime r; pe_status := pr_status r; pe_error_kind := pr_error_kind r |}.

Definition ensure_status_transition (id : ProcessId) (from to : ProcessStatus) :
    Result unit ProcessError :=
  if bool_decide (from <> ProcRunning) then Err (InvalidTransition id from to) else Ok tt.

(** [ProcessKey::new] has the fields of [RunState.key_new]. *)
Definition process_key_new (scope : ResourceScope) (id : ProcessId) : ScopedKey := key_new scope id.

(** ** [memory_store.rs] *)

Abbreviation ProcessRecords := (gmap ScopedKey ProcessRecord).
Abbreviation ProcessResults := (gmap ScopedKey ProcessResultRecord).

Definition with_process_status (to : ProcessStatus) (error_kind : option string)
    (r : ProcessRecord) : ProcessRecord := {|
  pr_process_id := pr_process_id r; pr_parent_process_id := pr_parent_process_id r;
  pr_invocation_id := pr_invocation_id r; pr_scope := pr_scope r;
  pr_authenticated_actor_user_id := pr_authenticated_actor_user_id r;
  pr_extension_id := pr_extension_id r; pr_capability_id := pr_capability_id r;
  pr_runtime := pr_runtime r; pr_status := to; pr_grants := pr_grants r;
  pr_mounts := pr_mounts r; pr_estimated_resources := pr_estimated_resources r;
  pr_resource_reservation_id := pr_resource_reservation_id r; pr_error_kind := error_kind |}.

Definition process_update_status (scope : ResourceScope) (id : ProcessId) (to : ProcessStatus)
    (error_kind : option string) (records : ProcessRecords) :
    Result ProcessRecord ProcessError * ProcessRecords :=
  let key := process_key_new scope id in
  match records !! key with
  | None => (Err (UnknownProcess id), records)
  | Some record =>
      match ensure_status_transition id (pr_status record) to with
      | Err e => (Err e, records)
      | Ok _ =>
          let record' := with_process_status to error_kind record in
          (Ok record', <[key := record']> records)
      end
  end.

Definition process_started_record (s : ProcessStart) : ProcessRecord := {|
  pr_process_id := ps_process_id s; pr_parent_process_id := ps_parent_process_id s;
  pr_invocation_id := ps_invocation_id s; pr_scope := ps_scope s;
  pr_authenticated_actor_user_id := ps_authenticated_actor_user_id s;
  pr_extension_id := ps_extension_id s; pr_capability_id := ps_capability_id s;
  pr_runtime := ps_runtime s; pr_status := ProcRunning; pr_grants := ps_grants s;
  pr_mounts := ps_mounts s; pr_estimated_resources := ps_estimated_resources s;
  pr_resource_reservation_id := ps_resource_reservation_id s; pr_error_kind := None |}.

Definition process_start (s : ProcessStart) (records : ProcessRecords) :
    Result ProcessRecord ProcessError * ProcessRecords :=
  let record := process_started_record s in
  let key := process_key_new (pr_scope record) (pr_process_id record) in
  match records !! key with
  | Some _ => (Err (ProcessAlreadyExists (pr_process_id record)), records)
  | None => (Ok record, <[key := record]> records)
  end.

Definition process_records_for_scope (scope : ResourceScope) (records : ProcessRecords) :
    list ProcessRecord :=
  sort_by_id pr_process_id
    (List.filter (fun r => same_scope_owner (pr_scope r) scope) (map_to_list records).*2).

Definition store_result (scope : ResourceScope) (id : ProcessId) (status : ProcessStatus)
    (output : option Value) (error_kind : option string) (results : ProcessResults) :
    ProcessResultRecord * ProcessResults :=
  let record := {| res_process_id := id; res_scope := scope; res_status := status;
                   res_output := output; res_output_ref := None; res_error_kind := error_kind |} in
  (record, <[process_key_new scope id := record]> results).

(** ** Calls *)

Record ProcessExecutionRequest := {
  px_process_id : ProcessId;
  px_invocation_id : InvocationId;
  px_scope : ResourceScope;
  px_authenticated_actor_user_id : option UserId;
  px_extension_id : ExtensionId;
  px_capability_id : CapabilityId;
  px_runtime : RuntimeKind;
  px_estimate : ResourceEstimate;
  px_mounts : MountView;
  px_resource_reservation : option ResourceReservation;
  px_input : Value;
  (** which [ProcessCancellationToken]; a default token is registered nowhere *)
  px_cancellation : option N;
}.

(** What the executor's future comes to: a result, an error, or a caught panic. *)
Inductive ExecutionOutcome :=
  | ExecutionResult (output : Value)
  | ExecutionError (kind : string)
  | ExecutionPanicked.

Inductive BackgroundFailureStage :=
  | StoreLookup | StoreComplete | StoreFail | ResultStoreComplete | ResultStoreFail.

Inductive ProcessCall :=
  | PsStart (start : ProcessStart)
  | PsComplete (scope : ResourceScope) (id : ProcessId)
  | PsFail (scope : ResourceScope) (id : ProcessId) (error_kind : string)
  | PsKill (scope : ResourceScope) (id : ProcessId)
  | PsGet (scope : ResourceScope) (id : ProcessId)
  | RsComplete (scope : ResourceScope) (id : ProcessId) (output : Value)
  | RsFail (scope : ResourceScope) (id : ProcessId) (error_kind : string)
  | RsKill (scope : ResourceScope) (id : ProcessId)
  | RsGet (scope : ResourceScope) (id : ProcessId)
  | TokenRegister (scope : ResourceScope) (id : ProcessId)
  | TokenCancel (scope : ResourceScope) (id : ProcessId)
  | TokenUnregister (scope : ResourceScope) (id : ProcessId)
  | ExecuteProcess (request : ProcessExecutionRequest)
  | ReportFailure (scope : ResourceScope) (id : ProcessId) (stage : BackgroundFailureStage)
      (e : ProcessError).

Definition ProcessAnswer (c : ProcessCall) : Type :=
  match c with
  | PsStart _ | PsComplete _ _ | PsFail _ _ _ | PsKill _ _ => Result ProcessRecord ProcessError
  | PsGet _ _ => Result (option ProcessRecord) ProcessError
  | RsComplete _ _ _ | RsFail _ _ _ | RsKill _ _ => Result ProcessResultRecord ProcessError
  | RsGet _ _ => Result (option ProcessResultRecord) ProcessError
  | TokenRegister _ _ => N
  | TokenCancel _ _ => bool
  | TokenUnregister _ _ => unit
  | ExecuteProcess _ => ExecutionOutcome
  | ReportFailure _ _ _ _ => unit
  end.

Abbreviation PProg := (Prog ProcessAnswer).

(** The in-memory world; the executor is an argument. *)
Record ProcessWorld := {
  pw_records : ProcessRecords;
  pw_results : ProcessResults;
  pw_tokens : gmap ScopedKey N;
  pw_cancelled : gset N;
  pw_next_token : N;
}.

Definition with_records (records : ProcessRecords) (w : ProcessWorld) : ProcessWorld := {|
  pw_records := records; pw_results := pw_results w; pw_tokens := pw_tokens w;
  pw_cancelled := pw_cancelled w; pw_next_token := pw_next_token w |}.

Definition with_results (results : ProcessResults) (w : ProcessWorld) : ProcessWorld := {|
  pw_records := pw_records w; pw_results := results; pw_tokens := pw_tokens w;
  pw_cancelled := pw_cancelled w; pw_next_token := pw_next_token w |}.

Definition with_tokens (tokens : gmap ScopedKey N) (w : ProcessWorld) : ProcessWorld := {|
  pw_records := pw_records w; pw_results := pw_results w; pw_tokens := tokens;
  pw_cancelled := pw_cancelled w; pw_next_token := pw_next_token w |}.

Definition token_register (scope : ResourceScope) (id : ProcessId) (w : ProcessWorld) :
    N * ProcessWorld :=
  (pw_next_token w,
   {| pw_records := pw_records w; pw_results := pw_results w;
      pw_tokens := <[process_key_new scope id := pw_next_token w]> (pw_tokens w);
      pw_cancelled := pw_cancelled w; pw_next_token := pw_next_token w + 1 |}).

Definition token_cancel (scope : ResourceScope) (id : ProcessId) (w : ProcessWorld) :
    bool * ProcessWorld :=
  match pw_tokens w !! process_key_new scope id with
  | Some token =>
      (true,
       {| pw_records := pw_records w; pw_results := pw_results w;
          pw_tokens := delete (process_key_new scope id) (pw_tokens w);
          pw_cancelled := {[token]} ∪ pw_cancelled w; pw_next_token := pw_next_token w |})
  | None => (false, w)
  end.

Definition on_records {T} (f : ProcessRecords -> T * ProcessRecords) (w : ProcessWorld) :
    T * ProcessWorld :=
  let '(r, records) := f (pw_records w) in (r, with_records records w).

Definition on_results (f : ProcessResults -> ProcessResultRecord * ProcessResults)
    (w : ProcessWorld) : Result ProcessResultRecord ProcessError * ProcessWorld :=
  let '(r, results) := f (pw_results w) in (Ok r, with_results results w).

Definition handle_process (execute : ProcessExecutionRequest -> ExecutionOutcome)
    (c : ProcessCall) (w : ProcessWorld) : ProcessAnswer c * ProcessWorld :=
  match c with
  | PsStart s => on_records (process_start s) w
  | PsComplete scope id => on_records (process_update_status scope id ProcCompleted None) w
  | PsFail scope id kind =>
      on_records (process_update_status scope id ProcFailed (Some (sanitize_error_kind kind))) w
  | PsKill scope id => on_records (process_update_status scope id ProcKilled None) w
  | PsGet scope id => (Ok (pw_records w !! process_key_new scope id), w)
  | RsComplete scope id output =>
      on_results (store_result scope id ProcCompleted (Some output) None) w
  | RsFail scope id kind =>
      on_results (store_result scope id ProcFailed None (Some (sanitize_error_kind kind))) w
  | RsKill scope id => on_results (store_result scope id ProcKilled None None) w
  | RsGet scope id => (Ok (pw_results w !! process_key_new scope id), w)
  | TokenRegister scope id => token_register scope id w
  | TokenCancel scope id => token_cancel scope id w
  | TokenUnregister scope id =>
      (tt, with_tokens (delete (process_key_new scope id) (pw_tokens w)) w)
  | ExecuteProcess request => (execute request, w)
  | ReportFailure _ _ _ _ => (tt, w)
  end.
End with_platform.

Abbreviation PProg := (Prog ProcessAnswer).

(** ** [services.rs]: the background manager *)

Section manager.
Context `{Platform} `{SerdeJson}.
Local Open Scope prog_scope.

Record BackgroundProcessManager := {
  bm_cancellation_registry : bool;
  bm_result_store : bool;
  bm_error_handler : bool;
}.

Variable manager : BackgroundProcessManager.

Definition execution_request (record : ProcessRecord) (input : Value) (cancellation : option N) :
    ProcessExecutionRequest := {|
  px_process_id := pr_process_id record; px_invocation_id := pr_invocation_id record;
  px_scope := pr_scope record;
  px_authenticated_actor_user_id := pr_authenticated_actor_user_id record;
  px_extension_id := pr_extension_id record; px_capability_id := pr_capability_id record;
  px_runtime := pr_runtime record; px_estimate := pr_estimated_resources record;
  px_mounts := pr_mounts record;
  px_resource_reservation :=
    (fun id => {| rsv_id := id; rsv_scope := pr_scope record;
                  rsv_estimate := pr_estimated_resources record |})
      <$> pr_resource_reservation_id record;
  px_input := input; px_cancellation := cancellation |}.

(** [spawn]: the record, and the request whose task is detached. *)
Definition manager_spawn (start : ProcessStart) :
    PProg (Result (ProcessRecord * ProcessExecutionRequest) ProcessError) :=
  let* started := ask (PsStart start) in
  match started with
  | Err e => Ret (Err e)
  | Ok record =>
      let* token :=
        (if bm_cancellation_registry manager
         then let* t := ask (TokenRegister (pr_scope record) (pr_process_id record)) in Ret (Some t)
         else Ret None) in
      Ret (Ok (record, execution_request record (ps_input start) token))
  end.

Definition report (scope : ResourceScope) (id : ProcessId) (stage : BackgroundFailureStage)
    (e : ProcessError) : PProg unit :=
  if bm_error_handler manager
  then let* _ := ask (ReportFailure scope id stage e) in Ret tt else Ret tt.

(** [if let Some(result_store) .. else true], the write being [c]. *)
Definition persist_result (scope : ResourceScope) (id : ProcessId) (stage : BackgroundFailureStage)
    (write : PProg (Result ProcessResultRecord ProcessError)) : PProg bool :=
  if bm_result_store manager then
    let* r := write in
    match r with
    | Ok _ => Ret true
    | Err e => let* _ := report scope id stage e in Ret false
    end
  else Ret true.

(** Result store first, status store second. *)
Definition settle (scope : ResourceScope) (id : ProcessId)
    (result_stage stage : BackgroundFailureStage)
    (write : PProg (Result ProcessResultRecord ProcessError))
    (promote : PProg (Result ProcessRecord ProcessError)) : PProg unit :=
  let* result_persisted := persist_result scope id result_stage write in
  if result_persisted : bool then
    let* r := promote in
    match r with
    | Ok _ => Ret tt
    | Err e => report scope id stage e
    end
  else Ret tt.

Definition settle_failed (scope : ResourceScope) (id : ProcessId) (kind : string) : PProg unit :=
  settle scope id ResultStoreFail StoreFail (ask (RsFail scope id kind)) (ask (PsFail scope id kind)).

(** The detached task of [spawn]. *)
Definition background_task (request : ProcessExecutionRequest) : PProg unit :=
  let scope := px_scope request in
  let id := px_process_id request in
  let* outcome := ask (ExecuteProcess request) in
  let* found := ask (PsGet scope id) in
  let* still_running :=
    match found with
    | Ok (Some record) => Ret (bool_decide (pr_status record = ProcRunning))
    | Ok None => Ret false
    | Err e => let* _ := report scope id StoreLookup e in Ret false
    end in
  let* _ :=
    (if still_running : bool then
       match outcome with
       | ExecutionResult output =>
           settle scope id ResultStoreComplete StoreComplete
             (ask (RsComplete scope id output)) (ask (PsComplete scope id))
       | ExecutionError kind => settle_failed scope id (sanitize_error_kind kind)
       | ExecutionPanicked => settle_failed scope id "runtime_panic"
       end
     else Ret tt) in
  if bm_cancellation_registry manager
  then let* _ := ask (TokenUnregister scope id) in Ret tt else Ret tt.

(** ** [host.rs] *)

Record ProcessHost := {
  ph_cancellation_registry : bool;
  ph_result_store : bool;
}.

Variable host : ProcessHost.

Definition host_status (scope : ResourceScope) (id : ProcessId) :
    PProg (Result (option ProcessRecord) ProcessError) := ask (PsGet scope id).

Definition record_kill_side_effects (record : ProcessRecord) : PProg (Result unit ProcessError) :=
  let* _ := (if ph_cancellation_registry host
             then let* _ := ask (TokenCancel (pr_scope record) (pr_process_id record)) in Ret tt
             else Ret tt) in
  if ph_result_store host then
    let* r := ask (RsKill (pr_scope record) (pr_process_id record)) in
    Ret (result_map (fun _ => tt) r)
  else Ret (Ok tt).

Definition host_kill (scope : ResourceScope) (id : ProcessId) :
    PProg (Result ProcessRecord ProcessError) :=
  let* killed := ask (PsKill scope id) in
  match killed with
  | Ok record =>
      let* side := record_kill_side_effects record in
      Ret (match side with Ok _ => Ok record | Err e => Err e end)
  | Err e =>
      let* found := ask (PsGet scope id) in
      match found with
      | Ok (Some record) =>
          if bool_decide (pr_status record = ProcKilled) then
            let* side := record_kill_side_effects record in
            match side, e with
            | Err e', _ => Ret (Err e')
            | Ok _, InvalidTransition _ _ _ => Ret (Ok record)
            | Ok _, _ => Ret (Err e)
            end
          else Ret (Err e)
      | _ => Ret (Err e)
      end
  end.

Definition host_result (scope : ResourceScope) (id : ProcessId) :
    PProg (Result (option ProcessResultRecord) ProcessError) :=
  if ph_result_store host then ask (RsGet scope id)
  else Ret (Err ProcessResultStoreUnavailable).

Definition host_output (scope : ResourceScope) (id : ProcessId) :
    PProg (Result (option Value) ProcessError) :=
  let* r := host_result scope id in
  Ret (result_map (fun o => x ← o; res_output x) r).

(** [await_result]; [None] once [polls] are used up. *)
Fixpoint await_result (polls : nat) (terminal_without_result_seen : bool)
    (scope : ResourceScope) (id : ProcessId) :
    PProg (option (Result ProcessResultRecord ProcessError)) :=
  match polls with
  | 0 => Ret None
  | S polls' =>
      let* r := host_result scope id in
      match r with
      | Err e => Ret (Some (Err e))
      | Ok (Some result) => Ret (Some (Ok result))
      | Ok None =>
          let* found := ask (PsGet scope id) in
          match found with
          | Err e => Ret (Some (Err e))
          | Ok None => Ret (Some (Err (UnknownProcess id)))
          | Ok (Some record) =>
              if proc_is_terminal (pr_status record) then
                if negb (ph_result_store host) || terminal_without_result_seen
                then Ret (Some (Err (ProcessResultUnavailable id)))
                else await_result polls' true scope id
              else await_result polls' false scope id
          end
      end
  end.

Fixpoint await_process (polls : nat) (scope : ResourceScope) (id : ProcessId) :
    PProg (option (Result ProcessExit ProcessError)) :=
  match polls with
  | 0 => Ret None
  | S polls' =>
      let* found := ask (PsGet scope id) in
      match found with
      | Err e => Ret (Some (Err e))
      | Ok None => Ret (Some (Err (UnknownProcess id)))
      | Ok (Some record) =>
          if proc_is_terminal (pr_status record) then Ret (Some (Ok (from_terminal record)))
          else await_process polls' scope id
      end
  end.
End manager.
