(* ===== verification/ProcessFacts.v ===== *)
(** * Background processes: theorems

    About every interleaving of background tasks and host calls over the in-memory
    stores: terminal records are final, results are on disk before a process completes
    or fails, awaiting loses no such result, and a kill can be overwritten. *)

From stdpp Require Import relations.
From S2P Require Import Prelude Strings Ids Platform HostApi RunState Capability AuthorizeDemo Programs Processes.
From Stdlib Require Import Lia.
Import HostApi.Resource.

Section facts.
Context `{Platform} `{SerdeJson}.
Variables (manager : BackgroundProcessManager) (host : ProcessHost).

(** What the in-memory world may answer: the executor is free. *)
Definition process_answers (c : ProcessCall) (w : ProcessWorld) (a : ProcessAnswer c)
    (w' : ProcessWorld) : Prop := exists execute, handle_process execute c w = (a, w').

(** ** Records *)

Definition identity_of (r : ProcessRecord) : ProcessRecord := with_process_status ProcRunning None r.

Lemma update_status_kept scope id to kind records K r :
  records !! K = Some r ->
  exists r', (process_update_status scope id to kind records).2 !! K = Some r'
    /\ identity_of r' = identity_of r
    /\ (proc_is_terminal (pr_status r) = true -> r' = r).
Proof.
  intros Hr. unfold process_update_status. destruct (decide (process_key_new scope id = K)) as [<- | Hne].
  - rewrite Hr. unfold ensure_status_transition, proc_is_terminal. case_bool_decide; simpl; [by eauto |].
    rewrite lookup_insert_eq. eexists. by split.
  - destruct (records !! process_key_new scope id) as [r0 |]; [| by eauto].
    destruct (ensure_status_transition _ _ _); simpl; [| by eauto].
    rewrite lookup_insert_ne by done. by eauto.
Qed.

Lemma start_kept s records K r :
  records !! K = Some r -> (process_start s records).2 !! K = Some r.
Proof.
  intros Hr. unfold process_start.
  set (key := process_key_new _ _). destruct (records !! key) as [r0 |] eqn:Hl; [done |].
  cbn [snd]. rewrite lookup_insert_ne by congruence. done.
Qed.

(** One call keeps the identity of every record, and terminal records as they are. *)
Lemma answer_keeps c w a w' K r :
  process_answers c w a w' -> pw_records w !! K = Some r ->
  exists r', pw_records w' !! K = Some r' /\ identity_of r' = identity_of r
    /\ (proc_is_terminal (pr_status r) = true -> r' = r).
Proof.
  intros [execute Ha] Hr.
  destruct c as [s | scope id | scope id kind | scope id | | | | | | | scope id | | |]; simpl in Ha;
    try (injection Ha as _ <-; simpl; by eauto).
  - unfold on_records in Ha. destruct (process_start s (pw_records w)) as [a0 records] eqn:Hs.
    injection Ha as _ <-. simpl. exists r. split; [| done].
    change records with (a0, records).2. rewrite <- Hs. by apply start_kept.
  - unfold on_records in Ha.
    destruct (process_update_status _ _ _ _ _) as [a0 records] eqn:Hs. injection Ha as _ <-.
    change (pw_records (with_records records w)) with (a0, records).2. rewrite <- Hs.
    by apply update_status_kept.
  - unfold on_records in Ha.
    destruct (process_update_status _ _ _ _ _) as [a0 records] eqn:Hs. injection Ha as _ <-.
    change (pw_records (with_records records w)) with (a0, records).2. rewrite <- Hs.
    by apply update_status_kept.
  - unfold on_records in Ha.
    destruct (process_update_status _ _ _ _ _) as [a0 records] eqn:Hs. injection Ha as _ <-.
    change (pw_records (with_records records w)) with (a0, records).2. rewrite <- Hs.
    by apply update_status_kept.
  - unfold token_cancel in Ha. destruct (pw_tokens w !! _); injection Ha as _ <-; simpl; by eauto.
Qed.

(** [C34] A process leaves [Running] at most once.  Whatever programs call the store, in
    whatever order, a record never disappears, its identity (everything but status and
    error kind) never changes, and once its status is terminal the record is final. *)
Theorem process_terminal_final {R} (x y : @Pool ProcessCall ProcessAnswer R ProcessWorld) K r :
  rtc (pool_step process_answers (fun _ _ => False)) x y ->
  pw_records (pool_world x) !! K = Some r ->
  exists r', pw_records (pool_world y) !! K = Some r' /\ identity_of r' = identity_of r
    /\ (proc_is_terminal (pr_status r) = true -> r' = r).
Proof.
  intros Hrun. revert r. induction Hrun as [x | x z y Hstep _ IH]; intros r Hr; [by eauto |].
  destruct Hstep as [i c k h a threads w w' Hi Ha | threads w w' []]; simpl in *.
  destruct (answer_keeps _ _ _ _ _ _ Ha Hr) as (r1 & Hr1 & Hid & Ht).
  destruct (IH r1 Hr1) as (r2 & Hr2 & Hid2 & Ht2). exists r2. split; [done |].
  split; [congruence |]. intros Hterm. rewrite (Ht Hterm) in *. by apply Ht2.
Qed.

(** ** Results *)

Definition results_kept (w w' : ProcessWorld) : Prop :=
  forall K, is_Some (pw_results w !! K) -> is_Some (pw_results w' !! K).

(** The key a call that writes a result writes. *)
Definition writes (c : ProcessCall) : option ScopedKey :=
  match c with
  | RsComplete scope id _ | RsFail scope id _ | RsKill scope id => Some (process_key_new scope id)
  | _ => None
  end.

Lemma answer_results c w a w' :
  process_answers c w a w' ->
  results_kept w w' /\ forall K, writes c = Some K -> is_Some (pw_results w' !! K).
Proof.
  intros [execute Ha].
  destruct c as [| | | | | | | | | | scope id | | |]; simpl in Ha; unfold on_records in Ha;
    try (destruct (process_start _ _) as [? ?]); try (destruct (process_update_status _ _ _ _ _) as [? ?]);
    try (unfold token_cancel in Ha; destruct (pw_tokens w !! _)); injection Ha as <- <-; split;
    try (by intros ?); try (intros K [= <-]; simpl; rewrite lookup_insert_eq; eauto);
    intros K HK; simpl; destruct (decide (K = process_key_new scope id)) as [-> |];
      rewrite ?lookup_insert_eq, ?lookup_insert_ne; eauto.
Qed.
(** ** Histories *)

(** The key a status read found completed or failed. *)
Definition seen_settled (e : Event ProcessAnswer) : option ScopedKey :=
  let '(event c a) := e in
  match c return ProcessAnswer c -> option ScopedKey with
  | PsGet scope id => fun a =>
      match a with
      | Ok (Some r) =>
          match pr_status r with
          | ProcCompleted | ProcFailed => Some (process_key_new scope id)
          | _ => None
          end
      | _ => None
      end
  | _ => fun _ => None
  end a.

(** The terminal record a status read found. *)
Definition seen_terminal (e : Event ProcessAnswer) : option (ScopedKey * ProcessRecord) :=
  let '(event c a) := e in
  match c return ProcessAnswer c -> option (ScopedKey * ProcessRecord) with
  | PsGet scope id => fun a =>
      match a with
      | Ok (Some r) =>
          if proc_is_terminal (pr_status r) then Some (process_key_new scope id, r) else None
      | _ => None
      end
  | _ => fun _ => None
  end a.

(** The key a result read found nothing under. *)
Definition result_missing (e : Event ProcessAnswer) : option ScopedKey :=
  let '(event c a) := e in
  match c return ProcessAnswer c -> option ScopedKey with
  | RsGet scope id => fun a => match a with Ok None => Some (process_key_new scope id) | _ => None end
  | _ => fun _ => None
  end a.

(** A read that failed. *)
Definition errored (e : Event ProcessAnswer) : bool :=
  let '(event c a) := e in
  match c return ProcessAnswer c -> bool with
  | PsGet _ _ | RsGet _ _ => fun a => negb (is_ok a)
  | _ => fun _ => false
  end a.

Definition written (e : Event ProcessAnswer) : option ScopedKey := writes (asked e).

(** A completed or failed process has its result, and so has every key of [h] that was
    written or seen settled; terminal records seen are as they were. *)
Definition settled (w : ProcessWorld) : Prop :=
  forall K r, pw_records w !! K = Some r ->
    pr_status r = ProcCompleted \/ pr_status r = ProcFailed -> is_Some (pw_results w !! K).

Definition remembered (w : ProcessWorld) (h : list (Event ProcessAnswer)) : Prop :=
  Forall (fun e =>
    (forall K, written e = Some K \/ seen_settled e = Some K -> is_Some (pw_results w !! K))
    /\ (forall K r, seen_terminal e = Some (K, r) -> pw_records w !! K = Some r)
    /\ errored e = false) h.

(** No result was missing after a read that found the process settled. *)
Fixpoint no_lost_result (h : list (Event ProcessAnswer)) : Prop :=
  match h with
  | [] => True
  | e :: h' =>
      (forall K, result_missing e = Some K -> Forall (fun e' => seen_settled e' <> Some K) h')
      /\ no_lost_result h'
  end.

(** What every client keeps to: a status is promoted only after its result. *)
Definition result_first (h : list (Event ProcessAnswer)) (c : ProcessCall) : Prop :=
  match c with
  | PsComplete scope id | PsFail scope id _ =>
      Exists (fun e => written e = Some (process_key_new scope id)) h
  | _ => True
  end.

Lemma remembered_kept c w a w' h :
  process_answers c w a w' -> remembered w h -> remembered w' h.
Proof.
  intros Ha Hh. destruct (answer_results _ _ _ _ Ha) as [Hk _].
  eapply Forall_impl; [exact Hh |]. intros e (H1 & H2 & H3). split; [| split; [| done]].
  - intros K HK. apply Hk, H1, HK.
  - intros K r Hs. destruct (answer_keeps _ _ _ _ _ _ Ha (H2 _ _ Hs)) as (r' & Hr' & _ & Ht).
    rewrite Hr'. f_equal. apply Ht. unfold seen_terminal in Hs. destruct e as [c0 a0].
    destruct c0; try done. destruct a0 as [[r0 |] |]; try done.
    destruct (proc_is_terminal (pr_status r0)) eqn:Hpt; [| done]. by injection Hs as _ <-.
Qed.

Lemma settled_update scope id to kind w records a :
  settled w -> process_update_status scope id to kind (pw_records w) = (a, records) ->
  (to = ProcCompleted \/ to = ProcFailed -> is_Some (pw_results w !! process_key_new scope id)) ->
  settled (with_records records w).
Proof.
  intros Hw Hu Hto K r Hr Hst. simpl in *. unfold process_update_status in Hu.
  destruct (pw_records w !! process_key_new scope id) as [r0 |] eqn:Hr0;
    [| injection Hu as _ <-; by eapply Hw].
  destruct (ensure_status_transition _ _ _); injection Hu as _ <-; [| by eapply Hw].
  destruct (decide (process_key_new scope id = K)) as [<- | Hne].
  - rewrite lookup_insert_eq in Hr. injection Hr as <-. by apply Hto.
  - rewrite lookup_insert_ne in Hr by done. by eapply Hw.
Qed.

Lemma settled_results w results :
  settled w -> results_kept w (with_results results w) -> settled (with_results results w).
Proof. intros Hw Hk K r Hr Hs. apply Hk. by eapply Hw. Qed.

Lemma settled_answer c w a w' h :
  settled w -> remembered w h -> result_first h c -> process_answers c w a w' -> settled w'.
Proof.
  intros Hw Hh Hg Ha. pose proof (answer_results _ _ _ _ Ha) as [Hk _]. destruct Ha as [execute Ha].
  assert (forall scope id, Exists (fun e => written e = Some (process_key_new scope id)) h ->
            is_Some (pw_results w !! process_key_new scope id)) as Hwr.
  { intros scope id Hex. apply Exists_exists in Hex as (e & Hin & He).
    pose proof (proj1 (Forall_forall _ _) Hh _ Hin) as [H1 _]. apply H1. by left. }
  destruct c as [s | scope id | scope id kind | scope id | | | | | | | scope id | | |]; simpl in Ha;
    unfold on_records in Ha.
  - destruct (process_start s (pw_records w)) as [a0 records] eqn:Hs. injection Ha as _ <-.
    intros K r Hr Hst. unfold process_start in Hs. destruct (pw_records w !! _) eqn:Hl;
      injection Hs as _ <-; simpl in *; [by eapply Hw |].
    destruct (decide (process_key_new (ps_scope s) (ps_process_id s) = K)) as [<- | Hne].
    + rewrite lookup_insert_eq in Hr. injection Hr as <-. by destruct Hst.
    + rewrite lookup_insert_ne in Hr by done. by eapply Hw.
  - destruct (process_update_status _ _ _ _ _) as [a0 records] eqn:Hs. injection Ha as _ <-.
    by eapply settled_update; eauto.
  - destruct (process_update_status _ _ _ _ _) as [a0 records] eqn:Hs. injection Ha as _ <-.
    by eapply settled_update; eauto.
  - destruct (process_update_status _ _ _ _ _) as [a0 records] eqn:Hs. injection Ha as _ <-.
    eapply settled_update; [done | exact Hs | by intros [|]].
  - by injection Ha as _ <-.
  - injection Ha as _ <-. by apply settled_results.
  - injection Ha as _ <-. by apply settled_results.
  - injection Ha as _ <-. by apply settled_results.
  - by injection Ha as _ <-.
  - by injection Ha as _ <-.
  - unfold token_cancel in Ha. by destruct (pw_tokens w !! _); injection Ha as _ <-.
  - by injection Ha as _ <-.
  - by injection Ha as _ <-.
  - by injection Ha as _ <-.
Qed.
Lemma remembered_event c w a w' h :
  settled w -> process_answers c w a w' -> remembered w h -> remembered w' (event c a :: h).
Proof.
  intros Hw Ha Hh. apply Forall_cons. split; [| by eapply remembered_kept].
  destruct (answer_results _ _ _ _ Ha) as [_ Hwr]. destruct Ha as [execute Ha].
  split; [| split; [| by destruct c; simpl in Ha; try done; injection Ha as <- _]].
  - intros K [HK | HK]; [by apply Hwr |]. destruct c; try done. simpl in Ha.
    injection Ha as <- <-. simpl in HK. destruct (pw_records w !! _) as [r |] eqn:Hr; [| done].
    destruct (pr_status r) eqn:Hs; try done; injection HK as <-; eapply Hw; eauto.
  - intros K r Hs. destruct c; try done. simpl in Ha. injection Ha as <- <-. simpl in Hs.
    destruct (pw_records w !! _) as [r0 |] eqn:Hr; [| done].
    destruct (proc_is_terminal (pr_status r0)); [| done]. by injection Hs as <- <-.
Qed.

Lemma no_lost_event c w a w' h :
  process_answers c w a w' -> remembered w h -> no_lost_result h ->
  no_lost_result (event c a :: h).
Proof.
  intros [execute Ha] Hh Hn. split; [| done]. intros K HK. destruct c; try done. simpl in Ha.
  injection Ha as <- <-. simpl in HK. destruct (pw_results w !! _) as [r |] eqn:Hr; [done |].
  injection HK as <-. eapply Forall_impl; [exact Hh |]. intros e (H1 & _) He.
  destruct (H1 _ (or_intror He)) as [x Hx]. congruence.
Qed.

(** ** Clients *)

(** A caller of [spawn], the detached task of a spawned process, or a host call. *)
Inductive ProcessClient :=
  | Spawns (start : ProcessStart)
  | RunsTask (request : ProcessExecutionRequest)
  | Kills (scope : ResourceScope) (id : ProcessId)
  | Awaits (polls : nat) (scope : ResourceScope) (id : ProcessId).

Inductive ClientResult :=
  | Spawned (r : Result (ProcessRecord * ProcessExecutionRequest) ProcessError)
  | TaskDone
  | KillAnswered (r : Result ProcessRecord ProcessError)
  | Awaited (r : option (Result ProcessResultRecord ProcessError)).

Definition client_program (c : ProcessClient) : PProg ClientResult :=
  match c with
  | Spawns start => prog_map Spawned (manager_spawn manager start)
  | RunsTask request => prog_map (fun _ => TaskDone) (background_task manager request)
  | Kills scope id => prog_map KillAnswered (host_kill host scope id)
  | Awaits polls scope id => prog_map Awaited (await_result host polls false scope id)
  end.

Lemma wp_map {R T} G (f : R -> T) (p : PProg R) h (Q : list (Event ProcessAnswer) -> T -> Prop) :
  wp G p h (fun h' r => Q h' (f r)) -> wp G (prog_map f p) h Q.
Proof. intros Hw. by apply wp_bind. Qed.

(** One call after another, every answer considered. *)
Ltac each_answer :=
  repeat (simpl;
    match goal with
    | |- True => exact I
    | |- _ /\ _ => split
    | |- forall _, _ => intros ?
    | |- Exists _ (_ :: _) => first [apply Exists_cons_hd; reflexivity | apply Exists_cons_tl]
    | |- context [match ?x with _ => _ end] => destruct x
    end).

Lemma task_first request h :
  bm_result_store manager = true ->
  wp result_first (background_task manager request) h (fun _ _ => True).
Proof.
  intros Hrs. unfold background_task, settle_failed, settle, persist_result, report.
  rewrite Hrs. each_answer.
Qed.

Lemma kill_first scope id h : wp result_first (host_kill host scope id) h (fun _ _ => True).
Proof. unfold host_kill, record_kill_side_effects. each_answer. Qed.

Lemma spawn_first start h : wp result_first (manager_spawn manager start) h (fun _ _ => True).
Proof. unfold manager_spawn. each_answer. Qed.

(** An await that finds no result has seen the process terminal, and then no result,
    unless a read failed. *)
Definition awaited (scope : ResourceScope) (id : ProcessId) (h : list (Event ProcessAnswer))
    (r : option (Result ProcessResultRecord ProcessError)) : Prop :=
  r = Some (Err (ProcessResultUnavailable id)) -> ph_result_store host = true ->
  Exists (fun e => errored e = true) h
  \/ exists r1 l e h', h = l ++ e :: h' /\ result_missing e = Some (process_key_new scope id)
       /\ Exists (fun e => seen_terminal e = Some (process_key_new scope id, r1)) h'.

Lemma await_first polls seen scope id h :
  (seen = true -> exists r1,
     Exists (fun e => seen_terminal e = Some (process_key_new scope id, r1)) h) ->
  wp result_first (await_result host polls seen scope id) h (awaited scope id).
Proof.
  revert seen h. induction polls as [| polls IH]; intros seen h Hseen; simpl; [by intros ? |].
  unfold host_result. destruct (ph_result_store host) eqn:Hrs; simpl.
  2:{ intros Hr. congruence. }
  split; [done |]. intros [[result |] | e]; simpl.
  - by intros ?.
  - split; [done |]. intros [[r |] | e]; simpl.
    + destruct (proc_is_terminal (pr_status r)) eqn:Ht.
      * destruct seen; simpl.
        -- intros _ _. right. destruct (Hseen eq_refl) as [r1 Hr1].
           exists r1, [event (PsGet scope id) (Ok (Some r))], (event (RsGet scope id) (Ok None)), h.
           by split.
        -- apply IH. intros _. exists r. apply Exists_cons_hd. simpl. by rewrite Ht.
      * by apply IH.
    + by intros ?.
    + intros _ _. left. by apply Exists_cons_hd.
  - intros _ _. left. by apply Exists_cons_hd.
Qed.

Lemma client_first c :
  bm_result_store manager = true ->
  wp result_first (client_program c) [] (fun h r =>
    forall polls scope id o, c = Awaits polls scope id -> r = Awaited o -> awaited scope id h o).
Proof.
  intros Hrs. destruct c as [start | request | scope id | polls scope id]; apply wp_map.
  - eapply wp_mono; [apply spawn_first |]. done.
  - eapply wp_mono; [by apply task_first |]. done.
  - eapply wp_mono; [apply kill_first |]. done.
  - eapply wp_mono; [by apply await_first |]. by intros h' r Hr ???? [= <- <- <-] [= <-].
Qed.

(** What every interleaving of clients keeps. *)
Lemma clients_invariant clients w pool :
  bm_result_store manager = true -> settled w ->
  rtc (pool_step process_answers (fun _ _ => False)) (pool_of (client_program <$> clients) w) pool ->
  settled (pool_world pool)
  /\ Forall (fun t => remembered (pool_world pool) t.2 /\ no_lost_result t.2) (pool_threads pool).
Proof.
  intros Hrs Hw Hrun.
  apply (pool_invariant process_answers (fun _ _ => False) settled
    (fun w h => remembered w h /\ no_lost_result h) result_first (client_program <$> clients) w);
    try done.
  - intros w0 c h a w1 Hw0 [Hh Hn] Hg Ha. split; [by eapply settled_answer |].
    split; [by eapply remembered_event | by eapply no_lost_event].
  - intros w0 c a w1 h _ Ha [Hh Hn]. split; [by eapply remembered_kept | done].
  - intros w0. split; [constructor | done].
  - apply Forall_fmap, Forall_true. intros c. eapply wp_mono; [by apply client_first |]. done.
Qed.

(** [C16] Results are on disk first.  However spawns, detached tasks, kills and awaits
    interleave over the in-memory stores, and whatever the executors answer, a process
    whose status is [Completed] or [Failed] has a result record. *)
Theorem result_before_status clients w pool K r :
  bm_result_store manager = true -> settled w ->
  rtc (pool_step process_answers (fun _ _ => False)) (pool_of (client_program <$> clients) w) pool ->
  pw_records (pool_world pool) !! K = Some r ->
  pr_status r = ProcCompleted \/ pr_status r = ProcFailed ->
  is_Some (pw_results (pool_world pool) !! K).
Proof.
  intros Hrs Hw Hrun Hr Hs. destruct (clients_invariant _ _ _ Hrs Hw Hrun) as [Hset _].
  by eapply Hset.
Qed.

(** [C35] Awaiting loses no result.  In the same interleavings, an await that answers
    [ProcessResultUnavailable] was awaiting a killed process: no result of a process
    that completed or failed is ever reported missing. *)
Theorem await_loses_only_killed clients w pool i polls scope id h :
  bm_result_store manager = true -> ph_result_store host = true -> settled w ->
  rtc (pool_step process_answers (fun _ _ => False)) (pool_of (client_program <$> clients) w) pool ->
  clients !! i = Some (Awaits polls scope id) ->
  pool_threads pool !! i = Some (Ret (Awaited (Some (Err (ProcessResultUnavailable id)))), h) ->
  exists r, pw_records (pool_world pool) !! process_key_new scope id = Some r
    /\ pr_status r = ProcKilled.
Proof.
  intros Hrs Hhost Hw Hrun Hi Ht.
  destruct (clients_invariant _ _ _ Hrs Hw Hrun) as [_ Hth].
  pose proof (Forall_lookup_1 _ _ _ _ Hth Ht) as [Hrem Hlost]. simpl in *.
  assert (runs (client_program (Awaits polls scope id))
            (Ret (Awaited (Some (Err (ProcessResultUnavailable id))))) h) as Hr.
  { eapply pool_runs; [exact Hrun | | exact Ht]. by rewrite list_lookup_fmap, Hi. }
  pose proof (wp_returns _ _ _ _ _ (client_first (Awaits polls scope id) Hrs) Hr) as Hq.
  destruct (Hq _ _ _ _ eq_refl eq_refl eq_refl Hhost) as [Herr | (r1 & l & e & h' & -> & He & Hex)].
  - apply Exists_exists in Herr as (e & Hin & He).
    destruct (proj1 (Forall_forall _ _) Hrem _ Hin) as (_ & _ & Hf). congruence.
  - apply Exists_exists in Hex as (e1 & Hin & He1). exists r1. split.
    + apply Forall_app in Hrem as [_ [_ Hrem]%Forall_cons].
      destruct (proj1 (Forall_forall _ _) Hrem _ Hin) as (_ & Hs & _). by apply Hs.
    + assert (Forall (fun e' => seen_settled e' <> Some (process_key_new scope id)) h') as Hns.
      { clear -Hlost He. induction l as [| x l IH]; simpl in Hlost; [| by apply IH, Hlost].
        by apply Hlost. }
      pose proof (proj1 (Forall_forall _ _) Hns _ Hin) as Hn.
      unfold seen_terminal in He1. unfold seen_settled in Hn. destruct e1 as [c a].
      destruct c; try done. destruct a as [[r |] |]; try done. unfold proc_is_terminal in He1.
      destruct (bool_decide_reflect (pr_status r <> ProcRunning)) as [Hnr |]; [| done].
      apply (inj Some), pair_eq in He1 as [Hk <-]. destruct (pr_status r); congruence.
Qed.
End facts.
