(* ===== verification/CapabilityHost.v ===== *)
(** * The capability host: requests, errors, calls and helpers

    Models [ironclaw_capabilities/src/requests.rs], [obligations.rs], [error.rs],
    [helpers.rs] and the parts of [host.rs] the methods share.  The traits
    [CapabilityHost] works through - run state, approval requests, leases, the
    authorizer, the obligation handler, the dispatcher and the process manager - are the
    calls of a program ([Programs.Prog], [HostCall]), so that other tasks may act between
    any two of them. *)

From S2P Require Import Prelude Strings Ids Mounts Platform HostApi RunState Capability Obligations Trust Leases Actions Programs Dispatch Processes.
From Stdlib Require Import Ascii Lia.
Import HostApi.Resource.

(** ** [obligations.rs] *)

Inductive CapabilityObligationPhase := PhaseInvoke | PhaseResume | PhaseSpawn.

Inductive CapabilityObligationFailureKind :=
  | FailedAudit | FailedMount | FailedNetwork | FailedOutput | FailedResource | FailedSecret.

(** [Display] *)
Definition obligation_failure_text (k : CapabilityObligationFailureKind) : string :=
  match k with
  | FailedAudit => "Audit" | FailedMount => "Mount" | FailedNetwork => "Network"
  | FailedOutput => "Output" | FailedResource => "Resource" | FailedSecret => "Secret"
  end.

Inductive ResumeContextMismatchKind :=
  | MismatchCapabilityId | MismatchApprovalRequestId | MismatchCapabilityAndApprovalRequestId.

Section with_platform.
Context `{Platform} `{SerdeJson}.

Record CapabilityObligationOutcome := {
  oo_mounts : option MountView;
  oo_resource_reservation : option ResourceReservation;
}.

Definition outcome_default : CapabilityObligationOutcome :=
  {| oo_mounts := None; oo_resource_reservation := None |}.

Inductive CapabilityObligationError :=
  | ObUnsupported (obligations : list Obligation)
  | ObAuthRequired (credential_requirements : list RuntimeCredentialAuthRequirement)
  | ObFailed (kind : CapabilityObligationFailureKind).

(** [AuditAfter | RedactOutput | EnforceResourceCeiling | EnforceOutputLimit] *)
Definition is_post_dispatch (o : Obligation) : bool :=
  match o with
  | AuditAfter | RedactOutput | EnforceResourceCeiling _ | EnforceOutputLimit _ => true
  | _ => false
  end.

Definition post_dispatch_obligations (obligations : list Obligation) : list Obligation :=
  List.filter is_post_dispatch obligations.

(** ** [requests.rs] *)

Record CapabilityInvocationRequest := {
  iq_context : ExecutionContext;
  iq_capability_id : CapabilityId;
  iq_estimate : ResourceEstimate;
  iq_input : Value;
  iq_trust_decision : TrustDecision;
}.

Record CapabilityResumeRequest := {
  rq_context : ExecutionContext;
  rq_approval_request_id : ApprovalRequestId;
  rq_capability_id : CapabilityId;
  rq_estimate : ResourceEstimate;
  rq_input : Value;
  rq_trust_decision : TrustDecision;
}.

Record CapabilityAuthResumeRequest := {
  aq_context : ExecutionContext;
  aq_capability_id : CapabilityId;
  aq_estimate : ResourceEstimate;
  aq_input : Value;
  aq_trust_decision : TrustDecision;
  aq_approval_request_id : option ApprovalRequestId;
}.

(** [CapabilitySpawnRequest] has the fields of [CapabilityInvocationRequest]. *)
Abbreviation CapabilitySpawnRequest := CapabilityInvocationRequest.

(** ** [error.rs] *)

Inductive CapabilityInvocationError :=
  | CiUnknownCapability (capability : CapabilityId)
  | CiAuthorizationDenied (capability : CapabilityId) (reason : DenyReason)
  | CiUnsupportedObligations (capability : CapabilityId) (obligations : list Obligation)
  | CiObligationFailed (capability : CapabilityId) (kind : CapabilityObligationFailureKind)
  | CiAuthorizationRequiresApproval (capability : CapabilityId)
  | CiAuthorizationRequiresAuth (capability : CapabilityId)
      (required_secrets : list SecretHandle)
      (credential_requirements : list RuntimeCredentialAuthRequirement)
  | CiInvocationFingerprint (capability : CapabilityId) (source : HostApiError)
  | CiApprovalRequestMismatch (capability : CapabilityId) (field : string)
  | CiApprovalFingerprintMismatch (capability : CapabilityId)
  | CiApprovalNotApproved (capability : CapabilityId) (status : ApprovalStatus)
  | CiApprovalStoreMissing (capability : CapabilityId) (store : string)
  | CiApprovalLeaseMissing (capability : CapabilityId)
  | CiResumeStoreMissing (capability : CapabilityId) (store : string)
  | CiProcessManagerMissing (capability : CapabilityId)
  | CiResumeNotBlocked (capability : CapabilityId) (status : RunStatus)
  | CiResumeContextMismatch (capability : CapabilityId) (kind : ResumeContextMismatchKind)
  | CiLease (e : CapabilityLeaseError)
  | CiRunState (e : RunStateError)
  | CiProcess (e : ProcessError)
  | CiDispatch (kind : DispatchFailureKind) (safe_summary : option string)
      (detail : option DispatchFailureDetail).

Definition dispatch_error_safe_summary (e : DispatchError) : option string :=
  match e with
  | DispatchFirstParty _ safe_summary _ | DispatchWasm _ safe_summary => safe_summary
  | _ => None
  end.

Definition dispatch_error_detail (e : DispatchError) : option DispatchFailureDetail :=
  match e with DispatchFirstParty _ _ detail => detail | _ => None end.

(** [From<DispatchError>] *)
Definition from_dispatch_error (e : DispatchError) : CapabilityInvocationError :=
  match e with
  | DispatchAuthRequired capability required_secrets credential_requirements =>
      CiAuthorizationRequiresAuth capability required_secrets credential_requirements
  | _ => CiDispatch (failure_kind e) (dispatch_error_safe_summary e) (dispatch_error_detail e)
  end.

(** ** Calls *)

Abbreviation HostApproval := (ApprovalRequest RequestBody).

Inductive HostCall :=
  | RunStart_ (start : RunStart)
  | RunGet (scope : ResourceScope) (id : InvocationId)
  | RunBlockApproval (scope : ResourceScope) (id : InvocationId) (approval : HostApproval)
  | RunBlockAuth (scope : ResourceScope) (id : InvocationId) (error_kind : string)
  | RunComplete (scope : ResourceScope) (id : InvocationId)
  | RunFail (scope : ResourceScope) (id : InvocationId) (error_kind : string)
  | ApprovalSavePending (scope : ResourceScope) (approval : HostApproval)
  | ApprovalGet (scope : ResourceScope) (id : ApprovalRequestId)
  | ApprovalDiscardPending (scope : ResourceScope) (id : ApprovalRequestId)
  | SavePendingAndBlock (scope : ResourceScope) (id : InvocationId) (approval : HostApproval)
  | ActiveLeases (c : ExecutionContext)
  | LeasesForScope (scope : ResourceScope)
  | OnLease (call : LeaseCall)
  | AuthorizeDispatch (c : ExecutionContext) (d : CapabilityDescriptor) (e : ResourceEstimate)
      (t : TrustDecision)
  | AuthorizeSpawn (c : ExecutionContext) (d : CapabilityDescriptor) (e : ResourceEstimate)
      (t : TrustDecision)
  | PrepareObligations (phase : CapabilityObligationPhase) (c : ExecutionContext)
      (capability : CapabilityId) (e : ResourceEstimate) (obligations : list Obligation)
  | AbortObligations (phase : CapabilityObligationPhase) (c : ExecutionContext)
      (capability : CapabilityId) (e : ResourceEstimate) (obligations : list Obligation)
      (outcome : CapabilityObligationOutcome)
  | CompleteObligations (phase : CapabilityObligationPhase) (c : ExecutionContext)
      (capability : CapabilityId) (e : ResourceEstimate) (obligations : list Obligation)
      (dispatch : CapabilityDispatchResult)
  | DispatchJson (request : CapabilityDispatchRequest)
  | NewProcessId
  | SpawnProcess (start : ProcessStart).

Definition HostAnswer (c : HostCall) : Type :=
  match c with
  | RunStart_ _ | RunBlockApproval _ _ _ | RunBlockAuth _ _ _ | RunComplete _ _ | RunFail _ _ _
  | SavePendingAndBlock _ _ _ => Result RunRecord RunStateError
  | RunGet _ _ => Result (option RunRecord) RunStateError
  | ApprovalSavePending _ _ | ApprovalDiscardPending _ _ =>
      Result (ApprovalRecord RequestBody) RunStateError
  | ApprovalGet _ _ => Result (option (ApprovalRecord RequestBody)) RunStateError
  | ActiveLeases _ | LeasesForScope _ => list CapabilityLease
  | OnLease _ => Result CapabilityLease CapabilityLeaseError
  | AuthorizeDispatch _ _ _ _ | AuthorizeSpawn _ _ _ _ => Decision HostApproval
  | PrepareObligations _ _ _ _ _ => Result CapabilityObligationOutcome CapabilityObligationError
  | AbortObligations _ _ _ _ _ _ => Result unit CapabilityObligationError
  | CompleteObligations _ _ _ _ _ _ => Result CapabilityDispatchResult CapabilityObligationError
  | DispatchJson _ => Result CapabilityDispatchResult DispatchError
  | NewProcessId => ProcessId
  | SpawnProcess _ => Result ProcessRecord ProcessError
  end.

(** What the host computes with code of other crates: the fingerprint of an invocation
    (a digest of canonical JSON), [input.get("command")] as a string, and the redacted
    text of a shell command with whether it was truncated. *)
Class InvocationCode := {
  fingerprint_for_action : string -> ResourceScope -> CapabilityId -> ResourceEstimate -> Value ->
    Result InvocationFingerprint HostApiError;
  input_command : Value -> option string;
  shell_command_display_text : string -> string * bool;
}.
End with_platform.

Abbreviation HProg := (Prog HostAnswer).
Abbreviation HostApproval := (ApprovalRequest RequestBody).


Section host.
Context `{Platform} `{SerdeJson} `{!InvocationCode}.
Local Open Scope prog_scope.

Abbreviation CiError := CapabilityInvocationError.

(** ** [helpers.rs] *)

Inductive CapabilityActionKind := KindDispatch | KindSpawn.

Definition invocation_fingerprint_for_kind (kind : CapabilityActionKind) (scope : ResourceScope)
    (capability : CapabilityId) (estimate : ResourceEstimate) (input : Value) :
    Result InvocationFingerprint HostApiError :=
  match kind with
  | KindDispatch => fingerprint_for_action "dispatch" scope capability estimate input
  | KindSpawn => fingerprint_for_action "spawn_capability" scope capability estimate input
  end.

Definition validate_approval_request_matches_invocation (body : RequestBody)
    (c : ExecutionContext) (capability : CapabilityId) (estimate : ResourceEstimate)
    (expected : CapabilityActionKind) : Result unit CiError :=
  let action_matches :=
    match expected, body_action body with
    | KindDispatch, ActDispatch named estimated | KindSpawn, ActSpawnCapability named estimated =>
        bool_decide (named = capability) && bool_decide (estimated = estimate)
    | _, _ => false
    end in
  if negb action_matches then Err (CiApprovalRequestMismatch capability "action")
  else if bool_decide (body_correlation_id body <> ctx_correlation_id c)
  then Err (CiApprovalRequestMismatch capability "correlation_id")
  else if bool_decide (body_requested_by body <> ExtensionPrincipal (ctx_extension_id c))
  then Err (CiApprovalRequestMismatch capability "requested_by")
  else Ok tt.

(** The predicate of [matching_approval_lease]. *)
Definition lease_matches (scope : ResourceScope) (capability : CapabilityId)
    (fp : InvocationFingerprint) (l : CapabilityLease) : bool :=
  bool_decide (lease_scope l = scope)
  && bool_decide (grant_capability (lease_grant l) = capability)
  && bool_decide (lease_fingerprint l = Some fp).

Definition matching_approval_lease (c : ExecutionContext) (capability : CapabilityId)
    (fp : InvocationFingerprint) : HProg (option CapabilityLease) :=
  let* leases := ask (ActiveLeases c) in
  Ret (List.find (lease_matches (ctx_resource_scope c) capability fp) leases).

Definition matching_claimed_approval_lease_for_auth_resume (scope : ResourceScope)
    (capability : CapabilityId) (fp : InvocationFingerprint) : HProg (option CapabilityLease) :=
  let* leases := ask (LeasesForScope scope) in
  Ret (List.find (fun l => lease_matches scope capability fp l
                           && bool_decide (lease_status l = LeaseClaimed)) leases).

(** A failed transition is only logged. *)
Definition fail_run_if_configured (run_state : bool) (scope : ResourceScope) (id : InvocationId)
    (error_kind : string) : HProg unit :=
  if run_state then let* _ := ask (RunFail scope id error_kind) in Ret tt else Ret tt.

Inductive CapabilityRunStateTransition :=
  | TransitionFail (error_kind : string)
  | TransitionBlockAuth (error_kind : string).

Definition transition_error_kind (t : CapabilityRunStateTransition) : string :=
  match t with TransitionFail k | TransitionBlockAuth k => k end.

Definition run_state_transition (e : CiError) : option CapabilityRunStateTransition :=
  match e with
  | CiUnsupportedObligations _ _ => Some (TransitionFail "UnsupportedObligations")
  | CiObligationFailed _ _ => Some (TransitionFail "ObligationFailed")
  | CiAuthorizationRequiresAuth _ _ _ => Some (TransitionBlockAuth "AuthRequired")
  | CiDispatch _ _ _ => None
  | _ => Some (TransitionFail "Obligation")
  end.

Definition apply_run_state_transition_if_configured (run_state : bool) (scope : ResourceScope)
    (id : InvocationId) (e : CiError) : HProg unit :=
  if run_state then
    match run_state_transition e with
    | None => Ret tt
    | Some (TransitionFail error_kind) => fail_run_if_configured true scope id error_kind
    | Some (TransitionBlockAuth error_kind) =>
        let* _ := ask (RunBlockAuth scope id error_kind) in Ret tt
    end
  else Ret tt.

Definition complete_run_after_side_effect (scope : ResourceScope) (id : InvocationId) : HProg unit :=
  let* _ := ask (RunComplete scope id) in Ret tt.

Definition approval_not_approved_error_kind (status : ApprovalStatus) : string :=
  match status with
  | Pending => "ApprovalPending" | Approved => "ApprovalApproved" | Denied => "ApprovalDenied"
  | Expired => "ApprovalExpired" | Discarded => "ApprovalDiscarded"
  end.

(** Called with one of the two only. *)
Definition resume_context_mismatch_kind (capability_mismatch approval_request_mismatch : bool) :
    ResumeContextMismatchKind :=
  match capability_mismatch, approval_request_mismatch with
  | true, true => MismatchCapabilityAndApprovalRequestId
  | true, false => MismatchCapabilityId
  | false, _ => MismatchApprovalRequestId
  end.

Definition claim_error_may_be_concurrent_resume (e : CapabilityLeaseError) : bool :=
  match e with
  | InactiveLease _ (LeaseClaimed | LeaseDispatching | LeaseConsumed) => true
  | _ => false
  end.

(** ** Small helpers of [host.rs] *)

Definition newline : string := String "010" "".

Definition add_capability_input_display_hint (reason : string) (capability : CapabilityId)
    (input : Value) : string :=
  if negb (String.eqb capability "shell") && negb (String.eqb capability "builtin.shell")
     && negb (ends_with ".shell" capability)
  then reason
  else
    match shell_command_display_text <$> input_command input with
    | None => reason
    | Some (text, truncated) =>
        if String.eqb text "" then reason
        else reason +:+ newline +:+ newline +:+ "Command:" +:+ newline +:+ text
             +:+ (if truncated : bool then newline +:+ "[truncated]" else "")
    end.

Definition with_reason (f : string -> string) (b : RequestBody) : RequestBody :=
  let '(request_body c p a fp reason s) := b in request_body c p a fp (f reason) s.

Definition with_fingerprint (fp : InvocationFingerprint) (b : RequestBody) : RequestBody :=
  let '(request_body c p a _ reason s) := b in request_body c p a (Some fp) reason s.

Definition on_body (f : RequestBody -> RequestBody) (approval : HostApproval) : HostApproval :=
  {| request_id := request_id approval; request_payload := f (request_payload approval) |}.

Definition is_block_auth_transition (e : CiError) : bool :=
  match run_state_transition e with Some (TransitionBlockAuth _) => true | _ => false end.

Definition prepare_obligation_error_to_invocation (capability : CapabilityId)
    (e : CapabilityObligationError) : CiError :=
  match e with
  | ObUnsupported obligations => CiUnsupportedObligations capability obligations
  | ObAuthRequired requirements => CiAuthorizationRequiresAuth capability [] requirements
  | ObFailed kind => CiObligationFailed capability kind
  end.

Definition completion_obligation_error_to_invocation (capability : CapabilityId)
    (e : CapabilityObligationError) : CiError :=
  match e with
  | ObAuthRequired _ => CiObligationFailed capability FailedSecret
  | other => prepare_obligation_error_to_invocation capability other
  end.

Definition obligation_invocation_error_kind (e : CiError) : string :=
  match run_state_transition e with Some t => transition_error_kind t | None => "Dispatch" end.

Definition enrich_dispatch_error_credential_requirements (e : DispatchError)
    (obligations : list Obligation) : DispatchError :=
  match e with
  | DispatchAuthRequired capability [] [] =>
      match omap credential_auth_requirement obligations with
      | [requirement] => DispatchAuthRequired capability [] [requirement]
      | _ => e
      end
  | _ => e
  end.

Definition cleanup_claimed_lease_after_resume_error (scope : ResourceScope)
    (id : CapabilityGrantId) (e : CiError) : HProg unit :=
  if is_block_auth_transition e
  then let* _ := ask (OnLease (AbortDispatch scope id)) in Ret tt
  else let* _ := ask (OnLease (Revoke scope id)) in Ret tt.
End host.

(** ** [CapabilityHost] *)

(** What is attached; the stores themselves are the environment. *)
Record CapabilityHost `{Platform} `{SerdeJson} := {
  get_capability : CapabilityId -> option CapabilityDescriptor;
  h_run_state : bool;
  h_approval_requests : bool;
  h_run_state_approval_store : bool;
  h_capability_leases : bool;
  h_process_manager : bool;
  h_obligation_handler : bool;
}.

Section builders.
Context `{Platform} `{SerdeJson}.

Definition host_new (registry : CapabilityId -> option CapabilityDescriptor) : CapabilityHost := {|
  get_capability := registry; h_run_state := false; h_approval_requests := false;
  h_run_state_approval_store := false; h_capability_leases := false;
  h_process_manager := false; h_obligation_handler := false |}.

Definition with_run_state (h : CapabilityHost) : CapabilityHost := {|
  get_capability := get_capability h; h_run_state := true;
  h_approval_requests := h_approval_requests h; h_run_state_approval_store := false;
  h_capability_leases := h_capability_leases h; h_process_manager := h_process_manager h;
  h_obligation_handler := h_obligation_handler h |}.

Definition with_approval_requests (h : CapabilityHost) : CapabilityHost := {|
  get_capability := get_capability h; h_run_state := h_run_state h;
  h_approval_requests := true; h_run_state_approval_store := false;
  h_capability_leases := h_capability_leases h; h_process_manager := h_process_manager h;
  h_obligation_handler := h_obligation_handler h |}.

Definition with_run_state_approval_store (h : CapabilityHost) : CapabilityHost := {|
  get_capability := get_capability h; h_run_state := true; h_approval_requests := true;
  h_run_state_approval_store := true; h_capability_leases := h_capability_leases h;
  h_process_manager := h_process_manager h; h_obligation_handler := h_obligation_handler h |}.

Definition with_capability_leases (h : CapabilityHost) : CapabilityHost := {|
  get_capability := get_capability h; h_run_state := h_run_state h;
  h_approval_requests := h_approval_requests h;
  h_run_state_approval_store := h_run_state_approval_store h; h_capability_leases := true;
  h_process_manager := h_process_manager h; h_obligation_handler := h_obligation_handler h |}.

Definition with_process_manager (h : CapabilityHost) : CapabilityHost := {|
  get_capability := get_capability h; h_run_state := h_run_state h;
  h_approval_requests := h_approval_requests h;
  h_run_state_approval_store := h_run_state_approval_store h;
  h_capability_leases := h_capability_leases h; h_process_manager := true;
  h_obligation_handler := h_obligation_handler h |}.

Definition with_obligation_handler (h : CapabilityHost) : CapabilityHost := {|
  get_capability := get_capability h; h_run_state := h_run_state h;
  h_approval_requests := h_approval_requests h;
  h_run_state_approval_store := h_run_state_approval_store h;
  h_capability_leases := h_capability_leases h; h_process_manager := h_process_manager h;
  h_obligation_handler := true |}.
End builders.
