(* ===== verification/HostFlows.v ===== *)
(** * The capability host: its methods

    [invoke_json], [spawn_json], [resume_json], [auth_resume_json] and
    [resume_spawn_json] of [host.rs], with the pieces they share.  Where two methods
    repeat the same calls in the source, the shared piece is one definition. *)

From S2P Require Import Prelude Strings Ids Mounts Platform HostApi RunState Capability Obligations Trust Leases Actions Dispatch Programs Processes CapabilityHost.
From Stdlib Require Import Lia.
Import HostApi.Resource.

Section flows.
Context `{Platform} `{SerdeJson} `{!InvocationCode}.
Local Open Scope prog_scope.
Variable host : CapabilityHost.

Abbreviation CiError := CapabilityInvocationError.
Abbreviation HResult T := (HProg (Result T CiError)).

(** [return Err(e)] *)
Definition refuse {T} (e : CiError) : HResult T := Ret (Err e).

(** [fail_run_if_configured(..).await; return Err(e)] *)
Definition fail_with {T} (run_state : bool) (scope : ResourceScope) (id : InvocationId)
    (error_kind : string) (e : CiError) : HResult T :=
  let* _ := fail_run_if_configured run_state scope id error_kind in Ret (Err e).

(** ** Obligations *)

Definition prepare_obligations (phase : CapabilityObligationPhase) (c : ExecutionContext)
    (capability : CapabilityId) (estimate : ResourceEstimate) (obligations : list Obligation) :
    HResult CapabilityObligationOutcome :=
  match obligations with
  | [] => Ret (Ok outcome_default)
  | _ :: _ =>
      let unsupported :=
        match phase with PhaseSpawn => post_dispatch_obligations obligations | _ => [] end in
      if bool_decide (unsupported <> []) then refuse (CiUnsupportedObligations capability unsupported)
      else if negb (h_obligation_handler host)
      then refuse (CiUnsupportedObligations capability obligations)
      else
        let* r := ask (PrepareObligations phase c capability estimate obligations) in
        match r with
        | Ok outcome => Ret (Ok outcome)
        | Err e => refuse (prepare_obligation_error_to_invocation capability e)
        end
  end.

Definition complete_dispatch_obligations (phase : CapabilityObligationPhase)
    (c : ExecutionContext) (capability : CapabilityId) (estimate : ResourceEstimate)
    (obligations : list Obligation) (dispatch : CapabilityDispatchResult) :
    HResult CapabilityDispatchResult :=
  match obligations with
  | [] => Ret (Ok dispatch)
  | _ :: _ =>
      if h_obligation_handler host then
        let* r := ask (CompleteObligations phase c capability estimate obligations dispatch) in
        match r with
        | Ok completed => Ret (Ok completed)
        | Err e => refuse (completion_obligation_error_to_invocation capability e)
        end
      else
        let unsupported := post_dispatch_obligations obligations in
        if bool_decide (unsupported = []) then Ret (Ok dispatch)
        else refuse (CiUnsupportedObligations capability unsupported)
  end.

Definition abort_obligations (phase : CapabilityObligationPhase) (c : ExecutionContext)
    (capability : CapabilityId) (estimate : ResourceEstimate) (obligations : list Obligation)
    (outcome : CapabilityObligationOutcome) : HProg unit :=
  match obligations with
  | [] => Ret tt
  | _ :: _ =>
      if h_obligation_handler host then
        let* _ := ask (AbortObligations phase c capability estimate obligations outcome) in Ret tt
      else Ret tt
  end.

(** ** Blocking on an approval *)

(** The stores record the pending request and block the run, or roll it back. *)
Definition store_approval (scope : ResourceScope) (id : InvocationId) (capability : CapabilityId)
    (approval : HostApproval) : HProg CiError :=
  if h_run_state_approval_store host then
    let* r := ask (SavePendingAndBlock scope id approval) in
    match r with
    | Ok _ => Ret (CiAuthorizationRequiresApproval capability)
    | Err e => let* _ := fail_run_if_configured true scope id "ApprovalBlock" in Ret (CiRunState e)
    end
  else
    let* saved := ask (ApprovalSavePending scope approval) in
    match saved with
    | Err e => let* _ := fail_run_if_configured true scope id "ApprovalStore" in Ret (CiRunState e)
    | Ok _ =>
        let* blocked := ask (RunBlockApproval scope id approval) in
        match blocked with
        | Ok _ => Ret (CiAuthorizationRequiresApproval capability)
        | Err e =>
            let* _ := ask (ApprovalDiscardPending scope (request_id approval)) in
            let* _ := fail_run_if_configured true scope id "ApprovalBlock" in
            Ret (CiRunState e)
        end
    end.

(** The [RequireApproval] arm: every way through it ends in an error. *)
Definition block_for_approval (kind : CapabilityActionKind) (req : CapabilityInvocationRequest)
    (fp : InvocationFingerprint) (asked_approval : HostApproval) : HProg CiError :=
  let c := iq_context req in
  let scope := ctx_resource_scope c in
  let id := ctx_invocation_id c in
  let capability := iq_capability_id req in
  let run_state := h_run_state host in
  let approval := on_body (with_reason (fun reason =>
    add_capability_input_display_hint reason capability (iq_input req))) asked_approval in
  match validate_approval_request_matches_invocation (request_payload approval) c capability
          (iq_estimate req) kind with
  | Err e =>
      let* _ := fail_run_if_configured run_state scope id "ApprovalRequestMismatch" in Ret e
  | Ok _ =>
      let existing := body_fingerprint (request_payload approval) in
      if bool_decide (is_Some existing) && bool_decide (existing <> Some fp) then
        let* _ := fail_run_if_configured run_state scope id "InvocationFingerprintMismatch" in
        Ret (CiApprovalFingerprintMismatch capability)
      else
        let approval := on_body (with_fingerprint fp) approval in
        match run_state, h_approval_requests host with
        | true, true => store_approval scope id capability approval
        | true, false =>
            let* _ := fail_run_if_configured true scope id "ApprovalStoreMissing" in
            Ret (CiApprovalStoreMissing capability "approval_requests")
        | false, true => Ret (CiApprovalStoreMissing capability "run_state")
        | false, false => Ret (CiApprovalStoreMissing capability "run_state and approval_requests")
        end
  end.

(** ** [invoke_json] and [spawn_json] *)

Definition phase_of (kind : CapabilityActionKind) : CapabilityObligationPhase :=
  match kind with KindDispatch => PhaseInvoke | KindSpawn => PhaseSpawn end.

Definition authorize (kind : CapabilityActionKind) (c : ExecutionContext)
    (d : CapabilityDescriptor) (estimate : ResourceEstimate) (trust : TrustDecision) :
    HProg (Decision HostApproval) :=
  match kind with
  | KindDispatch => ask (AuthorizeDispatch c d estimate trust)
  | KindSpawn => ask (AuthorizeSpawn c d estimate trust)
  end.

(** [if let Some(run_state) = self.run_state { run_state.start(..).await?; }] *)
Definition start_run (req : CapabilityInvocationRequest) : HResult unit :=
  let c := iq_context req in
  if h_run_state host then
    let* r := ask (RunStart_ {| start_invocation_id := ctx_invocation_id c;
                                start_capability_id := iq_capability_id req;
                                start_scope := ctx_resource_scope c;
                                start_actor := ctx_authenticated_actor_user_id c |}) in
    Ret (match r with Ok _ => Ok tt | Err e => Err (CiRunState e) end)
  else Ret (Ok tt).

(** Up to the prepared obligations: what both methods do before their side effect. *)
Definition authorized_invocation (kind : CapabilityActionKind)
    (req : CapabilityInvocationRequest) :
    HResult (CapabilityDescriptor * list Obligation * CapabilityObligationOutcome) :=
  let c := iq_context req in
  let scope := ctx_resource_scope c in
  let id := ctx_invocation_id c in
  let capability := iq_capability_id req in
  let run_state := h_run_state host in
  match context_validate c with
  | Err _ => refuse (CiAuthorizationDenied capability InternalInvariantViolation)
  | Ok _ =>
  match invocation_fingerprint_for_kind kind scope capability (iq_estimate req) (iq_input req) with
  | Err source => refuse (CiInvocationFingerprint capability source)
  | Ok fp =>
      let* started := start_run req in
      match started with
      | Err e => refuse e
      | Ok _ =>
      match get_capability host capability with
      | None => fail_with run_state scope id "UnknownCapability" (CiUnknownCapability capability)
      | Some descriptor =>
          let* decision := authorize kind c descriptor (iq_estimate req) (iq_trust_decision req) in
          match decision with
          | Allow obligations =>
              let* prepared := prepare_obligations (phase_of kind) c capability (iq_estimate req)
                                 obligations in
              match prepared with
              | Ok outcome => Ret (Ok (descriptor, obligations, outcome))
              | Err e =>
                  let* _ := apply_run_state_transition_if_configured run_state scope id e in
                  refuse e
              end
          | Deny reason =>
              fail_with run_state scope id "AuthorizationDenied" (CiAuthorizationDenied capability reason)
          | RequireApproval approval =>
              let* e := block_for_approval kind req fp approval in refuse e
          end
      end
      end
  end
  end.

Definition dispatch_request (capability : CapabilityId) (c : ExecutionContext)
    (estimate : ResourceEstimate) (input : Value) (outcome : CapabilityObligationOutcome) :
    CapabilityDispatchRequest := {|
  dr_capability_id := capability; dr_scope := ctx_resource_scope c;
  dr_authenticated_actor_user_id := ctx_authenticated_actor_user_id c;
  dr_estimate := estimate; dr_mounts := oo_mounts outcome;
  dr_resource_reservation := oo_resource_reservation outcome; dr_input := input |}.

Definition invoke_json (req : CapabilityInvocationRequest) : HResult CapabilityDispatchResult :=
  let c := iq_context req in
  let scope := ctx_resource_scope c in
  let id := ctx_invocation_id c in
  let capability := iq_capability_id req in
  let estimate := iq_estimate req in
  let run_state := h_run_state host in
  let* ready := authorized_invocation KindDispatch req in
  match ready with
  | Err e => refuse e
  | Ok (_, obligations, outcome) =>
      let* dispatched := ask (DispatchJson (dispatch_request capability c estimate (iq_input req) outcome)) in
      match dispatched with
      | Err error =>
          let* _ := abort_obligations PhaseInvoke c capability estimate obligations outcome in
          let e := from_dispatch_error (enrich_dispatch_error_credential_requirements error obligations) in
          let* _ := apply_run_state_transition_if_configured run_state scope id e in
          refuse e
      | Ok dispatch =>
          let* completed := complete_dispatch_obligations PhaseInvoke c capability estimate
                              obligations dispatch in
          match completed with
          | Err e =>
              let* _ := abort_obligations PhaseInvoke c capability estimate obligations outcome_default in
              fail_with run_state scope id (obligation_invocation_error_kind e) e
          | Ok result =>
              let* _ := (if run_state then complete_run_after_side_effect scope id else Ret tt) in
              Ret (Ok result)
          end
      end
  end.

Definition process_start_for (id : ProcessId) (d : CapabilityDescriptor) (c : ExecutionContext)
    (capability : CapabilityId) (estimate : ResourceEstimate) (input : Value)
    (outcome : CapabilityObligationOutcome) : ProcessStart := {|
  ps_process_id := id; ps_parent_process_id := ctx_process_id c;
  ps_invocation_id := ctx_invocation_id c; ps_scope := ctx_resource_scope c;
  ps_authenticated_actor_user_id := ctx_authenticated_actor_user_id c;
  ps_extension_id := desc_provider d; ps_capability_id := capability; ps_runtime := desc_runtime d;
  ps_grants := ctx_grants c; ps_mounts := default (ctx_mounts c) (oo_mounts outcome);
  ps_estimated_resources := estimate;
  ps_resource_reservation_id := rsv_id <$> oo_resource_reservation outcome; ps_input := input |}.

Definition spawn_json (req : CapabilityInvocationRequest) : HResult ProcessRecord :=
  let c := iq_context req in
  let scope := ctx_resource_scope c in
  let id := ctx_invocation_id c in
  let capability := iq_capability_id req in
  let estimate := iq_estimate req in
  let run_state := h_run_state host in
  if negb (h_process_manager host) then refuse (CiProcessManagerMissing capability)
  else
    let* ready := authorized_invocation KindSpawn req in
    match ready with
    | Err e => refuse e
    | Ok (d, obligations, outcome) =>
        let* process_id := ask NewProcessId in
        let* spawned := ask (SpawnProcess
          (process_start_for process_id d c capability estimate (iq_input req) outcome)) in
        match spawned with
        | Err error =>
            let* _ := abort_obligations PhaseSpawn c capability estimate obligations outcome in
            fail_with run_state scope id "ProcessSpawn" (CiProcess error)
        | Ok process =>
            let* _ := (if run_state then complete_run_after_side_effect scope id else Ret tt) in
            Ret (Ok process)
        end
    end.

(** ** What the resuming methods check *)

(** The approval is approved and was asked for this very invocation. *)
Definition approved_request (kind : CapabilityActionKind) (c : ExecutionContext)
    (capability : CapabilityId) (estimate : ResourceEstimate) (fp : InvocationFingerprint)
    (approval_id : ApprovalRequestId) : HResult unit :=
  let scope := ctx_resource_scope c in
  let id := ctx_invocation_id c in
  let* found := ask (ApprovalGet scope approval_id) in
  match found with
  | Err e => refuse (CiRunState e)
  | Ok None => refuse (CiRunState (UnknownApprovalRequest approval_id))
  | Ok (Some approval) =>
      let status := approval_status approval in
      if bool_decide (status <> Approved) then
        let* _ := (if bool_decide (status <> Pending)
                   then fail_run_if_configured true scope id (approval_not_approved_error_kind status)
                   else Ret tt) in
        refuse (CiApprovalNotApproved capability status)
      else
        let body := request_payload (approval_request approval) in
        match validate_approval_request_matches_invocation body c capability estimate kind with
        | Err e => fail_with true scope id "ApprovalRequestMismatch" e
        | Ok _ =>
            if bool_decide (body_fingerprint body <> Some fp)
            then fail_with true scope id "InvocationFingerprintMismatch"
                   (CiApprovalFingerprintMismatch capability)
            else Ret (Ok tt)
        end
  end.

(** [run_state.get(..)] and the checks on its actor and status. *)
Definition blocked_run (c : ExecutionContext) (capability : CapabilityId) (blocked : RunStatus) :
    HResult RunRecord :=
  let* found := ask (RunGet (ctx_resource_scope c) (ctx_invocation_id c)) in
  match found with
  | Err e => refuse (CiRunState e)
  | Ok None => refuse (CiRunState (UnknownInvocation (ctx_invocation_id c)))
  | Ok (Some record) =>
      if bool_decide (run_actor record <> ctx_authenticated_actor_user_id c)
      then refuse (CiAuthorizationDenied capability PolicyDenied)
      else if bool_decide (run_status record <> blocked)
      then refuse (CiResumeNotBlocked capability (run_status record))
      else Ret (Ok record)
  end.

Definition stores_for_resume (capability : CapabilityId) : Result unit CiError :=
  if negb (h_run_state host) then Err (CiResumeStoreMissing capability "run_state")
  else if negb (h_approval_requests host)
  then Err (CiResumeStoreMissing capability "approval_requests")
  else if negb (h_capability_leases host)
  then Err (CiResumeStoreMissing capability "capability_leases")
  else Ok tt.

(** The preamble of [resume_json] and [resume_spawn_json]. *)
Definition approved_lease (kind : CapabilityActionKind) (req : CapabilityResumeRequest) :
    HResult (InvocationFingerprint * CapabilityDescriptor * CapabilityLease) :=
  let c := rq_context req in
  let scope := ctx_resource_scope c in
  let id := ctx_invocation_id c in
  let capability := rq_capability_id req in
  match stores_for_resume capability with
  | Err e => refuse e
  | Ok _ =>
  match context_validate c with
  | Err _ => refuse (CiAuthorizationDenied capability InternalInvariantViolation)
  | Ok _ =>
  match invocation_fingerprint_for_kind kind scope capability (rq_estimate req) (rq_input req) with
  | Err source => refuse (CiInvocationFingerprint capability source)
  | Ok fp =>
      let* run := blocked_run c capability BlockedApproval in
      match run with
      | Err e => refuse e
      | Ok record =>
          let capability_mismatch := bool_decide (run_capability_id record <> capability) in
          let approval_request_mismatch :=
            bool_decide (run_approval_request_id record <> Some (rq_approval_request_id req)) in
          if capability_mismatch || approval_request_mismatch then
            fail_with true scope id "ResumeContextMismatch"
              (CiResumeContextMismatch capability
                 (resume_context_mismatch_kind capability_mismatch approval_request_mismatch))
          else
            let* approved := approved_request kind c capability (rq_estimate req) fp
                               (rq_approval_request_id req) in
            match approved with
            | Err e => refuse e
            | Ok _ =>
            match get_capability host capability with
            | None => fail_with true scope id "UnknownCapability" (CiUnknownCapability capability)
            | Some descriptor =>
                let* lease := matching_approval_lease c capability fp in
                match lease with
                | None =>
                    fail_with true scope id "ApprovalLeaseMissing" (CiApprovalLeaseMissing capability)
                | Some lease => Ret (Ok (fp, descriptor, lease))
                end
            end
            end
      end
  end
  end
  end.

(** [context.grants.grants.push(lease.grant)] *)
Definition with_lease_grant (l : CapabilityLease) (c : ExecutionContext) : ExecutionContext := {|
  ctx_invocation_id := ctx_invocation_id c; ctx_correlation_id := ctx_correlation_id c;
  ctx_process_id := ctx_process_id c; ctx_parent_process_id := ctx_parent_process_id c;
  ctx_tenant_id := ctx_tenant_id c; ctx_user_id := ctx_user_id c;
  ctx_authenticated_actor_user_id := ctx_authenticated_actor_user_id c;
  ctx_agent_id := ctx_agent_id c; ctx_project_id := ctx_project_id c;
  ctx_mission_id := ctx_mission_id c; ctx_thread_id := ctx_thread_id c;
  ctx_extension_id := ctx_extension_id c; ctx_runtime := ctx_runtime c; ctx_trust := ctx_trust c;
  ctx_grants := ctx_grants c ++ [lease_grant l]; ctx_mounts := ctx_mounts c;
  ctx_resource_scope := ctx_resource_scope c |}.

(** A lease transition the method cannot go on without. *)
Definition lease_step (scope : ResourceScope) (id : InvocationId) (call : LeaseCall) :
    HResult CapabilityLease :=
  let* r := ask (OnLease call) in
  match r with
  | Ok l => Ret (Ok l)
  | Err e =>
      let* _ := (if claim_error_may_be_concurrent_resume e then Ret tt
                 else fail_run_if_configured true scope id "ApprovalLeaseClaim") in
      refuse (CiLease e)
  end.

(** ** [dispatch_resumed_capability] *)

Inductive ResumedLeaseState :=
  | PendingClaim (grant : CapabilityGrantId) (fp : InvocationFingerprint)
  | AlreadyClaimed (lease : CapabilityLease)
  | NoPriorLease.

Record ResumedDispatchParams := {
  rd_capability_id : CapabilityId;
  rd_estimate : ResourceEstimate;
  rd_input : Value;
  rd_trust_decision : TrustDecision;
  rd_authorized_context : ExecutionContext;
  rd_descriptor : CapabilityDescriptor;
  rd_lease_state : ResumedLeaseState;
}.

Definition revoke_reused (scope : ResourceScope) (state : ResumedLeaseState) : HProg unit :=
  match state with
  | AlreadyClaimed lease => let* _ := ask (OnLease (Revoke scope (lease_id lease))) in Ret tt
  | PendingClaim _ _ | NoPriorLease => Ret tt
  end.

Definition claimed_lease (scope : ResourceScope) (id : InvocationId) (state : ResumedLeaseState) :
    HResult (option CapabilityLease) :=
  match state with
  | PendingClaim grant fp =>
      let* r := lease_step scope id (Claim scope grant fp) in
      Ret (result_map Some r)
  | AlreadyClaimed lease => Ret (Ok (Some lease))
  | NoPriorLease => Ret (Ok None)
  end.

Definition on_claimed (f : CapabilityLease -> HProg unit) (claimed : option CapabilityLease) :
    HProg unit :=
  match claimed with Some l => f l | None => Ret tt end.

(** After the claim: prepare, dispatch, complete, consume. *)
Definition dispatch_claimed (p : ResumedDispatchParams) (obligations : list Obligation)
    (claimed : option CapabilityLease) : HResult CapabilityDispatchResult :=
  let c := rd_authorized_context p in
  let scope := ctx_resource_scope c in
  let id := ctx_invocation_id c in
  let capability := rd_capability_id p in
  let estimate := rd_estimate p in
  let* prepared := prepare_obligations PhaseResume c capability estimate obligations in
  match prepared with
  | Err e =>
      let* _ := apply_run_state_transition_if_configured true scope id e in
      let* _ := on_claimed (fun l => cleanup_claimed_lease_after_resume_error scope (lease_id l) e)
                  claimed in
      refuse e
  | Ok outcome =>
      let* dispatched := ask (DispatchJson (dispatch_request capability c estimate (rd_input p) outcome)) in
      match dispatched with
      | Err error =>
          let* _ := abort_obligations PhaseResume c capability estimate obligations outcome in
          let e := from_dispatch_error (enrich_dispatch_error_credential_requirements error obligations) in
          let* _ := apply_run_state_transition_if_configured true scope id e in
          let* _ := on_claimed (fun l => cleanup_claimed_lease_after_resume_error scope (lease_id l) e)
                      claimed in
          refuse e
      | Ok dispatch =>
          let* completed := complete_dispatch_obligations PhaseResume c capability estimate
                              obligations dispatch in
          match completed with
          | Err e =>
              let* _ := abort_obligations PhaseResume c capability estimate obligations outcome_default in
              let* _ := fail_run_if_configured true scope id (obligation_invocation_error_kind e) in
              let* _ := on_claimed (fun l => let* _ := ask (OnLease (Revoke scope (lease_id l))) in Ret tt)
                          claimed in
              refuse e
          | Ok result =>
              let* _ := on_claimed (fun l => let* _ := ask (OnLease (Consume scope (lease_id l))) in Ret tt)
                          claimed in
              let* _ := complete_run_after_side_effect scope id in
              Ret (Ok result)
          end
      end
  end.

Definition dispatch_resumed_capability (p : ResumedDispatchParams) :
    HResult CapabilityDispatchResult :=
  let c := rd_authorized_context p in
  let scope := ctx_resource_scope c in
  let id := ctx_invocation_id c in
  let capability := rd_capability_id p in
  let* decision := authorize KindDispatch c (rd_descriptor p) (rd_estimate p) (rd_trust_decision p) in
  match decision with
  | Deny reason =>
      let* _ := fail_run_if_configured true scope id "AuthorizationDenied" in
      let* _ := revoke_reused scope (rd_lease_state p) in
      refuse (CiAuthorizationDenied capability reason)
  | RequireApproval _ =>
      let* _ := fail_run_if_configured true scope id "AuthorizationRequiresApproval" in
      let* _ := revoke_reused scope (rd_lease_state p) in
      refuse (CiAuthorizationRequiresApproval capability)
  | Allow obligations =>
      let* claimed := claimed_lease scope id (rd_lease_state p) in
      match claimed with
      | Err e => refuse e
      | Ok claimed => dispatch_claimed p obligations claimed
      end
  end.

(** ** The resuming methods *)

Definition resume_json (req : CapabilityResumeRequest) : HResult CapabilityDispatchResult :=
  let* ready := approved_lease KindDispatch req in
  match ready with
  | Err e => refuse e
  | Ok (fp, descriptor, lease) =>
      dispatch_resumed_capability {|
        rd_capability_id := rq_capability_id req; rd_estimate := rq_estimate req;
        rd_input := rq_input req; rd_trust_decision := rq_trust_decision req;
        rd_authorized_context := with_lease_grant lease (rq_context req);
        rd_descriptor := descriptor; rd_lease_state := PendingClaim (lease_id lease) fp |}
  end.

(** The lease of a prior approval, advanced to [Dispatching]. *)
Definition dispatching_lease (c : ExecutionContext) (capability : CapabilityId)
    (fp : InvocationFingerprint) : HResult CapabilityLease :=
  let scope := ctx_resource_scope c in
  let id := ctx_invocation_id c in
  let* active := matching_approval_lease c capability fp in
  match active with
  | Some lease =>
      let* claimed := lease_step scope id (Claim scope (lease_id lease) fp) in
      match claimed with
      | Err e => refuse e
      | Ok claimed => lease_step scope id (BeginDispatch scope (lease_id claimed) fp)
      end
  | None =>
      let* reused := matching_claimed_approval_lease_for_auth_resume scope capability fp in
      match reused with
      | Some lease => lease_step scope id (BeginDispatch scope (lease_id lease) fp)
      | None => fail_with true scope id "ApprovalLeaseMissing" (CiApprovalLeaseMissing capability)
      end
  end.

Definition prior_approval (req : CapabilityAuthResumeRequest) (approval_id : ApprovalRequestId) :
    HResult CapabilityLease :=
  let c := aq_context req in
  let scope := ctx_resource_scope c in
  let id := ctx_invocation_id c in
  let capability := aq_capability_id req in
  if negb (h_approval_requests host)
  then refuse (CiResumeStoreMissing capability "approval_requests")
  else if negb (h_capability_leases host)
  then refuse (CiResumeStoreMissing capability "capability_leases")
  else
    match invocation_fingerprint_for_kind KindDispatch scope capability (aq_estimate req)
            (aq_input req) with
    | Err source => refuse (CiInvocationFingerprint capability source)
    | Ok fp =>
        let* approved := approved_request KindDispatch c capability (aq_estimate req) fp approval_id in
        match approved with
        | Err e => refuse e
        | Ok _ => dispatching_lease c capability fp
        end
    end.

Definition auth_resume_json (req : CapabilityAuthResumeRequest) : HResult CapabilityDispatchResult :=
  let c := aq_context req in
  let scope := ctx_resource_scope c in
  let id := ctx_invocation_id c in
  let capability := aq_capability_id req in
  if negb (h_run_state host) then refuse (CiResumeStoreMissing capability "run_state")
  else
  match context_validate c with
  | Err _ => refuse (CiAuthorizationDenied capability InternalInvariantViolation)
  | Ok _ =>
      let* run := blocked_run c capability BlockedAuth in
      match run with
      | Err e => refuse e
      | Ok record =>
          if bool_decide (run_capability_id record <> capability) then
            fail_with true scope id "ResumeContextMismatch"
              (CiResumeContextMismatch capability (resume_context_mismatch_kind true false))
          else
          match get_capability host capability with
          | None => fail_with true scope id "UnknownCapability" (CiUnknownCapability capability)
          | Some descriptor =>
              let params authorized state := {|
                rd_capability_id := capability; rd_estimate := aq_estimate req;
                rd_input := aq_input req; rd_trust_decision := aq_trust_decision req;
                rd_authorized_context := authorized; rd_descriptor := descriptor;
                rd_lease_state := state |} in
              match aq_approval_request_id req with
              | None => dispatch_resumed_capability (params c NoPriorLease)
              | Some approval_id =>
                  let* lease := prior_approval req approval_id in
                  match lease with
                  | Err e => refuse e
                  | Ok lease =>
                      dispatch_resumed_capability (params (with_lease_grant lease c) (AlreadyClaimed lease))
                  end
              end
          end
      end
  end.

(** After the claim: prepare, spawn, consume. *)
Definition spawn_claimed (req : CapabilityResumeRequest) (c : ExecutionContext)
    (d : CapabilityDescriptor) (obligations : list Obligation) (claimed : CapabilityLease) :
    HResult ProcessRecord :=
  let scope := ctx_resource_scope c in
  let id := ctx_invocation_id c in
  let capability := rq_capability_id req in
  let estimate := rq_estimate req in
  let* prepared := prepare_obligations PhaseSpawn c capability estimate obligations in
  match prepared with
  | Err e =>
      let* _ := apply_run_state_transition_if_configured true scope id e in
      let* _ := ask (OnLease (Revoke scope (lease_id claimed))) in
      refuse e
  | Ok outcome =>
      let* process_id := ask NewProcessId in
      let* spawned := ask (SpawnProcess
        (process_start_for process_id d c capability estimate (rq_input req) outcome)) in
      match spawned with
      | Err error =>
          let* _ := abort_obligations PhaseSpawn c capability estimate obligations outcome in
          let* _ := fail_run_if_configured true scope id "ProcessSpawn" in
          let* _ := ask (OnLease (Revoke scope (lease_id claimed))) in
          refuse (CiProcess error)
      | Ok process =>
          let* _ := ask (OnLease (Consume scope (lease_id claimed))) in
          let* _ := complete_run_after_side_effect scope id in
          Ret (Ok process)
      end
  end.

Definition resume_spawn_json (req : CapabilityResumeRequest) : HResult ProcessRecord :=
  let scope := ctx_resource_scope (rq_context req) in
  let id := ctx_invocation_id (rq_context req) in
  let capability := rq_capability_id req in
  if negb (h_process_manager host) then refuse (CiProcessManagerMissing capability)
  else
    let* ready := approved_lease KindSpawn req in
    match ready with
    | Err e => refuse e
    | Ok (fp, d, lease) =>
        let c := with_lease_grant lease (rq_context req) in
        let* decision := authorize KindSpawn c d (rq_estimate req) (rq_trust_decision req) in
        match decision with
        | Deny reason =>
            fail_with true scope id "AuthorizationDenied" (CiAuthorizationDenied capability reason)
        | RequireApproval _ =>
            fail_with true scope id "AuthorizationRequiresApproval"
              (CiAuthorizationRequiresApproval capability)
        | Allow obligations =>
            let* claimed := lease_step scope id (Claim scope (lease_id lease) fp) in
            match claimed with
            | Err e => refuse e
            | Ok claimed => spawn_claimed req c d obligations claimed
            end
        end
    end.
End flows.
