(* ===== verification/HostFacts.v ===== *)
(** * The capability host: what its methods guarantee

    Whatever the stores, the authorizer, the obligation handler and the runtimes answer,
    and whatever other tasks do between two calls. *)

From S2P Require Import Prelude Strings Ids Mounts Platform HostApi RunState Capability Obligations Trust Leases Actions Dispatch Programs Processes CapabilityHost HostFlows.
From Stdlib Require Import Lia.
Import HostApi.Resource.

(** Runs a method on every answer: one goal per call and per way through it. *)
Ltac method :=
  lazy beta iota zeta delta [
    invoke_json spawn_json resume_json auth_resume_json resume_spawn_json
    authorized_invocation start_run block_for_approval store_approval
    approved_lease stores_for_resume blocked_run approved_request dispatching_lease prior_approval
    lease_step claimed_lease dispatch_resumed_capability dispatch_claimed spawn_claimed on_claimed
    revoke_reused matching_approval_lease matching_claimed_approval_lease_for_auth_resume
    cleanup_claimed_lease_after_resume_error complete_run_after_side_effect
    prepare_obligations complete_dispatch_obligations abort_obligations
    apply_run_state_transition_if_configured fail_with fail_run_if_configured refuse
    authorize phase_of result_map
    rd_capability_id rd_estimate rd_input rd_trust_decision rd_authorized_context rd_descriptor
    rd_lease_state].
Ltac wp_case :=
  match goal with
  | |- ?g =>
      match g with
      | context [match ?x with _ => _ end] =>
          lazymatch x with
          | context [match _ with _ => _ end] => fail
          | _ => destruct x eqn:?
          end
      end
  end.
Ltac wp_go :=
  cbn [wp within prog_bind ask ctx_resource_scope ctx_invocation_id with_lease_grant];
  lazymatch goal with
  | |- _ /\ (forall _, _) => split; [| intros ?; wp_go]
  | |- wp _ _ _ _ => tryif wp_case then wp_go else idtac
  | |- _ => idtac
  end.
(** A call among those made. *)
Ltac called := eauto 20 using list_elem_of_here, list_elem_of_further.

Section facts.
Context `{Platform} `{SerdeJson} `{!InvocationCode}.
Variable host : CapabilityHost.

Abbreviation History := (list (Event HostAnswer)).
Abbreviation CiError := CapabilityInvocationError.

(** The calls with which a capability acts. *)
Definition is_effect (c : HostCall) : bool :=
  match c with DispatchJson _ | SpawnProcess _ => true | _ => false end.

Definition no_effect (h : History) : Prop := Forall (fun e => is_effect (asked e) = false) h.

(** The outcome of the obligations is the handler's, for exactly these obligations. *)
Definition prepared (phase : CapabilityObligationPhase) (c : ExecutionContext)
    (capability : CapabilityId) (estimate : ResourceEstimate) (obligations : list Obligation)
    (outcome : CapabilityObligationOutcome) (h : History) : Prop :=
  match obligations with
  | [] => outcome = outcome_default
  | _ => event (PrepareObligations phase c capability estimate obligations) (Ok outcome) ∈ h
  end.

(** The authorizer allowed it, under obligations that were prepared. *)
Definition cleared (kind : CapabilityActionKind) (phase : CapabilityObligationPhase)
    (c : ExecutionContext) (d : CapabilityDescriptor) (capability : CapabilityId)
    (estimate : ResourceEstimate) (trust : TrustDecision) (obligations : list Obligation)
    (outcome : CapabilityObligationOutcome) (h : History) : Prop :=
  get_capability host capability = Some d
  /\ match kind with
     | KindDispatch => event (AuthorizeDispatch c d estimate trust) (Allow obligations) ∈ h
     | KindSpawn => event (AuthorizeSpawn c d estimate trust) (Allow obligations) ∈ h
     end
  /\ prepared phase c capability estimate obligations outcome h.

(** The effect acts for this context, with this input, under that outcome. *)
Definition carries (kind : CapabilityActionKind) (d : CapabilityDescriptor) (c : ExecutionContext)
    (capability : CapabilityId) (estimate : ResourceEstimate) (input : Value)
    (outcome : CapabilityObligationOutcome) (call : HostCall) : Prop :=
  match kind, call with
  | KindDispatch, DispatchJson r => r = dispatch_request capability c estimate input outcome
  | KindSpawn, SpawnProcess s =>
      exists id, s = process_start_for id d c capability estimate input outcome
  | _, _ => False
  end.

Definition authorized_effect (kind : CapabilityActionKind) (phase : CapabilityObligationPhase)
    (c : ExecutionContext) (capability : CapabilityId) (estimate : ResourceEstimate)
    (input : Value) (trust : TrustDecision) (h : History) (call : HostCall) : Prop :=
  exists d obligations outcome,
    cleared kind phase c d capability estimate trust obligations outcome h
    /\ carries kind d c capability estimate input outcome call
    /\ no_effect h.

(** ** Effects *)

(** [invoke_json] and [spawn_json] *)
Definition invocation_guarantee (kind : CapabilityActionKind) (req : CapabilityInvocationRequest)
    (h : History) (call : HostCall) : Prop :=
  is_effect call = true ->
  context_validate (iq_context req) = Ok tt
  /\ authorized_effect kind (phase_of kind) (iq_context req) (iq_capability_id req)
       (iq_estimate req) (iq_input req) (iq_trust_decision req) h call.

(** A human approved this very invocation. *)
Definition approved_for (kind : CapabilityActionKind) (c : ExecutionContext)
    (capability : CapabilityId) (estimate : ResourceEstimate) (input : Value)
    (id : ApprovalRequestId) (fp : InvocationFingerprint) (h : History) : Prop :=
  invocation_fingerprint_for_kind kind (ctx_resource_scope c) capability estimate input = Ok fp
  /\ exists approval,
      event (ApprovalGet (ctx_resource_scope c) id) (Ok (Some approval)) ∈ h
      /\ approval_status approval = Approved
      /\ body_fingerprint (request_payload (approval_request approval)) = Some fp
      /\ validate_approval_request_matches_invocation
           (request_payload (approval_request approval)) c capability estimate kind = Ok tt.

(** The run waited for it, for the same actor. *)
Definition waiting_run (c : ExecutionContext) (capability : CapabilityId) (status : RunStatus)
    (id : option ApprovalRequestId) (h : History) : Prop :=
  exists record,
    event (RunGet (ctx_resource_scope c) (ctx_invocation_id c)) (Ok (Some record)) ∈ h
    /\ run_status record = status /\ run_capability_id record = capability
    /\ run_actor record = ctx_authenticated_actor_user_id c
    /\ (is_Some id -> run_approval_request_id record = id).

(** [resume_json] and [resume_spawn_json] *)
Definition resumption_guarantee (kind : CapabilityActionKind)
    (phase : CapabilityObligationPhase) (req : CapabilityResumeRequest)
    (h : History) (call : HostCall) : Prop :=
  is_effect call = true ->
  let c := rq_context req in
  context_validate c = Ok tt
  /\ waiting_run c (rq_capability_id req) BlockedApproval (Some (rq_approval_request_id req)) h
  /\ exists fp l claimed,
      approved_for kind c (rq_capability_id req) (rq_estimate req) (rq_input req)
        (rq_approval_request_id req) fp h
      /\ lease_matches (ctx_resource_scope c) (rq_capability_id req) fp l = true
      /\ event (OnLease (Claim (ctx_resource_scope c) (lease_id l) fp)) (Ok claimed) ∈ h
      /\ authorized_effect kind phase (with_lease_grant l c) (rq_capability_id req)
           (rq_estimate req) (rq_input req) (rq_trust_decision req) h call.

(** [auth_resume_json], after an approval *)
Definition auth_resumption_guarantee (req : CapabilityAuthResumeRequest)
    (h : History) (call : HostCall) : Prop :=
  is_effect call = true ->
  let c := aq_context req in
  let effect c' := authorized_effect KindDispatch PhaseResume c' (aq_capability_id req)
                     (aq_estimate req) (aq_input req) (aq_trust_decision req) h call in
  context_validate c = Ok tt
  /\ waiting_run c (aq_capability_id req) BlockedAuth None h
  /\ match aq_approval_request_id req with
     | None => effect c
     | Some id =>
         exists fp grant dispatching,
           approved_for KindDispatch c (aq_capability_id req) (aq_estimate req) (aq_input req) id fp h
           /\ event (OnLease (BeginDispatch (ctx_resource_scope c) grant fp)) (Ok dispatching) ∈ h
           /\ effect (with_lease_grant dispatching c)
     end.

Ltac effect := match goal with
  | |- ?g _ _ => intros He; try discriminate He; clear He
  | |- ?g _ _ _ => intros He; try discriminate He; clear He
  end.
(** What the passed tests say. *)
Ltac passed :=
  repeat match goal with
  | x : unit |- _ => destruct x
  | E : (_ || _)%bool = false |- _ => apply orb_false_iff in E as [? ?]
  | E : bool_decide (?x <> ?y) = false |- _ => apply bool_decide_eq_false, dec_stable in E
  | E : List.find _ _ = Some _ |- _ => apply find_some in E as [_ ?]
  end.
Ltac guaranteed :=
  try exact I; effect; passed; cbn zeta;
  repeat match goal with
  | |- _ /\ _ => split
  | |- waiting_run _ _ _ _ _ => eexists; split; [called | repeat split; try done]
  | |- approved_for _ _ _ _ _ _ _ _ => split; [eassumption | eexists; repeat split; [called | try done ..]]
  | |- authorized_effect _ _ _ _ _ _ _ _ _ => do 3 eexists
  | |- cleared _ _ _ _ _ _ _ _ _ _ => repeat split
  | |- prepared _ _ _ _ _ _ _ => cbn
  | |- no_effect _ => by repeat constructor
  | |- carries _ _ _ _ _ _ _ _ => cbn; eauto
  | |- _ ∈ _ => called
  | |- exists _, _ => eexists
  | |- _ = _ => eassumption || reflexivity
  | E : ?x = _ |- match ?x with _ => _ end => rewrite E
  | |- is_Some None -> _ => intros [? ?]; discriminate
  end.


Lemma invoke_guarantee req :
  wp (invocation_guarantee KindDispatch req) (invoke_json host req) [] (fun _ _ => True).
Proof. method. wp_go; by guaranteed. Qed.

Lemma spawn_guarantee req :
  wp (invocation_guarantee KindSpawn req) (spawn_json host req) [] (fun _ _ => True).
Proof. method. wp_go; by guaranteed. Qed.

Lemma resume_guarantee req :
  wp (resumption_guarantee KindDispatch PhaseResume req) (resume_json host req) [] (fun _ _ => True).
Proof. method. wp_go; by guaranteed. Qed.

Lemma resume_spawn_guarantee req :
  wp (resumption_guarantee KindSpawn PhaseSpawn req) (resume_spawn_json host req) [] (fun _ _ => True).
Proof. method. wp_go; by guaranteed. Qed.

Lemma auth_resume_guarantee req :
  wp (auth_resumption_guarantee req) (auth_resume_json host req) [] (fun _ _ => True).
Proof. method. wp_go; by guaranteed. Qed.

(** *** The claims *)

(** [C3] Nothing acts unauthorized: [invoke_json] dispatches, and [spawn_json] spawns, only
    for a valid context, after the authorizer allowed this very context, estimate and trust
    decision for the registered capability, under obligations that the handler prepared;
    the request carries exactly that context, input, mounts and reservation, and it is the
    only effect of the invocation. *)
Theorem effect_authorized req call h :
  (forall k, runs (invoke_json host req) (Ask call k) h ->
     invocation_guarantee KindDispatch req h call)
  /\ (forall k, runs (spawn_json host req) (Ask call k) h ->
     invocation_guarantee KindSpawn req h call).
Proof.
  split; intros k Hrun.
  - by apply (wp_asks _ _ _ _ _ _ (invoke_guarantee req) Hrun).
  - by apply (wp_asks _ _ _ _ _ _ (spawn_guarantee req) Hrun).
Qed.

(** [C4] A resumed capability was approved: [resume_json] dispatches, and
    [resume_spawn_json] spawns, only for a run that is blocked on this approval request, for
    the same actor and capability; after the request was found approved, with the
    fingerprint of this very input and estimate; after the lease with that fingerprint was
    claimed; and authorized as an invocation whose context holds the lease's grant.
    [auth_resume_json] dispatches only for a run blocked on authentication; when it names
    an approval, under the same conditions, its lease advanced to [Dispatching]; when it
    names none, its context is authorized without any lease's grant. *)
Theorem resumed_effect_approved req auth_req call h :
  (forall k, runs (resume_json host req) (Ask call k) h ->
     resumption_guarantee KindDispatch PhaseResume req h call)
  /\ (forall k, runs (resume_spawn_json host req) (Ask call k) h ->
     resumption_guarantee KindSpawn PhaseSpawn req h call)
  /\ (forall k, runs (auth_resume_json host auth_req) (Ask call k) h ->
     auth_resumption_guarantee auth_req h call).
Proof.
  repeat apply conj; intros k Hrun.
  - by apply (wp_asks _ _ _ _ _ _ (resume_guarantee req) Hrun).
  - by apply (wp_asks _ _ _ _ _ _ (resume_spawn_guarantee req) Hrun).
  - by apply (wp_asks _ _ _ _ _ _ (auth_resume_guarantee auth_req) Hrun).
Qed.
End facts.
