(* ===== verification/HostOutcomes.v ===== *)
(** * The capability host: how its methods end

    What is left of leases, obligations and runs when a method returns, and how many calls
    a method makes at most. *)

From S2P Require Import Prelude Strings Ids Mounts Platform HostApi RunState Capability Obligations Trust Leases Actions Dispatch Programs Processes CapabilityHost HostFlows HostFacts.
From Stdlib Require Import Lia.
Import HostApi.Resource.

Section outcomes.
Context `{Platform} `{SerdeJson} `{!InvocationCode}.
Variable host : CapabilityHost.

Abbreviation History := (list (Event HostAnswer)).
Abbreviation CiError := CapabilityInvocationError.

(** ** Leases *)

Definition claimed_by (e : Event HostAnswer) : option CapabilityLease :=
  let '(event call a) := e in
  match call return HostAnswer call -> option CapabilityLease with
  | OnLease (Claim _ _ _) => fun r => match r with Ok l => Some l | Err _ => None end
  | _ => fun _ => None
  end a.

Definition begun_by (e : Event HostAnswer) : option CapabilityLease :=
  let '(event call a) := e in
  match call return HostAnswer call -> option CapabilityLease with
  | OnLease (BeginDispatch _ _ _) => fun r => match r with Ok l => Some l | Err _ => None end
  | _ => fun _ => None
  end a.

(** The last call on a lease: consumed on success, kept for an auth resume when the run is
    to be blocked on authentication, revoked otherwise. *)
Definition settling_call {T} (scope : ResourceScope) (l : CapabilityLease) (r : Result T CiError) :
    LeaseCall :=
  match r with
  | Ok _ => Consume scope (lease_id l)
  | Err e => if is_block_auth_transition e then AbortDispatch scope (lease_id l)
             else Revoke scope (lease_id l)
  end.

Definition spawn_settling_call {T} (scope : ResourceScope) (l : CapabilityLease)
    (r : Result T CiError) : LeaseCall :=
  match r with
  | Ok _ => Consume scope (lease_id l)
  | Err e => Revoke scope (lease_id l)
  end.

(** The lease calls, the latest first. *)
Definition lease_call_of (e : Event HostAnswer) : option LeaseCall :=
  match asked e with OnLease call => Some call | _ => None end.

Definition settled_as {T} (won : Event HostAnswer -> option CapabilityLease)
    (settling : CapabilityLease -> Result T CiError -> LeaseCall) (h : History)
    (r : Result T CiError) : Prop :=
  forall l, l ∈ omap won h -> head (omap lease_call_of h) = Some (settling l r).

(** Beginning a dispatch that the lease store refused. *)
Definition begin_refused_by (e : Event HostAnswer) : option (LeaseCall * CapabilityLeaseError) :=
  let '(event call a) := e in
  match call return HostAnswer call -> option (LeaseCall * CapabilityLeaseError) with
  | OnLease (BeginDispatch scope id fp) => fun r =>
      match r with Ok _ => None | Err e => Some (BeginDispatch scope id fp, e) end
  | _ => fun _ => None
  end a.

(** A lease that was claimed was then taken to [Dispatching], or doing so was the last
    lease call, was refused, and the method failed with that refusal. *)
Definition begun_or_refused {T} (scope : ResourceScope) (h : History) (r : Result T CiError) : Prop :=
  forall l, l ∈ omap claimed_by h ->
    (exists l', omap begun_by h = [l'])
    \/ exists fp error, head (omap lease_call_of h) = Some (BeginDispatch scope (lease_id l) fp)
         /\ omap begin_refused_by h = [(BeginDispatch scope (lease_id l) fp, error)]
         /\ r = Err (CiLease error).

Lemma completion_never_blocks capability e :
  is_block_auth_transition (completion_obligation_error_to_invocation capability e) = false.
Proof. by destruct e. Qed.

Ltac settled :=
  let Hl := fresh in
  intros ? Hl; cbn in Hl |- *;
  first [ solve [inversion Hl]
        | apply list_elem_of_singleton in Hl as ->;
          rewrite ?completion_never_blocks;
          repeat match goal with E : is_block_auth_transition _ = _ |- _ =>
            try discriminate E; rewrite E end;
          reflexivity ].

Lemma resume_settles req :
  wp (fun _ _ => True) (resume_json host req) []
    (settled_as claimed_by (settling_call (ctx_resource_scope (rq_context req)))).
Proof. method. wp_go; first [exact I | settled]. Qed.

Lemma auth_resume_settles req :
  wp (fun _ _ => True) (auth_resume_json host req) []
    (settled_as begun_by (settling_call (ctx_resource_scope (aq_context req)))).
Proof. method. wp_go; first [exact I | settled]. Qed.

Ltac begun :=
  let Hl := fresh in
  intros ? Hl; cbn in Hl |- *;
  first [ solve [inversion Hl]
        | apply list_elem_of_singleton in Hl as ->;
          first [by left; eexists | by right; do 2 eexists] ].

Lemma auth_resume_begins req :
  wp (fun _ _ => True) (auth_resume_json host req) []
    (begun_or_refused (ctx_resource_scope (aq_context req))).
Proof. method. wp_go; first [exact I | begun]. Qed.

Lemma resume_spawn_settles req :
  wp (fun _ _ => True) (resume_spawn_json host req) []
    (settled_as claimed_by (spawn_settling_call (ctx_resource_scope (rq_context req)))).
Proof. method. wp_go; first [exact I | settled]. Qed.

(** ** Obligations *)

Definition Prepared : Type :=
  CapabilityObligationPhase * ExecutionContext * CapabilityId * ResourceEstimate * list Obligation.

Definition prepared_by (e : Event HostAnswer) : option Prepared :=
  let '(event call a) := e in
  match call return HostAnswer call -> option Prepared with
  | PrepareObligations phase c capability estimate obligations =>
      fun r => match r with Ok _ => Some (phase, c, capability, estimate, obligations) | Err _ => None end
  | _ => fun _ => None
  end a.

Definition completed_by (e : Event HostAnswer) : option Prepared :=
  let '(event call a) := e in
  match call return HostAnswer call -> option Prepared with
  | CompleteObligations phase c capability estimate obligations _ =>
      fun r => match r with Ok _ => Some (phase, c, capability, estimate, obligations) | Err _ => None end
  | _ => fun _ => None
  end a.

Definition aborted_by (e : Event HostAnswer) : option Prepared :=
  match asked e with
  | AbortObligations phase c capability estimate obligations _ =>
      Some (phase, c, capability, estimate, obligations)
  | _ => None
  end.

(** What the runtime or, after it, the obligation handler gave back. *)
Definition returned_by (e : Event HostAnswer) : option CapabilityDispatchResult :=
  let '(event call a) := e in
  match call return HostAnswer call -> option CapabilityDispatchResult with
  | DispatchJson _ => fun r => match r with Ok d => Some d | Err _ => None end
  | CompleteObligations _ _ _ _ _ _ => fun r => match r with Ok d => Some d | Err _ => None end
  | _ => fun _ => None
  end a.

Definition process_by (e : Event HostAnswer) : option ProcessRecord :=
  let '(event call a) := e in
  match call return HostAnswer call -> option ProcessRecord with
  | SpawnProcess _ => fun r => match r with Ok p => Some p | Err _ => None end
  | _ => fun _ => None
  end a.

(** A dispatch that succeeds completed its obligations and returns what they let through;
    one that fails aborted them. *)
Definition dispatch_concluded (h : History) (r : Result CapabilityDispatchResult CiError) : Prop :=
  match r with
  | Ok d => head (omap returned_by h) = Some d /\ omap completed_by h = omap prepared_by h
            /\ omap aborted_by h = []
  | Err _ => omap aborted_by h = omap prepared_by h
  end.

(** The obligations of a spawned process are the process's. *)
Definition spawn_concluded (h : History) (r : Result ProcessRecord CiError) : Prop :=
  match r with
  | Ok p => head (omap process_by h) = Some p /\ omap aborted_by h = []
  | Err _ => omap aborted_by h = omap prepared_by h
  end.

Ltac concluded := first [exact I | by repeat split].

Lemma invoke_concludes req : wp (fun _ _ => True) (invoke_json host req) [] dispatch_concluded.
Proof. method. wp_go; concluded. Qed.

Lemma resume_concludes req : wp (fun _ _ => True) (resume_json host req) [] dispatch_concluded.
Proof. method. wp_go; concluded. Qed.

Lemma auth_resume_concludes req :
  wp (fun _ _ => True) (auth_resume_json host req) [] dispatch_concluded.
Proof. method. wp_go; concluded. Qed.

Lemma spawn_concludes req : wp (fun _ _ => True) (spawn_json host req) [] spawn_concluded.
Proof. method. wp_go; concluded. Qed.

Lemma resume_spawn_concludes req :
  wp (fun _ _ => True) (resume_spawn_json host req) [] spawn_concluded.
Proof. method. wp_go; concluded. Qed.

(** ** Runs *)

(** Where a call moves a run; blocking it for an approval counts when it succeeded, the
    others are sent whether or not they are answered with an error. *)
Definition moved_by (e : Event HostAnswer) : option (RunStatus * ResourceScope * InvocationId) :=
  let '(event call a) := e in
  match call return HostAnswer call -> option (RunStatus * ResourceScope * InvocationId) with
  | RunBlockApproval scope id _ | SavePendingAndBlock scope id _ =>
      fun r => match r with Ok _ => Some (BlockedApproval, scope, id) | Err _ => None end
  | RunBlockAuth scope id _ => fun _ => Some (BlockedAuth, scope, id)
  | RunComplete scope id => fun _ => Some (Completed, scope, id)
  | RunFail scope id _ => fun _ => Some (Failed, scope, id)
  | _ => fun _ => None
  end a.

Definition started_by (e : Event HostAnswer) : option RunRecord :=
  let '(event call a) := e in
  match call return HostAnswer call -> option RunRecord with
  | RunStart_ _ => fun r => match r with Ok record => Some record | Err _ => None end
  | _ => fun _ => None
  end a.

(** Where the run is left; a failed dispatch leaves it running. *)
Definition left_run {T} (r : Result T CiError) : option RunStatus :=
  match r with
  | Ok _ => Some Completed
  | Err (CiDispatch _ _ _) => None
  | Err (CiAuthorizationRequiresApproval _) => Some BlockedApproval
  | Err e => Some (if is_block_auth_transition e then BlockedAuth else Failed)
  end.

Definition run_left {T} (scope : ResourceScope) (id : InvocationId) (h : History)
    (r : Result T CiError) : Prop :=
  omap moved_by h =
  match omap started_by h with
  | [] => []
  | _ => option_list ((fun status => (status, scope, id)) <$> left_run r)
  end.

Lemma left_of_dispatch {T} e :
  left_run (T := T) (Err (from_dispatch_error e)) =
  match run_state_transition (from_dispatch_error e) with
  | None => None
  | Some (TransitionFail _) => Some Failed
  | Some (TransitionBlockAuth _) => Some BlockedAuth
  end.
Proof. by destruct e. Qed.

Lemma left_of_completion {T} capability e :
  left_run (T := T) (Err (completion_obligation_error_to_invocation capability e)) = Some Failed.
Proof. by destruct e. Qed.

Lemma left_of_preparation {T} capability e :
  left_run (T := T) (Err (prepare_obligation_error_to_invocation capability e)) =
  match run_state_transition (prepare_obligation_error_to_invocation capability e) with
  | None => None
  | Some (TransitionFail _) => Some Failed
  | Some (TransitionBlockAuth _) => Some BlockedAuth
  end.
Proof. by destruct e. Qed.

Lemma left_of_mismatch {T} body c capability estimate kind e :
  validate_approval_request_matches_invocation body c capability estimate kind = Err e ->
  left_run (T := T) (Err e) = Some Failed.
Proof.
  unfold validate_approval_request_matches_invocation.
  repeat case_match; intros [=]; by subst.
Qed.

Ltac run_left := first [exact I | reflexivity |
  unfold run_left; rewrite ?left_of_dispatch, ?left_of_completion, ?left_of_preparation;
  repeat match goal with
  | E : run_state_transition _ = _ |- _ => try discriminate E; rewrite E; clear E
  | E : validate_approval_request_matches_invocation _ _ _ _ _ = Err _ |- _ =>
      rewrite (left_of_mismatch _ _ _ _ _ _ E); clear E
  end; reflexivity].

Lemma invoke_leaves_run req :
  wp (fun _ _ => True) (invoke_json host req) []
    (run_left (ctx_resource_scope (iq_context req)) (ctx_invocation_id (iq_context req))).
Proof. method. wp_go; run_left. Qed.

Lemma spawn_leaves_run req :
  wp (fun _ _ => True) (spawn_json host req) []
    (run_left (ctx_resource_scope (iq_context req)) (ctx_invocation_id (iq_context req))).
Proof. method. wp_go; run_left. Qed.

(** ** The claims *)

(** [C15] An approved lease is not left behind in the middle of a dispatch.  When
    [resume_json] or [resume_spawn_json] claimed a lease, or [auth_resume_json] took one to
    [Dispatching], its last lease call is on that lease and consumes it after a success,
    puts it back for the next auth resume when the error blocks the run on authentication,
    and revokes it after any other error (a spawn, after every error).  A lease that
    [auth_resume_json] claimed is taken to [Dispatching] next; when the store refuses
    that, the method fails with the refusal and the lease stays as claimed. *)
Theorem claimed_lease_settled req auth_req :
  let scope := ctx_resource_scope (rq_context req) in
  let auth_scope := ctx_resource_scope (aq_context auth_req) in
  (forall r h, runs (resume_json host req) (Ret r) h ->
     settled_as claimed_by (settling_call scope) h r)
  /\ (forall r h, runs (auth_resume_json host auth_req) (Ret r) h ->
     settled_as begun_by (settling_call auth_scope) h r /\ begun_or_refused auth_scope h r)
  /\ (forall r h, runs (resume_spawn_json host req) (Ret r) h ->
     settled_as claimed_by (spawn_settling_call scope) h r).
Proof.
  split_and!; intros r h Hr.
  - revert Hr. by apply (wp_returns (fun _ _ => True)), resume_settles.
  - split; revert Hr; apply (wp_returns (fun _ _ => True)); [apply auth_resume_settles | apply auth_resume_begins].
  - revert Hr. by apply (wp_returns (fun _ _ => True)), resume_spawn_settles.
Qed.

(** [C14] Obligations are paired: a dispatching method that returns a result has completed
    exactly the obligations it prepared, and the result is what completing them let
    through; a method that returns an error, whichever of its calls failed, has aborted
    exactly the obligations it prepared; nothing prepared is aborted after a success. *)
Theorem obligations_concluded inv req auth_req :
  (forall r h, runs (invoke_json host inv) (Ret r) h -> dispatch_concluded h r)
  /\ (forall r h, runs (resume_json host req) (Ret r) h -> dispatch_concluded h r)
  /\ (forall r h, runs (auth_resume_json host auth_req) (Ret r) h -> dispatch_concluded h r)
  /\ (forall r h, runs (spawn_json host inv) (Ret r) h -> spawn_concluded h r)
  /\ (forall r h, runs (resume_spawn_json host req) (Ret r) h -> spawn_concluded h r).
Proof.
  repeat apply conj; intros r h.
  - by apply (wp_returns (fun _ _ => True)), invoke_concludes.
  - by apply (wp_returns (fun _ _ => True)), resume_concludes.
  - by apply (wp_returns (fun _ _ => True)), auth_resume_concludes.
  - by apply (wp_returns (fun _ _ => True)), spawn_concludes.
  - by apply (wp_returns (fun _ _ => True)), resume_spawn_concludes.
Qed.

(** [C32] A run that an invocation started is moved exactly once: to [Completed] with the
    result, to [BlockedApproval] by a successful block, to [BlockedAuth] by an error that
    asks for credentials, to [Failed] by any other, and not at all by a failed dispatch;
    an invocation whose run did not start moves none. *)
Theorem started_run_left_once req :
  let left {T} := @run_left T (ctx_resource_scope (iq_context req)) (ctx_invocation_id (iq_context req)) in
  (forall r h, runs (invoke_json host req) (Ret r) h -> left h r)
  /\ (forall r h, runs (spawn_json host req) (Ret r) h -> left h r).
Proof.
  split; intros r h.
  - by apply (wp_returns (fun _ _ => True)), invoke_leaves_run.
  - by apply (wp_returns (fun _ _ => True)), spawn_leaves_run.
Qed.

Ltac bounded :=
  cbn [within prog_bind ask];
  lazymatch goal with
  | |- True => exact I
  | |- forall _, _ => intros ?; bounded
  | |- within _ _ => wp_case; bounded
  end.

(** [C33] Every method ends: whatever is answered, it makes at most this many calls. *)
Theorem methods_terminate inv req auth_req :
  (forall p h, runs (invoke_json host inv) p h -> length h <= 7)
  /\ (forall p h, runs (spawn_json host inv) p h -> length h <= 7)
  /\ (forall p h, runs (resume_json host req) p h -> length h <= 11)
  /\ (forall p h, runs (auth_resume_json host auth_req) p h -> length h <= 12)
  /\ (forall p h, runs (resume_spawn_json host req) p h -> length h <= 11).
Proof.
  repeat apply conj; intros p h; apply within_runs; method; bounded.
Qed.
End outcomes.
