(* ===== verification/HostPool.v ===== *)
(** * Many capability hosts over the in-memory stores

    Any number of invocations and resumptions, interleaved call by call over the in-memory
    run-state, approval and lease stores, while other tasks act on the same stores. *)

From stdpp Require Import relations.
From S2P Require Import Prelude Strings Ids Mounts Platform HostApi RunState Capability Obligations Trust Leases LeaseFacts Actions Dispatch Programs Processes CapabilityHost HostFlows HostFacts.
From Stdlib Require Import Lia.
Import HostApi.Resource.

Section pool.
Context `{Platform} `{SerdeJson} `{!InvocationCode}.
Variable host : CapabilityHost.

Abbreviation History := (list (Event HostAnswer)).
Abbreviation CiError := CapabilityInvocationError.
Implicit Type h : History.

(** ** Programs *)

Inductive HostMethod :=
  | Invokes (req : CapabilityInvocationRequest)
  | Spawns (req : CapabilityInvocationRequest)
  | Resumes (req : CapabilityResumeRequest)
  | AuthResumes (req : CapabilityAuthResumeRequest)
  | ResumesSpawn (req : CapabilityResumeRequest).

Inductive HostResult :=
  | WasDispatched (r : Result CapabilityDispatchResult CiError)
  | WasSpawned (r : Result ProcessRecord CiError).

Definition host_program (m : HostMethod) : HProg HostResult :=
  match m with
  | Invokes req => prog_map WasDispatched (invoke_json host req)
  | Spawns req => prog_map WasSpawned (spawn_json host req)
  | Resumes req => prog_map WasDispatched (resume_json host req)
  | AuthResumes req => prog_map WasDispatched (auth_resume_json host req)
  | ResumesSpawn req => prog_map WasSpawned (resume_spawn_json host req)
  end.

(** ** The world *)

Record HostWorld := {
  hw_runs : gmap ScopedKey RunRecord;
  hw_approvals : gmap ScopedKey (ApprovalRecord RequestBody);
  hw_leases : gmap CapabilityLeaseKey CapabilityLease;
}.

Definition on_runs {T} (op : InMemoryRuns.Op T) (w : HostWorld) : Result T RunStateError * HostWorld :=
  let '(r, runs) := op (hw_runs w) in
  (r, {| hw_runs := runs; hw_approvals := hw_approvals w; hw_leases := hw_leases w |}).

Definition on_approvals {T}
    (op : gmap ScopedKey (ApprovalRecord RequestBody) ->
      Result T RunStateError * gmap ScopedKey (ApprovalRecord RequestBody))
    (w : HostWorld) : Result T RunStateError * HostWorld :=
  let '(r, approvals) := op (hw_approvals w) in
  (r, {| hw_runs := hw_runs w; hw_approvals := approvals; hw_leases := hw_leases w |}).

Definition on_leases {T} (op : gmap CapabilityLeaseKey CapabilityLease ->
      T * gmap CapabilityLeaseKey CapabilityLease) (w : HostWorld) : T * HostWorld :=
  let '(r, leases) := op (hw_leases w) in
  (r, {| hw_runs := hw_runs w; hw_approvals := hw_approvals w; hw_leases := leases |}).

(** What a call may be answered: the stores are the in-memory ones, at some time; the
    authorizer, the obligation handler and the runtimes are free. *)
Definition host_answers (c : HostCall) (w : HostWorld) : HostAnswer c -> HostWorld -> Prop :=
  match c return HostAnswer c -> HostWorld -> Prop with
  | RunStart_ st => fun a w' => on_runs (InMemoryRuns.start st) w = (a, w')
  | RunGet scope id => fun a w' => on_runs (InMemoryRuns.get_run scope id) w = (a, w')
  | RunBlockApproval scope id approval => fun a w' =>
      on_runs (InMemoryRuns.block_approval scope id approval) w = (a, w')
  | RunBlockAuth scope id kind => fun a w' => on_runs (InMemoryRuns.block_auth scope id kind) w = (a, w')
  | RunComplete scope id => fun a w' => on_runs (InMemoryRuns.complete scope id) w = (a, w')
  | RunFail scope id kind => fun a w' => on_runs (InMemoryRuns.fail_ scope id kind) w = (a, w')
  | ApprovalSavePending scope approval => fun a w' =>
      on_approvals (InMemoryApprovals.save_pending scope approval) w = (a, w')
  | ApprovalGet scope id => fun a w' =>
      on_approvals (InMemoryApprovals.get_approval scope id) w = (a, w')
  | ApprovalDiscardPending scope id => fun a w' =>
      on_approvals (InMemoryApprovals.discard_pending scope id) w = (a, w')
  | SavePendingAndBlock _ _ _ => fun _ w' => hw_leases w' = hw_leases w
  | ActiveLeases c => fun a w' =>
      w' = w /\ exists now, a = active_leases_for_context now c (hw_leases w)
  | LeasesForScope scope => fun a w' => w' = w /\ a = leases_for_scope scope (hw_leases w)
  | OnLease call => fun a w' => exists now, on_leases (lease_call now call) w = (a, w')
  | _ => fun _ w' => w' = w
  end.

(** Other tasks: anything, except putting a new lease under the key. *)
Definition elsewhere_keeps (K : CapabilityLeaseKey) (w w' : HostWorld) : Prop :=
  hw_leases w' = hw_leases w
  \/ exists now call r, no_reissue K call /\ lease_call now call (hw_leases w) = (r, hw_leases w').

(** ** Counting *)

Definition claims (K : CapabilityLeaseKey) (e : Event HostAnswer) : nat :=
  let '(event c a) := e in
  match c return HostAnswer c -> nat with
  | OnLease call => fun r => if succeeded is_claim K (call, r) then 1 else 0
  | _ => fun _ => 0
  end a.

(** The effects of a call that claimed the lease. *)
Definition effects_under (K : CapabilityLeaseKey) h : nat :=
  match total (claims K) h with 0 => 0 | S _ => count_calls is_effect h end.

(** One effect, and no lease issued. *)
Definition modest h (c : HostCall) : Prop :=
  (is_effect c = true -> no_effect h)
  /\ match c with OnLease call => is_issue call = false | _ => True end.

Lemma host_modest m : wp modest (host_program m) [] (fun _ _ => True).
Proof.
  destruct m; apply wp_bind; method; wp_go; try exact I; split; try exact I; try reflexivity;
    intros; try discriminate; by repeat constructor.
Qed.

(** Every call acts at most once. *)
Lemma modest_once m p h : runs (host_program m) p h -> count_calls is_effect h <= 1.
Proof.
  apply (runs_once is_effect modest _ _ _ (fun _ _ => True)); [| apply host_modest].
  by intros h' c [Hg _].
Qed.

Lemma effects_claimed K m p h : runs (host_program m) p h -> effects_under K h <= total (claims K) h.
Proof.
  intros Hrun. apply modest_once in Hrun. unfold effects_under.
  destruct (total (claims K) h); lia.
Qed.

(** ** One winner *)

(** So many claims of the lease have succeeded, and it shows. *)
Definition claimed_at_most (K : CapabilityLeaseKey) (w : HostWorld) (n : nat) : Prop :=
  exists l fp, hw_leases w !! K = Some l /\ lease_fingerprint l = Some fp
    /\ n <= Nat.min 1 (lease_stage l).

Lemma lease_call_counts K now call (w w' : HostWorld) n r :
  is_issue call = false \/ no_reissue K call ->
  lease_call now call (hw_leases w) = (r, hw_leases w') -> claimed_at_most K w n ->
  claimed_at_most K w' ((if succeeded is_claim K (call, r) then 1 else 0) + n).
Proof.
  intros Hi Hc (l & fp & Hl & Hf & Hn).
  assert (no_reissue K call) as Hre by (destruct Hi; [by intros _ | done]).
  destruct (lease_call_seen _ _ _ _ _ _ _ Hc Hre Hl)
    as [[Hne Hl1] | (Hk & Hni & [(e & -> & Hl1) | (l1 & -> & Ht & Hl1)])].
  - rewrite succeeded_other by done. by exists l, fp.
  - rewrite succeeded_err. by exists l, fp.
  - rewrite succeeded_ok by done. exists l1, fp. split; [done |].
    split; [by rewrite (transition_fingerprint _ _ _ _ Hni Ht) |].
    destruct (transition_stage _ _ _ _ _ Hni Hf Ht) as (Hs & Hcl & _).
    destruct call; cbn [is_claim]; try lia. destruct (Hcl _ _ _ eq_refl). lia.
Qed.

Lemma claimed_same K (w w' : HostWorld) n :
  hw_leases w' = hw_leases w -> claimed_at_most K w n -> claimed_at_most K w' n.
Proof. unfold claimed_at_most. by intros ->. Qed.

Lemma answers_count K w n h c a w' :
  claimed_at_most K w n -> modest h c -> host_answers c w a w' ->
  claimed_at_most K w' (claims K (event c a) + n).
Proof.
  intros Hn [_ Hi] Ha.
  destruct c as [| | | | | | | | | | | | call | | | | | | | |]; simpl in Ha |- *;
    try (apply (claimed_same _ w); [| done];
         unfold on_runs, on_approvals in Ha; repeat case_match; destruct_and?; by simplify_eq/=).
  destruct Ha as [now Ha]. unfold on_leases in Ha.
  destruct (lease_call now call (hw_leases w)) as [r leases] eqn:Hc. injection Ha as <- <-.
  eapply lease_call_counts; [by left | exact Hc | done].
Qed.

Lemma elsewhere_counts K w n w' :
  claimed_at_most K w n -> elsewhere_keeps K w w' -> claimed_at_most K w' n.
Proof.
  intros Hn [Hw | (now & call & r & Hre & Hc)]; [by apply (claimed_same _ w) |].
  pose proof (lease_call_counts _ _ _ _ _ _ _ (or_intror Hre) Hc Hn) as (l & fp & ? & ? & Hle).
  exists l, fp. repeat split; try done. lia.
Qed.

(** [C5] One approval, one effect.  However many invocations and resumptions run
    interleaved over the in-memory stores, while other tasks act on the same stores in any
    way short of issuing a new lease under the key: all the calls that claimed a given
    fingerprinted lease together dispatch or spawn at most once. *)
Theorem one_claim_one_effect K methods w pool l fp :
  hw_leases w !! K = Some l -> lease_fingerprint l = Some fp ->
  rtc (pool_step host_answers (elsewhere_keeps K)) (pool_of (host_program <$> methods) w) pool ->
  total (effects_under K) (snd <$> pool_threads pool) <= 1.
Proof.
  intros Hl Hf Hrun.
  destruct (pool_count host_answers (elsewhere_keeps K) (claims K) (claimed_at_most K) modest
    (host_program <$> methods) w pool) as (l' & fp' & _ & _ & Hc); try done.
  - intros w1 n h c a w2. apply answers_count.
  - intros w1 n w2. apply elsewhere_counts.
  - apply Forall_fmap, Forall_true. intros m. apply host_modest.
  - exists l, fp. repeat split; try done. lia.
  - transitivity (total (total (claims K)) (snd <$> pool_threads pool)); [| lia].
    apply total_le. intros i h Hi. rewrite list_lookup_fmap in Hi.
    destruct (pool_threads pool !! i) as [[p h'] |] eqn:Ht; [| done]. injection Hi as <-.
    destruct ((host_program <$> methods) !! i) as [q |] eqn:Hq.
    + pose proof (pool_runs _ _ _ _ _ _ _ _ _ Hrun Hq Ht) as Hr.
      rewrite list_lookup_fmap in Hq. destruct (methods !! i) as [m |]; [| done].
      injection Hq as <-. by apply (effects_claimed K m p h').
    + exfalso. apply lookup_lt_Some in Ht. apply lookup_ge_None in Hq.
      rewrite (pool_length _ _ _ _ _ Hrun) in Ht. lia.
Qed.
End pool.
