(* ===== verification/HostDemo.v ===== *)
(** * Processes and the capability host: concrete interleavings

    One background process and its host calls; one capability, one approved request and
    its lease, over the in-memory stores, with the grant-based authorizer; the runtime's
    answers vary. *)

From stdpp Require Import relations.
From S2P Require Import Prelude Strings Ids Mounts Platform HostApi RunState Capability Obligations Trust Authorize AuthorizeDemo Leases LeaseFacts Actions Programs Dispatch Processes ProcessFacts CapabilityHost HostFlows HostFacts HostOutcomes HostPool.
From Stdlib Require Import Lia.
Import HostApi.Resource.

Section demo.
#[local] Existing Instance TestPlatform.
#[local] Instance UnitJson : SerdeJson := {| Value := unit |}.

Definition manager : BackgroundProcessManager :=
  {| bm_cancellation_registry := true; bm_result_store := true; bm_error_handler := false |}.
Definition process_host : ProcessHost :=
  {| ph_cancellation_registry := true; ph_result_store := true |}.

Definition job : ProcessStart := {|
  ps_process_id := 3; ps_parent_process_id := None; ps_invocation_id := 7; ps_scope := alice_scope;
  ps_authenticated_actor_user_id := None; ps_extension_id := "web"; ps_capability_id := "web.fetch";
  ps_runtime := Wasm; ps_grants := []; ps_mounts := []; ps_estimated_resources := small_estimate;
  ps_resource_reservation_id := None; ps_input := tt |}.

Definition job_record : ProcessRecord := process_started_record job.
Definition job_request : ProcessExecutionRequest := execution_request job_record tt (Some 0%N).
Definition job_key : ScopedKey := process_key_new alice_scope 3.

(** The job has been spawned. *)
Definition spawned : ProcessWorld := {|
  pw_records := {[job_key := job_record]}; pw_results := ∅; pw_tokens := {[job_key := 0%N]};
  pw_cancelled := ∅; pw_next_token := 1 |}.

Definition succeeds (request : ProcessExecutionRequest) : ExecutionOutcome := ExecutionResult tt.

Abbreviation demo_pool := (@Pool ProcessCall ProcessAnswer ClientResult ProcessWorld).

Definition play (turns : list nat) (clients : list ProcessClient) : demo_pool :=
  pool_schedule ((fun i => (i, handle_process succeeds)) <$> turns)
    (pool_of (client_program manager process_host <$> clients) spawned).

Lemma play_reachable turns clients :
  rtc (pool_step process_answers (fun _ _ => False))
    (pool_of (client_program manager process_host <$> clients) spawned) (play turns clients).
Proof.
  apply pool_schedule_steps, Forall_fmap, Forall_true. intros i c w. exists succeeds.
  simpl. by destruct (handle_process succeeds c w).
Qed.

Lemma spawned_settled : settled spawned.
Proof.
  intros K r Hr Hs. unfold spawned in Hr. simpl in Hr.
  apply lookup_singleton_Some in Hr as [_ <-]. by destruct Hs.
Qed.

Definition status_at (p : demo_pool) : option ProcessStatus :=
  pr_status <$> pw_records (pool_world p) !! job_key.
Definition result_at (p : demo_pool) : option (ProcessStatus * option unit) :=
  match pw_results (pool_world p) !! job_key with
  | Some r => Some (res_status r, res_output r)
  | None => None
  end.
Definition answer_of (i : nat) (p : demo_pool) : option ClientResult :=
  x ← pool_threads p !! i; match x.1 with Ret r => Some r | Ask _ _ => None end.

(** A kill can be overwritten.  The detached task checks that its process still
    runs and then writes the result; a kill in between answers success and leaves a
    killed process, and then the late result replaces the kill's result record, with
    the output of the run: the status says killed, the result says completed. *)
Theorem kill_overwritten :
  exists pool,
    rtc (pool_step process_answers (fun _ _ => False))
      (pool_of (client_program manager process_host <$> [RunsTask job_request; Kills alice_scope 3])
         spawned) pool
    /\ answer_of 1 pool = Some (KillAnswered (Ok (with_process_status ProcKilled None job_record)))
    /\ status_at pool = Some ProcKilled
    /\ result_at pool = Some (ProcCompleted, Some tt).
Proof.
  exists (play [0; 0; 1; 1; 1; 0; 0; 0] [RunsTask job_request; Kills alice_scope 3]).
  split; [apply play_reachable |]. split; [vm_refl |]. split; vm_refl.
Qed.

(** The task alone: the process completes, and its result is there. *)
Lemma result_before_status_witness :
  is_Some (pw_results (pool_world (play [0; 0; 0; 0; 0] [RunsTask job_request])) !! job_key).
Proof.
  destruct (pw_records (pool_world (play [0; 0; 0; 0; 0] [RunsTask job_request])) !! job_key)
    as [r |] eqn:Hr.
  - apply (result_before_status manager process_host [RunsTask job_request] spawned _ job_key r
             eq_refl spawned_settled (play_reachable _ _) Hr).
    left. assert (status_at (play [0; 0; 0; 0; 0] [RunsTask job_request]) = Some ProcCompleted) as Hs
      by vm_refl.
    unfold status_at in Hs. rewrite Hr in Hs. by injection Hs.
  - exfalso. assert (status_at (play [0; 0; 0; 0; 0] [RunsTask job_request]) = Some ProcCompleted) as Hs
      by vm_refl.
    unfold status_at in Hs. rewrite Hr in Hs. discriminate Hs.
Defined.

(** An await polls twice between the two writes of a kill. *)
Definition awaiting : list ProcessClient := [Kills alice_scope 3; Awaits 2 alice_scope 3].

Lemma await_loses_only_killed_witness :
  exists r, pw_records (pool_world (play [0; 1; 1; 1; 1] awaiting)) !! job_key = Some r
    /\ pr_status r = ProcKilled.
Proof.
  destruct (pool_threads (play [0; 1; 1; 1; 1] awaiting) !! 1) as [[p h] |] eqn:Ht.
  - assert (answer_of 1 (play [0; 1; 1; 1; 1] awaiting)
            = Some (Awaited (Some (Err (ProcessResultUnavailable 3))))) as Ha by vm_refl.
    unfold answer_of in Ha. rewrite Ht in Ha. simpl in Ha.
    destruct p as [r |]; [| discriminate Ha]. injection Ha as ->.
    exact (await_loses_only_killed manager process_host awaiting spawned
             (play [0; 1; 1; 1; 1] awaiting) 1 2 alice_scope 3 h eq_refl eq_refl spawned_settled
             (play_reachable _ _) eq_refl Ht).
  - exfalso. assert (answer_of 1 (play [0; 1; 1; 1; 1] awaiting)
            = Some (Awaited (Some (Err (ProcessResultUnavailable 3))))) as Ha by vm_refl.
    unfold answer_of in Ha. rewrite Ht in Ha. discriminate Ha.
Defined.

(** A killed record, after the late task has run. *)
Lemma process_terminal_final_witness :
  exists r', pw_records (pool_world (play [1; 0; 0; 0] [RunsTask job_request; Kills alice_scope 3]))
      !! job_key = Some r'
    /\ pr_process_id r' = 3%N.
Proof.
  assert (pw_records (pool_world (pool_of (client_program manager process_host <$>
            [RunsTask job_request; Kills alice_scope 3]) spawned)) !! job_key = Some job_record) as Hr.
  { apply lookup_singleton_eq. }
  destruct (process_terminal_final _ _ job_key job_record
              (play_reachable [1; 0; 0; 0] [RunsTask job_request; Kills alice_scope 3]) Hr)
    as (r' & Hr' & Hid & _).
  exists r'. split; [exact Hr' |]. apply (f_equal pr_process_id) in Hid. exact Hid.
Defined.
End demo.


Section demo.
#[local] Existing Instance TestPlatform.
#[local] Existing Instance AuthorizeDemo.UnitJson.
#[local] Instance DemoCode : InvocationCode := {|
  fingerprint_for_action kind scope capability estimate input := Ok (kind +:+ ":" +:+ capability);
  input_command _ := None;
  shell_command_display_text s := (s, false) |}.

Definition demo_host : CapabilityHost := {|
  get_capability id := if String.eqb id "web.fetch" then Some fetch else None;
  h_run_state := true; h_approval_requests := true; h_run_state_approval_store := false;
  h_capability_leases := true; h_process_manager := true; h_obligation_handler := true |}.

Definition fetch_fp : InvocationFingerprint := "dispatch:web.fetch".
Definition demo_lease : CapabilityLease := {|
  lease_scope := alice_scope; lease_grant := fetch_grant None;
  lease_fingerprint := Some fetch_fp; lease_status := LeaseActive |}.
Definition demo_key : CapabilityLeaseKey := lease_key_new alice_scope 1.

(** The run waits for request 9, which has been approved. *)
Definition approved_world : HostWorld := {|
  hw_runs := {[ key_new alice_scope 7 := to_block_approval 9 (started {|
    start_invocation_id := 7; start_capability_id := "web.fetch"; start_scope := alice_scope;
    start_actor := None |}) ]};
  hw_approvals := {[ key_new alice_scope 9 := {|
    approval_scope := alice_scope;
    approval_request := {| request_id := 9;
      request_payload := request_body 9 (ExtensionPrincipal "web")
        (ActDispatch "web.fetch" small_estimate) (Some fetch_fp) "fetch a page" None |};
    approval_status := Approved |} ]};
  hw_leases := {[ demo_key := demo_lease ]} |}.

Definition fresh_world : HostWorld := {| hw_runs := ∅; hw_approvals := ∅; hw_leases := ∅ |}.

Definition invocation : CapabilityInvocationRequest := {|
  iq_context := alice_context two_grants; iq_capability_id := "web.fetch";
  iq_estimate := small_estimate; iq_input := tt; iq_trust_decision := web_trust |}.
Definition resumption : CapabilityResumeRequest := {|
  rq_context := alice_context []; rq_approval_request_id := 9; rq_capability_id := "web.fetch";
  rq_estimate := small_estimate; rq_input := tt; rq_trust_decision := web_trust |}.
Definition auth_resumption : CapabilityAuthResumeRequest := {|
  aq_context := alice_context []; aq_capability_id := "web.fetch"; aq_estimate := small_estimate;
  aq_input := tt; aq_trust_decision := web_trust; aq_approval_request_id := Some 9%N |}.

Definition page : CapabilityDispatchResult := {|
  ds_capability_id := "web.fetch"; ds_provider := "web"; ds_runtime := Wasm; ds_output := tt;
  ds_display_preview := None;
  ds_usage := {| use_usd := 0%Z; use_input_tokens := 0; use_output_tokens := 0;
    use_wall_clock_ms := 5; use_output_bytes := 7; use_network_egress_bytes := 0;
    use_process_count := 0 |};
  ds_receipt := {| rcpt_id := 1; rcpt_scope := alice_scope; rcpt_status := Reconciled;
    rcpt_estimate := small_estimate; rcpt_actual := None |} |}.

(** The stores at time 20, the grant-based authorizer, an obligation handler that takes
    everything, and a runtime with one answer. *)
Definition demo_handle (dispatched : Result CapabilityDispatchResult DispatchError)
    (c : HostCall) (w : HostWorld) : HostAnswer c * HostWorld :=
  match c return HostAnswer c * HostWorld with
  | RunStart_ st => on_runs (InMemoryRuns.start st) w
  | RunGet scope id => on_runs (InMemoryRuns.get_run scope id) w
  | RunBlockApproval scope id approval => on_runs (InMemoryRuns.block_approval scope id approval) w
  | RunBlockAuth scope id kind => on_runs (InMemoryRuns.block_auth scope id kind) w
  | RunComplete scope id => on_runs (InMemoryRuns.complete scope id) w
  | RunFail scope id kind => on_runs (InMemoryRuns.fail_ scope id kind) w
  | ApprovalSavePending scope approval => on_approvals (InMemoryApprovals.save_pending scope approval) w
  | ApprovalGet scope id => on_approvals (InMemoryApprovals.get_approval scope id) w
  | ApprovalDiscardPending scope id => on_approvals (InMemoryApprovals.discard_pending scope id) w
  | SavePendingAndBlock _ id _ => (Err (UnknownInvocation id), w)
  | ActiveLeases c => (active_leases_for_context (fun _ => 20%Z) c (hw_leases w), w)
  | LeasesForScope scope => (leases_for_scope scope (hw_leases w), w)
  | OnLease call => on_leases (lease_call 20%Z call) w
  | AuthorizeDispatch c d e t => (authorize_dispatch_with_trust (fun _ => 20%Z) c d e t, w)
  | AuthorizeSpawn c d e t => (authorize_spawn_with_trust (fun _ => 20%Z) c d e t, w)
  | PrepareObligations _ _ _ _ _ => (Ok outcome_default, w)
  | AbortObligations _ _ _ _ _ _ => (Ok tt, w)
  | CompleteObligations _ _ _ _ _ d => (Ok d, w)
  | DispatchJson _ => (dispatched, w)
  | NewProcessId => (1%N, w)
  | SpawnProcess s => (Ok (process_started_record s), w)
  end.

Lemma demo_answers dispatched c w :
  host_answers c w (demo_handle dispatched c w).1 (demo_handle dispatched c w).2.
Proof.
  destruct c; try reflexivity; simpl; try (by destruct (on_runs _ w)); try (by destruct (on_approvals _ w)).
  - split; [done |]. by eexists.
  - done.
  - exists 20%Z. by destruct (on_leases _ w).
Qed.

Abbreviation demo_pool := (@Pool HostCall HostAnswer HostResult HostWorld).

(** Which program makes the next call, and what the runtime would answer it. *)
Definition answering (turn : nat * Result CapabilityDispatchResult DispatchError) :
    nat * (forall c : HostCall, HostWorld -> HostAnswer c * HostWorld) :=
  (turn.1, demo_handle turn.2).

Definition host_play (turns : list (nat * Result CapabilityDispatchResult DispatchError))
    (methods : list HostMethod) (w : HostWorld) : demo_pool :=
  pool_schedule (answering <$> turns) (pool_of (host_program demo_host <$> methods) w).

Lemma host_play_reachable outside turns methods w :
  rtc (pool_step host_answers outside) (pool_of (host_program demo_host <$> methods) w)
    (host_play turns methods w).
Proof. apply pool_schedule_steps, Forall_fmap, Forall_true. intros [i d] c w'. apply demo_answers. Qed.

Definition answers_of (p : demo_pool) : list (option HostResult) :=
  (fun t => match t.1 with Ret r => Some r | Ask _ _ => None end) <$> pool_threads p.

Definition needs_login : Result CapabilityDispatchResult DispatchError :=
  Err (DispatchAuthRequired "web.fetch" [] []).

(** One approval can be used twice.  A resumption whose dispatch asks for a login
    blocks the run on authentication before it puts its lease back; its lease is only
    claimed, so an auth resume that starts in between takes it to [Dispatching], and the
    late put-back of the first takes it back to [Claimed], under the feet of the
    dispatch; a second auth resume then wins the lease too, and both dispatch. *)
Theorem approval_used_twice :
  exists pool,
    rtc (pool_step host_answers (fun _ _ => False))
      (pool_of (host_program demo_host <$>
        [Resumes resumption; AuthResumes auth_resumption; AuthResumes auth_resumption])
        approved_world) pool
    /\ hw_leases approved_world !! demo_key = Some demo_lease
    /\ lease_fingerprint demo_lease = Some fetch_fp
    /\ answers_of pool =
        [ Some (WasDispatched (Err (CiAuthorizationRequiresAuth "web.fetch" [] [])));
          Some (WasDispatched (Ok page)); Some (WasDispatched (Ok page)) ].
Proof.
  exists (host_play (repeat (0, needs_login) 9 ++ repeat (1, Ok page) 8 ++ [(0, needs_login)]
                     ++ repeat (2, Ok page) 12 ++ repeat (1, Ok page) 4)
            [Resumes resumption; AuthResumes auth_resumption; AuthResumes auth_resumption]
            approved_world).
  split; [apply host_play_reachable |]. split; [vm_refl |]. split; [done | vm_refl].
Qed.

(** Two resumptions race for the lease, and an invocation runs besides. *)
Definition contest := host_play
  (repeat (0, Ok page) 4 ++ repeat (1, Ok page) 12 ++ repeat (2, Ok page) 3 ++ repeat (0, Ok page) 8)
  [Resumes resumption; Resumes resumption; ResumesSpawn resumption] approved_world.

Lemma one_claim_one_effect_witness :
  total (effects_under demo_key) (snd <$> pool_threads contest) = 1.
Proof.
  assert (1 <= total (effects_under demo_key) (snd <$> pool_threads contest)) as Hone.
  { replace (total _ _) with 1 by vm_refl. done. }
  assert (hw_leases approved_world !! demo_key = Some demo_lease) as Hl by vm_refl.
  pose proof (one_claim_one_effect demo_host demo_key
    [Resumes resumption; Resumes resumption; ResumesSpawn resumption] approved_world contest
    demo_lease fetch_fp Hl eq_refl (host_play_reachable _ _ _ _)) as Hle.
  lia.
Defined.

(** ** One method alone *)

Definition alone_for (n : nat) (d : Result CapabilityDispatchResult DispatchError) {R}
    (p : HProg R) (w : HostWorld) : @Pool HostCall HostAnswer R HostWorld :=
  pool_schedule (repeat (0, demo_handle d) n) (pool_of [p] w).

Lemma alone_runs {R} n d (p p' : HProg R) w h :
  pool_threads (alone_for n d p w) !! 0 = Some (p', h) -> runs p p' h.
Proof.
  apply (pool_runs host_answers (fun _ _ => False) [p] w (alone_for n d p w) 0 p p' h); [| done].
  apply pool_schedule_steps, Forall_forall. intros turn Hin.
  apply list_elem_of_In, repeat_spec in Hin as ->. intros c w'. apply demo_answers.
Qed.

(** The same run, blocked on authentication, its lease still active. *)
Definition auth_world : HostWorld :=
  (on_runs (InMemoryRuns.block_auth alice_scope 7 "AuthRequired") approved_world).2.

Abbreviation at_dispatch :=
  (alone_for 7 (Ok page) (auth_resume_json demo_host auth_resumption) auth_world).

Definition dispatching {R} (t : option (HProg R * list (Event HostAnswer))) : option CapabilityId :=
  match t with
  | Some (Ask (DispatchJson r) _, _) => Some (dr_capability_id r)
  | _ => None
  end.

Lemma at_dispatch_call : dispatching (pool_threads at_dispatch !! 0) = Some "web.fetch".
Proof. vm_refl. Qed.

Lemma resumed_effect_approved_witness :
  exists h r k,
    runs (auth_resume_json demo_host auth_resumption) (Ask (DispatchJson r) k) h
    /\ dr_capability_id r = "web.fetch"
    /\ waiting_run (alice_context []) "web.fetch" BlockedAuth None h.
Proof.
  pose proof at_dispatch_call as Hc.
  destruct (pool_threads at_dispatch !! 0) as [[p h] |] eqn:Ht; [| discriminate Hc].
  pose proof (alone_runs _ _ _ _ _ _ Ht) as Hrun. clear Ht.
  destruct p as [r | c k]; [discriminate Hc |].
  destruct c as [| | | | | | | | | | | | | | | | | | r | |]; try discriminate Hc.
  exists h, r, k. split; [exact Hrun |]. split; [by injection Hc |].
  destruct (resumed_effect_approved demo_host resumption auth_resumption (DispatchJson r) h)
    as (_ & _ & Hauth).
  exact (proj1 (proj2 (Hauth k Hrun eq_refl))).
Defined.
End demo.
