(* ===== verification/Collections.v ===== *)
(** * Records and ordered collections

    [r <| field := v |>]: a Rust method that assigns to fields of a struct becomes a
    function that rebuilds the record; an instance of [Setter] per assigned field is
    computed by [setter] from the identity written out field by field ([Eta]).
    [sort_by_key], a stable sort; a map bounded by the order of insertion
    ([prune_ordered_map]); counting in maps. *)

From S2P Require Import Prelude.
From Stdlib Require Import Lia Sorted.

(** The identity, written as the constructor applied to the fields. *)
Class Eta (T : Type) := eta : T -> T.

Class Setter {T A : Type} (field : T -> A) := set_field : (A -> A) -> T -> T.
Global Arguments set_field {T A} field {_} f r /.

(** [setter]: replaces the field in the written-out identity. *)
Ltac setter :=
  lazymatch goal with
  | |- @Setter ?T ?A ?field =>
      let identity := constr:(_ : Eta T) in
      let identity := lazymatch identity with ?h => eval cbv delta [h] in h end in
      exact (fun (f : A -> A) (r : T) =>
        ltac:(let e := eval cbv beta in (identity r) in
              let e := eval pattern (field r) in e in
              lazymatch e with
              | ?h _ => let e := eval cbv beta in (h (f (field r))) in exact e
              end))
  end.

Declare Scope record_scope.
Delimit Scope record_scope with record.
Notation "r <| field := v |>" := (set_field field (fun _ => v) r)
  (at level 12, left associativity, format "r  <| field  :=  v |>") : record_scope.
Notation "r <| field ::= f |>" := (set_field field f r)
  (at level 12, left associativity, format "r  <| field  ::=  f |>") : record_scope.


(** ** Stable sorting *)

Section sorting.
Context {A : Type} (le : A -> A -> bool).

Fixpoint sort_insert (x : A) (l : list A) : list A :=
  match l with
  | [] => [x]
  | y :: l' => if le x y then x :: l else y :: sort_insert x l'
  end.

(** [slice::sort_by], which is stable. *)
Definition stable_sort (l : list A) : list A := foldr sort_insert [] l.

Lemma sort_insert_perm x l : sort_insert x l ≡ₚ x :: l.
Proof.
  induction l as [| y l IH]; simpl; [done |]. destruct (le x y); [done |].
  rewrite IH. constructor.
Qed.

Lemma stable_sort_perm l : stable_sort l ≡ₚ l.
Proof. induction l as [| x l IH]; simpl; [done |]. by rewrite sort_insert_perm, IH. Qed.

(** A list already in order stays as it is. *)
Lemma stable_sort_sorted l : StronglySorted (fun x y => le x y = true) l -> stable_sort l = l.
Proof.
  induction 1 as [| x l _ IH Hx]; simpl; [done |]. rewrite IH.
  destruct l as [| y l]; simpl; [done |]. apply Forall_cons in Hx as [Hxy _]. by rewrite Hxy.
Qed.

Lemma stable_sort_elem l x : x ∈ stable_sort l <-> x ∈ l.
Proof. by rewrite stable_sort_perm. Qed.
End sorting.

(** [sort_by_key] on numbers *)
Definition sort_by_N {A} (key : A -> N) : list A -> list A := stable_sort (fun x y => (key x <=? key y)%N).
Definition sort_by_Z {A} (key : A -> Z) : list A -> list A := stable_sort (fun x y => (key x <=? key y)%Z).

Lemma sort_by_N_sorted {A} (key : A -> N) l :
  StronglySorted (fun x y => key x <= key y)%N (sort_by_N key l).
Proof.
  unfold sort_by_N, stable_sort. induction l as [| x l IH]; [constructor |]. cbn [foldr].
  revert IH. generalize (foldr (sort_insert (fun x y => key x <=? key y)%N) [] l). intros k.
  induction 1 as [| y k Hk IH Hy]; cbn; [by repeat constructor |].
  destruct (N.leb_spec (key x) (key y)) as [Hle | Hlt].
  - constructor; [by constructor |]. constructor; [done |]. eapply Forall_impl; [exact Hy |]. cbn. lia.
  - constructor; [done |]. apply Forall_forall. intros z. rewrite (sort_insert_perm _ x k), elem_of_cons.
    intros [-> | Hz]; [lia |]. by apply (proj1 (Forall_forall _ _) Hy).
Qed.

(** ** Maps in order of insertion *)

Section ordered_maps.
Context {K V : Type} `{Countable K}.

(** The first loop of [prune_ordered_map]: while the map is too large, the oldest key
    leaves.  The answer lists the keys that left. *)
Fixpoint prune_oldest (max : N) (order : list K) (m : gmap K V) : list K * gmap K V * list K :=
  if (N.of_nat (size m) <=? max)%N then (order, m, [])
  else match order with
       | [] => ([], m, [])
       | k :: order' =>
           let '(order'', m', removed) := prune_oldest max order' (delete k m) in
           (order'', m', if decide (is_Some (m !! k)) then k :: removed else removed)
       end.

(** The second loop: keys without an entry leave the front. *)
Fixpoint drop_absent (order : list K) (m : gmap K V) : list K :=
  match order with
  | k :: order' => if decide (is_Some (m !! k)) then order else drop_absent order' m
  | [] => []
  end.

Definition prune_ordered_map (max : N) (order : list K) (m : gmap K V) :
    list K * gmap K V * list K :=
  let '(order', m', removed) := prune_oldest max order m in (drop_absent order' m', m', removed).

(** The order lists every key of the map once. *)
Definition ordered (order : list K) (m : gmap K V) : Prop :=
  NoDup order /\ forall k, k ∈ order <-> is_Some (m !! k).

Lemma ordered_empty : ordered [] ∅.
Proof.
  split; [constructor |]. intros k. rewrite lookup_empty, elem_of_nil.
  split; [done |]. by intros [].
Qed.

(** A key of an ordered map is at most as far from the front as the map is large. *)
Lemma ordered_length order m : ordered order m -> length order = size m.
Proof.
  intros [Hn Hk]. rewrite <- size_dom.
  assert (dom m = list_to_set order) as -> by (apply set_eq; intros k; by rewrite elem_of_dom, elem_of_list_to_set, Hk).
  by rewrite size_list_to_set.
Qed.

(** What [entry absent => order.push_back; map.insert] keeps. *)
Lemma ordered_insert order m k v :
  ordered order m ->
  ordered (if decide (is_Some (m !! k)) then order else order ++ [k]) (<[k := v]> m).
Proof.
  intros [Hn Hk]. case_decide as Hs.
  - split; [done |]. intros k'. rewrite Hk. destruct (decide (k' = k)) as [-> | Hne].
    + rewrite lookup_insert_eq. split; [eauto | done].
    + by rewrite lookup_insert_ne by done.
  - split.
    + apply NoDup_app. split; [done |]. split; [| apply NoDup_singleton].
      intros k' Hin Heq%list_elem_of_singleton. subst. by apply Hs, Hk.
    + intros k'. rewrite elem_of_app, list_elem_of_singleton, Hk.
      destruct (decide (k' = k)) as [-> | Hne].
      * rewrite lookup_insert_eq. split; [eauto | by right].
      * rewrite lookup_insert_ne by done. split; [by intros [] | by left].
Qed.

Lemma drop_absent_ordered order m : ordered order m -> drop_absent order m = order.
Proof.
  intros [_ Hk]. destruct order as [| k order]; simpl; [done |].
  rewrite decide_True; [done | apply Hk, list_elem_of_here].
Qed.

(** Pruning an ordered map removes exactly its oldest keys. *)
Lemma prune_oldest_spec max order m order' m' removed :
  ordered order m -> prune_oldest max order m = (order', m', removed) ->
  ordered order' m' /\ order = removed ++ order' /\ (N.of_nat (size m') <= max)%N
  /\ (forall k, m' !! k = if decide (k ∈ removed) then None else m !! k)
  /\ length removed = size m - N.to_nat max.
Proof.
  revert m order' m' removed.
  induction order as [| k order IH]; intros m order' m' removed Ho; simpl.
  - destruct (N.leb_spec (N.of_nat (size m)) max) as [Hle | Hlt]; intros [= <- <- <-].
    + split_and!; [done | done | done | | simpl; lia].
      intros k. rewrite decide_False; [done |]. apply not_elem_of_nil.
    + pose proof (ordered_length _ _ Ho) as Hs. simpl in Hs. lia.
  - destruct (N.leb_spec (N.of_nat (size m)) max) as [Hle | Hlt].
    + intros [= <- <- <-]. split_and!; [done | done | done | | simpl; lia].
      intros k'. rewrite decide_False; [done |]. apply not_elem_of_nil.
    + destruct (prune_oldest max order (delete k m)) as [[o1 m1] r1] eqn:Hp. intros [= <- <- <-].
      destruct Ho as [Hn Hk]. apply NoDup_cons in Hn as [Hnk Hn].
      assert (is_Some (m !! k)) as Hsk by apply Hk, list_elem_of_here.
      assert (ordered order (delete k m)) as Ho1.
      { split; [done |]. intros k'. destruct (decide (k' = k)) as [-> | Hne].
        - rewrite lookup_delete_eq. split; [by intros | by intros []].
        - rewrite lookup_delete_ne by done. rewrite <- Hk, elem_of_cons. naive_solver. }
      destruct (IH _ _ _ _ Ho1 Hp) as (Ho2 & -> & Hsz & Hm & Hlen).
      rewrite decide_True by done. split_and!; [done | done | done | |].
      * intros k'. rewrite Hm. destruct (decide (k' = k)) as [-> | Hne].
        { rewrite lookup_delete_eq, (decide_True (P := k ∈ k :: r1)) by apply list_elem_of_here.
          by case_decide. }
        rewrite lookup_delete_ne by done.
        destruct (decide (k' ∈ r1)) as [Hin | Hnin].
        { by rewrite decide_True by (by apply list_elem_of_further). }
        rewrite decide_False; [done |]. by intros [? | ?]%elem_of_cons.
      * simpl. rewrite Hlen, map_size_delete_Some by done. destruct Hsk as [v Hv].
        assert (size m <> 0) by (intros Hz%map_size_empty_iff; subst; by rewrite lookup_empty in Hv).
        lia.
Qed.

Lemma prune_ordered_map_spec max order m order' m' removed :
  ordered order m -> prune_ordered_map max order m = (order', m', removed) ->
  ordered order' m' /\ order = removed ++ order' /\ (N.of_nat (size m') <= max)%N
  /\ (forall k, m' !! k = if decide (k ∈ removed) then None else m !! k)
  /\ length removed = size m - N.to_nat max.
Proof.
  unfold prune_ordered_map. intros Ho. destruct (prune_oldest max order m) as [[o1 m1] r1] eqn:Hp.
  intros [= <- <- <-]. destruct (prune_oldest_spec _ _ _ _ _ _ Ho Hp) as (H1 & H2 & H3).
  by rewrite drop_absent_ordered.
Qed.
End ordered_maps.

(** ** Counting in maps *)

Section counting.
Context {K V : Type} `{Countable K}.

Definition count_map (f : V -> bool) (m : gmap K V) : N := map_sum (fun v => if f v then 1%N else 0%N) m.

Lemma count_map_empty f : count_map f ∅ = 0%N.
Proof. apply map_sum_empty. Qed.

Lemma count_map_insert f m k v :
  m !! k = None -> count_map f (<[k := v]> m) = ((if f v then 1 else 0) + count_map f m)%N.
Proof. apply map_sum_insert_None. Qed.
End counting.

(** ** Maps made from lists *)

(** [into_iter().map(|r| (key(r), r)).collect::<HashMap>()], with a choice of what is
    filed. *)
Definition collect_map {A K V} `{Countable K} (entry : A -> option (K * V)) (l : list A) (m : gmap K V) : gmap K V :=
  fold_left (fun m x => match entry x with Some (k, v) => <[k := v]> m | None => m end) l m.

Definition map_values {K V} `{Countable K} (m : gmap K V) : list V := (map_to_list m).*2.

Lemma elem_of_values {K V} `{Countable K} (m : gmap K V) v : v ∈ map_values m <-> exists k, m !! k = Some v.
Proof.
  unfold map_values. rewrite list_elem_of_fmap. split.
  - intros ([k v'] & -> & Hin). exists k. by apply elem_of_map_to_list.
  - intros [k Hk]. exists (k, v). by rewrite elem_of_map_to_list.
Qed.

(** When no two entries disagree, the order of the list does not matter. *)
Lemma collect_map_lookup {A K V} `{Countable K} (entry : A -> option (K * V)) l (look : K -> option V) k :
  (forall x k v, x ∈ l -> entry x = Some (k, v) -> look k = Some v) ->
  (forall k v, look k = Some v -> exists x, x ∈ l /\ entry x = Some (k, v)) ->
  collect_map entry l ∅ !! k = look k.
Proof.
  intros Hsound Hall.
  assert (forall m, (forall k v, m !! k = Some v -> look k = Some v) ->
    (forall k v, collect_map entry l m !! k = Some v -> look k = Some v)
    /\ (forall k, is_Some (m !! k) -> is_Some (collect_map entry l m !! k))
    /\ (forall x k v, x ∈ l -> entry x = Some (k, v) -> is_Some (collect_map entry l m !! k))) as Hgen.
  { clear Hall. induction l as [| x l IH]; intros m Hm; unfold collect_map; cbn [fold_left].
    { split_and!; [done | done |]. by intros x k0 v ?%elem_of_nil. }
    fold (collect_map entry l (match entry x with Some (k, v) => <[k := v]> m | None => m end)).
    set (m1 := match entry x with Some (k, v) => <[k := v]> m | None => m end).
    destruct (IH (fun x k v Hx => Hsound x k v (list_elem_of_further _ _ _ Hx)) m1) as (H1 & H2 & H3).
    { unfold m1. destruct (entry x) as [[k1 v1] |] eqn:He; [| done]. intros k0 v0.
      destruct (decide (k1 = k0)) as [-> | Hne].
      - rewrite lookup_insert_eq. intros [= <-]. by apply (Hsound x), He; apply list_elem_of_here.
      - rewrite lookup_insert_ne by done. apply Hm. }
    split_and!; [done | |].
    - intros k0 Hk0. apply H2. unfold m1. destruct (entry x) as [[k1 v1] |]; [| done].
      destruct (decide (k1 = k0)) as [-> | Hne]; [rewrite lookup_insert_eq; by eexists |].
      by rewrite lookup_insert_ne.
    - intros y k0 v0 [-> | Hy]%elem_of_cons He; [| by apply (H3 y k0 v0)].
      apply H2. unfold m1. rewrite He, lookup_insert_eq. by eexists. }
  destruct (Hgen ∅) as (H1 & _ & H3); [intros k0 v; by rewrite lookup_empty |].
  destruct (collect_map entry l ∅ !! k) as [v |] eqn:Hc; [by rewrite (H1 _ _ Hc) |].
  destruct (look k) as [v |] eqn:Hl; [| done]. destruct (Hall k v Hl) as (x & Hx & He).
  destruct (H3 x k v Hx He) as [w Hw]. congruence.
Qed.

(** Collecting the values of a map under their keys gives the map back. *)
Lemma collect_map_values {K V A} `{Countable K} (m : gmap K V) (entry : A -> option (K * V)) (make : V -> A) l :
  l ≡ₚ make <$> map_values m ->
  (forall k v, m !! k = Some v -> entry (make v) = Some (k, v)) ->
  collect_map entry l ∅ = m.
Proof.
  intros Hl He. apply map_eq. intros k. apply (collect_map_lookup entry l (fun k => m !! k)).
  - intros x k0 v0 Hx Hx0. rewrite Hl in Hx. apply list_elem_of_fmap in Hx as (v & -> & [k1 Hk1]%elem_of_values).
    rewrite (He _ _ Hk1) in Hx0. by injection Hx0 as <- <-.
  - intros k0 v0 Hk0. exists (make v0). split; [| by apply He]. rewrite Hl. apply list_elem_of_fmap.
    exists v0. split; [done |]. apply elem_of_values. eauto.
Qed.

(** Values filed under distinct keys have distinct keys. *)
Lemma values_NoDup {K V A} `{Countable K} (m : gmap K V) (key : A -> K) (make : V -> A) l :
  l ≡ₚ make <$> map_values m -> (forall k v, m !! k = Some v -> key (make v) = k) -> NoDup (key <$> l).
Proof.
  intros Hl Hk. rewrite Hl. unfold map_values.
  assert (key <$> (make <$> (map_to_list m).*2) = (map_to_list m).*1) as ->; [| apply NoDup_fst_map_to_list].
  rewrite <- !list_fmap_compose. apply list_fmap_ext. intros i [k v] Hi. cbn. apply Hk, elem_of_map_to_list.
  by eapply list_elem_of_lookup_2.
Qed.

Lemma omap_NoDup {A B K} (f : A -> option B) (key : A -> K) (make : B -> K) l :
  (forall x y, f x = Some y -> key x = make y) -> NoDup (key <$> l) -> NoDup (omap f l).
Proof.
  intros Hf. induction l as [| x l IH]; simpl; [constructor |].
  intros [Hni Hn]%NoDup_cons. destruct (f x) as [y |] eqn:Hx; [| by apply IH].
  apply NoDup_cons. split; [| by apply IH]. intros (x' & Hx' & Hy)%list_elem_of_omap.
  apply Hni. rewrite (Hf _ _ Hx), <- (Hf _ _ Hy). by apply list_elem_of_fmap_2.
Qed.
