(* ===== verification/Turns.v ===== *)
(** * Turns: statuses, scopes, requests, records, errors

    Models the data of [ironclaw_turns]: [status.rs], [scope.rs], [origin.rs], the
    reference newtypes of [ids.rs], [request.rs], [response.rs], [runner.rs] and the
    records of [store.rs].  The resolved run profile and the validator of model routes
    belong to [run_profile] and are parameters ([TurnPayload]). *)

From S2P Require Import Prelude Collections Strings Ids Platform HostApi Capability Obligations.
From Stdlib Require Import Ascii Lia.

(** ** Identifiers ([ids.rs])

    UUIDs are 128-bit numbers, references are their strings. *)

Abbreviation TurnId := N.
Abbreviation TurnRunId := N.
Abbreviation CapabilityActivityId := N.
Abbreviation TurnCheckpointId := N.
Abbreviation TurnLeaseToken := N.
Abbreviation TurnRunnerId := N.
Abbreviation AcceptedMessageRef := string.
Abbreviation SourceBindingRef := string.
Abbreviation ReplyTargetBindingRef := string.
Abbreviation GateRef := string.
Abbreviation LoopGateRef := string.
Abbreviation IdempotencyKey := string.
Abbreviation RunProfileRequest := string.
Abbreviation RunProfileId := string.
Abbreviation RunProfileVersion := N.
Abbreviation LoopCheckpointStateRef := string.
Abbreviation CheckpointSchemaId := string.
Abbreviation EventCursor := N.
Abbreviation TurnTimestamp := DateTime.

Definition validate_ref (kind value : string) : Result unit string :=
  reject_if (String.eqb value "") (kind +:+ " must not be empty") (
  reject_if (Nat.ltb 256 (str_len value)) (kind +:+ " must be at most 256 bytes") (
  reject_if (has_control value) (kind +:+ " must not contain control characters") (
  Ok tt))).

(** [validate_loop_ref], for the references with a prefix such as [gate:]. *)
Definition validate_loop_ref (kind prefix value : string) : Result unit string :=
  and_then (validate_ref kind value) (fun _ =>
  match strip_prefix prefix value with
  | None => Err (kind +:+ " must start with " +:+ prefix)
  | Some suffix =>
      reject_if (String.eqb suffix "") (kind +:+ " must include an opaque id after " +:+ prefix) (
      reject_if (any_byte (fun c => negb (is_ascii_alphanumeric c || Ascii.eqb c "_"
                                          || Ascii.eqb c "-" || Ascii.eqb c ".")) suffix)
        (kind +:+ " opaque id must contain only ASCII letters, digits, _, -, or .") (
      Ok tt))
  end).

Definition default_profile : RunProfileId := "default".
Definition interactive_default : RunProfileId := "interactive_default".

Definition is_interactive_default (id : RunProfileId) : bool := String.eqb id interactive_default.

(** ** [status.rs] *)

Inductive TurnStatus :=
  | TurnQueued
  | TurnRunning
  | TurnBlockedApproval
  | TurnBlockedAuth
  | TurnBlockedResource
  | TurnBlockedDependentRun
  | TurnBlockedExternalTool
  | TurnCancelRequested
  | TurnCancelled
  | TurnCompleted
  | TurnFailed
  | TurnRecoveryRequired.

#[export] Instance TurnStatus_eq_dec : EqDecision TurnStatus.
Proof. solve_decision. Defined.

Definition turn_is_terminal (s : TurnStatus) : bool :=
  match s with
  | TurnCancelled | TurnCompleted | TurnFailed | TurnRecoveryRequired => true
  | _ => false
  end.

Definition turn_is_blocked (s : TurnStatus) : bool :=
  match s with
  | TurnBlockedApproval | TurnBlockedAuth | TurnBlockedResource
  | TurnBlockedDependentRun | TurnBlockedExternalTool => true
  | _ => false
  end.

Definition keeps_active_lock (s : TurnStatus) : bool := negb (turn_is_terminal s).

Inductive BlockedReason :=
  | BlockApproval (gate_ref : GateRef)
  | BlockAuth (gate_ref : GateRef)
      (credential_requirements : list RuntimeCredentialAuthRequirement)
  | BlockResource (gate_ref : GateRef)
  | AwaitDependentRun (gate_ref : GateRef)
  | BlockExternalTool (gate_ref : GateRef).

Definition reason_status (r : BlockedReason) : TurnStatus :=
  match r with
  | BlockApproval _ => TurnBlockedApproval
  | BlockAuth _ _ => TurnBlockedAuth
  | BlockResource _ => TurnBlockedResource
  | AwaitDependentRun _ => TurnBlockedDependentRun
  | BlockExternalTool _ => TurnBlockedExternalTool
  end.

Definition reason_gate_ref (r : BlockedReason) : GateRef :=
  match r with
  | BlockApproval g | BlockAuth g _ | BlockResource g | AwaitDependentRun g
  | BlockExternalTool g => g
  end.

Definition reason_credential_requirements (r : BlockedReason) :
    list RuntimeCredentialAuthRequirement :=
  match r with BlockAuth _ requirements => requirements | _ => [] end.

Record SanitizedFailure := {
  sf_category : string;
  sf_detail : option string;
}.

Definition validate_sanitized_category (kind value : string) : Result unit string :=
  reject_if (String.eqb value "") (kind +:+ " must not be empty") (
  reject_if (Nat.ltb 256 (str_len value)) (kind +:+ " must be at most 256 bytes") (
  reject_if (has_control value) (kind +:+ " must not contain control characters") (
  reject_if (any_byte (fun c => negb (is_ascii_lowercase c || is_ascii_digit c
                                      || Ascii.eqb c "_")) value)
    (kind +:+ " must contain only lowercase ASCII letters, digits, or underscores") (
  Ok tt)))).

Definition sanitized_failure_new (category : string) : Result SanitizedFailure string :=
  and_then (validate_sanitized_category "failure_category" category)
    (fun _ => Ok {| sf_category := category; sf_detail := None |}).

Definition from_trusted_static (category : string) : SanitizedFailure :=
  {| sf_category := category; sf_detail := None |}.

Definition with_detail (detail : string) (f : SanitizedFailure) : SanitizedFailure :=
  {| sf_category := sf_category f; sf_detail := Some detail |}.

Definition public_projection (f : SanitizedFailure) : SanitizedFailure :=
  {| sf_category := sf_category f; sf_detail := None |}.

(** What [Deserialize] makes of the wire fields: [split_once(':')] with two non-empty
    parts and no further colon is the historical form. *)
Definition failure_from_wire (category : string) (detail : option string) :
    Result SanitizedFailure string :=
  let normalized :=
    match split_on ":" category with
    | [before; after] =>
        if negb (String.eqb before "") && negb (String.eqb after "")
        then before +:+ "_" +:+ after else category
    | _ => category
    end in
  result_map (fun f => {| sf_category := sf_category f; sf_detail := detail |})
    (sanitized_failure_new normalized).

Inductive SanitizedCancelReason :=
  CancelUserRequested | CancelSuperseded | CancelTimeout | CancelOperatorRequested | CancelPolicy.

Definition cancel_reason_category (r : SanitizedCancelReason) : string :=
  match r with
  | CancelUserRequested => "user_requested"
  | CancelSuperseded => "superseded"
  | CancelTimeout => "timeout"
  | CancelOperatorRequested => "operator_requested"
  | CancelPolicy => "policy"
  end.

(** ** [scope.rs] *)

Inductive TurnThreadOwner :=
  | ActorFallback
  | ExplicitUser (owner_user_id : UserId)
  | Ownerless.

#[export] Instance TurnThreadOwner_eq_dec : EqDecision TurnThreadOwner.
Proof. solve_decision. Defined.

#[export] Instance TurnThreadOwner_countable : Countable TurnThreadOwner.
Proof.
  refine (inj_countable'
    (fun o => match o with ActorFallback => inl false | Ownerless => inl true | ExplicitUser u => inr u end)
    (fun x => match x with inl false => ActorFallback | inl true => Ownerless | inr u => ExplicitUser u end) _).
  by intros [].
Defined.

Record TurnScope := {
  ts_tenant_id : TenantId;
  ts_agent_id : option AgentId;
  ts_project_id : option ProjectId;
  ts_thread_id : ThreadId;
  ts_thread_owner : TurnThreadOwner;
}.

#[export] Instance TurnScope_eq_dec : EqDecision TurnScope.
Proof. solve_decision. Defined.

#[export] Instance TurnScope_countable : Countable TurnScope.
Proof.
  refine (inj_countable'
    (fun s => (ts_tenant_id s, ts_agent_id s, ts_project_id s, ts_thread_id s, ts_thread_owner s))
    (fun '(a, b, c, d, e) => {| ts_tenant_id := a; ts_agent_id := b; ts_project_id := c;
                                ts_thread_id := d; ts_thread_owner := e |}) _).
  by intros [].
Defined.

Definition thread_owner_explicit (owner : option UserId) : TurnThreadOwner :=
  match owner with Some u => ExplicitUser u | None => Ownerless end.

Definition explicit_owner_user_id (s : TurnScope) : option UserId :=
  match ts_thread_owner s with ExplicitUser u => Some u | ActorFallback | Ownerless => None end.

(** [TurnScope::new] *)
Definition turn_scope_new (tenant : TenantId) (agent : option AgentId)
    (project : option ProjectId) (thread : ThreadId) : TurnScope := {|
  ts_tenant_id := tenant; ts_agent_id := agent; ts_project_id := project;
  ts_thread_id := thread; ts_thread_owner := ActorFallback |}.

(** [TurnScope::new_with_owner] *)
Definition turn_scope_new_with_owner (tenant : TenantId) (agent : option AgentId)
    (project : option ProjectId) (thread : ThreadId) (owner : option UserId) : TurnScope := {|
  ts_tenant_id := tenant; ts_agent_id := agent; ts_project_id := project;
  ts_thread_id := thread; ts_thread_owner := thread_owner_explicit owner |}.

Definition same_thread (s other : TurnScope) : bool :=
  bool_decide (ts_tenant_id s = ts_tenant_id other)
  && bool_decide (ts_agent_id s = ts_agent_id other)
  && bool_decide (ts_project_id s = ts_project_id other)
  && bool_decide (ts_thread_id s = ts_thread_id other).

Record TurnActor := { ta_user_id : UserId }.

#[export] Instance TurnActor_eq_dec : EqDecision TurnActor.
Proof. solve_decision. Defined.

Definition to_resource_scope (fresh : InvocationId) (s : TurnScope) : Resource.ResourceScope := {|
  Resource.tenant_id := ts_tenant_id s;
  Resource.user_id := default Resource.SYSTEM_RESERVED_ID (explicit_owner_user_id s);
  Resource.agent_id := ts_agent_id s;
  Resource.project_id := ts_project_id s;
  Resource.mission_id := None;
  Resource.thread_id := Some (ts_thread_id s);
  Resource.invocation_id := fresh;
|}.

(** ** [origin.rs] *)

Inductive TurnOriginKind := OriginWebUi | OriginInbound | OriginScheduledTrigger.
Inductive TurnSurfaceType := SurfaceDirect | SurfaceChannel.
Abbreviation RunOriginAdapter := string.

Inductive TurnOwner :=
  | PersonalOwner (user : UserId)
  | SharedAgentOwner (agent : AgentId) (project : option ProjectId).

Record ProductTurnContext := {
  pc_origin : TurnOriginKind;
  pc_surface_type : option TurnSurfaceType;
  pc_adapter : option RunOriginAdapter;
  pc_owner : TurnOwner;
}.

Definition product_owner (s : TurnScope) (actor : TurnActor) : TurnOwner :=
  match explicit_owner_user_id s with
  | Some user => PersonalOwner user
  | None =>
      match ts_agent_id s with
      | Some agent => SharedAgentOwner agent (ts_project_id s)
      | None => PersonalOwner (ta_user_id actor)
      end
  end.

(** ** Admission: data of [status.rs] and [admission.rs] *)

Abbreviation TurnAdmissionClass := string.

Definition interactive_class : TurnAdmissionClass := "interactive".

Definition validate_admission_class (value : string) : Result unit string :=
  reject_if (String.eqb value "") "turn admission class must not be empty" (
  reject_if (Nat.ltb 128 (str_len value)) "turn admission class must be at most 128 bytes" (
  reject_if (has_control value) "turn admission class must not contain control characters" (
  reject_if (any_byte (fun c => negb (is_ascii_lowercase c || is_ascii_digit c
                                      || Ascii.eqb c "_")) value)
    "turn admission class must contain only lowercase ASCII letters, digits, or _" (
  Ok tt)))).

Inductive TurnAdmissionAxisKind := TenantAxis | ActorUserAxis | ProjectAxis | AgentAxis.
Inductive TurnAdmissionBucketKind := TotalBucket | ClassBucket.

#[export] Instance TurnAdmissionAxisKind_eq_dec : EqDecision TurnAdmissionAxisKind.
Proof. solve_decision. Defined.
#[export] Instance TurnAdmissionBucketKind_eq_dec : EqDecision TurnAdmissionBucketKind.
Proof. solve_decision. Defined.

Inductive TurnAdmissionBucketScope :=
  | TenantBucket (tenant_id : TenantId)
  | ActorUserBucket (tenant_id : TenantId) (user_id : UserId)
  | ProjectBucket (tenant_id : TenantId) (project_id : option ProjectId)
  | AgentBucket (tenant_id : TenantId) (agent_id : option AgentId).

#[export] Instance TurnAdmissionBucketScope_eq_dec : EqDecision TurnAdmissionBucketScope.
Proof. solve_decision. Defined.

Record TurnAdmissionBucket := {
  tb_axis_kind : TurnAdmissionAxisKind;
  tb_bucket_kind : TurnAdmissionBucketKind;
  tb_admission_class : option TurnAdmissionClass;
  tb_scope : TurnAdmissionBucketScope;
}.

#[export] Instance TurnAdmissionBucket_eq_dec : EqDecision TurnAdmissionBucket.
Proof. solve_decision. Defined.

Record TurnAdmissionLimit := {
  tl_max_active : option N;
  tl_retry_after_ms : option N;
}.

Definition unlimited_admission : TurnAdmissionLimit :=
  {| tl_max_active := None; tl_retry_after_ms := None |}.

(** [TurnAdmissionLimitProvider::limit_for]; an error is [TurnAdmissionLimitUnavailable]. *)
Abbreviation LimitProvider := (TurnAdmissionBucket -> Result TurnAdmissionLimit unit).

(** [AllowAllTurnAdmissionLimitProvider] *)
Definition allow_all_limits : LimitProvider := fun _ => Ok unlimited_admission.

(** [StaticTurnAdmissionLimitProvider]: limits by axis, bucket kind and class. *)
Record StaticLimits := {
  sl_limits : list ((TurnAdmissionAxisKind * TurnAdmissionBucketKind * option TurnAdmissionClass)
                    * TurnAdmissionLimit);
  sl_unavailable : bool;
}.

Definition static_insert axis kind class max_active (p : StaticLimits) : StaticLimits := {|
  sl_limits := ((axis, kind, class), {| tl_max_active := Some max_active; tl_retry_after_ms := None |})
    :: List.filter (fun x => negb (bool_decide (x.1 = (axis, kind, class)))) (sl_limits p);
  sl_unavailable := sl_unavailable p |}.

Definition with_total_limit (axis : TurnAdmissionAxisKind) (max_active : N) : StaticLimits -> StaticLimits :=
  static_insert axis TotalBucket None max_active.

Definition with_class_limit (axis : TurnAdmissionAxisKind) (class : TurnAdmissionClass)
    (max_active : N) : StaticLimits -> StaticLimits :=
  static_insert axis ClassBucket (Some class) max_active.

Definition static_limit_for (p : StaticLimits) : LimitProvider := fun bucket =>
  if sl_unavailable p then Err tt
  else Ok match List.find (fun x => bool_decide
                  (x.1 = (tb_axis_kind bucket, tb_bucket_kind bucket, tb_admission_class bucket)))
                (sl_limits p) with
          | Some (_, limit) => limit
          | None => unlimited_admission
          end.

Record TurnAdmissionCapacityDenial := {
  cd_axis_kind : TurnAdmissionAxisKind;
  cd_bucket_kind : TurnAdmissionBucketKind;
  cd_admission_class : option TurnAdmissionClass;
  cd_limit : N;
  cd_active_count : N;
  cd_retry_after_ms : option N;
}.

Inductive AdmissionRejectionReason :=
  TenantLimit | ProfileRejected | PolicyRejected | UnauthorizedRejected | UnavailableRejected.

Record AdmissionRejection := {
  ar_reason : AdmissionRejectionReason;
  ar_retry_after_ms : option N;
  ar_capacity_denial : option TurnAdmissionCapacityDenial;
}.

Definition rejection_new (reason : AdmissionRejectionReason) : AdmissionRejection :=
  {| ar_reason := reason; ar_retry_after_ms := None; ar_capacity_denial := None |}.

Definition with_capacity_denial (denial : TurnAdmissionCapacityDenial) (r : AdmissionRejection) :
    AdmissionRejection :=
  {| ar_reason := ar_reason r; ar_retry_after_ms := cd_retry_after_ms denial;
     ar_capacity_denial := Some denial |}.

Record TurnAdmissionReservationRecord := {
  res_run_id : TurnRunId;
  res_admission_class : TurnAdmissionClass;
  res_buckets : list TurnAdmissionBucket;
  res_released : bool;
}.

Definition total_and_class (class : TurnAdmissionClass) (axis : TurnAdmissionAxisKind)
    (scope : TurnAdmissionBucketScope) : list TurnAdmissionBucket :=
  [ {| tb_axis_kind := axis; tb_bucket_kind := TotalBucket; tb_admission_class := None;
       tb_scope := scope |};
    {| tb_axis_kind := axis; tb_bucket_kind := ClassBucket; tb_admission_class := Some class;
       tb_scope := scope |} ].

Definition admission_buckets (scope : TurnScope) (actor : TurnActor) (class : TurnAdmissionClass) :
    list TurnAdmissionBucket :=
  total_and_class class TenantAxis (TenantBucket (ts_tenant_id scope))
  ++ total_and_class class ActorUserAxis (ActorUserBucket (ts_tenant_id scope) (ta_user_id actor))
  ++ total_and_class class ProjectAxis (ProjectBucket (ts_tenant_id scope) (ts_project_id scope))
  ++ total_and_class class AgentAxis (AgentBucket (ts_tenant_id scope) (ts_agent_id scope)).

(** ** Responses and errors ([response.rs], [status.rs]) *)

Record SubmitAccepted := {
  sa_turn_id : TurnId;
  sa_run_id : TurnRunId;
  sa_status : TurnStatus;
  sa_resolved_run_profile_id : RunProfileId;
  sa_resolved_run_profile_version : RunProfileVersion;
  sa_event_cursor : EventCursor;
  sa_accepted_message_ref : AcceptedMessageRef;
  sa_reply_target_binding_ref : ReplyTargetBindingRef;
}.

(** [SubmitTurnResponse] has one variant. *)
Abbreviation SubmitTurnResponse := SubmitAccepted.

Record ThreadBusy := {
  tb_active_run_id : TurnRunId;
  tb_status : TurnStatus;
  tb_event_cursor : EventCursor;
}.

Record ResumeTurnResponse := {
  rs_run_id : TurnRunId;
  rs_status : TurnStatus;
  rs_event_cursor : EventCursor;
}.

Record RetryTurnResponse := {
  rt_run_id : TurnRunId;
  rt_status : TurnStatus;
  rt_event_cursor : EventCursor;
}.

Record CancelRunResponse := {
  cn_run_id : TurnRunId;
  cn_status : TurnStatus;
  cn_event_cursor : EventCursor;
  cn_already_terminal : bool;
  cn_actor : option TurnActor;
}.

Inductive TurnCapacityResource := SpawnTreeDescendants | SubmitTurnCapacity | ReplayedCapacity.

Inductive TurnError :=
  | ThreadBusyError (busy : ThreadBusy)
  | AdmissionRejected (rejection : AdmissionRejection)
  | TurnScopeNotFound
  | TurnUnauthorized
  | TurnInvalidRequest (reason : string)
  | TurnUnavailable (reason : string)
  | TurnConflict (reason : string)
  | TurnCapacityExceeded (resource : TurnCapacityResource) (cap : N)
  | RunNotRetryable (run_id : TurnRunId)
  | TurnInvalidTransition (from to : TurnStatus)
  | TurnLeaseMismatch
  | InvalidRunOriginAdapter.

Inductive TurnErrorCategory :=
  CatThreadBusy | CatAdmissionRejected | CatScopeNotFound | CatUnauthorized
  | CatInvalidRequest | CatUnavailable | CatConflict | CatCapacityExceeded.

Definition turn_error_category (e : TurnError) : TurnErrorCategory :=
  match e with
  | ThreadBusyError _ => CatThreadBusy
  | AdmissionRejected rejection =>
      match ar_reason rejection with
      | TenantLimit => CatAdmissionRejected
      | ProfileRejected => CatInvalidRequest
      | PolicyRejected | UnauthorizedRejected => CatUnauthorized
      | UnavailableRejected => CatUnavailable
      end
  | TurnScopeNotFound => CatScopeNotFound
  | TurnUnauthorized => CatUnauthorized
  | TurnInvalidRequest _ => CatInvalidRequest
  | TurnUnavailable _ => CatUnavailable
  | TurnConflict _ | RunNotRetryable _ | TurnInvalidTransition _ _ | TurnLeaseMismatch => CatConflict
  | TurnCapacityExceeded _ _ => CatCapacityExceeded
  | InvalidRunOriginAdapter => CatInvalidRequest
  end.

Definition adapter_status_code (e : TurnError) : N :=
  match turn_error_category e with
  | CatThreadBusy | CatConflict => 409
  | CatAdmissionRejected => 429
  | CatCapacityExceeded => 429
  | CatScopeNotFound => 404
  | CatUnauthorized => 403
  | CatInvalidRequest => 400
  | CatUnavailable => 503
  end.

(** ** Idempotency records ([store.rs]) *)

Inductive TurnIdempotencyOperationKind := OpSubmit | OpResume | OpRetry | OpCancel.

#[export] Instance OperationKind_eq_dec : EqDecision TurnIdempotencyOperationKind.
Proof. solve_decision. Defined.

#[export] Instance OperationKind_countable : Countable TurnIdempotencyOperationKind.
Proof.
  refine (inj_countable'
    (fun o => match o with OpSubmit => (false, false) | OpResume => (false, true)
                         | OpRetry => (true, false) | OpCancel => (true, true) end)
    (fun x => match x with (false, false) => OpSubmit | (false, true) => OpResume
                         | (true, false) => OpRetry | (true, true) => OpCancel end) _).
  by intros [].
Defined.

Inductive TurnIdempotencyOutcomeKind :=
  OutAccepted | OutThreadBusy | OutAdmissionRejected | OutResumed | OutRetried
  | OutCancelRecorded | OutScopeNotFound | OutUnauthorized | OutInvalidRequest
  | OutUnavailable | OutConflict | OutCapacityExceeded.

Definition outcome_from_error (e : TurnError) : TurnIdempotencyOutcomeKind :=
  match e with
  | ThreadBusyError _ => OutThreadBusy
  | AdmissionRejected _ => OutAdmissionRejected
  | TurnScopeNotFound => OutScopeNotFound
  | TurnUnauthorized => OutUnauthorized
  | TurnInvalidRequest _ => OutInvalidRequest
  | TurnUnavailable _ => OutUnavailable
  | TurnCapacityExceeded _ _ => OutCapacityExceeded
  | TurnConflict _ | RunNotRetryable _ | TurnInvalidTransition _ _ | TurnLeaseMismatch => OutConflict
  | InvalidRunOriginAdapter => OutInvalidRequest
  end.

Record TurnIdempotencyErrorReplay := {
  er_category : TurnErrorCategory;
  er_adapter_status_code : N;
  er_capacity_resource : option TurnCapacityResource;
  er_capacity_cap : option N;
}.

Definition error_replay_from (e : TurnError) : TurnIdempotencyErrorReplay := {|
  er_category := turn_error_category e;
  er_adapter_status_code := adapter_status_code e;
  er_capacity_resource := match e with TurnCapacityExceeded r _ => Some r | _ => None end;
  er_capacity_cap := match e with TurnCapacityExceeded _ c => Some c | _ => None end |}.

Definition error_replay_to (r : TurnIdempotencyErrorReplay) : TurnError :=
  match er_category r with
  | CatScopeNotFound => TurnScopeNotFound
  | CatUnauthorized => TurnUnauthorized
  | CatInvalidRequest => TurnInvalidRequest "replayed invalid request"
  | CatUnavailable => TurnUnavailable "replayed unavailable"
  | CatConflict => TurnConflict "replayed conflict"
  | CatCapacityExceeded =>
      TurnCapacityExceeded (default ReplayedCapacity (er_capacity_resource r))
        (default 0%N (er_capacity_cap r))
  | CatThreadBusy => TurnConflict "replayed malformed thread-busy idempotency record"
  | CatAdmissionRejected => TurnConflict "replayed malformed admission idempotency record"
  end.

Inductive TurnIdempotencyReplay :=
  | ReplaySubmitAccepted (r : SubmitTurnResponse)
  | ReplaySubmitThreadBusy (busy : ThreadBusy)
  | ReplaySubmitAdmissionRejected (r : AdmissionRejection)
  | ReplayResumeSucceeded (r : ResumeTurnResponse)
  | ReplayRetrySucceeded (r : RetryTurnResponse)
  | ReplayRetryThreadBusy (busy : ThreadBusy)
  | ReplayCancelRecorded (r : CancelRunResponse)
  | ReplayError (e : TurnIdempotencyErrorReplay).

Record TurnIdempotencyRecord := {
  ir_scope : TurnScope;
  ir_operation : TurnIdempotencyOperationKind;
  ir_key : IdempotencyKey;
  ir_turn_id : option TurnId;
  ir_run_id : option TurnRunId;
  ir_outcome : TurnIdempotencyOutcomeKind;
  ir_replay : TurnIdempotencyReplay;
  ir_created_at : TurnTimestamp;
  ir_expires_at : option TurnTimestamp;
}.

Definition replay_submit (r : TurnIdempotencyRecord) : option (Result SubmitTurnResponse TurnError) :=
  match ir_operation r, ir_replay r with
  | OpSubmit, ReplaySubmitAccepted response => Some (Ok response)
  | OpSubmit, ReplaySubmitAdmissionRejected rejection => Some (Err (AdmissionRejected rejection))
  | OpSubmit, ReplayError e => Some (Err (error_replay_to e))
  | _, _ => None
  end.

Definition replay_resume (r : TurnIdempotencyRecord) : option (Result ResumeTurnResponse TurnError) :=
  match ir_operation r, ir_replay r with
  | OpResume, ReplayResumeSucceeded response => Some (Ok response)
  | OpResume, ReplayError e => Some (Err (error_replay_to e))
  | _, _ => None
  end.

Definition replay_cancel (r : TurnIdempotencyRecord) : option (Result CancelRunResponse TurnError) :=
  match ir_operation r, ir_replay r with
  | OpCancel, ReplayCancelRecorded response => Some (Ok response)
  | OpCancel, ReplayError e => Some (Err (error_replay_to e))
  | _, _ => None
  end.

Definition replay_retry (r : TurnIdempotencyRecord) : option (Result RetryTurnResponse TurnError) :=
  match ir_operation r, ir_replay r with
  | OpRetry, ReplayRetrySucceeded response => Some (Ok response)
  | OpRetry, ReplayError e => Some (Err (error_replay_to e))
  | _, _ => None
  end.

(** ** Requests ([request.rs], [runner.rs]) *)

Inductive GateResumeDisposition := DispositionDenied.

Inductive ResumeTurnPrecondition :=
  AnyBlockedGate | BlockedApprovalGate | BlockedAuthGate | BlockedResourceGate
  | BlockedDependentRunGate | BlockedExternalToolGate.

Definition required_status (p : ResumeTurnPrecondition) : option TurnStatus :=
  match p with
  | AnyBlockedGate => None
  | BlockedApprovalGate => Some TurnBlockedApproval
  | BlockedAuthGate => Some TurnBlockedAuth
  | BlockedResourceGate => Some TurnBlockedResource
  | BlockedDependentRunGate => Some TurnBlockedDependentRun
  | BlockedExternalToolGate => Some TurnBlockedExternalTool
  end.

Record SubmitTurnRequest := {
  sr_scope : TurnScope;
  sr_actor : TurnActor;
  sr_accepted_message_ref : AcceptedMessageRef;
  sr_source_binding_ref : SourceBindingRef;
  sr_reply_target_binding_ref : ReplyTargetBindingRef;
  sr_requested_run_profile : option RunProfileRequest;
  sr_idempotency_key : IdempotencyKey;
  sr_received_at : TurnTimestamp;
  sr_requested_run_id : option TurnRunId;
  sr_parent_run_id : option TurnRunId;
  sr_subagent_depth : N;
  sr_spawn_tree_root_run_id : option TurnRunId;
  sr_product_context : option ProductTurnContext;
}.

Record SubmitChildRunRequest := {
  cr_parent_scope : TurnScope;
  cr_parent_run_id : TurnRunId;
  cr_child_scope : TurnScope;
  cr_actor : TurnActor;
  cr_accepted_message_ref : AcceptedMessageRef;
  cr_source_binding_ref : SourceBindingRef;
  cr_reply_target_binding_ref : ReplyTargetBindingRef;
  cr_requested_run_profile : option RunProfileRequest;
  cr_idempotency_key : IdempotencyKey;
  cr_received_at : TurnTimestamp;
  cr_requested_run_id : option TurnRunId;
  cr_spawn_tree_descendant_cap : N;
}.

Record ResumeTurnRequest := {
  rq_scope : TurnScope;
  rq_actor : TurnActor;
  rq_run_id : TurnRunId;
  rq_gate_resolution_ref : GateRef;
  rq_source_binding_ref : SourceBindingRef;
  rq_reply_target_binding_ref : ReplyTargetBindingRef;
  rq_idempotency_key : IdempotencyKey;
  rq_precondition : ResumeTurnPrecondition;
  rq_resume_disposition : option GateResumeDisposition;
}.

Record RetryTurnRequest := {
  ry_scope : TurnScope;
  ry_actor : TurnActor;
  ry_run_id : TurnRunId;
  ry_source_binding_ref : SourceBindingRef;
  ry_reply_target_binding_ref : ReplyTargetBindingRef;
  ry_idempotency_key : IdempotencyKey;
}.

Record CancelRunRequest := {
  cq_scope : TurnScope;
  cq_actor : TurnActor;
  cq_run_id : TurnRunId;
  cq_reason : SanitizedCancelReason;
  cq_idempotency_key : IdempotencyKey;
}.

(** The runner's credentials: every request of [runner.rs] names the run, the runner and
    the lease token. *)
Record LeaseClaim := {
  lc_run_id : TurnRunId;
  lc_runner_id : TurnRunnerId;
  lc_lease_token : TurnLeaseToken;
}.

Inductive TurnRunnerOutcome :=
  | OutcomeCompleted
  | OutcomeCancelled
  | OutcomeBlocked (checkpoint_id : TurnCheckpointId) (state_ref : LoopCheckpointStateRef)
      (reason : BlockedReason) (blocked_activity_id : option CapabilityActivityId)
  | OutcomeFailed (failure : SanitizedFailure).

(** [LoopExitMapping] ([loop_exit.rs]) *)
Inductive LoopExitMapping :=
  | RunnerOutcome (outcome : TurnRunnerOutcome)
  | MapRecoveryRequired (failure : SanitizedFailure).

(** ** Checkpoints ([checkpoint_state.rs], [store.rs], [run_profile/host.rs]) *)

Inductive LoopCheckpointKind := BeforeModel | BeforeSideEffect | BeforeBlock | FinalCheckpoint.

Definition resumable_kind (k : LoopCheckpointKind) : bool :=
  match k with BeforeModel | BeforeBlock => true | BeforeSideEffect | FinalCheckpoint => false end.

Record LoopCheckpointRecord := {
  lcr_checkpoint_id : TurnCheckpointId;
  lcr_scope : TurnScope;
  lcr_turn_id : TurnId;
  lcr_run_id : TurnRunId;
  lcr_state_ref : LoopCheckpointStateRef;
  lcr_schema_id : CheckpointSchemaId;
  lcr_schema_version : RunProfileVersion;
  lcr_kind : LoopCheckpointKind;
  lcr_gate_ref : option LoopGateRef;
  lcr_created_at : TurnTimestamp;
}.

Record PutLoopCheckpointRequest := {
  pl_scope : TurnScope;
  pl_turn_id : TurnId;
  pl_run_id : TurnRunId;
  pl_state_ref : LoopCheckpointStateRef;
  pl_schema_id : CheckpointSchemaId;
  pl_schema_version : RunProfileVersion;
  pl_kind : LoopCheckpointKind;
  pl_gate_ref : option LoopGateRef;
}.

Record TurnCheckpointRecord := {
  tc_checkpoint_id : TurnCheckpointId;
  tc_run_id : TurnRunId;
  tc_scope : option TurnScope;
  tc_sequence : N;
  tc_status : TurnStatus;
  tc_gate_ref : GateRef;
  tc_kind : LoopCheckpointKind;
  tc_state_ref : LoopCheckpointStateRef;
  tc_created_at : TurnTimestamp;
}.

Record LoopModelRouteSnapshot := {
  mr_provider_id : string;
  mr_model_id : string;
  mr_config_version : string;
  mr_auth_version : string;
}.

#[export] Instance LoopModelRouteSnapshot_eq_dec : EqDecision LoopModelRouteSnapshot.
Proof. solve_decision. Defined.

(** ** Turns and locks ([store.rs]) *)

Record TurnRecord := {
  tr_turn_id : TurnId;
  tr_scope : TurnScope;
  tr_actor : TurnActor;
  tr_accepted_message_ref : AcceptedMessageRef;
  tr_source_binding_ref : SourceBindingRef;
  tr_reply_target_binding_ref : ReplyTargetBindingRef;
  tr_created_at : TurnTimestamp;
}.

Record TurnActiveLockRecord := {
  al_key : TurnScope;
  al_run_id : TurnRunId;
  al_status : TurnStatus;
  al_lock_version : N;
  al_acquired_at : TurnTimestamp;
  al_updated_at : TurnTimestamp;
}.

(** [TurnLockVersion::incremented] *)
Definition lock_version_incremented (v : N) : N := sat_add64 v 1.

Record SpawnTreeReservationKey := {
  sk_tenant_id : TenantId;
  sk_agent_id : option AgentId;
  sk_project_id : option ProjectId;
  sk_root_run_id : TurnRunId;
}.

#[export] Instance SpawnTreeReservationKey_eq_dec : EqDecision SpawnTreeReservationKey.
Proof. solve_decision. Defined.

#[export] Instance SpawnTreeReservationKey_countable : Countable SpawnTreeReservationKey.
Proof.
  refine (inj_countable'
    (fun k => (sk_tenant_id k, sk_agent_id k, sk_project_id k, sk_root_run_id k))
    (fun '(a, b, c, d) => {| sk_tenant_id := a; sk_agent_id := b; sk_project_id := c;
                             sk_root_run_id := d |}) _).
  by intros [].
Defined.

Definition tree_key_new (scope : TurnScope) (root : TurnRunId) : SpawnTreeReservationKey := {|
  sk_tenant_id := ts_tenant_id scope; sk_agent_id := ts_agent_id scope;
  sk_project_id := ts_project_id scope; sk_root_run_id := root |}.

Record SpawnTreeReservation := {
  st_scope : TurnScope;
  st_root_run_id : TurnRunId;
  st_descendant_count : N;
  st_released_children : gset TurnRunId;
}.

(** ** Run records *)

(** What the turn store takes from [run_profile]. *)
Class TurnPayload := {
  ResolvedRunProfile : Type;
  rp_profile_id : ResolvedRunProfile -> RunProfileId;
  rp_profile_version : ResolvedRunProfile -> RunProfileVersion;
  rp_allow_steering : ResolvedRunProfile -> bool;
  (** [LoopModelRouteSnapshot::validate] *)
  route_validate : LoopModelRouteSnapshot -> Result unit string;
}.

Section with_payload.
Context `{TurnPayload}.

Record TurnRunProfile := {
  rp_id : RunProfileId;
  rp_version : RunProfileVersion;
  rp_admission_class : TurnAdmissionClass;
  rp_steering : bool;
  rp_auto_queue_followups : bool;
  rp_resolved : ResolvedRunProfile;
}.

Definition compatibility_profile_id (resolved : ResolvedRunProfile) : RunProfileId :=
  if is_interactive_default (rp_profile_id resolved) then default_profile else rp_profile_id resolved.

(** [TurnRunProfile::from_resolved] *)
Definition from_resolved (resolved : ResolvedRunProfile) : TurnRunProfile := {|
  rp_id := compatibility_profile_id resolved;
  rp_version := rp_profile_version resolved;
  rp_admission_class := interactive_class;
  rp_steering := rp_allow_steering resolved;
  rp_auto_queue_followups := false;
  rp_resolved := resolved |}.

(** The private [RunRecord] of [memory/mod.rs]; [run_status] is the [RunStatusCell]. *)
Record TurnRun := {
  run_scope : TurnScope;
  run_actor : TurnActor;
  run_turn_id : TurnId;
  run_id : TurnRunId;
  run_status : TurnStatus;
  run_profile : TurnRunProfile;
  run_resolved_model_route : option LoopModelRouteSnapshot;
  run_accepted_message_ref : AcceptedMessageRef;
  run_source_binding_ref : SourceBindingRef;
  run_reply_target_binding_ref : ReplyTargetBindingRef;
  run_checkpoint_id : option TurnCheckpointId;
  run_gate_ref : option GateRef;
  run_blocked_activity_id : option CapabilityActivityId;
  run_credential_requirements : list RuntimeCredentialAuthRequirement;
  run_failure : option SanitizedFailure;
  run_event_cursor : EventCursor;
  run_runner_id : option TurnRunnerId;
  run_lease_token : option TurnLeaseToken;
  run_lease_expires_at : option TurnTimestamp;
  run_last_heartbeat_at : option TurnTimestamp;
  run_claim_count : N;
  run_received_at : TurnTimestamp;
  run_parent_run_id : option TurnRunId;
  run_subagent_depth : N;
  run_spawn_tree_root_run_id : option TurnRunId;
  run_product_context : option ProductTurnContext;
  run_resume_disposition : option GateResumeDisposition;
}.

(** [TurnRunRecord], the persisted form: a [RunRecord] without its actor. *)
Record TurnRunRecord := {
  pr_run_id : TurnRunId;
  pr_turn_id : TurnId;
  pr_run_scope : TurnScope;
  pr_accepted_message_ref : AcceptedMessageRef;
  pr_source_binding_ref : SourceBindingRef;
  pr_reply_target_binding_ref : ReplyTargetBindingRef;
  pr_run_status : TurnStatus;
  pr_profile : TurnRunProfile;
  pr_resolved_model_route : option LoopModelRouteSnapshot;
  pr_checkpoint_id : option TurnCheckpointId;
  pr_gate_ref : option GateRef;
  pr_blocked_activity_id : option CapabilityActivityId;
  pr_credential_requirements : list RuntimeCredentialAuthRequirement;
  pr_failure : option SanitizedFailure;
  pr_event_cursor : EventCursor;
  pr_runner_id : option TurnRunnerId;
  pr_lease_token : option TurnLeaseToken;
  pr_lease_expires_at : option TurnTimestamp;
  pr_last_heartbeat_at : option TurnTimestamp;
  pr_claim_count : N;
  pr_received_at : TurnTimestamp;
  pr_parent_run_id : option TurnRunId;
  pr_subagent_depth : N;
  pr_spawn_tree_root_run_id : option TurnRunId;
  pr_product_context : option ProductTurnContext;
  pr_resume_disposition : option GateResumeDisposition;
}.

Record TurnRunState := {
  rst_scope : TurnScope;
  rst_actor : option TurnActor;
  rst_turn_id : TurnId;
  rst_run_id : TurnRunId;
  rst_status : TurnStatus;
  rst_accepted_message_ref : AcceptedMessageRef;
  rst_source_binding_ref : SourceBindingRef;
  rst_reply_target_binding_ref : ReplyTargetBindingRef;
  rst_resolved_run_profile_id : RunProfileId;
  rst_resolved_run_profile_version : RunProfileVersion;
  rst_resolved_model_route : option LoopModelRouteSnapshot;
  rst_received_at : TurnTimestamp;
  rst_checkpoint_id : option TurnCheckpointId;
  rst_gate_ref : option GateRef;
  rst_blocked_activity_id : option CapabilityActivityId;
  rst_credential_requirements : list RuntimeCredentialAuthRequirement;
  rst_failure : option SanitizedFailure;
  rst_event_cursor : EventCursor;
  rst_product_context : option ProductTurnContext;
  rst_resume_disposition : option GateResumeDisposition;
}.

Record ClaimedTurnRun := {
  cl_state : TurnRunState;
  cl_resolved_run_profile : ResolvedRunProfile;
  cl_runner_id : TurnRunnerId;
  cl_lease_token : TurnLeaseToken;
}.
End with_payload.
(** ** Updates and views of a run *)

Section run_views.
Context `{TurnPayload}.

#[export] Instance TurnRun_eta : Eta TurnRun := fun r => {|
  run_scope := run_scope r; run_actor := run_actor r; run_turn_id := run_turn_id r;
  run_id := run_id r; run_status := run_status r; run_profile := run_profile r;
  run_resolved_model_route := run_resolved_model_route r;
  run_accepted_message_ref := run_accepted_message_ref r;
  run_source_binding_ref := run_source_binding_ref r;
  run_reply_target_binding_ref := run_reply_target_binding_ref r;
  run_checkpoint_id := run_checkpoint_id r; run_gate_ref := run_gate_ref r;
  run_blocked_activity_id := run_blocked_activity_id r;
  run_credential_requirements := run_credential_requirements r; run_failure := run_failure r;
  run_event_cursor := run_event_cursor r; run_runner_id := run_runner_id r;
  run_lease_token := run_lease_token r; run_lease_expires_at := run_lease_expires_at r;
  run_last_heartbeat_at := run_last_heartbeat_at r; run_claim_count := run_claim_count r;
  run_received_at := run_received_at r; run_parent_run_id := run_parent_run_id r;
  run_subagent_depth := run_subagent_depth r;
  run_spawn_tree_root_run_id := run_spawn_tree_root_run_id r;
  run_product_context := run_product_context r;
  run_resume_disposition := run_resume_disposition r |}.

#[export] Instance set_run_status : Setter run_status := ltac:(setter).
#[export] Instance set_run_resolved_model_route : Setter run_resolved_model_route := ltac:(setter).
#[export] Instance set_run_source_binding_ref : Setter run_source_binding_ref := ltac:(setter).
#[export] Instance set_run_reply_target_binding_ref : Setter run_reply_target_binding_ref := ltac:(setter).
#[export] Instance set_run_checkpoint_id : Setter run_checkpoint_id := ltac:(setter).
#[export] Instance set_run_gate_ref : Setter run_gate_ref := ltac:(setter).
#[export] Instance set_run_blocked_activity_id : Setter run_blocked_activity_id := ltac:(setter).
#[export] Instance set_run_credential_requirements : Setter run_credential_requirements := ltac:(setter).
#[export] Instance set_run_failure : Setter run_failure := ltac:(setter).
#[export] Instance set_run_event_cursor : Setter run_event_cursor := ltac:(setter).
#[export] Instance set_run_runner_id : Setter run_runner_id := ltac:(setter).
#[export] Instance set_run_lease_token : Setter run_lease_token := ltac:(setter).
#[export] Instance set_run_lease_expires_at : Setter run_lease_expires_at := ltac:(setter).
#[export] Instance set_run_last_heartbeat_at : Setter run_last_heartbeat_at := ltac:(setter).
#[export] Instance set_run_claim_count : Setter run_claim_count := ltac:(setter).
#[export] Instance set_run_resume_disposition : Setter run_resume_disposition := ltac:(setter).

(** [RunRecord::persistence_record] *)
Definition persistence_record (r : TurnRun) : TurnRunRecord := {|
  pr_run_id := run_id r; pr_turn_id := run_turn_id r; pr_run_scope := run_scope r;
  pr_accepted_message_ref := run_accepted_message_ref r;
  pr_source_binding_ref := run_source_binding_ref r;
  pr_reply_target_binding_ref := run_reply_target_binding_ref r; pr_run_status := run_status r;
  pr_profile := run_profile r; pr_resolved_model_route := run_resolved_model_route r;
  pr_checkpoint_id := run_checkpoint_id r; pr_gate_ref := run_gate_ref r;
  pr_blocked_activity_id := run_blocked_activity_id r;
  pr_credential_requirements := run_credential_requirements r; pr_failure := run_failure r;
  pr_event_cursor := run_event_cursor r; pr_runner_id := run_runner_id r;
  pr_lease_token := run_lease_token r; pr_lease_expires_at := run_lease_expires_at r;
  pr_last_heartbeat_at := run_last_heartbeat_at r; pr_claim_count := run_claim_count r;
  pr_received_at := run_received_at r; pr_parent_run_id := run_parent_run_id r;
  pr_subagent_depth := run_subagent_depth r;
  pr_spawn_tree_root_run_id := run_spawn_tree_root_run_id r;
  pr_product_context := run_product_context r;
  pr_resume_disposition := run_resume_disposition r |}.

(** [RunRecord::state] *)
Definition run_state (r : TurnRun) : TurnRunState := {|
  rst_scope := run_scope r; rst_actor := Some (run_actor r); rst_turn_id := run_turn_id r;
  rst_run_id := run_id r; rst_status := run_status r;
  rst_accepted_message_ref := run_accepted_message_ref r;
  rst_source_binding_ref := run_source_binding_ref r;
  rst_reply_target_binding_ref := run_reply_target_binding_ref r;
  rst_resolved_run_profile_id := rp_id (run_profile r);
  rst_resolved_run_profile_version := rp_version (run_profile r);
  rst_resolved_model_route := run_resolved_model_route r; rst_received_at := run_received_at r;
  rst_checkpoint_id := run_checkpoint_id r; rst_gate_ref := run_gate_ref r;
  rst_blocked_activity_id := run_blocked_activity_id r;
  rst_credential_requirements := run_credential_requirements r; rst_failure := run_failure r;
  rst_event_cursor := run_event_cursor r; rst_product_context := run_product_context r;
  rst_resume_disposition := run_resume_disposition r |}.

(** The record of a persisted run, its actor taken from the turn. *)
Definition run_from_record (actor : TurnActor) (p : TurnRunRecord) : TurnRun := {|
  run_scope := pr_run_scope p; run_actor := actor; run_turn_id := pr_turn_id p;
  run_id := pr_run_id p; run_status := pr_run_status p; run_profile := pr_profile p;
  run_resolved_model_route := pr_resolved_model_route p;
  run_accepted_message_ref := pr_accepted_message_ref p;
  run_source_binding_ref := pr_source_binding_ref p;
  run_reply_target_binding_ref := pr_reply_target_binding_ref p;
  run_checkpoint_id := pr_checkpoint_id p; run_gate_ref := pr_gate_ref p;
  run_blocked_activity_id := pr_blocked_activity_id p;
  run_credential_requirements := pr_credential_requirements p; run_failure := pr_failure p;
  run_event_cursor := pr_event_cursor p; run_runner_id := pr_runner_id p;
  run_lease_token := pr_lease_token p; run_lease_expires_at := pr_lease_expires_at p;
  run_last_heartbeat_at := pr_last_heartbeat_at p; run_claim_count := pr_claim_count p;
  run_received_at := pr_received_at p; run_parent_run_id := pr_parent_run_id p;
  run_subagent_depth := pr_subagent_depth p;
  run_spawn_tree_root_run_id := pr_spawn_tree_root_run_id p;
  run_product_context := pr_product_context p;
  run_resume_disposition := pr_resume_disposition p |}.
End run_views.

