(* ===== verification/TurnLimiter.v ===== *)
(** * The concurrency limiter of the turn store

    Models [ironclaw_turns/src/memory/concurrency_limiter.rs]: counters of the runs that
    hold a running slot, per user and per origin class, with the cap checks.  The
    counters are [u32]; their increment wraps, as in a release build. *)

From S2P Require Import Prelude Collections Platform HostApi Turns.
From Stdlib Require Import Lia.
Local Open Scope N_scope.

Inductive OriginClass := TriggerOrigin | ConversationOrigin.

#[export] Instance OriginClass_eq_dec : EqDecision OriginClass.
Proof. solve_decision. Defined.

#[export] Instance OriginClass_countable : Countable OriginClass.
Proof.
  refine (inj_countable' (fun o => match o with TriggerOrigin => true | ConversationOrigin => false end)
    (fun b : bool => if b then TriggerOrigin else ConversationOrigin) _).
  by intros [].
Defined.

(** The caps are [NonZeroU32]. *)
Record ConcurrencyLimits := {
  max_concurrent_runs_per_user : option N;
  max_concurrent_trigger_runs : option N;
  max_concurrent_conversation_runs : option N;
}.

Definition any_cap_enabled (l : ConcurrencyLimits) : bool :=
  bool_decide (is_Some (max_concurrent_runs_per_user l))
  || bool_decide (is_Some (max_concurrent_trigger_runs l))
  || bool_decide (is_Some (max_concurrent_conversation_runs l)).

Record RunSlotInfo := {
  si_tenant_id : TenantId;
  si_thread_owner : TurnThreadOwner;
  si_actor_user_id : UserId;
  si_product_context : option OriginClass;
}.

Record ConcurrencyLimiter := {
  lm_limits : option ConcurrencyLimits;
  lm_running_by_user : gmap (TenantId * UserId) N;
  lm_running_by_origin_class : gmap (TenantId * OriginClass) N;
}.

Definition with_limits (l : ConcurrencyLimits) : ConcurrencyLimiter :=
  {| lm_limits := Some l; lm_running_by_user := ∅; lm_running_by_origin_class := ∅ |}.

Definition user_key_from (i : RunSlotInfo) : option (TenantId * UserId) :=
  match si_thread_owner i with
  | ExplicitUser owner => Some (si_tenant_id i, owner)
  | ActorFallback => Some (si_tenant_id i, si_actor_user_id i)
  | Ownerless => None
  end.

Definition origin_key_from (i : RunSlotInfo) : option (TenantId * OriginClass) :=
  (fun class => (si_tenant_id i, class)) <$> si_product_context i.

Section counters.
Context {K : Type} `{Countable K}.

(** [*map.entry(key).or_insert(0) += 1] *)
Definition count_up (key : option K) (m : gmap K N) : gmap K N :=
  match key with
  | Some k => entry_update m k 0 (fun n => (n + 1) mod (u32_max + 1))
  | None => m
  end.

(** The counter saturates at zero, and a counter at zero is removed. *)
Definition count_down (key : option K) (m : gmap K N) : gmap K N :=
  match key with
  | Some k =>
      match m !! k with
      | Some n => let n' := sat_sub n 1 in if n' =? 0 then delete k m else <[k := n']> m
      | None => m
      end
  | None => m
  end.

(** The counter of [k] stands at [n]. *)
Definition counted (m : gmap K N) (k : K) (n : N) : Prop :=
  m !! k = if n =? 0 then None else Some n.

Lemma counted_default m k n : counted m k n -> default 0 (m !! k) = n.
Proof. intros ->. by destruct (N.eqb_spec n 0) as [-> |]. Qed.

Definition hit (key : option K) (k : K) : N := if decide (key = Some k) then 1 else 0.

Lemma counted_up m k n key :
  counted m k n -> (key = Some k -> n < u32_max) -> counted (count_up key m) k (n + hit key k).
Proof.
  intros Hm Hb. unfold counted, hit, count_up in *. destruct key as [k0 |].
  - destruct (decide (Some k0 = Some k)) as [[= ->] | Hne].
    + rewrite entry_update_eq, (counted_default _ _ _ Hm), N.mod_small by (specialize (Hb eq_refl); lia).
      destruct (N.eqb_spec (n + 1) 0); [lia | done].
    + rewrite entry_update_ne by congruence. by rewrite N.add_0_r.
  - by rewrite decide_False, N.add_0_r by done.
Qed.

Lemma counted_down m k n key :
  counted m k n -> (key = Some k -> 0 < n) -> counted (count_down key m) k (n - hit key k).
Proof.
  intros Hm Hb. unfold counted, hit, count_down in *. destruct key as [k0 |].
  - destruct (decide (Some k0 = Some k)) as [[= ->] | Hne].
    + specialize (Hb eq_refl). rewrite Hm. destruct (N.eqb_spec n 0); [lia |]. unfold sat_sub.
      cbn zeta. destruct (N.eqb_spec (n - 1) 0); [apply lookup_delete_eq | apply lookup_insert_eq].
    + rewrite N.sub_0_r. destruct (m !! k0); [| done]. cbn zeta.
      destruct (sat_sub _ 1 =? 0); [rewrite lookup_delete_ne by congruence |
                          rewrite lookup_insert_ne by congruence]; done.
  - by rewrite decide_False, N.sub_0_r by done.
Qed.
End counters.

(** [on_enter_running]: a run enters Running or CancelRequested. *)
Definition on_enter_running (i : RunSlotInfo) (l : ConcurrencyLimiter) : ConcurrencyLimiter := {|
  lm_limits := lm_limits l;
  lm_running_by_user := count_up (user_key_from i) (lm_running_by_user l);
  lm_running_by_origin_class := count_up (origin_key_from i) (lm_running_by_origin_class l) |}.

(** [on_leave_running] *)
Definition on_leave_running (i : RunSlotInfo) (l : ConcurrencyLimiter) : ConcurrencyLimiter := {|
  lm_limits := lm_limits l;
  lm_running_by_user := count_down (user_key_from i) (lm_running_by_user l);
  lm_running_by_origin_class := count_down (origin_key_from i) (lm_running_by_origin_class l) |}.

Definition origin_cap (l : ConcurrencyLimits) (class : OriginClass) : option N :=
  match class with
  | TriggerOrigin => max_concurrent_trigger_runs l
  | ConversationOrigin => max_concurrent_conversation_runs l
  end.

Definition can_claim (l : ConcurrencyLimiter) (i : RunSlotInfo) : bool :=
  match lm_limits l ≫= max_concurrent_runs_per_user with
  | None => true
  | Some cap =>
      match user_key_from i with
      | None => true
      | Some key => default 0 (lm_running_by_user l !! key) <? cap
      end
  end
  && match si_product_context i with
     | None => true
     | Some class =>
         match lm_limits l ≫= (fun limits => origin_cap limits class) with
         | None => true
         | Some cap =>
             default 0 (lm_running_by_origin_class l !! (si_tenant_id i, class)) <? cap
         end
     end.

(** [rebuild_from]: the counters of a restored store; nothing is counted when no cap is
    set. *)
Definition rebuild_from (limits : ConcurrencyLimits) (running : list RunSlotInfo) :
    ConcurrencyLimiter :=
  if any_cap_enabled limits
  then fold_left (fun l i => on_enter_running i l) running (with_limits limits)
  else with_limits limits.

Definition count_for_user (l : ConcurrencyLimiter) (tenant : TenantId) (user : UserId) : N :=
  default 0 (lm_running_by_user l !! (tenant, user)).

Definition count_for_trigger (l : ConcurrencyLimiter) (tenant : TenantId) : N :=
  default 0 (lm_running_by_origin_class l !! (tenant, TriggerOrigin)).

Definition count_for_conversation (l : ConcurrencyLimiter) (tenant : TenantId) : N :=
  default 0 (lm_running_by_origin_class l !! (tenant, ConversationOrigin)).
