(* ===== verification/TurnEvents.v ===== *)
(** * Turn lifecycle events and their projection

    Models the event record and the reading side of [ironclaw_turns/src/events.rs]:
    [project_turn_events] pages through the retained log of one scope, and
    [read_reducer]/[read_public] check the request and the page. *)

From S2P Require Import Prelude Collections Ids Platform HostApi Capability Obligations Turns.
From Stdlib Require Import Lia.
Local Open Scope N_scope.

Definition MAX_TURN_EVENT_PROJECTION_LIMIT : N := 1000.

Inductive TurnEventKind :=
  | EvSubmitted | EvResumed | EvRunnerClaimed | EvRunnerHeartbeat | EvRecoveryRequired
  | EvBlocked | EvCancelRequested | EvCancelled | EvCompleted | EvFailed.

#[export] Instance TurnEventKind_eq_dec : EqDecision TurnEventKind.
Proof. solve_decision. Defined.

Inductive TurnBlockedGateKind :=
  GateApproval | GateAuth | GateResource | GateAwaitDependentRun | GateExternalTool.

Definition gate_kind_from_status (s : TurnStatus) : option TurnBlockedGateKind :=
  match s with
  | TurnBlockedApproval => Some GateApproval
  | TurnBlockedAuth => Some GateAuth
  | TurnBlockedResource => Some GateResource
  | TurnBlockedDependentRun => Some GateAwaitDependentRun
  | TurnBlockedExternalTool => Some GateExternalTool
  | _ => None
  end.

Record TurnBlockedGateMetadata := {
  bg_gate_ref : GateRef;
  bg_gate_kind : TurnBlockedGateKind;
  bg_activity_id : option CapabilityActivityId;
  bg_credential_requirements : list RuntimeCredentialAuthRequirement;
}.

Record TurnLifecycleEvent := {
  ev_cursor : EventCursor;
  ev_scope : TurnScope;
  ev_occurred_at : option TurnTimestamp;
  ev_owner_user_id : option UserId;
  ev_run_id : TurnRunId;
  ev_status : TurnStatus;
  ev_kind : TurnEventKind;
  ev_blocked_gate : option TurnBlockedGateMetadata;
  ev_sanitized_reason : option string;
  ev_retryable : option bool;
  ev_detail : option string;
}.

(** [failure_detail_for_event] ([memory/mod.rs]) *)
Definition failure_detail_for_event (kind : TurnEventKind) (failure : option SanitizedFailure) :
    option string :=
  if decide (kind = EvFailed) then failure ≫= sf_detail else None.

Definition lifecycle_owner_user_id (s : TurnScope) (fallback : option UserId) : option UserId :=
  match explicit_owner_user_id s with Some u => Some u | None => fallback end.

Definition blocked_gate_of (kind : TurnEventKind) (gate_ref : option GateRef) (s : TurnStatus)
    (activity : option CapabilityActivityId)
    (requirements : list RuntimeCredentialAuthRequirement) : option TurnBlockedGateMetadata :=
  if decide (kind = EvBlocked) then
    gate_ref ≫= fun g => (fun gate_kind =>
      {| bg_gate_ref := g; bg_gate_kind := gate_kind; bg_activity_id := activity;
         bg_credential_requirements := requirements |}) <$> gate_kind_from_status s
  else None.

(** [TurnLifecycleEvent::from_run_state]; [at] is [Utc::now()]. *)
Definition event_from_run_state `{TurnPayload} (s : TurnRunState) (kind : TurnEventKind)
    (reason : option string) (at_ : TurnTimestamp) : TurnLifecycleEvent := {|
  ev_cursor := rst_event_cursor s;
  ev_scope := rst_scope s;
  ev_occurred_at := Some at_;
  ev_owner_user_id := lifecycle_owner_user_id (rst_scope s) (ta_user_id <$> rst_actor s);
  ev_run_id := rst_run_id s;
  ev_status := rst_status s;
  ev_kind := kind;
  ev_blocked_gate := blocked_gate_of kind (rst_gate_ref s) (rst_status s)
    (rst_blocked_activity_id s) (rst_credential_requirements s);
  ev_sanitized_reason := reason;
  ev_retryable := if decide (kind = EvFailed) then Some (bool_decide (is_Some (rst_checkpoint_id s))) else None;
  ev_detail := failure_detail_for_event kind (rst_failure s) |}.

(** ** Projection *)

Record TurnEventPage := {
  pg_entries : list TurnLifecycleEvent;
  pg_next_cursor : EventCursor;
  pg_truncated : bool;
  pg_rebase_required : option EventCursor;
}.

Definition event_in_scope (scope : TurnScope) (owner : option UserId) (e : TurnLifecycleEvent) : bool :=
  bool_decide (ev_scope e = scope)
  && match owner with None => true | Some u => bool_decide (ev_owner_user_id e = Some u) end.

Definition project_turn_events (events : list TurnLifecycleEvent) (scope : TurnScope)
    (owner : option UserId) (after : option EventCursor) (limit : N) (floor : EventCursor) :
    TurnEventPage :=
  let after := default 0 after in
  let scoped := sort_by_N ev_cursor (List.filter (event_in_scope scope owner) events) in
  let rebase :=
    if (0 <? floor) && (after <? floor) then Some floor
    else match ev_cursor <$> last scoped with
         | Some latest => if latest <? after then Some latest else None
         | None => if floor <? after then Some floor else None
         end in
  match rebase with
  | Some cursor => {| pg_entries := []; pg_next_cursor := cursor; pg_truncated := false;
                      pg_rebase_required := Some cursor |}
  | None =>
      let matching := List.filter (fun e => after <? ev_cursor e) scoped in
      let entries := take (N.to_nat limit) matching in
      {| pg_entries := entries;
         pg_next_cursor := default after (ev_cursor <$> last entries);
         pg_truncated := limit <? N.of_nat (length matching);
         pg_rebase_required := None |}
  end.

(** ** The projection services *)

(** [TurnEventProjectionCursor] *)
Record ProjectionCursor := { pj_event : EventCursor; pj_scope : TurnScope }.

Record TurnEventProjectionRequest := {
  pq_scope : TurnScope;
  pq_owner_user_id : option UserId;
  pq_after : option ProjectionCursor;
  pq_limit : N;
}.

Inductive TurnEventProjectionError :=
  | ProjectionInvalidRequest
  | ProjectionRebaseRequired (requested earliest : ProjectionCursor)
  | ProjectionSource (reason : TurnError).

Record TurnLifecycleProjectionEntry := {
  lp_cursor : EventCursor;
  lp_scope : TurnScope;
  lp_occurred_at : option TurnTimestamp;
  lp_run_id : TurnRunId;
  lp_status : TurnStatus;
  lp_kind : TurnEventKind;
  lp_sanitized_reason : option string;
}.

Definition into_public_projection_entry (e : TurnLifecycleEvent) : TurnLifecycleProjectionEntry := {|
  lp_cursor := ev_cursor e; lp_scope := ev_scope e; lp_occurred_at := ev_occurred_at e;
  lp_run_id := ev_run_id e; lp_status := ev_status e; lp_kind := ev_kind e;
  lp_sanitized_reason := ev_sanitized_reason e |}.

(** A snapshot for a reducer ([A] is the event) or for the public ([A] is its projection). *)
Record ProjectionSnapshot (A : Type) := {
  sn_entries : list A;
  sn_next_cursor : ProjectionCursor;
  sn_truncated : bool;
}.
Global Arguments sn_entries {A}.
Global Arguments sn_next_cursor {A}.
Global Arguments sn_truncated {A}.

Definition origin_for_scope (scope : TurnScope) : ProjectionCursor :=
  {| pj_event := 0; pj_scope := scope |}.

Definition read_reducer
    (source : TurnScope -> option UserId -> option EventCursor -> N -> Result TurnEventPage TurnError)
    (q : TurnEventProjectionRequest) :
    Result (ProjectionSnapshot TurnLifecycleEvent) TurnEventProjectionError :=
  if (pq_limit q =? 0) || (MAX_TURN_EVENT_PROJECTION_LIMIT <? pq_limit q)
  then Err ProjectionInvalidRequest
  else
    match pq_after q ≫= (fun cursor =>
            if decide (pj_scope cursor = pq_scope q) then None else Some cursor) with
    | Some cursor => Err (ProjectionRebaseRequired cursor (origin_for_scope (pq_scope q)))
    | None =>
        match source (pq_scope q) (pq_owner_user_id q) (pj_event <$> pq_after q) (pq_limit q) with
        | Err reason => Err (ProjectionSource reason)
        | Ok page =>
            match pg_rebase_required page with
            | Some rebase =>
                Err (ProjectionRebaseRequired (default (origin_for_scope (pq_scope q)) (pq_after q))
                       {| pj_event := rebase; pj_scope := pq_scope q |})
            | None =>
                Ok {| sn_entries := pg_entries page;
                      sn_next_cursor := {| pj_event := pg_next_cursor page; pj_scope := pq_scope q |};
                      sn_truncated := pg_truncated page |}
            end
        end
    end.

Definition read_public source (q : TurnEventProjectionRequest) :
    Result (ProjectionSnapshot TurnLifecycleProjectionEntry) TurnEventProjectionError :=
  result_map (fun snapshot =>
    {| sn_entries := into_public_projection_entry <$> sn_entries snapshot;
       sn_next_cursor := sn_next_cursor snapshot; sn_truncated := sn_truncated snapshot |})
    (read_reducer source q).
