(* ===== verification/TurnStore.v ===== *)
(** * The in-memory turn store: state and primitives

    Models the [Inner] state of [ironclaw_turns/src/memory/mod.rs] and the private
    methods that every operation is made of: cursors and events, the active locks, the
    claim queue, admission reservations, checkpoints, idempotency memories and the
    pruning of terminal records.  The operations are in [TurnOps]. *)

From S2P Require Import Prelude Collections Ids Platform HostApi Capability Obligations Turns TurnLimiter TurnEvents.
From Stdlib Require Import Lia.
Local Open Scope N_scope.
Local Open Scope record_scope.

(** ** Keys and limits *)

Record SubmitIdempotencyKey := { sik_scope : TurnScope; sik_key : IdempotencyKey }.

Record RunIdempotencyKey := {
  rik_scope : TurnScope;
  rik_run_id : TurnRunId;
  rik_key : IdempotencyKey;
}.

Record PersistedIdempotencyKey := {
  pik_scope : TurnScope;
  pik_operation : TurnIdempotencyOperationKind;
  pik_run_id : option TurnRunId;
  pik_key : IdempotencyKey;
}.

#[export] Instance SubmitIdempotencyKey_eq_dec : EqDecision SubmitIdempotencyKey.
Proof. solve_decision. Defined.
#[export] Instance RunIdempotencyKey_eq_dec : EqDecision RunIdempotencyKey.
Proof. solve_decision. Defined.
#[export] Instance PersistedIdempotencyKey_eq_dec : EqDecision PersistedIdempotencyKey.
Proof. solve_decision. Defined.

#[export] Instance SubmitIdempotencyKey_countable : Countable SubmitIdempotencyKey.
Proof.
  refine (inj_countable' (fun k => (sik_scope k, sik_key k))
    (fun '(a, b) => {| sik_scope := a; sik_key := b |}) _). by intros [].
Defined.
#[export] Instance RunIdempotencyKey_countable : Countable RunIdempotencyKey.
Proof.
  refine (inj_countable' (fun k => (rik_scope k, rik_run_id k, rik_key k))
    (fun '(a, b, c) => {| rik_scope := a; rik_run_id := b; rik_key := c |}) _). by intros [].
Defined.
#[export] Instance PersistedIdempotencyKey_countable : Countable PersistedIdempotencyKey.
Proof.
  refine (inj_countable' (fun k => (pik_scope k, pik_operation k, pik_run_id k, pik_key k))
    (fun '(a, b, c, d) => {| pik_scope := a; pik_operation := b; pik_run_id := c; pik_key := d |}) _).
  by intros [].
Defined.

(** [InMemoryTurnStateStoreLimits]; the lease TTL is a duration in nanoseconds. *)
Record TurnStoreLimits := {
  tsl_max_events : N;
  tsl_max_terminal_records : N;
  tsl_max_idempotency_records : N;
  tsl_runner_lease_ttl : Z;
  tsl_concurrency : ConcurrencyLimits;
}.

(** [DEFAULT_RUNNER_LEASE_TTL_SECONDS] is 90. *)
Definition default_turn_limits : TurnStoreLimits := {|
  tsl_max_events := 10000; tsl_max_terminal_records := 10000;
  tsl_max_idempotency_records := 10000; tsl_runner_lease_ttl := 90 * 1000000000;
  tsl_concurrency := {| max_concurrent_runs_per_user := None; max_concurrent_trigger_runs := None;
                        max_concurrent_conversation_runs := None |} |}.

(** [TreeReservationState] *)
Record TreeReservationState := {
  tree_count : N;
  tree_released_children : gset TurnRunId;
}.

Definition tree_default : TreeReservationState :=
  {| tree_count := 0; tree_released_children := ∅ |}.

(** [DateTime::checked_add_signed]: the last representable instant is [max_utc]. *)
Definition checked_add_signed `{Platform} (t : DateTime) (d : Z) : option DateTime :=
  if (t + d <=? max_utc)%Z then Some (t + d)%Z else None.

Section store.
Context `{TurnPayload} `{Platform}.

Abbreviation TResult T := (Result T TurnError).

(** ** The state *)

Record Inner := {
  in_cursor : N;
  in_turns : gmap TurnId TurnRecord;
  in_records : gmap TurnRunId TurnRun;
  in_queued_runs : list TurnRunId;
  in_terminal_runs : list TurnRunId;
  in_active_locks : gmap TurnScope TurnActiveLockRecord;
  in_checkpoints : list TurnCheckpointRecord;
  in_loop_checkpoints : gmap TurnCheckpointId LoopCheckpointRecord;
  in_submit_idempotency : gmap SubmitIdempotencyKey (TResult SubmitTurnResponse);
  in_submit_in_flight : gset SubmitIdempotencyKey;
  in_resume_idempotency : gmap RunIdempotencyKey (TResult ResumeTurnResponse);
  in_retry_idempotency : gmap RunIdempotencyKey (TResult RetryTurnResponse);
  in_cancel_idempotency : gmap RunIdempotencyKey (TResult CancelRunResponse);
  in_idempotency_records : gmap PersistedIdempotencyKey TurnIdempotencyRecord;
  in_submit_order : list SubmitIdempotencyKey;
  in_resume_order : list RunIdempotencyKey;
  in_retry_order : list RunIdempotencyKey;
  in_cancel_order : list RunIdempotencyKey;
  in_idempotency_record_order : list PersistedIdempotencyKey;
  in_events : list TurnLifecycleEvent;
  in_event_retention_floor : EventCursor;
  in_admission_reservations : gmap TurnRunId TurnAdmissionReservationRecord;
  in_tree_reservations : gmap SpawnTreeReservationKey TreeReservationState;
  in_limits : TurnStoreLimits;
  in_concurrency : ConcurrencyLimiter;
}.

#[export] Instance Inner_eta : Eta Inner := fun s => {|
  in_cursor := in_cursor s; in_turns := in_turns s; in_records := in_records s;
  in_queued_runs := in_queued_runs s; in_terminal_runs := in_terminal_runs s;
  in_active_locks := in_active_locks s; in_checkpoints := in_checkpoints s;
  in_loop_checkpoints := in_loop_checkpoints s; in_submit_idempotency := in_submit_idempotency s;
  in_submit_in_flight := in_submit_in_flight s; in_resume_idempotency := in_resume_idempotency s;
  in_retry_idempotency := in_retry_idempotency s; in_cancel_idempotency := in_cancel_idempotency s;
  in_idempotency_records := in_idempotency_records s; in_submit_order := in_submit_order s;
  in_resume_order := in_resume_order s; in_retry_order := in_retry_order s;
  in_cancel_order := in_cancel_order s;
  in_idempotency_record_order := in_idempotency_record_order s; in_events := in_events s;
  in_event_retention_floor := in_event_retention_floor s;
  in_admission_reservations := in_admission_reservations s;
  in_tree_reservations := in_tree_reservations s; in_limits := in_limits s;
  in_concurrency := in_concurrency s |}.

#[export] Instance set_in_cursor : Setter in_cursor := ltac:(setter).
#[export] Instance set_in_turns : Setter in_turns := ltac:(setter).
#[export] Instance set_in_records : Setter in_records := ltac:(setter).
#[export] Instance set_in_queued_runs : Setter in_queued_runs := ltac:(setter).
#[export] Instance set_in_terminal_runs : Setter in_terminal_runs := ltac:(setter).
#[export] Instance set_in_active_locks : Setter in_active_locks := ltac:(setter).
#[export] Instance set_in_checkpoints : Setter in_checkpoints := ltac:(setter).
#[export] Instance set_in_loop_checkpoints : Setter in_loop_checkpoints := ltac:(setter).
#[export] Instance set_in_submit_idempotency : Setter in_submit_idempotency := ltac:(setter).
#[export] Instance set_in_submit_in_flight : Setter in_submit_in_flight := ltac:(setter).
#[export] Instance set_in_resume_idempotency : Setter in_resume_idempotency := ltac:(setter).
#[export] Instance set_in_retry_idempotency : Setter in_retry_idempotency := ltac:(setter).
#[export] Instance set_in_cancel_idempotency : Setter in_cancel_idempotency := ltac:(setter).
#[export] Instance set_in_idempotency_records : Setter in_idempotency_records := ltac:(setter).
#[export] Instance set_in_submit_order : Setter in_submit_order := ltac:(setter).
#[export] Instance set_in_resume_order : Setter in_resume_order := ltac:(setter).
#[export] Instance set_in_retry_order : Setter in_retry_order := ltac:(setter).
#[export] Instance set_in_cancel_order : Setter in_cancel_order := ltac:(setter).
#[export] Instance set_in_idempotency_record_order : Setter in_idempotency_record_order := ltac:(setter).
#[export] Instance set_in_events : Setter in_events := ltac:(setter).
#[export] Instance set_in_event_retention_floor : Setter in_event_retention_floor := ltac:(setter).
#[export] Instance set_in_admission_reservations : Setter in_admission_reservations := ltac:(setter).
#[export] Instance set_in_tree_reservations : Setter in_tree_reservations := ltac:(setter).
#[export] Instance set_in_concurrency : Setter in_concurrency := ltac:(setter).

(** [InMemoryTurnStateStore::with_limits] *)
Definition inner_with_limits (limits : TurnStoreLimits) : Inner := {|
  in_cursor := 0; in_turns := ∅; in_records := ∅; in_queued_runs := []; in_terminal_runs := [];
  in_active_locks := ∅; in_checkpoints := []; in_loop_checkpoints := ∅;
  in_submit_idempotency := ∅; in_submit_in_flight := ∅; in_resume_idempotency := ∅;
  in_retry_idempotency := ∅; in_cancel_idempotency := ∅; in_idempotency_records := ∅;
  in_submit_order := []; in_resume_order := []; in_retry_order := []; in_cancel_order := [];
  in_idempotency_record_order := []; in_events := []; in_event_retention_floor := 0;
  in_admission_reservations := ∅; in_tree_reservations := ∅; in_limits := limits;
  in_concurrency := with_limits (tsl_concurrency limits) |}.

(** ** Status cells and slots *)

Definition holds_running_slot (s : TurnStatus) : bool :=
  match s with TurnRunning | TurnCancelRequested => true | _ => false end.

Inductive StatusTransition := EnteredRunning | LeftRunning | StatusUnchanged.

(** [RunStatusCell::set]: the new status and what it means for the running slot. *)
Definition status_set (new : TurnStatus) (r : TurnRun) : StatusTransition * TurnRun :=
  (match holds_running_slot (run_status r), holds_running_slot new with
   | false, true => EnteredRunning
   | true, false => LeftRunning
   | _, _ => StatusUnchanged
   end, r <| run_status := new |>).

Definition origin_class_of (origin : TurnOriginKind) : OriginClass :=
  match origin with
  | OriginScheduledTrigger => TriggerOrigin
  | OriginInbound | OriginWebUi => ConversationOrigin
  end.

Definition slot_info_for (r : TurnRun) : RunSlotInfo := {|
  si_tenant_id := ts_tenant_id (run_scope r);
  si_thread_owner := ts_thread_owner (run_scope r);
  si_actor_user_id := ta_user_id (run_actor r);
  si_product_context := (fun c => origin_class_of (pc_origin c)) <$> run_product_context r |}.

Definition apply_status_transition (t : StatusTransition) (r : TurnRun) (s : Inner) : Inner :=
  s <| in_concurrency ::=
    match t with
    | EnteredRunning => on_enter_running (slot_info_for r)
    | LeftRunning => on_leave_running (slot_info_for r)
    | StatusUnchanged => fun limiter => limiter
    end |>.

(** ** Cursors and events *)

(** [next_cursor]; the counter is a [u64] that saturates. *)
Definition next_cursor (s : Inner) : EventCursor * Inner :=
  let cursor := sat_add64 (in_cursor s) 1 in (cursor, s <| in_cursor := cursor |>).

Definition next_lease_expiry (s : Inner) (now : TurnTimestamp) : TurnTimestamp :=
  default now (checked_add_signed now (tsl_runner_lease_ttl (in_limits s))).

(** The event that [push_event] builds; [at_] is its reading of the clock. *)
Definition event_of_run (r : TurnRun) (kind : TurnEventKind) (reason detail : option string)
    (at_ : TurnTimestamp) : TurnLifecycleEvent := {|
  ev_cursor := run_event_cursor r;
  ev_scope := run_scope r;
  ev_occurred_at := Some at_;
  ev_owner_user_id := lifecycle_owner_user_id (run_scope r) (Some (ta_user_id (run_actor r)));
  ev_run_id := run_id r;
  ev_status := run_status r;
  ev_kind := kind;
  ev_blocked_gate := blocked_gate_of kind (run_gate_ref r) (run_status r)
    (run_blocked_activity_id r) (run_credential_requirements r);
  ev_sanitized_reason := reason;
  ev_retryable := if decide (kind = EvFailed)
                  then Some (bool_decide (is_Some (run_checkpoint_id r))) else None;
  ev_detail := detail |}.

(** The retained log is a suffix; the floor is the cursor of the last event that left. *)
Definition retain_events (max : N) (events : list TurnLifecycleEvent) (floor : EventCursor) :
    list TurnLifecycleEvent * EventCursor :=
  let len := N.of_nat (length events) in
  if max <? len then
    let excess := len - max in
    (drop (N.to_nat excess) events,
     match events !! N.to_nat (sat_sub excess 1) with
     | Some last_pruned => N.max floor (ev_cursor last_pruned)
     | None => floor
     end)
  else (events, floor).

Definition push_event (r : TurnRun) (kind : TurnEventKind) (reason detail : option string)
    (at_ : TurnTimestamp) (s : Inner) : Inner :=
  let retained := retain_events (tsl_max_events (in_limits s))
    (in_events s ++ [event_of_run r kind reason detail at_]) (in_event_retention_floor s) in
  s <| in_events := retained.1 |> <| in_event_retention_floor := retained.2 |>.

(** ** Active locks *)

(** [active_locks.get_mut(&key)], when the lock is the run's own. *)
Definition on_own_lock (r : TurnRun) (f : TurnActiveLockRecord -> option TurnActiveLockRecord)
    (locks : gmap TurnScope TurnActiveLockRecord) : gmap TurnScope TurnActiveLockRecord :=
  match locks !! run_scope r with
  | Some lock =>
      if decide (al_run_id lock = run_id r)
      then match f lock with
           | Some lock' => <[run_scope r := lock']> locks
           | None => delete (run_scope r) locks
           end
      else locks
  | None => locks
  end.

Definition update_active_lock (r : TurnRun) (now : TurnTimestamp) (s : Inner) : Inner :=
  s <| in_active_locks ::= on_own_lock r (fun lock => Some
    {| al_key := al_key lock; al_run_id := al_run_id lock; al_status := run_status r;
       al_lock_version := lock_version_incremented (al_lock_version lock);
       al_acquired_at := al_acquired_at lock; al_updated_at := now |}) |>.

Definition touch_active_lock (r : TurnRun) (now : TurnTimestamp) (s : Inner) : Inner :=
  s <| in_active_locks ::= on_own_lock r (fun lock => Some
    {| al_key := al_key lock; al_run_id := al_run_id lock; al_status := al_status lock;
       al_lock_version := al_lock_version lock; al_acquired_at := al_acquired_at lock;
       al_updated_at := now |}) |>.

Definition release_active_lock (r : TurnRun) (s : Inner) : Inner :=
  s <| in_active_locks ::= on_own_lock r (fun _ => None) |>.

(** The lock of a run that was just queued for the first time. *)
Definition new_lock (scope : TurnScope) (id : TurnRunId) (at_ : TurnTimestamp) : TurnActiveLockRecord :=
  {| al_key := scope; al_run_id := id; al_status := TurnQueued; al_lock_version := 1;
     al_acquired_at := at_; al_updated_at := at_ |}.

Definition thread_busy (scope : TurnScope) (s : Inner) : option ThreadBusy :=
  match in_active_locks s !! scope with
  | None => None
  | Some lock =>
      match in_records s !! al_run_id lock with
      | None => None
      | Some r =>
          if keeps_active_lock (run_status r)
          then Some {| tb_active_run_id := al_run_id lock; tb_status := run_status r;
                       tb_event_cursor := run_event_cursor r |}
          else None
      end
  end.

(** ** The queue and the records *)

Definition remove_queued_run (id : TurnRunId) (s : Inner) : Inner :=
  s <| in_queued_runs ::= List.filter (fun queued => negb (queued =? id)) |>.

(** [take_record], the body, and the record's return: every operation on one run works
    on a record taken out of the map. *)
Definition with_record {T} (id : TurnRunId)
    (body : TurnRun -> Inner -> TResult T * TurnRun * Inner) (s : Inner) : TResult T * Inner :=
  match in_records s !! id with
  | None => (Err TurnScopeNotFound, s)
  | Some r =>
      let '(result, r', s') := body r (s <| in_records ::= delete id |>) in
      (result, s' <| in_records ::= insert (run_id r') r' |>)
  end.

(** One pass over the queue, at most [n] long: entries without a queued record are
    dropped, entries that do not match go to the back. *)
Fixpoint pop_loop (n : nat) (scope_filter : option TurnScope) (s : Inner)
    (queue : list TurnRunId) : option TurnRunId * list TurnRunId :=
  match n with
  | O => (None, queue)
  | S n' =>
      match queue with
      | [] => (None, [])
      | id :: rest =>
          match in_records s !! id with
          | None => pop_loop n' scope_filter s rest
          | Some r =>
              if decide (run_status r = TurnQueued) then
                if match scope_filter with
                   | None => true | Some scope => bool_decide (scope = run_scope r)
                   end && can_claim (in_concurrency s) (slot_info_for r)
                then (Some id, rest)
                else pop_loop n' scope_filter s (rest ++ [id])
              else pop_loop n' scope_filter s rest
          end
      end
  end.

Definition pop_matching_queued_run (scope_filter : option TurnScope) (s : Inner) :
    option TurnRunId * Inner :=
  let '(found, queue) := pop_loop (length (in_queued_runs s)) scope_filter s (in_queued_runs s) in
  (found, s <| in_queued_runs := queue |>).

(** ** Checkpoints *)

Definition record_checkpoint (r : TurnRun) (checkpoint_id : TurnCheckpointId)
    (state_ref : LoopCheckpointStateRef) (gate_ref : GateRef) (created_at : TurnTimestamp)
    (s : Inner) : Inner :=
  let sequence := N.of_nat (length (List.filter (fun c => tc_run_id c =? run_id r)
                                      (in_checkpoints s))) + 1 in
  s <| in_checkpoints ::= fun cs => cs ++
    [{| tc_checkpoint_id := checkpoint_id; tc_run_id := run_id r; tc_scope := Some (run_scope r);
        tc_sequence := sequence; tc_status := run_status r; tc_gate_ref := gate_ref;
        tc_kind := BeforeBlock; tc_state_ref := state_ref; tc_created_at := created_at |}] |>.

(** The checkpoint a run may go on from. *)
Definition resumable_for (scope : TurnScope) (turn : TurnId) (id : TurnRunId)
    (c : LoopCheckpointRecord) : bool :=
  bool_decide (lcr_scope c = scope) && (lcr_turn_id c =? turn) && (lcr_run_id c =? id)
  && resumable_kind (lcr_kind c).

Definition checkpoint_le (a b : LoopCheckpointRecord) : bool :=
  (lcr_created_at a <? lcr_created_at b)%Z
  || (Z.eqb (lcr_created_at a) (lcr_created_at b) && (lcr_checkpoint_id a <=? lcr_checkpoint_id b)).

(** [max_by]: the last of the greatest. *)
Fixpoint max_checkpoint (best : option LoopCheckpointRecord) (l : list LoopCheckpointRecord) :
    option LoopCheckpointRecord :=
  match l with
  | [] => best
  | c :: l' =>
      max_checkpoint (match best with
                      | Some b => if checkpoint_le b c then Some c else Some b
                      | None => Some c
                      end) l'
  end.

Definition latest_resumable_loop_checkpoint (scope : TurnScope) (turn : TurnId) (id : TurnRunId)
    (s : Inner) : option TurnCheckpointId :=
  lcr_checkpoint_id <$> max_checkpoint None
    (List.filter (resumable_for scope turn id) (map_to_list (in_loop_checkpoints s)).*2).

Definition retryable_loop_checkpoint (r : TurnRun) (id : TurnCheckpointId) (s : Inner) :
    option LoopCheckpointRecord :=
  match in_loop_checkpoints s !! id with
  | Some c => if resumable_for (run_scope r) (run_turn_id r) (run_id r) c then Some c else None
  | None => None
  end.

(** [link_loop_checkpoint_for_retry]; [fresh] is the new checkpoint id. *)
Definition link_loop_checkpoint_for_retry (source : LoopCheckpointRecord) (retry : TurnRunId)
    (created_at : TurnTimestamp) (fresh : TurnCheckpointId) (s : Inner) : Inner :=
  s <| in_loop_checkpoints ::= insert fresh
    {| lcr_checkpoint_id := fresh; lcr_scope := lcr_scope source; lcr_turn_id := lcr_turn_id source;
       lcr_run_id := retry; lcr_state_ref := lcr_state_ref source;
       lcr_schema_id := lcr_schema_id source; lcr_schema_version := lcr_schema_version source;
       lcr_kind := lcr_kind source; lcr_gate_ref := lcr_gate_ref source;
       lcr_created_at := created_at |} |>.

Definition is_latest_run_for_turn (r : TurnRun) (s : Inner) : bool :=
  negb (existsb (fun candidate => (run_turn_id candidate =? run_turn_id r)
                                  && (run_event_cursor r <? run_event_cursor candidate))
          (map_to_list (in_records s)).*2).

(** ** Admission *)

Definition active_admission_count (bucket : TurnAdmissionBucket) (s : Inner) : N :=
  N.of_nat (length (List.filter (fun res => negb (res_released res)
      && existsb (fun reserved => bool_decide (reserved = bucket)) (res_buckets res))
    (map_to_list (in_admission_reservations s)).*2)).

Definition active_admission_reservations (s : Inner) : list TurnAdmissionReservationRecord :=
  List.filter (fun res => negb (res_released res)) (map_to_list (in_admission_reservations s)).*2.

(** The loop over the buckets: the first that is unavailable or full refuses. *)
Fixpoint check_buckets (limit_for : LimitProvider) (s : Inner) (buckets : list TurnAdmissionBucket) :
    option AdmissionRejection :=
  match buckets with
  | [] => None
  | bucket :: rest =>
      match limit_for bucket with
      | Err _ => Some (rejection_new UnavailableRejected)
      | Ok limit =>
          match tl_max_active limit with
          | Some max_active =>
              let active := active_admission_count bucket s in
              if max_active <=? active
              then Some (with_capacity_denial
                     {| cd_axis_kind := tb_axis_kind bucket; cd_bucket_kind := tb_bucket_kind bucket;
                        cd_admission_class := tb_admission_class bucket; cd_limit := max_active;
                        cd_active_count := active; cd_retry_after_ms := tl_retry_after_ms limit |}
                     (rejection_new TenantLimit))
              else check_buckets limit_for s rest
          | None => check_buckets limit_for s rest
          end
      end
  end.

Definition reserve_admission (id : TurnRunId) (class : TurnAdmissionClass) (scope : TurnScope)
    (actor : TurnActor) (limit_for : LimitProvider) (s : Inner) : option AdmissionRejection * Inner :=
  let buckets := admission_buckets scope actor class in
  match check_buckets limit_for s buckets with
  | Some rejection => (Some rejection, s)
  | None =>
      (None, s <| in_admission_reservations ::= insert id
                {| res_run_id := id; res_admission_class := class; res_buckets := buckets;
                   res_released := false |} |>)
  end.

Definition release_admission (id : TurnRunId) (s : Inner) : Inner :=
  s <| in_admission_reservations ::= alter (fun res =>
    {| res_run_id := res_run_id res; res_admission_class := res_admission_class res;
       res_buckets := res_buckets res; res_released := true |}) id |>.

(** ** Terminal records *)

Definition mark_terminal (id : TurnRunId) (s : Inner) : Inner :=
  release_admission id s <| in_terminal_runs ::= fun l => l ++ [id] |>.

Definition run_is_terminal (id : TurnRunId) (s : Inner) : bool :=
  match in_records s !! id with Some r => turn_is_terminal (run_status r) | None => false end.

(** One record leaves: with it its turn, when no other run refers to that, and its
    admission reservation. *)
Definition prune_one (id : TurnRunId) (s : Inner) : Inner :=
  if run_is_terminal id s
     && negb (existsb (fun key => sk_root_run_id key =? id) (map_to_list (in_tree_reservations s)).*1)
  then
    let s' :=
      match in_records s !! id with
      | None => s
      | Some r =>
          let s1 := s <| in_records ::= delete id |> in
          if existsb (fun other => run_turn_id other =? run_turn_id r) (map_to_list (in_records s1)).*2
          then s1 else s1 <| in_turns ::= delete (run_turn_id r) |>
      end in
    s' <| in_admission_reservations ::= delete id |>
  else s.

Fixpoint prune_loop (terminal : list TurnRunId) (s : Inner) : Inner :=
  if N.of_nat (length terminal) <=? tsl_max_terminal_records (in_limits s)
  then s <| in_terminal_runs := terminal |>
  else match terminal with
       | [] => s <| in_terminal_runs := [] |>
       | id :: rest => prune_loop rest (prune_one id s)
       end.

Definition prune_terminal_records (s : Inner) : Inner := prune_loop (in_terminal_runs s) s.

(** ** Idempotency memories *)

Definition persisted_submit_key (k : SubmitIdempotencyKey) : PersistedIdempotencyKey := {|
  pik_scope := sik_scope k; pik_operation := OpSubmit; pik_run_id := None; pik_key := sik_key k |}.

Definition persisted_run_key (op : TurnIdempotencyOperationKind) (k : RunIdempotencyKey) :
    PersistedIdempotencyKey := {|
  pik_scope := rik_scope k; pik_operation := op; pik_run_id := Some (rik_run_id k);
  pik_key := rik_key k |}.

Definition persisted_key_for_record (r : TurnIdempotencyRecord) : PersistedIdempotencyKey := {|
  pik_scope := ir_scope r; pik_operation := ir_operation r;
  pik_run_id := match ir_operation r with OpSubmit => None | _ => ir_run_id r end;
  pik_key := ir_key r |}.

Definition submit_idempotency_record (k : SubmitIdempotencyKey) (result : TResult SubmitTurnResponse)
    (created_at : TurnTimestamp) : TurnIdempotencyRecord :=
  let '(turn_id, id, outcome, replay) :=
    match result with
    | Ok response => (Some (sa_turn_id response), Some (sa_run_id response), OutAccepted,
                      ReplaySubmitAccepted response)
    | Err (ThreadBusyError busy) =>
        (None, Some (tb_active_run_id busy), OutThreadBusy, ReplaySubmitThreadBusy busy)
    | Err (AdmissionRejected rejection) =>
        (None, None, OutAdmissionRejected, ReplaySubmitAdmissionRejected rejection)
    | Err e => (None, None, outcome_from_error e, ReplayError (error_replay_from e))
    end in
  {| ir_scope := sik_scope k; ir_operation := OpSubmit; ir_key := sik_key k; ir_turn_id := turn_id;
     ir_run_id := id; ir_outcome := outcome; ir_replay := replay; ir_created_at := created_at;
     ir_expires_at := None |}.

(** The records of the operations on a run differ in outcome and replay. *)
Definition run_idempotency_record (op : TurnIdempotencyOperationKind) (k : RunIdempotencyKey)
    (outcome : TurnIdempotencyOutcomeKind) (replay : TurnIdempotencyReplay)
    (created_at : TurnTimestamp) : TurnIdempotencyRecord :=
  {| ir_scope := rik_scope k; ir_operation := op; ir_key := rik_key k; ir_turn_id := None;
     ir_run_id := Some (rik_run_id k); ir_outcome := outcome; ir_replay := replay;
     ir_created_at := created_at; ir_expires_at := None |}.

Definition resume_idempotency_record (k : RunIdempotencyKey) (result : TResult ResumeTurnResponse)
    : TurnTimestamp -> TurnIdempotencyRecord :=
  match result with
  | Ok r => run_idempotency_record OpResume k OutResumed (ReplayResumeSucceeded r)
  | Err e => run_idempotency_record OpResume k (outcome_from_error e) (ReplayError (error_replay_from e))
  end.

Definition retry_idempotency_record (k : RunIdempotencyKey) (result : TResult RetryTurnResponse)
    : TurnTimestamp -> TurnIdempotencyRecord :=
  match result with
  | Ok r => run_idempotency_record OpRetry k OutRetried (ReplayRetrySucceeded r)
  | Err (ThreadBusyError busy) =>
      run_idempotency_record OpRetry k OutThreadBusy (ReplayRetryThreadBusy busy)
  | Err e => run_idempotency_record OpRetry k (outcome_from_error e) (ReplayError (error_replay_from e))
  end.

Definition cancel_idempotency_record (k : RunIdempotencyKey) (result : TResult CancelRunResponse)
    : TurnTimestamp -> TurnIdempotencyRecord :=
  match result with
  | Ok r => run_idempotency_record OpCancel k OutCancelRecorded (ReplayCancelRecorded r)
  | Err e => run_idempotency_record OpCancel k (outcome_from_error e) (ReplayError (error_replay_from e))
  end.

Definition remember_persisted_idempotency (r : TurnIdempotencyRecord) (s : Inner) : Inner :=
  let key := persisted_key_for_record r in
  s <| in_idempotency_record_order ::=
         fun order => if decide (is_Some (in_idempotency_records s !! key)) then order else order ++ [key] |>
    <| in_idempotency_records ::= insert key r |>.

Definition prune_idempotency_records (s : Inner) : Inner :=
  let '(order, records, _) :=
    prune_ordered_map (N.min (4 * tsl_max_idempotency_records (in_limits s)) u64_max)
      (in_idempotency_record_order s) (in_idempotency_records s) in
  s <| in_idempotency_record_order := order |> <| in_idempotency_records := records |>.

(** One memory of replies: enters the reply, prunes, and says which keys left. *)
Definition remember_reply {K V} `{Countable K} (max : N) (key : K) (reply : V)
    (memory : list K * gmap K V) : list K * gmap K V * list K :=
  let '(order, replies) := memory in
  prune_ordered_map max (if decide (is_Some (replies !! key)) then order else order ++ [key])
    (<[key := reply]> replies).

Definition forget_persisted (keys : list PersistedIdempotencyKey) (s : Inner) : Inner :=
  s <| in_idempotency_records ::= fun m => fold_left (fun m k => delete k m) keys m |>.

Definition remember_submit_idempotency (key : SubmitIdempotencyKey)
    (result : TResult SubmitTurnResponse) (created_at : TurnTimestamp) (s : Inner) : Inner :=
  let s1 := remember_persisted_idempotency (submit_idempotency_record key result created_at) s in
  let '(order, replies, removed) :=
    remember_reply (tsl_max_idempotency_records (in_limits s1)) key result
      (in_submit_order s1, in_submit_idempotency s1) in
  prune_idempotency_records (forget_persisted (persisted_submit_key <$> removed)
    (s1 <| in_submit_order := order |> <| in_submit_idempotency := replies |>)).

Definition remember_resume_idempotency (key : RunIdempotencyKey)
    (result : TResult ResumeTurnResponse) (created_at : TurnTimestamp) (s : Inner) : Inner :=
  let s1 := remember_persisted_idempotency (resume_idempotency_record key result created_at) s in
  let '(order, replies, removed) :=
    remember_reply (tsl_max_idempotency_records (in_limits s1)) key result
      (in_resume_order s1, in_resume_idempotency s1) in
  prune_idempotency_records (forget_persisted (persisted_run_key OpResume <$> removed)
    (s1 <| in_resume_order := order |> <| in_resume_idempotency := replies |>)).

(** A busy thread and a refused admission are not replayed; a refused admission is not
    even recorded. *)
Definition remember_retry_idempotency (key : RunIdempotencyKey)
    (result : TResult RetryTurnResponse) (created_at : TurnTimestamp) (s : Inner) : Inner :=
  let s1 :=
    match result with
    | Err (AdmissionRejected _) => s
    | _ => remember_persisted_idempotency (retry_idempotency_record key result created_at) s
    end in
  let s2 :=
    match result with
    | Err (ThreadBusyError _) | Err (AdmissionRejected _) => s1
    | _ =>
        let '(order, replies, removed) :=
          remember_reply (tsl_max_idempotency_records (in_limits s1)) key result
            (in_retry_order s1, in_retry_idempotency s1) in
        forget_persisted (persisted_run_key OpRetry <$> removed)
          (s1 <| in_retry_order := order |> <| in_retry_idempotency := replies |>)
    end in
  prune_idempotency_records s2.

Definition remember_cancel_idempotency (key : RunIdempotencyKey)
    (result : TResult CancelRunResponse) (created_at : TurnTimestamp) (s : Inner) : Inner :=
  let s1 := remember_persisted_idempotency (cancel_idempotency_record key result created_at) s in
  let '(order, replies, removed) :=
    remember_reply (tsl_max_idempotency_records (in_limits s1)) key result
      (in_cancel_order s1, in_cancel_idempotency s1) in
  prune_idempotency_records (forget_persisted (persisted_run_key OpCancel <$> removed)
    (s1 <| in_cancel_order := order |> <| in_cancel_idempotency := replies |>)).

(** ** Leases *)

Definition ensure_active_lease (r : TurnRun) (runner : TurnRunnerId) (token : TurnLeaseToken)
    (now : TurnTimestamp) : TResult unit :=
  if bool_decide (run_runner_id r <> Some runner) || bool_decide (run_lease_token r <> Some token)
  then Err TurnLeaseMismatch
  else match run_lease_expires_at r with
       | Some expires_at =>
           if (expires_at <=? now)%Z then Err (TurnConflict "turn run lease expired") else Ok tt
       | None => Ok tt
       end.

Record LeaseExpiredOutcome := {
  lo_status : TurnStatus;
  lo_failure : option SanitizedFailure;
  lo_event_kind : TurnEventKind;
  lo_event_detail : option string;
}.

Definition expired_lease_terminal_outcome (s : TurnStatus) : LeaseExpiredOutcome :=
  match s with
  | TurnCancelRequested =>
      {| lo_status := TurnCancelled; lo_failure := None; lo_event_kind := EvCancelled;
         lo_event_detail := None |}
  | _ =>
      {| lo_status := TurnFailed; lo_failure := Some (from_trusted_static "lease_expired");
         lo_event_kind := EvFailed; lo_event_detail := Some "lease_expired" |}
  end.
End store.
