(* ===== verification/TurnOps.v ===== *)
(** * The operations of the in-memory turn store

    Models [ironclaw_turns/src/memory/mod.rs]: what [TurnStateStore],
    [TurnSpawnTreeStateStore], [TurnRunTransitionPort] and [LoopCheckpointStore] do, each
    region under the store's mutex as one function of the state.  Arguments beyond the
    code's: [clk i] is the [i]-th reading of the clock in the region, and fresh ids.

    The sink for blocked runs writes snapshots elsewhere and does not touch this state;
    it is not modelled. *)

From S2P Require Import Prelude Collections Ids Platform HostApi Capability Obligations Turns TurnLimiter TurnEvents TurnStore.
From Stdlib Require Import Lia.
Local Open Scope N_scope.
Local Open Scope record_scope.

Abbreviation Clock := (nat -> TurnTimestamp).

Section ops.
Context `{TurnPayload} `{Platform}.

Abbreviation TResult T := (Result T TurnError).

(** ** Submission *)

(** [RunProfileResolutionError]; the payloads are not inspected. *)
Inductive RunProfileResolutionError :=
  | ProfileUnauthorized | ProfileUnavailable (profile_id : string) | ProfileInvalidRequest (reason : string).

Definition profile_resolution_error_to_turn_error (e : RunProfileResolutionError) : TurnError :=
  AdmissionRejected (rejection_new
    match e with
    | ProfileUnauthorized => UnauthorizedRejected
    | ProfileUnavailable _ | ProfileInvalidRequest _ => ProfileRejected
    end).

Definition same_scope_envelope (candidate scope : TurnScope) : bool :=
  bool_decide (ts_tenant_id candidate = ts_tenant_id scope)
  && bool_decide (ts_agent_id candidate = ts_agent_id scope)
  && bool_decide (ts_project_id candidate = ts_project_id scope).

Definition submit_key (scope : TurnScope) (key : IdempotencyKey) : SubmitIdempotencyKey :=
  {| sik_scope := scope; sik_key := key |}.

Definition clear_in_flight (key : SubmitIdempotencyKey) (s : Inner) : Inner :=
  s <| in_submit_in_flight ::= fun keys => keys ∖ {[key]} |>.

(** The reply is remembered and the claim given up. *)
Definition conclude_submit (key : SubmitIdempotencyKey) (reply : TResult SubmitTurnResponse)
    (created_at : TurnTimestamp) (s : Inner) : TResult SubmitTurnResponse * Inner :=
  (reply, clear_in_flight key (remember_submit_idempotency key reply created_at s)).

Inductive SubmitClaim :=
  | SubmitReplay (reply : TResult SubmitTurnResponse)
  | SubmitClaimed
  | SubmitInFlight.

(** One pass of the loop of [wait_for_or_claim_submit_idempotency]; [SubmitInFlight] is
    the pass that goes on to wait. *)
Definition claim_submit (key : SubmitIdempotencyKey) (s : Inner) : SubmitClaim * Inner :=
  match in_submit_idempotency s !! key with
  | Some reply => (SubmitReplay reply, s)
  | None =>
      if decide (key ∈ in_submit_in_flight s) then (SubmitInFlight, s)
      else (SubmitClaimed, s <| in_submit_in_flight ::= union {[key]} |>)
  end.

(** [SubmitInFlightGuard::drop] *)
Definition drop_submit_guard (key : SubmitIdempotencyKey) (s : Inner) : Inner := clear_in_flight key s.

(** Each later region starts by looking for a reply of another task. *)
Definition unless_replied {T} (key : SubmitIdempotencyKey) (found : TResult SubmitTurnResponse -> T)
    (body : Inner -> T * Inner) (s : Inner) : T * Inner :=
  match in_submit_idempotency s !! key with
  | Some reply => (found reply, clear_in_flight key s)
  | None => body s
  end.

Definition has_lineage (q : SubmitTurnRequest) : bool :=
  bool_decide (is_Some (sr_parent_run_id q)) || negb (sr_subagent_depth q =? 0)
  || bool_decide (is_Some (sr_spawn_tree_root_run_id q)).

(** The region that refuses a lineage in a plain submission. *)
Definition reject_lineage (q : SubmitTurnRequest) : Inner -> TResult SubmitTurnResponse * Inner :=
  let key := submit_key (sr_scope q) (sr_idempotency_key q) in
  unless_replied key id
    (conclude_submit key
       (Err (TurnInvalidRequest "child runs must be submitted through submit_child_turn"))
       (sr_received_at q)).

(** The region after the admission policy answered. *)
Definition admit_submit (key : SubmitIdempotencyKey) (admission : Result unit AdmissionRejection)
    (received_at : TurnTimestamp) : Inner -> option (TResult SubmitTurnResponse) * Inner :=
  unless_replied key Some (fun s =>
    match admission with
    | Ok _ => (None, s)
    | Err rejection =>
        let '(reply, s') := conclude_submit key (Err (AdmissionRejected rejection)) received_at s in
        (Some reply, s')
    end).

(** A run as it is first queued. *)
Definition queued_run (scope : TurnScope) (actor : TurnActor) (turn : TurnId) (id : TurnRunId)
    (profile : TurnRunProfile) (message : AcceptedMessageRef) (source : SourceBindingRef)
    (reply_target : ReplyTargetBindingRef) (checkpoint : option TurnCheckpointId)
    (cursor : EventCursor) (received_at : TurnTimestamp) (parent : option TurnRunId) (depth : N)
    (root : option TurnRunId) (context : option ProductTurnContext) : TurnRun := {|
  run_scope := scope; run_actor := actor; run_turn_id := turn; run_id := id;
  run_status := TurnQueued; run_profile := profile; run_resolved_model_route := None;
  run_accepted_message_ref := message; run_source_binding_ref := source;
  run_reply_target_binding_ref := reply_target; run_checkpoint_id := checkpoint;
  run_gate_ref := None; run_blocked_activity_id := None; run_credential_requirements := [];
  run_failure := None; run_event_cursor := cursor; run_runner_id := None; run_lease_token := None;
  run_lease_expires_at := None; run_last_heartbeat_at := None; run_claim_count := 0;
  run_received_at := received_at; run_parent_run_id := parent; run_subagent_depth := depth;
  run_spawn_tree_root_run_id := root; run_product_context := context;
  run_resume_disposition := None |}.

(** What every creation of a run does to locks, queue, records and events. *)
Definition enqueue_new (r : TurnRun) (kind : TurnEventKind) (at_ : TurnTimestamp) (s : Inner) : Inner :=
  push_event r kind None None at_
    (s <| in_active_locks ::= insert (run_scope r) (new_lock (run_scope r) (run_id r) (run_received_at r)) |>
       <| in_queued_runs ::= fun q => q ++ [run_id r] |>
       <| in_records ::= insert (run_id r) r |>).

Definition turn_record_of (r : TurnRun) : TurnRecord := {|
  tr_turn_id := run_turn_id r; tr_scope := run_scope r; tr_actor := run_actor r;
  tr_accepted_message_ref := run_accepted_message_ref r;
  tr_source_binding_ref := run_source_binding_ref r;
  tr_reply_target_binding_ref := run_reply_target_binding_ref r;
  tr_created_at := run_received_at r |}.

Definition submit_accepted (r : TurnRun) : SubmitTurnResponse := {|
  sa_turn_id := run_turn_id r; sa_run_id := run_id r; sa_status := TurnQueued;
  sa_resolved_run_profile_id := rp_id (run_profile r);
  sa_resolved_run_profile_version := rp_version (run_profile r);
  sa_event_cursor := run_event_cursor r; sa_accepted_message_ref := run_accepted_message_ref r;
  sa_reply_target_binding_ref := run_reply_target_binding_ref r |}.

(** [TurnId::new()] and the draw of [fresh_turn_run_id]. *)
Record FreshIds := { fresh_turn : TurnId; fresh_run : TurnRunId }.

Section submission.
Variable limit_for : LimitProvider.

(** The last region of [submit_turn]. *)
Definition commit_submit (q : SubmitTurnRequest)
    (resolution : Result ResolvedRunProfile RunProfileResolutionError) (fresh : FreshIds)
    (clk : Clock) : Inner -> TResult SubmitTurnResponse * Inner :=
  let key := submit_key (sr_scope q) (sr_idempotency_key q) in
  let conclude reply s := conclude_submit key reply (sr_received_at q) s in
  unless_replied key id (fun s =>
    match resolution with
    | Err e => conclude (Err (profile_resolution_error_to_turn_error e)) s
    | Ok resolved =>
        let profile := from_resolved resolved in
        match thread_busy (sr_scope q) s with
        | Some busy => (Err (ThreadBusyError busy), clear_in_flight key s)
        | None =>
            let id := default (fresh_run fresh) (sr_requested_run_id q) in
            match in_records s !! id with
            | Some _ => conclude (Err (TurnConflict "requested_run_id already bound")) s
            | None =>
                match reserve_admission id (rp_admission_class profile) (sr_scope q) (sr_actor q)
                        limit_for s with
                | (Some rejection, s1) => conclude (Err (AdmissionRejected rejection)) s1
                | (None, s1) =>
                    let '(cursor, s2) := next_cursor s1 in
                    let r := queued_run (sr_scope q) (sr_actor q) (fresh_turn fresh) id profile
                      (sr_accepted_message_ref q) (sr_source_binding_ref q)
                      (sr_reply_target_binding_ref q) None cursor (sr_received_at q) None 0 None
                      (sr_product_context q) in
                    conclude (Ok (submit_accepted r))
                      (enqueue_new r EvSubmitted (clk 0%nat)
                         (s2 <| in_turns ::= insert (run_turn_id r) (turn_record_of r) |>))
                end
            end
        end
    end).

(** ** Child submission *)

Definition visible_run (scope : TurnScope) (id : TurnRunId) (s : Inner) : option TurnRun :=
  match in_records s !! id with
  | Some r => if decide (run_scope r = scope) then Some r else None
  | None => None
  end.

Definition spawn_root (r : TurnRun) : TurnRunId := default (run_id r) (run_spawn_tree_root_run_id r).

(** The checks on the parent, made in two regions. *)
Definition check_parent (q : SubmitChildRunRequest) (s : Inner) : TResult TurnRun :=
  match visible_run (cr_parent_scope q) (cr_parent_run_id q) s with
  | None => Err TurnScopeNotFound
  | Some parent =>
      if negb (same_scope_envelope (run_scope parent) (cr_child_scope q)) then Err TurnUnauthorized
      else if run_subagent_depth parent =? u32_max
      then Err (TurnInvalidRequest "subagent depth would overflow")
      else Ok parent
  end.

(** The first region of [submit_child_turn]: the request the policy will see. *)
Definition child_template (q : SubmitChildRunRequest) :
    Inner -> (TResult SubmitTurnResponse + SubmitTurnRequest) * Inner :=
  let key := submit_key (cr_child_scope q) (cr_idempotency_key q) in
  unless_replied key inl (fun s =>
    match check_parent q s with
    | Err e =>
        let '(reply, s') := conclude_submit key (Err e) (cr_received_at q) s in (inl reply, s')
    | Ok parent =>
        (inr {| sr_scope := cr_child_scope q; sr_actor := cr_actor q;
                sr_accepted_message_ref := cr_accepted_message_ref q;
                sr_source_binding_ref := cr_source_binding_ref q;
                sr_reply_target_binding_ref := cr_reply_target_binding_ref q;
                sr_requested_run_profile := cr_requested_run_profile q;
                sr_idempotency_key := cr_idempotency_key q;
                sr_received_at := cr_received_at q;
                sr_requested_run_id := cr_requested_run_id q;
                sr_parent_run_id := Some (run_id parent);
                sr_subagent_depth := run_subagent_depth parent + 1;
                sr_spawn_tree_root_run_id := Some (spawn_root parent);
                sr_product_context := run_product_context parent |}, s)
    end).

(** The checks on the root of the spawn tree. *)
Definition check_root (parent : TurnRun) (child_scope : TurnScope) (s : Inner) : TResult TurnRun :=
  match in_records s !! spawn_root parent with
  | None => Err TurnScopeNotFound
  | Some root =>
      if negb (same_scope_envelope (run_scope root) child_scope) then Err TurnUnauthorized
      else if negb (spawn_root root =? run_id root)
      then Err (TurnInvalidRequest "root_run_id must identify the spawn tree root")
      else Ok root
  end.

Definition tree_state (key : SpawnTreeReservationKey) (s : Inner) : TreeReservationState :=
  default tree_default (in_tree_reservations s !! key).

(** [checked_add], then the cap. *)
Definition tree_next (count delta cap : N) : option N :=
  match checked_add u64_max count delta with
  | Some next => if next <=? cap then Some next else None
  | None => None
  end.

(** The last region of [submit_child_turn]. *)
Definition commit_child (q : SubmitChildRunRequest)
    (resolution : Result ResolvedRunProfile RunProfileResolutionError) (fresh : FreshIds)
    (clk : Clock) : Inner -> TResult SubmitTurnResponse * Inner :=
  let key := submit_key (cr_child_scope q) (cr_idempotency_key q) in
  let conclude reply s := conclude_submit key reply (cr_received_at q) s in
  unless_replied key id (fun s =>
    match resolution with
    | Err e => conclude (Err (profile_resolution_error_to_turn_error e)) s
    | Ok resolved =>
    let profile := from_resolved resolved in
    match check_parent q s with
    | Err e => conclude (Err e) s
    | Ok parent =>
    match check_root parent (cr_child_scope q) s with
    | Err e => conclude (Err e) s
    | Ok root =>
    match thread_busy (cr_child_scope q) s with
    | Some busy => (Err (ThreadBusyError busy), clear_in_flight key s)
    | None =>
    let id := default (fresh_run fresh) (cr_requested_run_id q) in
    match in_records s !! id with
    | Some _ => conclude (Err (TurnConflict "requested_run_id already bound")) s
    | None =>
    let tree_key := tree_key_new (cr_child_scope q) (spawn_root parent) in
    let previous := tree_state tree_key s in
    match tree_next (tree_count previous) 1 (cr_spawn_tree_descendant_cap q) with
    | None =>
        conclude (Err (TurnCapacityExceeded SpawnTreeDescendants (cr_spawn_tree_descendant_cap q))) s
    | Some next =>
    let s1 := s <| in_tree_reservations ::= insert tree_key
      {| tree_count := next; tree_released_children := tree_released_children previous |} |> in
    match reserve_admission id (rp_admission_class profile) (cr_child_scope q) (cr_actor q)
            limit_for s1 with
    | (Some rejection, s2) =>
        conclude (Err (AdmissionRejected rejection))
          (if tree_count previous =? 0
           then s2 <| in_tree_reservations ::= delete tree_key |>
           else s2 <| in_tree_reservations ::= insert tree_key previous |>)
    | (None, s2) =>
    let '(cursor, s3) := next_cursor s2 in
    let r := queued_run (cr_child_scope q) (cr_actor q) (fresh_turn fresh) id profile
      (cr_accepted_message_ref q) (cr_source_binding_ref q) (cr_reply_target_binding_ref q) None
      cursor (cr_received_at q) (Some (run_id parent)) (run_subagent_depth parent + 1)
      (Some (spawn_root parent)) (run_product_context parent) in
    conclude (Ok (submit_accepted r))
      (enqueue_new r EvSubmitted (clk 0%nat)
         (s3 <| in_turns ::= insert (run_turn_id r) (turn_record_of r) |>))
    end end end end end end end).

(** ** Retry *)

(** The loop that draws run ids until one is unused; [None] while it has not ended. *)
Definition draw_run_id (draws : list TurnRunId) (s : Inner) : option TurnRunId :=
  List.find (fun id => negb (bool_decide (is_Some (in_records s !! id)))) draws.

(** [retry_turn_once]: [draws] are the run ids drawn, [checkpoint] the id of the copied
    checkpoint.  The answer is [None] while the draws have not ended. *)
Definition retry_turn_once (q : RetryTurnRequest) (draws : list TurnRunId)
    (checkpoint : TurnCheckpointId) (clk : Clock) (s : Inner) :
    option (TResult RetryTurnResponse * Inner) :=
  let not_retryable := Some (Err (RunNotRetryable (ry_run_id q)), s) in
  match in_records s !! ry_run_id q with
  | None => Some (Err TurnScopeNotFound, s)
  | Some failed =>
  if negb (bool_decide (run_scope failed = ry_scope q)) then Some (Err TurnScopeNotFound, s)
  else if negb (bool_decide (run_actor failed = ry_actor q)) then Some (Err TurnUnauthorized, s)
  else if negb (bool_decide (run_status failed = TurnFailed)) || negb (is_latest_run_for_turn failed s)
  then not_retryable
  else match run_checkpoint_id failed with
  | None => not_retryable
  | Some source_id =>
  match retryable_loop_checkpoint failed source_id s with
  | None => not_retryable
  | Some source =>
  match thread_busy (run_scope failed) s with
  | Some busy => Some (Err (ThreadBusyError busy), s)
  | None =>
  match draw_run_id draws s with
  | None => None
  | Some id =>
  match reserve_admission id (rp_admission_class (run_profile failed)) (run_scope failed)
          (run_actor failed) limit_for s with
  | (Some rejection, s1) => Some (Err (AdmissionRejected rejection), s1)
  | (None, s1) =>
  let now := clk 0%nat in
  let '(cursor, s2) := next_cursor (link_loop_checkpoint_for_retry source id now checkpoint s1) in
  let r := queued_run (run_scope failed) (run_actor failed) (run_turn_id failed) id
    (run_profile failed) (run_accepted_message_ref failed) (ry_source_binding_ref q)
    (ry_reply_target_binding_ref q) (Some checkpoint) cursor now (run_parent_run_id failed)
    (run_subagent_depth failed) (run_spawn_tree_root_run_id failed) (run_product_context failed) in
  Some (Ok {| rt_run_id := id; rt_status := TurnQueued; rt_event_cursor := cursor |},
        enqueue_new r EvResumed (clk 1%nat) s2)
  end end end end end end.

Definition retry_turn (q : RetryTurnRequest) (draws : list TurnRunId)
    (checkpoint : TurnCheckpointId) (clk : Clock) (s : Inner) :
    option (TResult RetryTurnResponse * Inner) :=
  let key := {| rik_scope := ry_scope q; rik_run_id := ry_run_id q; rik_key := ry_idempotency_key q |} in
  match in_retry_idempotency s !! key with
  | Some reply => Some (reply, s)
  | None =>
      (fun '(result, s') => (result, remember_retry_idempotency key result (clk 2%nat) s'))
      <$> retry_turn_once q draws checkpoint clk s
  end.
End submission.

(** ** Resume and cancellation *)

Definition any_resumable (s : TurnStatus) : bool :=
  match s with TurnBlockedApproval | TurnBlockedAuth | TurnBlockedResource => true | _ => false end.

Definition resume_turn_once (q : ResumeTurnRequest) (clk : Clock) :
    Inner -> TResult ResumeTurnResponse * Inner :=
  with_record (rq_run_id q) (fun r s =>
    if negb (bool_decide (run_scope r = rq_scope q)) then (Err TurnScopeNotFound, r, s)
    else if negb match required_status (rq_precondition q) with
                 | Some required => bool_decide (run_status r = required)
                 | None => any_resumable (run_status r)
                 end
    then (Err (TurnInvalidTransition (run_status r) TurnQueued), r, s)
    else if negb (bool_decide (run_actor r = rq_actor q)) then (Err TurnUnauthorized, r, s)
    else if negb (bool_decide (run_gate_ref r = Some (rq_gate_resolution_ref q)))
    then (Err (TurnInvalidRequest "gate resolution reference mismatch"), r, s)
    else
      let now := clk 0%nat in
      let '(t, r1) := status_set TurnQueued r in
      let s1 := apply_status_transition t r1 s in
      let '(cursor, s2) := next_cursor s1 in
      let r2 := r1 <| run_resume_disposition := rq_resume_disposition q |>
                   <| run_gate_ref := None |> <| run_credential_requirements := [] |>
                   <| run_source_binding_ref := rq_source_binding_ref q |>
                   <| run_reply_target_binding_ref := rq_reply_target_binding_ref q |>
                   <| run_event_cursor := cursor |> in
      let s3 := update_active_lock r2 now s2 <| in_queued_runs ::= fun queue => queue ++ [run_id r2] |> in
      (Ok {| rs_run_id := run_id r2; rs_status := run_status r2; rs_event_cursor := cursor |}, r2,
       push_event r2 EvResumed None None (clk 1%nat) s3)).

Definition resume_turn (q : ResumeTurnRequest) (clk : Clock) (s : Inner) :
    TResult ResumeTurnResponse * Inner :=
  let key := {| rik_scope := rq_scope q; rik_run_id := rq_run_id q; rik_key := rq_idempotency_key q |} in
  match in_resume_idempotency s !! key with
  | Some reply => (reply, s)
  | None =>
      let '(result, s') := resume_turn_once q clk s in
      (result, remember_resume_idempotency key result (clk 2%nat) s')
  end.

Definition cancel_response (r : TurnRun) (already_terminal : bool) : CancelRunResponse := {|
  cn_run_id := run_id r; cn_status := run_status r; cn_event_cursor := run_event_cursor r;
  cn_already_terminal := already_terminal; cn_actor := Some (run_actor r) |}.

(** The statuses a cancellation ends at once, those it only marks, and the rest. *)
Definition cancel_target (s : TurnStatus) : option (TurnStatus * TurnEventKind) :=
  match s with
  | TurnQueued | TurnBlockedApproval | TurnBlockedAuth | TurnBlockedResource
  | TurnBlockedDependentRun => Some (TurnCancelled, EvCancelled)
  | TurnRunning | TurnCancelRequested => Some (TurnCancelRequested, EvCancelRequested)
  | _ => None
  end.

Definition request_cancel_once (q : CancelRunRequest) (clk : Clock) (s : Inner) :
    TResult CancelRunResponse * Inner :=
  match in_records s !! cq_run_id q with
  | None => (Err TurnScopeNotFound, s)
  | Some _ =>
  let '(result, s') := with_record (cq_run_id q) (fun r s =>
    if negb (bool_decide (run_scope r = cq_scope q)) then (Err TurnScopeNotFound, r, s)
    else if negb (bool_decide (run_actor r = cq_actor q)) then (Err TurnUnauthorized, r, s)
    else if turn_is_terminal (run_status r) then (Ok (cancel_response r true), r, s)
    else match cancel_target (run_status r) with
    | None => (Ok (cancel_response r true), r, s)
    | Some (next_status, kind) =>
      let now := clk 0%nat in
      let '(t, r1) := status_set next_status r in
      let s1 := apply_status_transition t r1 s in
      let '(r2, s2) :=
        if turn_is_terminal (run_status r1)
        then let r2 := r1 <| run_failure := None |> in
             (r2, remove_queued_run (run_id r2) (release_active_lock r2 s1))
        else (r1, update_active_lock r1 now s1) in
      let '(cursor, s3) := next_cursor s2 in
      let r3 := r2 <| run_event_cursor := cursor |> in
      let s4 := push_event r3 kind (Some (cancel_reason_category (cq_reason q))) None (clk 1%nat) s3 in
      (Ok (cancel_response r3 false), r3,
       if turn_is_terminal (run_status r3) then mark_terminal (run_id r3) s4 else s4)
    end) s in
  (result, prune_terminal_records s')
  end.

Definition request_cancel (q : CancelRunRequest) (clk : Clock) (s : Inner) :
    TResult CancelRunResponse * Inner :=
  let key := {| rik_scope := cq_scope q; rik_run_id := cq_run_id q; rik_key := cq_idempotency_key q |} in
  match in_cancel_idempotency s !! key with
  | Some reply => (reply, s)
  | None =>
      let '(result, s') := request_cancel_once q clk s in
      (result, remember_cancel_idempotency key result (clk 2%nat) s')
  end.

(** ** Queries *)

Definition get_run_state (scope : TurnScope) (id : TurnRunId) (s : Inner) : TResult TurnRunState :=
  match visible_run scope id s with
  | Some r => Ok (run_state r)
  | None => Err TurnScopeNotFound
  end.

Definition get_run_record (scope : TurnScope) (id : TurnRunId) (s : Inner) :
    TResult (option TurnRunRecord) := Ok (persistence_record <$> visible_run scope id s).

Definition children_of (scope : TurnScope) (id : TurnRunId) (s : Inner) : TResult (list TurnRunRecord) :=
  match visible_run scope id s with
  | None => Ok []
  | Some _ =>
      Ok (sort_by_Z pr_received_at (persistence_record <$>
            List.filter (fun r => same_scope_envelope (run_scope r) scope
                                  && bool_decide (run_parent_run_id r = Some id))
              (map_to_list (in_records s)).*2))
  end.

Definition blocked_for_approval (scope : TurnScope) (actor : TurnActor) (r : TurnRun) : bool :=
  same_thread (run_scope r) scope && bool_decide (run_actor r = actor)
  && bool_decide (run_status r = TurnBlockedApproval) && bool_decide (is_Some (run_gate_ref r)).

Definition blocked_approval_runs_for_actor (scope : TurnScope) (actor : TurnActor) (s : Inner) :
    TResult (list TurnRunState) :=
  Ok (sort_by_N rst_run_id (run_state <$>
        List.filter (blocked_for_approval scope actor) (map_to_list (in_records s)).*2)).

(** Consecutive duplicates go ([Vec::dedup_consecutive]). *)
Fixpoint dedup_consecutive (l : list N) : list N :=
  match l with
  | x :: ((y :: _) as l') => if x =? y then dedup_consecutive l' else x :: dedup_consecutive l'
  | _ => l
  end.

Definition historical_gate (scope : TurnScope) (gate : GateRef) (c : TurnCheckpointRecord) : bool :=
  bool_decide (tc_status c = TurnBlockedApproval) && bool_decide (tc_gate_ref c = gate)
  && match tc_scope c with None => true | Some stored => same_thread stored scope end.

Definition approval_run_for_actor_and_gate (scope : TurnScope) (actor : TurnActor) (gate : GateRef)
    (s : Inner) : TResult (option TurnRunId) :=
  match List.find (fun r => same_thread (run_scope r) scope && bool_decide (run_actor r = actor)
                            && bool_decide (run_status r = TurnBlockedApproval)
                            && bool_decide (run_gate_ref r = Some gate))
          (map_to_list (in_records s)).*2 with
  | Some r => Ok (Some (run_id r))
  | None =>
      Ok (head (dedup_consecutive (sort_by_N id (omap (fun c =>
        match in_records s !! tc_run_id c with
        | Some r => if same_thread (run_scope r) scope && bool_decide (run_actor r = actor)
                    then Some (run_id r) else None
        | None => None
        end) (List.filter (historical_gate scope gate) (in_checkpoints s))))))
  end.

Definition read_turn_events_after (scope : TurnScope) (owner : option UserId)
    (after : option EventCursor) (limit : N) (s : Inner) : TResult TurnEventPage :=
  Ok (project_turn_events (in_events s) scope owner after limit (in_event_retention_floor s)).

(** ** Loop checkpoints *)

Definition put_loop_checkpoint (q : PutLoopCheckpointRequest) (fresh : TurnCheckpointId)
    (clk : Clock) (s : Inner) : TResult LoopCheckpointRecord * Inner :=
  let c := {| lcr_checkpoint_id := fresh; lcr_scope := pl_scope q; lcr_turn_id := pl_turn_id q;
              lcr_run_id := pl_run_id q; lcr_state_ref := pl_state_ref q;
              lcr_schema_id := pl_schema_id q; lcr_schema_version := pl_schema_version q;
              lcr_kind := pl_kind q; lcr_gate_ref := pl_gate_ref q; lcr_created_at := clk 0%nat |} in
  (Ok c, s <| in_loop_checkpoints ::= insert fresh c |>).

Definition get_loop_checkpoint (scope : TurnScope) (turn : TurnId) (id : TurnRunId)
    (checkpoint : TurnCheckpointId) (s : Inner) : TResult (option LoopCheckpointRecord) :=
  match in_loop_checkpoints s !! checkpoint with
  | None => Ok None
  | Some c =>
      if bool_decide (lcr_scope c = scope) && (lcr_turn_id c =? turn) && (lcr_run_id c =? id)
         && (lcr_checkpoint_id c =? checkpoint)
      then Ok (Some c) else Ok None
  end.

(** ** Spawn-tree reservations *)

Definition reserve_tree_descendants (scope : TurnScope) (root_id : TurnRunId) (delta cap : N)
    (s : Inner) : TResult SpawnTreeReservation * Inner :=
  if delta =? 0
  then (Err (TurnInvalidRequest "reservation delta must be greater than zero"), s)
  else match in_records s !! root_id with
  | None => (Err TurnScopeNotFound, s)
  | Some root =>
      if negb (same_scope_envelope (run_scope root) scope) then (Err TurnUnauthorized, s)
      else if negb (spawn_root root =? run_id root)
      then (Err (TurnInvalidRequest "root_run_id must identify the spawn tree root"), s)
      else
        let key := tree_key_new scope (spawn_root root) in
        let current := tree_state key s in
        match tree_next (tree_count current) delta cap with
        | None => (Err (TurnCapacityExceeded SpawnTreeDescendants cap), s)
        | Some next =>
            (Ok {| st_scope := scope; st_root_run_id := spawn_root root; st_descendant_count := next;
                   st_released_children := tree_released_children current |},
             s <| in_tree_reservations ::= insert key
               {| tree_count := next; tree_released_children := tree_released_children current |} |>)
        end
  end.

(** A root whose last reservation was released and that was passed over by the pruning
    while it had one. *)
Definition settle_released_root (root_id : TurnRunId) (s : Inner) : Inner :=
  if run_is_terminal root_id s && negb (existsb (N.eqb root_id) (in_terminal_runs s))
  then
    if tsl_max_terminal_records (in_limits s) <=? N.of_nat (length (in_terminal_runs s))
    then s <| in_records ::= delete root_id |> <| in_admission_reservations ::= delete root_id |>
    else prune_terminal_records (s <| in_terminal_runs ::= fun l => l ++ [root_id] |>)
  else s.

Definition release_tree_descendants (scope : TurnScope) (root_id : TurnRunId) (delta : N)
    (child : TurnRunId) (s : Inner) : TResult unit * Inner :=
  match in_records s !! root_id with
  | None => (Err TurnScopeNotFound, s)
  | Some root =>
      if negb (same_scope_envelope (run_scope root) scope) then (Err TurnUnauthorized, s)
      else if negb (spawn_root root =? run_id root)
      then (Err (TurnInvalidRequest "root_run_id must identify the spawn tree root"), s)
      else
        let key := tree_key_new scope (spawn_root root) in
        match in_tree_reservations s !! key with
        | None => (Ok tt, s)
        | Some state =>
            if decide (child ∈ tree_released_children state) then (Ok tt, s)
            else if tree_count state <? delta
            then (Err (TurnInvalidRequest "release delta exceeds current reservation count"), s)
            else
              let count := tree_count state - delta in
              if count =? 0
              then (Ok tt, settle_released_root (spawn_root root)
                             (s <| in_tree_reservations ::= delete key |>))
              else (Ok tt, s <| in_tree_reservations ::= insert key
                     {| tree_count := count;
                        tree_released_children := {[child]} ∪ tree_released_children state |} |>)
        end
  end.

Definition prune_released_child (scope : TurnScope) (root_id child : TurnRunId) (s : Inner) :
    TResult unit * Inner :=
  match in_records s !! root_id with
  | None => (Ok tt, s)
  | Some root =>
      if negb (same_scope_envelope (run_scope root) scope) then (Err TurnUnauthorized, s)
      else
        let key := tree_key_new scope (spawn_root root) in
        match in_tree_reservations s !! key with
        | None => (Ok tt, s)
        | Some state =>
            (Ok tt, s <| in_tree_reservations ::= insert key
               {| tree_count := tree_count state;
                  tree_released_children := tree_released_children state ∖ {[child]} |} |>)
        end
  end.
End ops.
