(* ===== verification/TurnRunner.v ===== *)
(** * The runner's side of the turn store

    Models [TurnRunTransitionPort] of [ironclaw_turns/src/memory/mod.rs]: claiming queued
    runs, heartbeats, lease recovery, and the transitions a runner reports under its
    lease. *)

From S2P Require Import Prelude Collections Ids Platform HostApi Capability Obligations Turns TurnLimiter TurnEvents TurnStore TurnOps.
From Stdlib Require Import Lia.
Local Open Scope N_scope.
Local Open Scope record_scope.

Section runner.
Context `{TurnPayload} `{Platform}.

Abbreviation TResult T := (Result T TurnError).

(** ** Claims *)

Definition claim_matching_queued_run (runner : TurnRunnerId) (token : TurnLeaseToken)
    (scope_filter : option TurnScope) (clk : Clock) (s : Inner) :
    TResult (option ClaimedTurnRun) * Inner :=
  match pop_matching_queued_run scope_filter s with
  | (None, s1) => (Ok None, s1)
  | (Some id, s1) =>
      with_record id (fun r s =>
        let now := clk 0%nat in
        let '(t, r1) := status_set TurnRunning r in
        let '(cursor, s2) := next_cursor s in
        let r2 := r1 <| run_runner_id := Some runner |> <| run_lease_token := Some token |>
                     <| run_lease_expires_at := Some (next_lease_expiry s now) |>
                     <| run_last_heartbeat_at := Some now |>
                     <| run_claim_count ::= fun n => sat_add64 n 1 |>
                     <| run_event_cursor := cursor |> in
        let s3 := apply_status_transition t r2 (update_active_lock r2 now s2) in
        (Ok (Some {| cl_state := run_state r2; cl_resolved_run_profile := rp_resolved (run_profile r2);
                     cl_runner_id := runner; cl_lease_token := token |}), r2,
         push_event r2 EvRunnerClaimed None None (clk 1%nat) s3)) s1
  end.

(** [claim_next_runs]: at most so many claims, each with a fresh lease token and its own
    readings of the clock. *)
Fixpoint claim_next_runs (runner : TurnRunnerId) (scope_filter : option TurnScope)
    (turns : list (TurnLeaseToken * Clock)) (s : Inner) : TResult (list ClaimedTurnRun) * Inner :=
  match turns with
  | [] => (Ok [], s)
  | (token, clk) :: rest =>
      match claim_matching_queued_run runner token scope_filter clk s with
      | (Err e, s') => (Err e, s')
      | (Ok None, s') => (Ok [], s')
      | (Ok (Some claimed), s') =>
          match claim_next_runs runner scope_filter rest s' with
          | (Ok claims, s'') => (Ok (claimed :: claims), s'')
          | (Err e, s'') => (Err e, s'')
          end
      end
  end.

(** ** Under a lease *)

(** The body of an operation that first checks the lease. *)
Definition with_lease {T} (c : LeaseClaim) (now : TurnTimestamp)
    (body : TurnRun -> Inner -> TResult T * TurnRun * Inner) : Inner -> TResult T * Inner :=
  with_record (lc_run_id c) (fun r s =>
    match ensure_active_lease r (lc_runner_id c) (lc_lease_token c) now with
    | Err e => (Err e, r, s)
    | Ok _ => body r s
    end).

Definition heartbeat (c : LeaseClaim) (clk : Clock) : Inner -> TResult EventCursor * Inner :=
  let now := clk 0%nat in
  with_lease c now (fun r s =>
    if negb (bool_decide (run_status r = TurnRunning))
    then (Err (TurnInvalidTransition (run_status r) TurnRunning), r, s)
    else
      let '(cursor, s1) := next_cursor s in
      let r1 := r <| run_last_heartbeat_at := Some now |>
                  <| run_lease_expires_at := Some (next_lease_expiry s now) |>
                  <| run_event_cursor := cursor |> in
      (Ok cursor, r1, push_event r1 EvRunnerHeartbeat None None (clk 1%nat)
                        (touch_active_lock r1 now s1))).

Definition record_model_route_snapshot (c : LeaseClaim) (snapshot : LoopModelRouteSnapshot)
    (clk : Clock) : Inner -> TResult TurnRunState * Inner :=
  let now := clk 0%nat in
  with_lease c now (fun r s =>
    if negb (bool_decide (run_status r = TurnRunning))
    then (Err (TurnInvalidTransition (run_status r) TurnRunning), r, s)
    else match route_validate snapshot with
    | Err reason => (Err (TurnInvalidRequest reason), r, s)
    | Ok _ =>
        match run_resolved_model_route r with
        | Some existing =>
            if decide (existing = snapshot) then (Ok (run_state r), r, s)
            else (Err (TurnConflict "run already has a different resolved model route"), r, s)
        | None =>
            let r1 := r <| run_resolved_model_route := Some snapshot |> in
            (Ok (run_state r1), r1, touch_active_lock r1 now s)
        end
    end).

(** [overlay_runner_lease_record]: a lease renewal read from durable storage. *)
Definition overlay_runner_lease_record (overlaid : TurnRunRecord) (s : Inner) : TResult unit * Inner :=
  match in_records s !! pr_run_id overlaid with
  | None => (Err TurnScopeNotFound, s)
  | Some r =>
      if negb (holds_running_slot (run_status r))
         || negb (bool_decide (run_runner_id r = pr_runner_id overlaid))
         || negb (bool_decide (run_lease_token r = pr_lease_token overlaid))
         || negb (bool_decide (is_Some (run_runner_id r)))
         || negb (bool_decide (is_Some (run_lease_token r)))
      then (Ok tt, s)
      else if match run_last_heartbeat_at r, pr_last_heartbeat_at overlaid with
              | Some current, Some incoming => (incoming <? current)%Z
              | _, _ => false
              end
      then (Ok tt, s)
      else (Ok tt, s <| in_records ::= insert (pr_run_id overlaid)
              (r <| run_last_heartbeat_at := pr_last_heartbeat_at overlaid |>
                 <| run_lease_expires_at := pr_lease_expires_at overlaid |>) |>)
  end.

(** ** Transitions

    Each works on the record taken out of the map, its lease already checked. *)

Abbreviation Transition := (Inner -> TResult TurnRunState * TurnRun * Inner).

Definition drop_lease (r : TurnRun) : TurnRun :=
  r <| run_runner_id := None |> <| run_lease_token := None |> <| run_lease_expires_at := None |>.

Definition rejected (r : TurnRun) (to : TurnStatus) : Transition := fun s =>
  (Err (TurnInvalidTransition (run_status r) to), r, s).

(** A run ends with [status]: the shape that the terminal transitions share.  [edit] is
    what happens to the record's failure and checkpoint. *)
Definition finish_run (status : TurnStatus) (edit : TurnRun -> TurnRun) (kind : TurnEventKind)
    (reason detail : option string) (clk : Clock) (r : TurnRun) : Transition := fun s =>
  let '(t, r1) := status_set status r in
  let s1 := apply_status_transition t r1 s in
  let '(cursor, s2) := next_cursor s1 in
  let r2 := drop_lease (edit r1) <| run_event_cursor := cursor |> in
  let s3 := remove_queued_run (run_id r2) (release_active_lock r2 s2) in
  let s4 := push_event r2 kind reason detail (clk 1%nat) s3 in
  (Ok (run_state r2), r2, mark_terminal (run_id r2) s4).

(** A failed run keeps the latest checkpoint it may be retried from. *)
Definition fail_edit (failure : option SanitizedFailure) (s : Inner) (r : TurnRun) : TurnRun :=
  r <| run_checkpoint_id := latest_resumable_loop_checkpoint (run_scope r) (run_turn_id r) (run_id r) s |>
    <| run_failure := failure |>.

Definition terminal_edit (status : TurnStatus) (failure : option SanitizedFailure) (s : Inner)
    (r : TurnRun) : TurnRun :=
  if decide (status = TurnFailed) then fail_edit failure s r else r <| run_failure := failure |>.

(** [terminal_transition], behind [complete_run] and [fail_run] *)
Definition terminal_transition (c : LeaseClaim) (status : TurnStatus)
    (failure : option SanitizedFailure) (kind : TurnEventKind) (clk : Clock) (s : Inner) :
    TResult TurnRunState * Inner :=
  match in_records s !! lc_run_id c with
  | None => (Err TurnScopeNotFound, s)
  | Some _ =>
      let '(result, s') := with_lease c (clk 0%nat) (fun r s =>
        if bool_decide (run_status r = TurnCancelRequested) || turn_is_terminal (run_status r)
        then rejected r status s
        else finish_run status (terminal_edit status failure s) kind (sf_category <$> failure)
               (failure_detail_for_event kind failure) clk r s) s in
      (result, prune_terminal_records s')
  end.

Definition complete_run (c : LeaseClaim) : Clock -> Inner -> TResult TurnRunState * Inner :=
  terminal_transition c TurnCompleted None EvCompleted.

Definition fail_run (c : LeaseClaim) (failure : SanitizedFailure) :
    Clock -> Inner -> TResult TurnRunState * Inner :=
  terminal_transition c TurnFailed (Some failure) EvFailed.

Definition no_failure (r : TurnRun) : TurnRun := r <| run_failure := None |>.

(** [cancel_completion_transition], behind [cancel_run] *)
Definition cancel_run (c : LeaseClaim) (clk : Clock) (s : Inner) : TResult TurnRunState * Inner :=
  match in_records s !! lc_run_id c with
  | None => (Err TurnScopeNotFound, s)
  | Some _ =>
      let '(result, s') := with_lease c (clk 0%nat) (fun r s =>
        if negb (bool_decide (run_status r = TurnCancelRequested))
        then rejected r TurnCancelled s
        else finish_run TurnCancelled no_failure EvCancelled None None clk r s) s in
      (result, prune_terminal_records s')
  end.

(** The record is parked on a gate: [block_run] and [block_claimed_record]. *)
Definition park_run (checkpoint_id : TurnCheckpointId) (state_ref : LoopCheckpointStateRef)
    (reason : BlockedReason) (activity : option CapabilityActivityId) (now at_ : TurnTimestamp)
    (r : TurnRun) : Transition := fun s =>
  if negb (bool_decide (run_status r = TurnRunning)) then rejected r (reason_status reason) s
  else
    let '(t, r1) := status_set (reason_status reason) r in
    let s1 := apply_status_transition t r1 s in
    let '(cursor, s2) := next_cursor s1 in
    let r2 := drop_lease (r1 <| run_checkpoint_id := Some checkpoint_id |>
                             <| run_gate_ref := Some (reason_gate_ref reason) |>
                             <| run_blocked_activity_id := activity |>
                             <| run_credential_requirements := reason_credential_requirements reason |>)
              <| run_event_cursor := cursor |> in
    let s3 := update_active_lock r2 now
                (record_checkpoint r2 checkpoint_id state_ref (reason_gate_ref reason) now s2) in
    (Ok (run_state r2), r2, push_event r2 EvBlocked None None at_ s3).

Definition block_run (c : LeaseClaim) (checkpoint_id : TurnCheckpointId)
    (state_ref : LoopCheckpointStateRef) (reason : BlockedReason) (clk : Clock) :
    Inner -> TResult TurnRunState * Inner :=
  with_lease c (clk 0%nat) (park_run checkpoint_id state_ref reason None (clk 0%nat) (clk 1%nat)).

(** *** Transitions of a claimed record

    Each says, when it applies, whether terminal records are pruned once the record is
    back ([AppliedLoopTransition]). *)

Definition complete_claimed_record (clk : Clock) (r : TurnRun) : Transition := fun s =>
  if negb (bool_decide (run_status r = TurnRunning)) then rejected r TurnCompleted s
  else finish_run TurnCompleted no_failure EvCompleted None None clk r s.

Definition cancel_claimed_record (clk : Clock) (r : TurnRun) : Transition := fun s =>
  if negb (bool_decide (run_status r = TurnCancelRequested)) then rejected r TurnCancelled s
  else finish_run TurnCancelled no_failure EvCancelled None None clk r s.

Definition fail_claimed_record (failure : SanitizedFailure) (clk : Clock) (r : TurnRun) :
    Transition := fun s =>
  if negb (bool_decide (run_status r = TurnRunning)) then rejected r TurnFailed s
  else finish_run TurnFailed (fail_edit (Some failure) s) EvFailed (Some (sf_category failure))
         (sf_detail failure) clk r s.

Definition cancel_or_fail_claimed_record (failure : SanitizedFailure) (clk : Clock) (r : TurnRun) :
    Transition := fun s =>
  match run_status r with
  | TurnRunning => fail_claimed_record failure clk r s
  | TurnCancelRequested => cancel_claimed_record clk r s
  | _ => rejected r TurnFailed s
  end.

Definition apply_mapping (mapping : LoopExitMapping) (clk : Clock) (r : TurnRun) : Transition :=
  match mapping with
  | RunnerOutcome OutcomeCompleted => complete_claimed_record clk r
  | RunnerOutcome OutcomeCancelled =>
      cancel_or_fail_claimed_record (from_trusted_static "interrupted_unexpectedly") clk r
  | RunnerOutcome (OutcomeBlocked checkpoint_id state_ref reason activity) =>
      park_run checkpoint_id state_ref reason activity (clk 2%nat) (clk 1%nat) r
  | RunnerOutcome (OutcomeFailed failure) => fail_claimed_record failure clk r
  | MapRecoveryRequired failure => cancel_or_fail_claimed_record failure clk r
  end.

(** [commit_transition]: pruning follows an applied transition that ends the run. *)
Definition commit_transition (result : TResult TurnRunState) (s : Inner) :
    TResult TurnRunState * Inner :=
  (result, match result with
           | Ok state => if turn_is_terminal (rst_status state) then prune_terminal_records s else s
           | Err _ => s
           end).

Definition apply_validated_loop_exit (c : LeaseClaim) (mapping : LoopExitMapping) (clk : Clock)
    (s : Inner) : TResult TurnRunState * Inner :=
  let '(result, s') := with_lease c (clk 0%nat) (apply_mapping mapping clk) s in
  commit_transition result s'.

(** [runner_failure_transition] *)
Definition record_runner_failure (c : LeaseClaim) (failure : SanitizedFailure) (clk : Clock)
    (s : Inner) : TResult TurnRunState * Inner :=
  let '(result, s') := with_lease c (clk 0%nat) (cancel_or_fail_claimed_record failure clk) s in
  commit_transition result s'.

(** *** Relinquishing *)

(** A running run goes back to the queue. *)
Definition requeue_run (clk : Clock) (r : TurnRun) : Transition := fun s =>
  let '(t, r1) := status_set TurnQueued r in
  let s1 := apply_status_transition t r1 s in
  let '(cursor, s2) := next_cursor s1 in
  let r2 := drop_lease (no_failure r1) <| run_event_cursor := cursor |> in
  (Ok (run_state r2), r2,
   push_event r2 EvRunnerHeartbeat None None (clk 1%nat) (update_active_lock r2 (clk 0%nat) s2)).

Definition relinquish_body (clk : Clock) (r : TurnRun) : Transition := fun s =>
  match run_status r with
  | TurnRunning => requeue_run clk r s
  | TurnCancelRequested => finish_run TurnCancelled no_failure EvCancelled None None clk r s
  | _ => rejected r TurnQueued s
  end.

Definition relinquish_run (c : LeaseClaim) (clk : Clock) (s : Inner) : TResult TurnRunState * Inner :=
  let '(result, s1) := with_lease c (clk 0%nat) (relinquish_body clk) s in
  let s2 :=
    match result with
    | Ok state =>
        if decide (rst_status state = TurnQueued)
        then s1 <| in_queued_runs ::= fun queue => queue ++ [lc_run_id c] |> else s1
    | Err _ => s1
    end in
  commit_transition result s2.

(** ** Lease recovery *)

Definition lease_expired (q_now : TurnTimestamp) (scope_filter : option TurnScope) (r : TurnRun) : bool :=
  holds_running_slot (run_status r)
  && match scope_filter with None => true | Some scope => bool_decide (scope = run_scope r) end
  && match run_lease_expires_at r with Some expires_at => (expires_at <=? q_now)%Z | None => false end.

(** What happens to one expired run, its record taken out. *)
Definition expire_run (clk : Clock) (r : TurnRun) : Transition := fun s =>
  let outcome := expired_lease_terminal_outcome (run_status r) in
  finish_run (lo_status outcome) (terminal_edit (lo_status outcome) (lo_failure outcome) s)
    (lo_event_kind outcome) (lo_event_detail outcome)
    (failure_detail_for_event (lo_event_kind outcome) (lo_failure outcome)) clk r s.

Fixpoint recover_loop (ids : list TurnRunId) (clk : nat -> Clock) (s : Inner) :
    list TurnRunState * Inner :=
  match ids with
  | [] => ([], s)
  | id :: rest =>
      let '(result, s1) := with_record id (expire_run (clk 0%nat)) s in
      let '(recovered, s2) := recover_loop rest (fun i => clk (S i)) s1 in
      (match result with Ok state => state :: recovered | Err _ => recovered end, s2)
  end.

Definition recover_expired_leases (q_now : TurnTimestamp) (scope_filter : option TurnScope)
    (clk : nat -> Clock) (s : Inner) : list TurnRunState * Inner :=
  let expired := (List.filter (fun '(_, r) => lease_expired q_now scope_filter r)
                    (map_to_list (in_records s))).*1 in
  let '(recovered, s') := recover_loop expired clk s in
  (recovered, prune_terminal_records s').
End runner.
