(* ===== verification/TurnSnapshot.v ===== *)
(** * Snapshots of the turn store

    Models [persistence_snapshot] and [from_persistence_snapshot] of
    [ironclaw_turns/src/memory/mod.rs].  The values of a [HashMap] come in some order
    before they are sorted; ties stay in that order.  That a restored store is the stored
    one is in [TurnRestore]. *)

From S2P Require Import Prelude Collections Ids Platform HostApi Capability Obligations Turns TurnLimiter TurnEvents TurnStore.
From Stdlib Require Import Lia.
Local Open Scope N_scope.
Local Open Scope record_scope.

Section snapshot.
Context `{TurnPayload} `{Platform}.

Record TurnPersistenceSnapshot := {
  tps_turns : list TurnRecord;
  tps_runs : list TurnRunRecord;
  tps_active_locks : list TurnActiveLockRecord;
  tps_checkpoints : list TurnCheckpointRecord;
  tps_loop_checkpoints : list LoopCheckpointRecord;
  tps_idempotency_records : list TurnIdempotencyRecord;
  tps_events : list TurnLifecycleEvent;
  tps_event_retention_floor : EventCursor;
  tps_admission_reservations : list TurnAdmissionReservationRecord;
  tps_spawn_tree_reservations : list SpawnTreeReservation;
}.

(** ** Writing *)

Definition checkpoint_before (a b : TurnCheckpointRecord) : bool :=
  (tc_created_at a <? tc_created_at b)%Z
  || (Z.eqb (tc_created_at a) (tc_created_at b) && (tc_sequence a <=? tc_sequence b)).

(** The reservation of a root that is gone is left out. *)
Definition tree_reservation_record (s : Inner) (entry : SpawnTreeReservationKey * TreeReservationState) :
    option SpawnTreeReservation :=
  (fun root => {| st_scope := run_scope root; st_root_run_id := sk_root_run_id entry.1;
                  st_descendant_count := tree_count entry.2;
                  st_released_children := tree_released_children entry.2 |})
  <$> in_records s !! sk_root_run_id entry.1.

(** Sorting by [run_id.to_string()] is sorting by the 128-bit number. *)
Definition persistence_snapshot (s : Inner) : TurnPersistenceSnapshot := {|
  tps_turns := sort_by_Z tr_created_at (map_values (in_turns s));
  tps_runs := sort_by_N pr_event_cursor (persistence_record <$> map_values (in_records s));
  tps_active_locks := sort_by_Z al_acquired_at (map_values (in_active_locks s));
  tps_checkpoints := stable_sort checkpoint_before (in_checkpoints s);
  tps_loop_checkpoints := stable_sort checkpoint_le (map_values (in_loop_checkpoints s));
  tps_idempotency_records := sort_by_Z ir_created_at (map_values (in_idempotency_records s));
  tps_events := in_events s;
  tps_event_retention_floor := in_event_retention_floor s;
  tps_admission_reservations := sort_by_N res_run_id (map_values (in_admission_reservations s));
  tps_spawn_tree_reservations :=
    sort_by_N st_root_run_id (omap (tree_reservation_record s) (map_to_list (in_tree_reservations s))) |}.

(** ** Reading: the runs *)

Record LoadedRuns := {
  ld_cursor : N;
  ld_records : gmap TurnRunId TurnRun;
  ld_queued_runs : list TurnRunId;
  ld_terminal_runs : list TurnRunId;
}.

Definition has_non_queued_active_lock (locks : gmap TurnScope TurnActiveLockRecord) (id : TurnRunId) : bool :=
  existsb (fun lock => (al_run_id lock =? id) && negb (bool_decide (al_status lock = TurnQueued)))
    (map_values locks).

(** A queued run goes to the queue, unless a lock says it is past it. *)
Definition loads_queued (locks : gmap TurnScope TurnActiveLockRecord) (p : TurnRunRecord) : bool :=
  bool_decide (pr_run_status p = TurnQueued) && negb (has_non_queued_active_lock locks (pr_run_id p)).

(** One round of the loop over the runs. *)
Definition load_run (turns : gmap TurnId TurnRecord) (locks : gmap TurnScope TurnActiveLockRecord)
    (acc : LoadedRuns) (p : TurnRunRecord) : Result LoadedRuns TurnError :=
  match turns !! pr_turn_id p with
  | None => Err (TurnUnavailable "turn run references missing turn record")
  | Some turn_record =>
      Ok {| ld_cursor := N.max (ld_cursor acc) (pr_event_cursor p);
            ld_records := <[pr_run_id p := run_from_record (tr_actor turn_record) p]> (ld_records acc);
            ld_queued_runs := ld_queued_runs acc ++ (if loads_queued locks p then [pr_run_id p] else []);
            ld_terminal_runs := ld_terminal_runs acc ++
              (if turn_is_terminal (pr_run_status p) then [pr_run_id p] else []) |}
  end.

Fixpoint load_runs turns locks (acc : LoadedRuns) (l : list TurnRunRecord) : Result LoadedRuns TurnError :=
  match l with
  | [] => Ok acc
  | p :: l' => match load_run turns locks acc p with
               | Ok acc' => load_runs turns locks acc' l'
               | Err e => Err e
               end
  end.

(** ** Reading: the replies *)

Record LoadedReplies := {
  lr_submit : list SubmitIdempotencyKey * gmap SubmitIdempotencyKey (Result SubmitTurnResponse TurnError);
  lr_resume : list RunIdempotencyKey * gmap RunIdempotencyKey (Result ResumeTurnResponse TurnError);
  lr_retry : list RunIdempotencyKey * gmap RunIdempotencyKey (Result RetryTurnResponse TurnError);
  lr_cancel : list RunIdempotencyKey * gmap RunIdempotencyKey (Result CancelRunResponse TurnError);
  lr_records : list PersistedIdempotencyKey * gmap PersistedIdempotencyKey TurnIdempotencyRecord;
}.

(** The reply a record is replayed as, under its key. *)
Definition submit_entry (r : TurnIdempotencyRecord) :
    option (SubmitIdempotencyKey * Result SubmitTurnResponse TurnError) :=
  pair {| sik_scope := ir_scope r; sik_key := ir_key r |} <$> replay_submit r.

Definition run_entry {T} (replay : TurnIdempotencyRecord -> option (Result T TurnError))
    (r : TurnIdempotencyRecord) : option (RunIdempotencyKey * Result T TurnError) :=
  match ir_run_id r, replay r with
  | Some id, Some reply => Some ({| rik_scope := ir_scope r; rik_run_id := id; rik_key := ir_key r |}, reply)
  | _, _ => None
  end.

(** [order.push_back(key); map.insert(key, value)] *)
Definition enter {K V} `{Countable K} (entry : option (K * V)) (memory : list K * gmap K V) : list K * gmap K V :=
  match entry with
  | Some (k, v) => (memory.1 ++ [k], <[k := v]> memory.2)
  | None => memory
  end.

(** One round of the loop over the records.  The replays are none for the record of
    another operation. *)
Definition load_reply (acc : LoadedReplies) (r : TurnIdempotencyRecord) : LoadedReplies := {|
  lr_submit := enter (submit_entry r) (lr_submit acc);
  lr_resume := enter (run_entry replay_resume r) (lr_resume acc);
  lr_retry := enter (run_entry replay_retry r) (lr_retry acc);
  lr_cancel := enter (run_entry replay_cancel r) (lr_cancel acc);
  lr_records := enter (Some (persisted_key_for_record r, r)) (lr_records acc) |}.

Definition no_replies : LoadedReplies :=
  {| lr_submit := ([], ∅); lr_resume := ([], ∅); lr_retry := ([], ∅); lr_cancel := ([], ∅); lr_records := ([], ∅) |}.

(** ** Reading: admission *)

(** A reservation without a run is dropped; that of an ended run is released. *)
Definition admission_entry (records : gmap TurnRunId TurnRun) (res : TurnAdmissionReservationRecord) :
    option (TurnRunId * TurnAdmissionReservationRecord) :=
  (fun r => (res_run_id res,
     if turn_is_terminal (run_status r)
     then {| res_run_id := res_run_id res; res_admission_class := res_admission_class res;
             res_buckets := res_buckets res; res_released := true |}
     else res)) <$> records !! res_run_id res.

Definition canonical_reservation (r : TurnRun) : TurnAdmissionReservationRecord :=
  {| res_run_id := run_id r; res_admission_class := rp_admission_class (run_profile r);
     res_buckets := admission_buckets (run_scope r) (run_actor r) (rp_admission_class (run_profile r));
     res_released := false |}.

Definition needs_canonical_reservation (m : gmap TurnRunId TurnAdmissionReservationRecord) (r : TurnRun) : bool :=
  match m !! run_id r with
  | None => true
  | Some res =>
      res_released res
      || negb (bool_decide (res_admission_class res = rp_admission_class (run_profile r)))
      || negb (bool_decide (res_buckets res = res_buckets (canonical_reservation r)))
  end.

(** A run that goes on has its own reservation. *)
Definition renew_reservation (m : gmap TurnRunId TurnAdmissionReservationRecord) (r : TurnRun) :
    gmap TurnRunId TurnAdmissionReservationRecord :=
  if keeps_active_lock (run_status r) && needs_canonical_reservation m r
  then <[run_id r := canonical_reservation r]> m else m.

(** ** Reading: the store *)

Definition tree_entry (reservation : SpawnTreeReservation) :
    option (SpawnTreeReservationKey * TreeReservationState) :=
  Some (tree_key_new (st_scope reservation) (st_root_run_id reservation),
        {| tree_count := st_descendant_count reservation;
           tree_released_children := st_released_children reservation |}).

Definition greatest (l : list N) : N := foldr N.max 0 l.

Definition from_persistence_snapshot (p : TurnPersistenceSnapshot) (limits : TurnStoreLimits) :
    Result Inner TurnError :=
  let turns := collect_map (fun t => Some (tr_turn_id t, t)) (tps_turns p) ∅ in
  let locks := collect_map (fun lock => Some (al_key lock, lock)) (tps_active_locks p) ∅ in
  match load_runs turns locks
          {| ld_cursor := 0; ld_records := ∅; ld_queued_runs := []; ld_terminal_runs := [] |} (tps_runs p) with
  | Err e => Err e
  | Ok runs =>
      let records := ld_records runs in
      let replies := fold_left load_reply (sort_by_Z ir_created_at (tps_idempotency_records p)) no_replies in
      Ok {| in_cursor := N.max (N.max (ld_cursor runs) (greatest (ev_cursor <$> tps_events p)))
                           (tps_event_retention_floor p);
            in_turns := turns; in_records := records;
            in_queued_runs := ld_queued_runs runs; in_terminal_runs := ld_terminal_runs runs;
            in_active_locks := locks; in_checkpoints := tps_checkpoints p;
            in_loop_checkpoints := collect_map (fun c => Some (lcr_checkpoint_id c, c)) (tps_loop_checkpoints p) ∅;
            in_submit_idempotency := (lr_submit replies).2; in_submit_in_flight := ∅;
            in_resume_idempotency := (lr_resume replies).2; in_retry_idempotency := (lr_retry replies).2;
            in_cancel_idempotency := (lr_cancel replies).2; in_idempotency_records := (lr_records replies).2;
            in_submit_order := (lr_submit replies).1; in_resume_order := (lr_resume replies).1;
            in_retry_order := (lr_retry replies).1; in_cancel_order := (lr_cancel replies).1;
            in_idempotency_record_order := (lr_records replies).1;
            in_events := tps_events p; in_event_retention_floor := tps_event_retention_floor p;
            in_admission_reservations :=
              fold_left renew_reservation (map_values records)
                (collect_map (admission_entry records) (tps_admission_reservations p) ∅);
            in_tree_reservations := collect_map tree_entry (tps_spawn_tree_reservations p) ∅;
            in_limits := limits;
            in_concurrency := rebuild_from (tsl_concurrency limits)
              (slot_info_for <$> List.filter (fun r => holds_running_slot (run_status r)) (map_values records)) |}
  end.

(** The entries of a snapshot may be kept in any order; the events may not. *)
Record same_entries (p q : TurnPersistenceSnapshot) : Prop := {
  se_turns : tps_turns p ≡ₚ tps_turns q;
  se_runs : tps_runs p ≡ₚ tps_runs q;
  se_locks : tps_active_locks p ≡ₚ tps_active_locks q;
  se_checkpoints : tps_checkpoints p ≡ₚ tps_checkpoints q;
  se_loop_checkpoints : tps_loop_checkpoints p ≡ₚ tps_loop_checkpoints q;
  se_idempotency : tps_idempotency_records p ≡ₚ tps_idempotency_records q;
  se_events : tps_events p = tps_events q;
  se_floor : tps_event_retention_floor p = tps_event_retention_floor q;
  se_admission : tps_admission_reservations p ≡ₚ tps_admission_reservations q;
  se_trees : tps_spawn_tree_reservations p ≡ₚ tps_spawn_tree_reservations q;
}.

Lemma same_entries_refl p : same_entries p p.
Proof. by split. Qed.
End snapshot.
