(* ===== verification/TurnWf.v ===== *)
(** * The invariant of the turn store

    [turns_wf] ties the records, the active locks, the claim queue, the leases, the
    admission reservations, the spawn-tree reservations, the concurrency counters and the
    event log together.  Every change of the store is one of the kinds of [TurnMoves]
    ([moved], [created], [removed], [same_runs]); each keeps the invariant. *)

From S2P Require Import Prelude Collections Ids Platform HostApi Capability Obligations Turns TurnLimiter TurnEvents TurnStore TurnOps TurnRunner.
From Stdlib Require Import Lia.
Local Open Scope N_scope.
Local Open Scope record_scope.

Section wf.
Context `{TurnPayload} `{Platform}.

(** ** Runs *)

(** A lease belongs to a run that holds a running slot, and to no other. *)
Definition lease_wf (r : TurnRun) : Prop :=
  if holds_running_slot (run_status r)
  then is_Some (run_runner_id r) /\ is_Some (run_lease_token r)
  else run_runner_id r = None /\ run_lease_token r = None /\ run_lease_expires_at r = None.

(** What no operation changes in a run. *)
Definition run_static (r : TurnRun) :=
  (run_scope r, run_actor r, run_turn_id r, run_id r, run_profile r, run_accepted_message_ref r,
   run_received_at r, run_parent_run_id r, run_subagent_depth r, run_spawn_tree_root_run_id r,
   run_product_context r).

(** The status changes of one run. *)
Definition status_move (from to : TurnStatus) : bool :=
  match from with
  | TurnQueued => match to with TurnRunning | TurnCancelled => true | _ => false end
  | TurnRunning =>
      match to with
      | TurnRunning | TurnQueued | TurnCancelRequested | TurnCompleted | TurnFailed => true
      | _ => turn_is_blocked to
      end
  | TurnBlockedApproval | TurnBlockedAuth | TurnBlockedResource | TurnBlockedDependentRun =>
      match to with TurnQueued | TurnCancelled => true | _ => false end
  | TurnBlockedExternalTool => match to with TurnQueued => true | _ => false end
  | TurnCancelRequested =>
      match to with TurnCancelRequested | TurnCancelled => true | _ => false end
  | TurnCancelled | TurnCompleted | TurnFailed | TurnRecoveryRequired => false
  end.

Definition user_key (r : TurnRun) : option (TenantId * UserId) := user_key_from (slot_info_for r).
Definition origin_key (r : TurnRun) : option (TenantId * OriginClass) := origin_key_from (slot_info_for r).

(** The running slots that count against a key. *)
Definition slots {K} `{Countable K} (key : TurnRun -> option K) (k : K) (records : gmap TurnRunId TurnRun) : N :=
  map_sum (fun r => if holds_running_slot (run_status r) then hit (key r) k else 0) records.

Definition counter_wf {K} `{Countable K} (key : TurnRun -> option K) (counters : gmap K N)
    (records : gmap TurnRunId TurnRun) (cap : option N) (k : K) : Prop :=
  forall c, cap = Some c -> counted counters k (slots key k records) /\ slots key k records <= c.

(** The caps are [NonZeroU32]. *)
Definition caps_wf (l : ConcurrencyLimits) : Prop :=
  (forall c, max_concurrent_runs_per_user l = Some c -> c <= u32_max)
  /\ (forall class c, origin_cap l class = Some c -> c <= u32_max).

(** ** The log *)

(** The log is gap-free: it holds the events numbered from the floor to the cursor.  At
    [u64::MAX] the cursor stops counting. *)
Definition log_wf (s : Inner) : Prop :=
  N.of_nat (length (in_events s)) <= tsl_max_events (in_limits s)
  /\ (in_cursor s < u64_max ->
      in_event_retention_floor s + N.of_nat (length (in_events s)) = in_cursor s
      /\ forall i e, in_events s !! i = Some e ->
           ev_cursor e = in_event_retention_floor s + 1 + N.of_nat i).

(** Turns and loop checkpoints are filed under their ids. *)
Definition catalogs_wf (s : Inner) : Prop :=
  (forall turn t, in_turns s !! turn = Some t -> tr_turn_id t = turn)
  /\ forall id c, in_loop_checkpoints s !! id = Some c -> lcr_checkpoint_id c = id.

(** No run is ahead of the log. *)
Definition cursors_wf (s : Inner) : Prop :=
  in_cursor s <= u64_max
  /\ forall id r, in_records s !! id = Some r -> run_event_cursor r <= in_cursor s.

(** ** The memories of replies *)

Definition memory_wf {K V} `{Countable K} (max : N) (order : list K) (replies : gmap K V) : Prop :=
  ordered order replies /\ N.of_nat (size replies) <= max.

(** What a restored store answers in place of a reply it knew: errors may change. *)
Definition outcome_kept {T} (known replayed : Result T TurnError) : Prop :=
  match known, replayed with
  | Ok x, Ok y => x = y
  | Err _, Err _ => True
  | _, _ => False
  end.

(** A record that can be replayed belongs to a reply in memory. *)
Definition filed_replies {K T} `{Countable K} (persisted : K -> PersistedIdempotencyKey)
    (replay : TurnIdempotencyRecord -> option (Result T TurnError))
    (replies : gmap K (Result T TurnError))
    (records : gmap PersistedIdempotencyKey TurnIdempotencyRecord) : Prop :=
  forall k r reply, records !! persisted k = Some r -> replay r = Some reply ->
    exists known, replies !! k = Some known /\ outcome_kept known reply.

Definition filed_by_key (records : gmap PersistedIdempotencyKey TurnIdempotencyRecord) : Prop :=
  forall k r, records !! k = Some r -> persisted_key_for_record r = k.

Record memories_wf (s : Inner) : Prop := {
  mem_submit : memory_wf (tsl_max_idempotency_records (in_limits s)) (in_submit_order s) (in_submit_idempotency s);
  mem_resume : memory_wf (tsl_max_idempotency_records (in_limits s)) (in_resume_order s) (in_resume_idempotency s);
  mem_retry : memory_wf (tsl_max_idempotency_records (in_limits s)) (in_retry_order s) (in_retry_idempotency s);
  mem_cancel : memory_wf (tsl_max_idempotency_records (in_limits s)) (in_cancel_order s) (in_cancel_idempotency s);
  mem_keys : filed_by_key (in_idempotency_records s);
  mem_submit_filed : filed_replies persisted_submit_key replay_submit (in_submit_idempotency s)
    (in_idempotency_records s);
  mem_resume_filed : filed_replies (persisted_run_key OpResume) replay_resume (in_resume_idempotency s)
    (in_idempotency_records s);
  mem_retry_filed : filed_replies (persisted_run_key OpRetry) replay_retry (in_retry_idempotency s)
    (in_idempotency_records s);
  mem_cancel_filed : filed_replies (persisted_run_key OpCancel) replay_cancel (in_cancel_idempotency s)
    (in_idempotency_records s);
}.

Definition memories (s : Inner) :=
  (in_submit_order s, in_submit_idempotency s, in_resume_order s, in_resume_idempotency s,
   in_retry_order s, in_retry_idempotency s, in_cancel_order s, in_cancel_idempotency s,
   in_idempotency_records s).

Lemma memories_same s s' : memories s' = memories s -> in_limits s' = in_limits s ->
  memories_wf s -> memories_wf s'.
Proof.
  unfold memories. intros Hm Hl [? ? ? ? ? ? ? ? ?]. injection Hm as H1 H2 H3 H4 H5 H6 H7 H8 H9.
  split; by rewrite ?Hl, ?H1, ?H2, ?H3, ?H4, ?H5, ?H6, ?H7, ?H8, ?H9.
Qed.

Lemma memory_empty {K V} `{Countable K} max : memory_wf (V := V) max [] (∅ : gmap K V).
Proof. split; [apply ordered_empty | rewrite map_size_empty; lia]. Qed.

(** ** The invariant *)

Definition queued (s : Inner) (id : TurnRunId) : Prop :=
  exists r, in_records s !! id = Some r /\ run_status r = TurnQueued.

Record turns_wf (s : Inner) : Prop := {
  wf_key : forall id r, in_records s !! id = Some r -> run_id r = id;
  wf_lock : forall scope lock, in_active_locks s !! scope = Some lock ->
    al_key lock = scope
    /\ exists r, in_records s !! al_run_id lock = Some r /\ run_scope r = scope
         /\ al_status lock = run_status r /\ turn_is_terminal (run_status r) = false;
  wf_locked : forall id r, in_records s !! id = Some r -> turn_is_terminal (run_status r) = false ->
    exists lock, in_active_locks s !! run_scope r = Some lock /\ al_run_id lock = id;
  wf_queue_nodup : NoDup (in_queued_runs s);
  wf_queue : forall id, id ∈ in_queued_runs s <-> queued s id;
  wf_lease : forall id r, in_records s !! id = Some r -> lease_wf r;
  wf_terminal_nodup : NoDup (in_terminal_runs s);
  wf_terminal : forall id, id ∈ in_terminal_runs s -> run_is_terminal id s = true;
  wf_terminal_kept : forall id, run_is_terminal id s = true -> id ∈ in_terminal_runs s
    \/ exists key t, in_tree_reservations s !! key = Some t /\ sk_root_run_id key = id;
  wf_admitted : forall id r, in_records s !! id = Some r ->
    in_admission_reservations s !! id = Some
      {| res_run_id := id; res_admission_class := rp_admission_class (run_profile r);
         res_buckets := admission_buckets (run_scope r) (run_actor r) (rp_admission_class (run_profile r));
         res_released := turn_is_terminal (run_status r) |};
  wf_admission : forall id res, in_admission_reservations s !! id = Some res ->
    is_Some (in_records s !! id);
  wf_turn : forall id r, in_records s !! id = Some r ->
    exists t, in_turns s !! run_turn_id r = Some t /\ tr_actor t = run_actor r;
  wf_tree : forall key t, in_tree_reservations s !! key = Some t ->
    0 < tree_count t
    /\ exists root, in_records s !! sk_root_run_id key = Some root
         /\ key = tree_key_new (run_scope root) (sk_root_run_id key);
  wf_caps : caps_wf (tsl_concurrency (in_limits s));
  wf_limits : lm_limits (in_concurrency s) = Some (tsl_concurrency (in_limits s));
  wf_users : forall k, counter_wf user_key (lm_running_by_user (in_concurrency s)) (in_records s)
    (max_concurrent_runs_per_user (tsl_concurrency (in_limits s))) k;
  wf_origins : forall k, counter_wf origin_key (lm_running_by_origin_class (in_concurrency s))
    (in_records s) (origin_cap (tsl_concurrency (in_limits s)) k.2) k;
  wf_log : log_wf s;
  wf_memories : memories_wf s;
  wf_cursors : cursors_wf s;
  wf_catalogs : catalogs_wf s;
}.

Lemma turns_wf_init limits :
  caps_wf (tsl_concurrency limits) -> turns_wf (inner_with_limits limits).
Proof.
  intros Hcaps. split; cbn; try done.
  - constructor.
  - intros id. split; [by intros ?%elem_of_nil | by intros (r & Hr & _)].
  - constructor.
  - by intros id ?%elem_of_nil.
  - intros k c _. unfold counted, slots. rewrite map_sum_empty. split; [done | lia].
  - intros k c _. unfold counted, slots. rewrite map_sum_empty. split; [done | lia].
  - split; cbn; [lia |]. intros _. split; [done |]. by intros i e Hi.
  - split; cbn; try apply memory_empty; done.
Qed.

(** ** Events *)

Definition logged (s s' : Inner) : Prop :=
  in_cursor s' = sat_add64 (in_cursor s) 1
  /\ exists e, ev_cursor e = in_cursor s'
       /\ (in_events s', in_event_retention_floor s') =
          retain_events (tsl_max_events (in_limits s)) (in_events s ++ [e]) (in_event_retention_floor s).

Definition quiet (s s' : Inner) : Prop :=
  in_cursor s' = in_cursor s /\ in_events s' = in_events s
  /\ in_event_retention_floor s' = in_event_retention_floor s.

Lemma retain_consecutive max events floor events' floor' :
  retain_events max events floor = (events', floor') ->
  (forall i e, events !! i = Some e -> ev_cursor e = floor + 1 + N.of_nat i) ->
  N.of_nat (length events') <= max
  /\ floor' + N.of_nat (length events') = floor + N.of_nat (length events)
  /\ forall i e, events' !! i = Some e -> ev_cursor e = floor' + 1 + N.of_nat i.
Proof.
  unfold retain_events. cbn zeta. intros Hr Hc.
  destruct (N.ltb_spec max (N.of_nat (length events))) as [Hlt | Hle]; injection Hr as <- <-;
    [| by split_and!].
  set (n := N.of_nat (length events)) in *. unfold sat_sub.
  assert (exists e, events !! N.to_nat (n - max - 1) = Some e) as [e He]
    by (apply lookup_lt_is_Some_2; lia).
  rewrite He, (Hc _ _ He). rewrite length_drop. split_and!; [lia | lia |].
  intros i e' Hi. rewrite lookup_drop in Hi. rewrite (Hc _ _ Hi). lia.
Qed.

Lemma retain_length max events floor :
  N.of_nat (length (retain_events max events floor).1) <= max.
Proof.
  unfold retain_events. destruct (N.ltb_spec max (N.of_nat (length events))); cbn; [| lia].
  rewrite length_drop. lia.
Qed.

Lemma log_logged s s' :
  in_limits s' = in_limits s -> logged s s' -> log_wf s -> log_wf s'.
Proof.
  intros Hl (Hc & e & He & Hr) [Hlen Hlog]. unfold log_wf. rewrite Hl.
  destruct (retain_events _ _ _) as [events floor] eqn:Hret. injection Hr as -> ->.
  split; [pose proof (retain_length (tsl_max_events (in_limits s)) (in_events s ++ [e])
            (in_event_retention_floor s)) as Hx; by rewrite Hret in Hx |].
  intros Hlt. rewrite Hc in *. unfold sat_add64, sat_add in *.
  destruct Hlog as [Hsum Hcons]; [lia |].
  destruct (retain_consecutive _ _ _ _ _ Hret) as (_ & Hsum' & Hcons').
  - intros i e' Hi. apply lookup_app_Some in Hi as [Hi | [Hi Hi']]; [by apply Hcons |].
    apply list_lookup_singleton_Some in Hi' as [Hi' <-]. rewrite He. lia.
  - split; [| done]. rewrite Hsum', length_app. simpl. lia.
Qed.

Lemma log_quiet s s' : in_limits s' = in_limits s -> quiet s s' -> log_wf s -> log_wf s'.
Proof. intros Hl (Hc & He & Hf). unfold log_wf. by rewrite Hl, Hc, He, Hf. Qed.

Definition log_next (s s' : Inner) : Prop := logged s s' \/ quiet s s'.

Lemma log_cursor s s' : in_cursor s <= u64_max -> log_next s s' ->
  in_cursor s <= in_cursor s' <= u64_max.
Proof.
  intros Hb [(Hc & _) | (Hc & _)]; rewrite Hc; [| lia]. unfold sat_add64, sat_add. lia.
Qed.

Lemma log_step s s' : in_limits s' = in_limits s -> log_next s s' -> log_wf s -> log_wf s'.
Proof. intros Hl []; eauto using log_logged, log_quiet. Qed.
End wf.
