(* ===== verification/TurnRestore.v ===== *)
(** * A restored turn store is the stored one

    A snapshot of a well-formed store, its entries in any order, is read back to a
    well-formed store with the same records, turns, locks, reservations, events and
    replayable replies ([restored]). *)

From S2P Require Import Prelude Collections Ids Platform HostApi Capability Obligations Turns TurnLimiter TurnEvents TurnStore TurnSnapshot TurnWf.
From Stdlib Require Import Lia.
Local Open Scope N_scope.
Local Open Scope record_scope.

Section restore.
Context `{TurnPayload} `{Platform}.

(** ** Loading the runs *)

Lemma load_runs_ok turns locks acc l :
  (forall p, p ∈ l -> is_Some (turns !! pr_turn_id p)) ->
  exists acc', load_runs turns locks acc l = Ok acc'
    /\ ld_cursor acc' = N.max (ld_cursor acc) (greatest (pr_event_cursor <$> l))
    /\ ld_records acc' = collect_map (fun p => (fun t => (pr_run_id p, run_from_record (tr_actor t) p))
         <$> turns !! pr_turn_id p) l (ld_records acc)
    /\ ld_queued_runs acc' = ld_queued_runs acc ++ (pr_run_id <$> List.filter (loads_queued locks) l)
    /\ ld_terminal_runs acc' = ld_terminal_runs acc
         ++ (pr_run_id <$> List.filter (fun p => turn_is_terminal (pr_run_status p)) l).
Proof.
  revert acc. induction l as [| p l IH]; intros acc Hl.
  - exists acc. cbn. rewrite !app_nil_r, N.max_0_r. done.
  - destruct (Hl p (list_elem_of_here _ _)) as [t Ht]. cbn [load_runs]. unfold load_run. rewrite Ht.
    destruct (IH {| ld_cursor := N.max (ld_cursor acc) (pr_event_cursor p);
        ld_records := <[pr_run_id p := run_from_record (tr_actor t) p]> (ld_records acc);
        ld_queued_runs := ld_queued_runs acc ++ (if loads_queued locks p then [pr_run_id p] else []);
        ld_terminal_runs := ld_terminal_runs acc ++ (if turn_is_terminal (pr_run_status p) then [pr_run_id p] else []) |}
        (fun p' Hp' => Hl p' (list_elem_of_further _ _ _ Hp'))) as (acc' & Hload & Hcur & Hrec & Hq & Hterm).
    exists acc'. cbn [ld_cursor ld_records ld_queued_runs ld_terminal_runs] in *. split_and!; [done | | | |].
    + rewrite Hcur. change (greatest (pr_event_cursor <$> p :: l)) with
        (N.max (pr_event_cursor p) (greatest (pr_event_cursor <$> l))). lia.
    + rewrite Hrec. unfold collect_map. cbn [fold_left]. by rewrite Ht.
    + rewrite Hq, <- app_assoc. f_equal. cbn. by destruct (loads_queued locks p).
    + rewrite Hterm, <- app_assoc. f_equal. cbn. by destruct (turn_is_terminal (pr_run_status p)).
Qed.

Lemma greatest_spec l n : (forall x, x ∈ l -> x <= n) -> greatest l <= n.
Proof.
  unfold greatest. induction l as [| x l IH]; cbn; [lia |]. intros Hl. specialize (IH (fun y Hy => Hl y (list_elem_of_further _ _ _ Hy))).
  pose proof (Hl x (list_elem_of_here _ _)). lia.
Qed.

Lemma greatest_elem l x : x ∈ l -> x <= greatest l.
Proof.
  unfold greatest. induction l as [| y l IH]; [by intros ?%elem_of_nil |]. cbn. intros [-> | Hx]%elem_of_cons; [lia |].
  specialize (IH Hx). lia.
Qed.

(** ** Loading the replies *)

Lemma enter_fold {K V} `{Countable K} (f : TurnIdempotencyRecord -> option (K * V)) l memory :
  fold_left (fun m r => enter (f r) m) l memory
  = (memory.1 ++ (fst <$> omap f l), collect_map f l memory.2).
Proof.
  revert memory. induction l as [| r l IH]; intros [order m]; [by rewrite app_nil_r |].
  cbn [fold_left]. rewrite IH. unfold collect_map. cbn [fold_left omap list_omap fst snd].
  destruct (f r) as [[k v] |]; cbn; [| done]. by rewrite <- app_assoc.
Qed.

Lemma load_replies_split l acc :
  let out := fold_left load_reply l acc in
  lr_submit out = fold_left (fun m r => enter (submit_entry r) m) l (lr_submit acc)
  /\ lr_resume out = fold_left (fun m r => enter (run_entry replay_resume r) m) l (lr_resume acc)
  /\ lr_retry out = fold_left (fun m r => enter (run_entry replay_retry r) m) l (lr_retry acc)
  /\ lr_cancel out = fold_left (fun m r => enter (run_entry replay_cancel r) m) l (lr_cancel acc)
  /\ lr_records out = fold_left (fun m r => enter (Some (persisted_key_for_record r, r)) m) l (lr_records acc).
Proof. revert acc. induction l as [| r l IH]; intros acc; [done |]. apply IH. Qed.

Lemma fmap_omap {A B C} (f : A -> option B) (g : B -> C) (l : list A) :
  g <$> omap f l = omap (fun x => g <$> f x) l.
Proof. induction l as [| x l IH]; [done |]. cbn. destruct (f x); cbn; [by f_equal | done]. Qed.

Section replies.
Context {K T : Type} `{Countable K} (persisted : K -> PersistedIdempotencyKey)
  (replay : TurnIdempotencyRecord -> option (Result T TurnError))
  (entry : TurnIdempotencyRecord -> option (K * Result T TurnError)).
Context (records : gmap PersistedIdempotencyKey TurnIdempotencyRecord) (l : list TurnIdempotencyRecord).
Hypothesis Hentry : forall r k reply,
  entry r = Some (k, reply) <-> persisted_key_for_record r = persisted k /\ replay r = Some reply.
Hypothesis Hkeys : filed_by_key records.
Hypothesis Hl : l ≡ₚ map_values records.

Lemma replies_lookup k : collect_map entry l ∅ !! k = records !! persisted k ≫= replay.
Proof using Hentry Hkeys Hl.
  apply (collect_map_lookup entry l (fun k => records !! persisted k ≫= replay)).
  - intros r k0 reply Hr [Hk Hp]%Hentry. rewrite Hl in Hr. apply elem_of_values in Hr as [pk Hpk].
    rewrite <- Hk, (Hkeys _ _ Hpk), Hpk. exact Hp.
  - intros k0 reply Hr. apply bind_Some in Hr as (r & Hr & Hp). exists r. split.
    + rewrite Hl. apply elem_of_values. eauto.
    + apply Hentry. split; [by apply Hkeys | done].
Qed.

Lemma replies_wf max order (replies : gmap K (Result T TurnError)) :
  memory_wf max order replies -> filed_replies persisted replay replies records ->
  memory_wf max (fst <$> omap entry l) (collect_map entry l ∅).
Proof using Hentry Hkeys Hl.
  intros [Ho Hsize] Hf. split; [split |].
  - assert (NoDup (persisted_key_for_record <$> l)) as Hn.
    { apply (values_NoDup records persisted_key_for_record (fun r => r)); [by rewrite list_fmap_id | done]. }
    rewrite fmap_omap.
    apply (omap_NoDup _ persisted_key_for_record persisted); [| exact Hn].
    intros r k Hr. apply fmap_Some in Hr as ([k' reply] & [Hk _]%Hentry & ->). done.
  - intros k. rewrite replies_lookup, list_elem_of_fmap. split.
    + intros ([k' reply] & -> & (r & Hr & [Hk Hp]%Hentry)%list_elem_of_omap). cbn.
      rewrite Hl in Hr. apply elem_of_values in Hr as [pk Hpk]. rewrite <- Hk, (Hkeys _ _ Hpk), Hpk. by exists reply.
    + intros [reply (r & Hr & Hp)%bind_Some]. exists (k, reply). split; [done |]. apply list_elem_of_omap.
      exists r. split; [rewrite Hl; apply elem_of_values; eauto |]. apply Hentry. split; [by apply Hkeys | done].
  - assert (size (collect_map entry l ∅) <= size replies)%nat as Hle; [| lia].
    rewrite <- !size_dom. apply subseteq_size. intros k. rewrite !elem_of_dom. intros [reply Hr].
    rewrite replies_lookup in Hr. apply bind_Some in Hr as (r & Hr & Hp).
    destruct (Hf k r reply Hr Hp) as (known & Hknown & _). by exists known.
Qed.

Lemma replies_filed : filed_replies persisted replay (collect_map entry l ∅) records.
Proof using Hentry Hkeys Hl.
  intros k r reply Hr Hp. exists reply. rewrite replies_lookup, Hr. split; [done |]. by destruct reply.
Qed.
End replies.

Lemma submit_entry_spec r k reply :
  submit_entry r = Some (k, reply) <-> persisted_key_for_record r = persisted_submit_key k /\ replay_submit r = Some reply.
Proof.
  unfold submit_entry, persisted_key_for_record, persisted_submit_key, replay_submit.
  destruct r as [scope op key t id out rep at_ ex], k as [scope' key']; cbn.
  destruct op; cbn; try (split; [done | by intros [? ?]]).
  destruct rep; cbn; try (split; [done | by intros [? ?]]); naive_solver.
Qed.

Lemma run_entry_spec {T} op (replay : TurnIdempotencyRecord -> option (Result T TurnError)) r k reply :
  op <> OpSubmit -> (forall r, is_Some (replay r) -> ir_operation r = op) ->
  run_entry replay r = Some (k, reply) <-> persisted_key_for_record r = persisted_run_key op k /\ replay r = Some reply.
Proof.
  intros Hop Hreplay. unfold run_entry, persisted_key_for_record, persisted_run_key.
  destruct k as [scope' id' key']. cbn. specialize (Hreplay r). destruct (replay r) as [reply' |].
  - rewrite (Hreplay (ex_intro _ _ eq_refl)). destruct op; [done | ..]; destruct (ir_run_id r); naive_solver.
  - destruct (ir_run_id r); naive_solver.
Qed.

Lemma replay_resume_op r : is_Some (replay_resume r) -> ir_operation r = OpResume.
Proof. unfold replay_resume. intros [x Hx]. by destruct (ir_operation r). Qed.
Lemma replay_retry_op r : is_Some (replay_retry r) -> ir_operation r = OpRetry.
Proof. unfold replay_retry. intros [x Hx]. by destruct (ir_operation r). Qed.
Lemma replay_cancel_op r : is_Some (replay_cancel r) -> ir_operation r = OpCancel.
Proof. unfold replay_cancel. intros [x Hx]. by destruct (ir_operation r). Qed.
(** ** Loading the counters *)

Lemma count_ups {K} `{Countable K} (keys : list (option K)) (m : gmap K N) k n :
  counted m k n -> n + sum_N (fun key => hit key k) keys <= u32_max ->
  counted (fold_left (fun m key => count_up key m) keys m) k (n + sum_N (fun key => hit key k) keys).
Proof.
  revert m n. induction keys as [| key keys IH]; intros m n Hm Hb; cbn [fold_left sum_N foldr] in *.
  - by rewrite N.add_0_r.
  - fold (sum_N (fun key => hit key k) keys) in *. rewrite N.add_assoc in *. apply IH; [| done].
    apply counted_up; [done |]. intros Hk. unfold hit in Hb at 1. rewrite decide_True in Hb by done. lia.
Qed.

Lemma entered_all (infos : list RunSlotInfo) l :
  let out := fold_left (fun l i => on_enter_running i l) infos l in
  lm_limits out = lm_limits l
  /\ lm_running_by_user out = fold_left (fun m key => count_up key m) (user_key_from <$> infos) (lm_running_by_user l)
  /\ lm_running_by_origin_class out
     = fold_left (fun m key => count_up key m) (origin_key_from <$> infos) (lm_running_by_origin_class l).
Proof. revert l. induction infos as [| i infos IH]; intros l; [done |]. apply (IH (on_enter_running i l)). Qed.

Definition running_infos (records : gmap TurnRunId TurnRun) : list RunSlotInfo :=
  slot_info_for <$> List.filter (fun r => holds_running_slot (run_status r)) (map_values records).

Lemma running_hits {K} `{Countable K} (key : RunSlotInfo -> option K) (records : gmap TurnRunId TurnRun) k :
  sum_N (fun key => hit key k) (key <$> running_infos records) = slots (fun r => key (slot_info_for r)) k records.
Proof.
  unfold running_infos, slots, map_sum, map_values. induction (map_to_list records) as [| [id r] l IH]; [done |].
  rewrite fmap_cons. cbn [List.filter snd]. unfold sum_N in *. cbn [foldr snd]. rewrite <- IH.
  destruct (holds_running_slot (run_status r)); [done | by rewrite N.add_0_l].
Qed.

(** Every counter that a cap looks at is rebuilt. *)
Lemma rebuilt_counters s : turns_wf s ->
  let l := rebuild_from (tsl_concurrency (in_limits s)) (running_infos (in_records s)) in
  lm_limits l = Some (tsl_concurrency (in_limits s))
  /\ (forall k, counter_wf user_key (lm_running_by_user l) (in_records s)
        (max_concurrent_runs_per_user (tsl_concurrency (in_limits s))) k)
  /\ forall k, counter_wf origin_key (lm_running_by_origin_class l) (in_records s)
        (origin_cap (tsl_concurrency (in_limits s)) k.2) k.
Proof.
  intros Hwf. unfold rebuild_from. destruct (wf_caps s Hwf) as [Hu Ho].
  destruct (any_cap_enabled (tsl_concurrency (in_limits s))) eqn:Hany; cbv zeta.
  - destruct (entered_all (running_infos (in_records s)) (with_limits (tsl_concurrency (in_limits s))))
      as (H1 & H2 & H3). split_and!; [done | |]; intros k c Hc.
    + destruct (wf_users s Hwf k c Hc) as [_ Hle]. split; [| done]. rewrite H2.
      pose proof (running_hits user_key_from (in_records s) k) as Hhits. fold user_key in Hhits.
      rewrite <- (N.add_0_l (slots _ _ _)). unfold user_key. rewrite <- running_hits.
      apply count_ups; [done |]. rewrite running_hits. fold user_key. specialize (Hu c Hc). lia.
    + destruct (wf_origins s Hwf k c Hc) as [_ Hle]. split; [| done]. rewrite H3.
      rewrite <- (N.add_0_l (slots _ _ _)). unfold origin_key. rewrite <- running_hits.
      apply count_ups; [done |]. rewrite running_hits. fold origin_key. specialize (Ho k.2 c Hc). lia.
  - unfold any_cap_enabled in Hany. rewrite !orb_false_iff, !bool_decide_eq_false in Hany.
    destruct Hany as [[H1 H2] H3]. split_and!; [done | |]; intros k c Hc.
    + destruct H1. by exists c.
    + destruct k as [? []]; cbn in Hc; [destruct H2 | destruct H3]; by exists c.
Qed.

(** ** The restored store *)

Record restored (s s' : Inner) : Prop := {
  re_records : in_records s' = in_records s;
  re_turns : in_turns s' = in_turns s;
  re_locks : in_active_locks s' = in_active_locks s;
  re_queue : in_queued_runs s' ≡ₚ in_queued_runs s;
  re_terminal : forall id, id ∈ in_terminal_runs s' <-> run_is_terminal id s = true;
  re_checkpoints : in_checkpoints s' ≡ₚ in_checkpoints s;
  re_loop_checkpoints : in_loop_checkpoints s' = in_loop_checkpoints s;
  re_submit : forall k, in_submit_idempotency s' !! k
    = in_idempotency_records s !! persisted_submit_key k ≫= replay_submit;
  re_resume : forall k, in_resume_idempotency s' !! k
    = in_idempotency_records s !! persisted_run_key OpResume k ≫= replay_resume;
  re_retry : forall k, in_retry_idempotency s' !! k
    = in_idempotency_records s !! persisted_run_key OpRetry k ≫= replay_retry;
  re_cancel : forall k, in_cancel_idempotency s' !! k
    = in_idempotency_records s !! persisted_run_key OpCancel k ≫= replay_cancel;
  re_idempotency : in_idempotency_records s' = in_idempotency_records s;
  re_events : in_events s' = in_events s;
  re_floor : in_event_retention_floor s' = in_event_retention_floor s;
  re_cursor : in_cursor s' = in_cursor s;
  re_admission : in_admission_reservations s' = in_admission_reservations s;
  re_trees : in_tree_reservations s' = in_tree_reservations s;
  re_limits : in_limits s' = in_limits s;
}.

Lemma NoDup_fmap_filter {A B} (f : A -> B) (keep : A -> bool) (l : list A) :
  NoDup (f <$> l) -> NoDup (f <$> List.filter keep l).
Proof.
  induction l as [| x l IH]; [done |]. intros [Hni Hn]%NoDup_cons. cbn. destruct (keep x); [| by apply IH].
  apply NoDup_cons. split; [| by apply IH]. intros (y & Hy & Hin)%list_elem_of_fmap. apply Hni. cbn. rewrite Hy.
  apply list_elem_of_fmap_2. by apply list_elem_of_In, filter_In, proj1, list_elem_of_In in Hin.
Qed.

Lemma run_persisted r : run_from_record (run_actor r) (persistence_record r) = r.
Proof. by destruct r. Qed.

Section stored.
Context (s : Inner) (p : TurnPersistenceSnapshot).
Hypothesis Hwf : turns_wf s.
Hypothesis Hp : same_entries p (persistence_snapshot s).

Lemma turns_loaded : collect_map (fun t => Some (tr_turn_id t, t)) (tps_turns p) ∅ = in_turns s.
Proof using Hwf Hp.
  apply (collect_map_values _ _ (fun t => t)).
  - rewrite list_fmap_id, (se_turns _ _ Hp). apply stable_sort_perm.
  - intros k t Ht. by rewrite (proj1 (wf_catalogs s Hwf) _ _ Ht).
Qed.

Lemma locks_loaded : collect_map (fun lock => Some (al_key lock, lock)) (tps_active_locks p) ∅ = in_active_locks s.
Proof using Hwf Hp.
  apply (collect_map_values _ _ (fun lock => lock)).
  - rewrite list_fmap_id, (se_locks _ _ Hp). apply stable_sort_perm.
  - intros k lock Hl. by destruct (wf_lock s Hwf _ _ Hl) as [-> _].
Qed.

Lemma loop_checkpoints_loaded :
  collect_map (fun c => Some (lcr_checkpoint_id c, c)) (tps_loop_checkpoints p) ∅ = in_loop_checkpoints s.
Proof using Hwf Hp.
  apply (collect_map_values _ _ (fun c => c)).
  - rewrite list_fmap_id, (se_loop_checkpoints _ _ Hp). apply stable_sort_perm.
  - intros k c Hc. by rewrite (proj2 (wf_catalogs s Hwf) _ _ Hc).
Qed.

Lemma runs_perm : tps_runs p ≡ₚ persistence_record <$> map_values (in_records s).
Proof using Hp. rewrite (se_runs _ _ Hp). apply stable_sort_perm. Qed.

Lemma run_of_snapshot x : x ∈ tps_runs p <-> exists r, in_records s !! run_id r = Some r /\ x = persistence_record r.
Proof using Hwf Hp.
  rewrite runs_perm, list_elem_of_fmap. split.
  - intros (r & -> & [id Hr]%elem_of_values). exists r. by rewrite (wf_key s Hwf _ _ Hr).
  - intros (r & Hr & ->). exists r. split; [done |]. apply elem_of_values. eauto.
Qed.

Lemma run_ids_NoDup : NoDup (pr_run_id <$> tps_runs p).
Proof using Hwf Hp. apply (values_NoDup (in_records s) _ persistence_record); [apply runs_perm | apply (wf_key s Hwf)]. Qed.

(** A lock shows the status of its run. *)
Lemma lock_status r : in_records s !! run_id r = Some r -> run_status r = TurnQueued ->
  has_non_queued_active_lock (in_active_locks s) (run_id r) = false.
Proof using Hwf.
  intros Hr Hq. apply not_true_is_false.
  intros (lock & Hl & [Hid%N.eqb_eq Hst%negb_true_iff%bool_decide_eq_false]%andb_true_iff)%existsb_exists.
  apply list_elem_of_In, elem_of_values in Hl as [scope Hl].
  destruct (wf_lock s Hwf _ _ Hl) as (_ & r' & Hr' & _ & Hs & _). rewrite Hid, Hr in Hr'. injection Hr' as <-.
  apply Hst. by rewrite Hs.
Qed.

Lemma runs_loaded : exists runs,
  load_runs (in_turns s) (in_active_locks s)
    {| ld_cursor := 0; ld_records := ∅; ld_queued_runs := []; ld_terminal_runs := [] |} (tps_runs p) = Ok runs
  /\ ld_records runs = in_records s
  /\ ld_queued_runs runs ≡ₚ in_queued_runs s
  /\ NoDup (ld_terminal_runs runs) /\ (forall id, id ∈ ld_terminal_runs runs <-> run_is_terminal id s = true)
  /\ ld_cursor runs <= in_cursor s.
Proof using Hwf Hp.
  destruct (load_runs_ok (in_turns s) (in_active_locks s)
    {| ld_cursor := 0; ld_records := ∅; ld_queued_runs := []; ld_terminal_runs := [] |} (tps_runs p))
    as (runs & Hload & Hcur & Hrec & Hq & Hterm).
  { intros x (r & Hr & ->)%run_of_snapshot. destruct (wf_turn s Hwf _ _ Hr) as (t & Ht & _). by exists t. }
  exists runs. cbn [ld_cursor ld_records ld_queued_runs ld_terminal_runs app] in *. split; [exact Hload |].
  split; [| split; [| split; [| split]]].
  - rewrite Hrec. apply (collect_map_values _ _ persistence_record); [apply runs_perm |]. intros id r Hr.
    destruct (wf_turn s Hwf _ _ Hr) as (t & Ht & Ha). change (pr_turn_id (persistence_record r)) with (run_turn_id r).
    rewrite Ht. cbn [fmap option_fmap option_map]. rewrite Ha, run_persisted.
    change (pr_run_id (persistence_record r)) with (run_id r). by rewrite (wf_key s Hwf _ _ Hr).
  - rewrite Hq. apply NoDup_Permutation; [apply NoDup_fmap_filter, run_ids_NoDup | apply (wf_queue_nodup s Hwf) |].
    intros id. rewrite (wf_queue s Hwf), list_elem_of_fmap. unfold queued. split.
    + intros (x & -> & Hx). apply list_elem_of_In, filter_In in Hx as [Hx Hq'].
      apply list_elem_of_In, run_of_snapshot in Hx as (r & Hr & ->). exists r. split; [done |].
      unfold loads_queued in Hq'. by apply andb_true_iff, proj1, bool_decide_eq_true in Hq'.
    + intros (r & Hr & Hst). exists (persistence_record r).
      pose proof (wf_key s Hwf _ _ Hr) as Hid. split; [done |]. apply list_elem_of_In, filter_In. split.
      * apply list_elem_of_In, run_of_snapshot. exists r. by rewrite Hid.
      * unfold loads_queued. rewrite bool_decide_true by done. change (pr_run_id (persistence_record r)) with (run_id r).
        rewrite lock_status; [done | by rewrite Hid | done].
  - rewrite Hterm. apply NoDup_fmap_filter, run_ids_NoDup.
  - intros id. rewrite Hterm, list_elem_of_fmap. unfold run_is_terminal. split.
    + intros (x & -> & Hx). apply list_elem_of_In, filter_In in Hx as [Hx Ht].
      apply list_elem_of_In, run_of_snapshot in Hx as (r & Hr & ->).
      change (pr_run_id (persistence_record r)) with (run_id r). by rewrite Hr.
    + destruct (in_records s !! id) as [r |] eqn:Hr; [| done]. intros Ht. exists (persistence_record r).
      pose proof (wf_key s Hwf _ _ Hr) as Hid. split; [done |]. apply list_elem_of_In, filter_In. split; [| done].
      apply list_elem_of_In, run_of_snapshot. exists r. by rewrite Hid.
  - rewrite Hcur, N.max_0_l. apply greatest_spec. intros c (x & -> & (r & Hr & ->)%run_of_snapshot)%list_elem_of_fmap.
    apply (proj2 (wf_cursors s Hwf) _ _ Hr).
Qed.

(** The cursor is that of the last event, or the floor of an empty log. *)
Lemma cursor_loaded n : in_cursor s < u64_max -> n <= in_cursor s ->
  N.max (N.max n (greatest (ev_cursor <$> tps_events p))) (tps_event_retention_floor p) = in_cursor s.
Proof using Hwf Hp.
  intros Hlt Hn. destruct (wf_log s Hwf) as [_ Hlog]. destruct (Hlog Hlt) as [Hsum Hc].
  rewrite (se_events _ _ Hp), (se_floor _ _ Hp). cbn [tps_events tps_event_retention_floor persistence_snapshot].
  assert (greatest (ev_cursor <$> in_events s) <= in_cursor s) as Hle.
  { apply greatest_spec. intros c (e & -> & [i Hi]%list_elem_of_lookup_1)%list_elem_of_fmap.
    rewrite (Hc _ _ Hi). apply lookup_lt_Some in Hi. lia. }
  destruct (in_events s) as [| e0 l0] eqn:He; [cbn in *; lia |].
  assert (exists e, in_events s !! pred (length (in_events s)) = Some e) as [e Hi].
  { apply lookup_lt_is_Some_2. rewrite He. cbn. lia. }
  rewrite He in Hi. pose proof (Hc _ _ Hi) as Hcur.
  assert (ev_cursor e <= greatest (ev_cursor <$> e0 :: l0)) as Hge.
  { apply greatest_elem, list_elem_of_fmap_2. by eapply list_elem_of_lookup_2. }
  cbn [length pred] in *. lia.
Qed.

Lemma admission_loaded :
  fold_left renew_reservation (map_values (in_records s))
    (collect_map (admission_entry (in_records s)) (tps_admission_reservations p) ∅) = in_admission_reservations s.
Proof using Hwf Hp.
  assert (collect_map (admission_entry (in_records s)) (tps_admission_reservations p) ∅ = in_admission_reservations s) as ->.
  { apply (collect_map_values _ _ (fun res => res)).
    - rewrite list_fmap_id, (se_admission _ _ Hp). apply stable_sort_perm.
    - intros id res Hres. destruct (wf_admission s Hwf _ _ Hres) as [r Hr].
      pose proof (wf_admitted s Hwf _ _ Hr) as Ha. rewrite Hres in Ha. injection Ha as ->.
      unfold admission_entry. cbn [res_run_id]. rewrite Hr. cbn [fmap option_fmap option_map].
      by destruct (turn_is_terminal (run_status r)). }
  assert (forall l, (forall r, r ∈ l -> in_records s !! run_id r = Some r) ->
    fold_left renew_reservation l (in_admission_reservations s) = in_admission_reservations s) as Hkeep.
  { induction l as [| r l IH]; intros Hl; [done |]. cbn [fold_left].
    assert (renew_reservation (in_admission_reservations s) r = in_admission_reservations s) as ->.
    - unfold renew_reservation, needs_canonical_reservation. pose proof (Hl r (list_elem_of_here _ _)) as Hr.
      rewrite (wf_admitted s Hwf _ _ Hr). unfold keeps_active_lock. cbn.
      rewrite !bool_decide_true by done. by destruct (turn_is_terminal (run_status r)).
    - apply IH. intros r' Hr'. apply Hl. by right. }
  apply Hkeep. intros r [id Hr]%elem_of_values. by rewrite (wf_key s Hwf _ _ Hr).
Qed.

Lemma trees_loaded : collect_map tree_entry (tps_spawn_tree_reservations p) ∅ = in_tree_reservations s.
Proof using Hwf Hp.
  assert (tps_spawn_tree_reservations p ≡ₚ omap (tree_reservation_record s) (map_to_list (in_tree_reservations s))) as Hl.
  { rewrite (se_trees _ _ Hp). apply stable_sort_perm. }
  apply map_eq. intros key. apply (collect_map_lookup tree_entry _ (fun key => in_tree_reservations s !! key)).
  - intros x key' t Hx [= <- <-]. rewrite Hl in Hx.
    apply list_elem_of_omap in Hx as ([key0 t0] & Ht0%elem_of_map_to_list & Hx).
    destruct (wf_tree s Hwf _ _ Ht0) as (_ & root & Hroot & Hkey). unfold tree_reservation_record in Hx.
    cbn [fst snd] in Hx. rewrite Hroot in Hx. injection Hx as <-. cbn. rewrite <- Hkey, Ht0. by destruct t0.
  - intros key' t Ht. destruct (wf_tree s Hwf _ _ Ht) as (_ & root & Hroot & Hkey).
    eexists. split.
    + rewrite Hl. apply list_elem_of_omap. exists (key', t). split; [by apply elem_of_map_to_list |].
      unfold tree_reservation_record. cbn [fst snd]. rewrite Hroot. reflexivity.
    + unfold tree_entry. cbn. rewrite <- Hkey. by destruct t.
Qed.

Abbreviation sorted_records := (sort_by_Z ir_created_at (tps_idempotency_records p)).

Lemma records_perm : sorted_records ≡ₚ map_values (in_idempotency_records s).
Proof using Hp. unfold sort_by_Z. rewrite stable_sort_perm, (se_idempotency _ _ Hp). apply stable_sort_perm. Qed.

Lemma records_loaded :
  collect_map (fun r => Some (persisted_key_for_record r, r)) sorted_records ∅ = in_idempotency_records s.
Proof using Hwf Hp.
  apply (collect_map_values _ _ (fun r => r)); [rewrite list_fmap_id; apply records_perm |].
  intros k r Hr. by rewrite (mem_keys s (wf_memories s Hwf) _ _ Hr).
Qed.

Lemma submit_entry_iff r k reply :
  submit_entry r = Some (k, reply) <-> persisted_key_for_record r = persisted_submit_key k /\ replay_submit r = Some reply.
Proof. apply submit_entry_spec. Qed.
Lemma resume_entry_iff r k reply : run_entry replay_resume r = Some (k, reply)
  <-> persisted_key_for_record r = persisted_run_key OpResume k /\ replay_resume r = Some reply.
Proof. by apply run_entry_spec; [| apply replay_resume_op]. Qed.
Lemma retry_entry_iff r k reply : run_entry replay_retry r = Some (k, reply)
  <-> persisted_key_for_record r = persisted_run_key OpRetry k /\ replay_retry r = Some reply.
Proof. by apply run_entry_spec; [| apply replay_retry_op]. Qed.
Lemma cancel_entry_iff r k reply : run_entry replay_cancel r = Some (k, reply)
  <-> persisted_key_for_record r = persisted_run_key OpCancel k /\ replay_cancel r = Some reply.
Proof. by apply run_entry_spec; [| apply replay_cancel_op]. Qed.

(** The queue and the list of ended runs are in the order of the snapshot. *)
Lemma restored_order limits s' : from_persistence_snapshot p limits = Ok s' ->
  in_queued_runs s' = pr_run_id <$> List.filter (fun x => bool_decide (pr_run_status x = TurnQueued)) (tps_runs p)
  /\ in_terminal_runs s' = pr_run_id <$> List.filter (fun x => turn_is_terminal (pr_run_status x)) (tps_runs p).
Proof using Hwf Hp.
  unfold from_persistence_snapshot. rewrite turns_loaded, locks_loaded.
  destruct (load_runs_ok (in_turns s) (in_active_locks s)
    {| ld_cursor := 0; ld_records := ∅; ld_queued_runs := []; ld_terminal_runs := [] |} (tps_runs p))
    as (runs & -> & _ & _ & Hq & Hterm).
  { intros x (r & Hr & ->)%run_of_snapshot. destruct (wf_turn s Hwf _ _ Hr) as (t & Ht & _). by exists t. }
  cbv zeta. intros [= <-]. cbn [in_queued_runs in_terminal_runs]. rewrite Hq, Hterm. cbn [ld_queued_runs ld_terminal_runs app].
  split; [| done]. f_equal. apply filter_ext_in. intros x Hx.
  apply list_elem_of_In, run_of_snapshot in Hx as (r & Hr & ->). unfold loads_queued.
  change (pr_run_status (persistence_record r)) with (run_status r).
  change (pr_run_id (persistence_record r)) with (run_id r).
  case_bool_decide as Hst; [| done]. by rewrite (lock_status r Hr Hst).
Qed.

(** What is read back, and that it is well-formed. *)
Lemma restore_total : in_cursor s < u64_max ->
  exists s', from_persistence_snapshot p (in_limits s) = Ok s' /\ restored s s' /\ turns_wf s'.
Proof using Hwf Hp.
  intros Hlt. destruct runs_loaded as (runs & Hload & Hrec & Hq & Htn & Hterm & Hcur).
  destruct (load_replies_split sorted_records no_replies) as (E1 & E2 & E3 & E4 & E5).
  assert (forall id, id ∈ ld_queued_runs runs <-> id ∈ in_queued_runs s) as Hqe by (intros id; by rewrite Hq).
  assert (NoDup (ld_queued_runs runs)) as Hqn by (rewrite Hq; apply (wf_queue_nodup s Hwf)).
  rewrite enter_fold in E1. rewrite enter_fold in E2. rewrite enter_fold in E3. rewrite enter_fold in E4.
  rewrite (enter_fold (fun r => Some (persisted_key_for_record r, r))) in E5. cbn [lr_submit lr_resume lr_retry lr_cancel lr_records no_replies fst snd app]
    in E1, E2, E3, E4, E5. rewrite records_loaded in E5.
  unfold from_persistence_snapshot. rewrite turns_loaded, locks_loaded, Hload. cbv zeta.
  rewrite Hrec, admission_loaded, trees_loaded, loop_checkpoints_loaded, (cursor_loaded _ Hlt Hcur), E1, E2, E3, E4, E5.
  eexists. split; [reflexivity |].
  pose proof (wf_memories s Hwf) as [Ms Mr My Mc Hkeys Fs Fr Fy Fc].
  split; [split; cbn; try reflexivity | split; cbn; try apply Hwf].
  - exact Hq.
  - exact Hterm.
  - rewrite (se_checkpoints _ _ Hp). apply stable_sort_perm.
  - intros k. by apply (replies_lookup persisted_submit_key replay_submit _ _ _ submit_entry_iff), records_perm.
  - intros k. by apply (replies_lookup (persisted_run_key OpResume) replay_resume _ _ _ resume_entry_iff), records_perm.
  - intros k. by apply (replies_lookup (persisted_run_key OpRetry) replay_retry _ _ _ retry_entry_iff), records_perm.
  - intros k. by apply (replies_lookup (persisted_run_key OpCancel) replay_cancel _ _ _ cancel_entry_iff), records_perm.
  - by rewrite (se_events _ _ Hp).
  - by rewrite (se_floor _ _ Hp).
  - exact Hqn.
  - intros id. exact (iff_trans (Hqe id) (wf_queue s Hwf id)).
  - exact Htn.
  - intros id. apply Hterm.
  - intros id Hid. left. by apply Hterm.
  - apply (rebuilt_counters s Hwf).
  - apply (rebuilt_counters s Hwf).
  - apply (rebuilt_counters s Hwf).
  - destruct (wf_log s Hwf) as [Hlen Hlog]. unfold log_wf. cbn. by rewrite (se_events _ _ Hp), (se_floor _ _ Hp).
  - split; cbn; try assumption.
    + by apply (replies_wf _ _ _ _ _ submit_entry_iff Hkeys records_perm _ _ _ Ms).
    + by apply (replies_wf _ _ _ _ _ resume_entry_iff Hkeys records_perm _ _ _ Mr).
    + by apply (replies_wf _ _ _ _ _ retry_entry_iff Hkeys records_perm _ _ _ My).
    + by apply (replies_wf _ _ _ _ _ cancel_entry_iff Hkeys records_perm _ _ _ Mc).
    + by apply (replies_filed _ _ _ _ _ submit_entry_iff), records_perm.
    + by apply (replies_filed _ _ _ _ _ resume_entry_iff), records_perm.
    + by apply (replies_filed _ _ _ _ _ retry_entry_iff), records_perm.
    + by apply (replies_filed _ _ _ _ _ cancel_entry_iff), records_perm.
Qed.
End stored.
End restore.
