(* ===== verification/TurnMoves.v ===== *)
(** * Kinds of change of the turn store

    The change of one run ([moved]), a new run ([created]), the departure of a terminal
    run ([removed]), and the changes of spawn-tree reservations ([tree_set],
    [tree_cleared]); each keeps [turns_wf]. *)

From S2P Require Import Prelude Collections Ids Platform HostApi Capability Obligations Turns TurnLimiter TurnEvents TurnStore TurnOps TurnRunner TurnWf.
From Stdlib Require Import Lia.
Local Open Scope N_scope.
Local Open Scope record_scope.

(** Runs, locks, queue, admission, log and memories are left alone ([same_runs]). *)
Ltac untouched :=
  split; [reflexivity | reflexivity | reflexivity | reflexivity | reflexivity | reflexivity | reflexivity
         | by repeat split | apply memories_same; reflexivity | exact (fun Hc => Hc)].

Section moves.
Context `{TurnPayload} `{Platform}.

Definition cell_transition (from to : TurnStatus) : StatusTransition :=
  match holds_running_slot from, holds_running_slot to with
  | false, true => EnteredRunning
  | true, false => LeftRunning
  | _, _ => StatusUnchanged
  end.

Definition limiter_after (from : TurnStatus) (r : TurnRun) (l : ConcurrencyLimiter) : ConcurrencyLimiter :=
  match cell_transition from (run_status r) with
  | EnteredRunning => on_enter_running (slot_info_for r) l
  | LeftRunning => on_leave_running (slot_info_for r) l
  | StatusUnchanged => l
  end.

(** What the run's own lock becomes: it goes with the last status, and shows the status. *)
Definition lock_follows (r r' : TurnRun) (f : TurnActiveLockRecord -> option TurnActiveLockRecord) : Prop :=
  forall lock, al_status lock = run_status r ->
    match f lock with
    | None => turn_is_terminal (run_status r') = true
    | Some lock' => turn_is_terminal (run_status r') = false /\ al_key lock' = al_key lock
        /\ al_run_id lock' = al_run_id lock /\ al_status lock' = run_status r'
    end.

Definition released (id : TurnRunId) (m : gmap TurnRunId TurnAdmissionReservationRecord) :=
  alter (fun res => {| res_run_id := res_run_id res; res_admission_class := res_admission_class res;
                       res_buckets := res_buckets res; res_released := true |}) id m.

(** The run [id] changes from [r] to [r']. *)
Record moved (id : TurnRunId) (r r' : TurnRun) (s s' : Inner) : Prop := {
  mv_before : in_records s !! id = Some r;
  mv_records : in_records s' = <[id := r']> (in_records s);
  mv_static : run_static r' = run_static r;
  mv_status : status_move (run_status r) (run_status r') = true;
  mv_locks : exists f, lock_follows r r' f
    /\ in_active_locks s' = on_own_lock r' f (in_active_locks s);
  mv_queue : in_queued_runs s' ≡ₚ
    (if decide (run_status r' = TurnQueued) then [id] else [])
    ++ List.filter (fun queued => negb (queued =? id)) (in_queued_runs s);
  mv_terminal : in_terminal_runs s' =
    in_terminal_runs s ++ (if turn_is_terminal (run_status r') then [id] else []);
  mv_admission : in_admission_reservations s' =
    (if turn_is_terminal (run_status r') then released id else fun m => m) (in_admission_reservations s);
  mv_limiter : in_concurrency s' = limiter_after (run_status r) r' (in_concurrency s);
  mv_claim : holds_running_slot (run_status r) = false -> holds_running_slot (run_status r') = true ->
    can_claim (in_concurrency s) (slot_info_for r) = true;
  mv_lease : lease_wf r';
  mv_tree : in_tree_reservations s' = in_tree_reservations s;
  mv_turns : in_turns s' = in_turns s;
  mv_limits : in_limits s' = in_limits s;
  mv_log : log_next s s';
  mv_memories : memories s' = memories s;
  mv_catalogs : catalogs_wf s -> catalogs_wf s';
  mv_cursor : run_event_cursor r' <= in_cursor s' \/ run_event_cursor r' = run_event_cursor r;
}.

Lemma status_move_source from to : status_move from to = true -> turn_is_terminal from = false.
Proof. by destruct from, to. Qed.

Lemma lookup_moved id (r' : TurnRun) (m : gmap TurnRunId TurnRun) id' r :
  <[id := r']> m !! id' = Some r -> (id' = id /\ r = r') \/ (id' <> id /\ m !! id' = Some r).
Proof.
  destruct (decide (id' = id)) as [-> | Hne].
  - rewrite lookup_insert_eq. intros [= <-]. by left.
  - rewrite lookup_insert_ne by done. by right.
Qed.

(** [on_own_lock] only touches the run's own lock. *)
Lemma on_own_lock_own r f locks lock :
  locks !! run_scope r = Some lock -> al_run_id lock = run_id r ->
  forall scope, on_own_lock r f locks !! scope =
    if decide (scope = run_scope r) then f lock else locks !! scope.
Proof.
  intros Hl Hi scope. unfold on_own_lock. rewrite Hl, decide_True by done.
  case_decide as Hs; subst.
  - destruct (f lock); [apply lookup_insert_eq | apply lookup_delete_eq].
  - destruct (f lock); [by rewrite lookup_insert_ne | by rewrite lookup_delete_ne].
Qed.

(** ** Counters *)

Section counters.
Context {K : Type} `{Countable K}.
Variable key : TurnRun -> option K.
Hypothesis key_static : forall r r', run_static r' = run_static r -> key r' = key r.

Definition slot_weight (k : K) (r : TurnRun) : N :=
  if holds_running_slot (run_status r) then hit (key r) k else 0.

Lemma slots_moved records id r r' k :
  records !! id = Some r -> run_static r' = run_static r ->
  slots key k (<[id := r']> records) + slot_weight k r = slots key k records + slot_weight k r'.
Proof. intros Hr _. apply (map_sum_update (slot_weight k) _ _ _ _ Hr). Qed.

Lemma slots_at_least records id r k :
  records !! id = Some r -> slot_weight k r <= slots key k records.
Proof. apply map_sum_le_lookup. Qed.

Lemma counter_moved counters records cap id r r' k :
  records !! id = Some r -> run_static r' = run_static r -> (forall c, cap = Some c -> c <= u32_max) ->
  (holds_running_slot (run_status r) = false -> holds_running_slot (run_status r') = true ->
   key r = Some k -> forall c, cap = Some c -> default 0 (counters !! k) < c) ->
  counter_wf key counters records cap k ->
  counter_wf key
    match cell_transition (run_status r) (run_status r') with
    | EnteredRunning => count_up (key r') counters
    | LeftRunning => count_down (key r') counters
    | StatusUnchanged => counters
    end (<[id := r']> records) cap k.
Proof.
  intros Hr Hst Hcap Hclaim Hwf c Hc. destruct (Hwf c Hc) as [Hcount Hle].
  pose proof (slots_moved records id r r' k Hr Hst) as Hm.
  pose proof (slots_at_least records id r k Hr) as Hl.
  unfold cell_transition, slot_weight in *. rewrite (key_static _ _ Hst) in *.
  destruct (holds_running_slot (run_status r)) eqn:Hs, (holds_running_slot (run_status r')) eqn:Hs'.
  - replace (slots key k (<[id := r']> records)) with (slots key k records) by lia. done.
  - replace (slots key k (<[id := r']> records)) with (slots key k records - hit (key r) k) by lia.
    split; [| lia]. apply counted_down; [done |]. intros Hk. unfold hit in Hl.
    rewrite decide_True in Hl by done. lia.
  - replace (slots key k (<[id := r']> records)) with (slots key k records + hit (key r) k) by lia.
    unfold hit in *. destruct (decide (key r = Some k)) as [Hk |]; [| split; [| lia]].
    + specialize (Hclaim eq_refl eq_refl Hk c Hc). rewrite (counted_default _ _ _ Hcount) in Hclaim.
      specialize (Hcap c Hc). split; [| lia].
      replace 1 with (hit (key r) k) by (unfold hit; by rewrite decide_True).
      apply counted_up; [done | lia].
    + replace 0 with (hit (key r) k) by (unfold hit; by rewrite decide_False).
      apply counted_up; [done | congruence].
  - replace (slots key k (<[id := r']> records)) with (slots key k records) by lia. done.
Qed.
End counters.

Lemma user_key_static r r' : run_static r' = run_static r -> user_key r' = user_key r.
Proof. unfold run_static. intros [=]. unfold user_key, slot_info_for. congruence. Qed.

Lemma origin_key_static r r' : run_static r' = run_static r -> origin_key r' = origin_key r.
Proof. unfold run_static. intros [=]. unfold origin_key, slot_info_for. congruence. Qed.

(** A granted claim stays below every cap that is set. *)
Lemma can_claim_user l limits r k c :
  lm_limits l = Some limits -> can_claim l (slot_info_for r) = true -> user_key r = Some k ->
  max_concurrent_runs_per_user limits = Some c -> default 0 (lm_running_by_user l !! k) < c.
Proof.
  unfold can_claim, user_key. intros -> Hc Hk Hm. simpl in Hc. rewrite Hm, Hk in Hc.
  apply andb_prop in Hc as [Hc _]. by apply N.ltb_lt.
Qed.

Lemma can_claim_origin l limits r k c :
  lm_limits l = Some limits -> can_claim l (slot_info_for r) = true -> origin_key r = Some k ->
  origin_cap limits k.2 = Some c -> default 0 (lm_running_by_origin_class l !! k) < c.
Proof.
  unfold can_claim, origin_key, origin_key_from. intros -> Hc Hk Hm.
  apply andb_prop in Hc as [_ Hc].
  destruct (si_product_context (slot_info_for r)) as [class |] eqn:Hp; [| done].
  injection Hk as <-. simpl in *. rewrite Hm in Hc. by apply N.ltb_lt.
Qed.

(** ** A run changes *)

Section wf_moved.
Context (id : TurnRunId) (r r' : TurnRun) (s s' : Inner).
Hypothesis (Hwf : turns_wf s) (Hm : moved id r r' s s').

Lemma moved_live : turn_is_terminal (run_status r) = false.
Proof using Hwf Hm. eapply status_move_source, mv_status, Hm. Qed.

Lemma moved_its_id : run_id r' = id.
Proof using Hwf Hm.
  pose proof (mv_static _ _ _ _ _ Hm) as Hst. unfold run_static in Hst.
  rewrite <- (wf_key s Hwf id r (mv_before _ _ _ _ _ Hm)). congruence.
Qed.

Lemma moved_its_scope : run_scope r' = run_scope r.
Proof using Hwf Hm. pose proof (mv_static _ _ _ _ _ Hm) as Hst. unfold run_static in Hst. congruence. Qed.

Lemma moved_lock : exists lock next,
  in_active_locks s !! run_scope r = Some lock /\ al_run_id lock = id /\ al_key lock = run_scope r
  /\ (match next with
      | None => turn_is_terminal (run_status r') = true
      | Some lock' => turn_is_terminal (run_status r') = false /\ al_key lock' = al_key lock
          /\ al_run_id lock' = id /\ al_status lock' = run_status r'
      end)
  /\ forall scope, in_active_locks s' !! scope =
       if decide (scope = run_scope r) then next else in_active_locks s !! scope.
Proof using Hwf Hm.
  destruct (wf_locked s Hwf id r (mv_before _ _ _ _ _ Hm) moved_live) as (lock & Hl & Hi).
  destruct (wf_lock s Hwf _ _ Hl) as (Hkey & r0 & Hr0 & _ & Hst & _).
  rewrite Hi, (mv_before _ _ _ _ _ Hm) in Hr0. injection Hr0 as <-.
  destruct (mv_locks _ _ _ _ _ Hm) as (f & Hf & Hs'). exists lock, (f lock).
  split_and!; [done | done | done | |].
  - specialize (Hf lock Hst). rewrite <- Hi. destruct (f lock); done.
  - intros scope. rewrite Hs', <- moved_its_scope. apply on_own_lock_own; rewrite ?moved_its_scope, ?moved_its_id; done.
Qed.

Lemma moved_after id' r1 : in_records s' !! id' = Some r1 ->
  (id' = id /\ r1 = r') \/ (id' <> id /\ in_records s !! id' = Some r1).
Proof using Hwf Hm. rewrite (mv_records _ _ _ _ _ Hm). apply lookup_moved. Qed.

Lemma moved_here : in_records s' !! id = Some r'.
Proof using Hwf Hm. rewrite (mv_records _ _ _ _ _ Hm). apply lookup_insert_eq. Qed.

Lemma moved_elsewhere id' : id' <> id -> in_records s' !! id' = in_records s !! id'.
Proof using Hwf Hm. intros Hne. rewrite (mv_records _ _ _ _ _ Hm). by apply lookup_insert_ne. Qed.

Lemma moved_terminal_after id' :
  run_is_terminal id' s' = if decide (id' = id) then turn_is_terminal (run_status r')
                           else run_is_terminal id' s.
Proof using Hwf Hm.
  unfold run_is_terminal. case_decide as Hd; [by subst; rewrite moved_here | by rewrite moved_elsewhere].
Qed.

Lemma moved_not_terminal_before : run_is_terminal id s = false.
Proof using Hwf Hm. unfold run_is_terminal. rewrite (mv_before _ _ _ _ _ Hm). apply moved_live. Qed.

Lemma moved_lock_wf scope lock : in_active_locks s' !! scope = Some lock ->
  al_key lock = scope
  /\ exists r, in_records s' !! al_run_id lock = Some r /\ run_scope r = scope
       /\ al_status lock = run_status r /\ turn_is_terminal (run_status r) = false.
Proof using Hwf Hm.
  destruct moved_lock as (old & next & Hl & Hi & Hk & Hn & Hs'). rewrite Hs'.
  case_decide as Hd; [subst scope | intros Hlock].
  - intros ->. destruct Hn as (Hlive & Hk' & Hi' & Hst). split; [by rewrite Hk' |].
    exists r'. rewrite Hi', moved_here. by rewrite moved_its_scope.
  - destruct (wf_lock s Hwf _ _ Hlock) as (Hkey & r0 & Hr0 & Hsc & Hst & Hlv). split; [done |].
    exists r0. split_and!; try done. rewrite moved_elsewhere; [done |].
    intros Heq. rewrite Heq, (mv_before _ _ _ _ _ Hm) in Hr0. injection Hr0 as <-. by apply Hd.
Qed.

Lemma moved_locked_wf id' r1 : in_records s' !! id' = Some r1 ->
  turn_is_terminal (run_status r1) = false ->
  exists lock, in_active_locks s' !! run_scope r1 = Some lock /\ al_run_id lock = id'.
Proof using Hwf Hm.
  destruct moved_lock as (old & next & Hl & Hi & Hk & Hn & Hs'). intros H1 Hlive.
  apply moved_after in H1 as [[-> ->] | [Hne H1]].
  - exists (default old next). rewrite moved_its_scope, Hs', decide_True by done.
    destruct next as [lock' |]; [naive_solver | congruence].
  - destruct (wf_locked s Hwf _ _ H1 Hlive) as (lock & Hlock & Hid). exists lock. split; [| done].
    rewrite Hs'. case_decide as Hd; [| done]. rewrite Hd, Hl in Hlock. congruence.
Qed.

Lemma moved_queue_wf : NoDup (in_queued_runs s') /\ forall id', id' ∈ in_queued_runs s' <-> queued s' id'.
Proof using Hwf Hm.
  pose proof (mv_queue _ _ _ _ _ Hm) as Hq.
  assert (forall id', id' ∈ List.filter (fun queued => negb (queued =? id)) (in_queued_runs s)
    <-> id' <> id /\ id' ∈ in_queued_runs s) as Hf.
  { intros id'. rewrite list_elem_of_In, filter_In, <- list_elem_of_In.
    destruct (N.eqb_spec id' id); naive_solver. }
  split.
  - rewrite Hq. apply NoDup_app. split; [| split].
    + case_decide; [apply NoDup_singleton | constructor].
    + intros x Hx. rewrite Hf. case_decide; [apply list_elem_of_singleton in Hx as -> | by apply elem_of_nil in Hx].
      naive_solver.
    + apply NoDup_ListNoDup, List.NoDup_filter, NoDup_ListNoDup, Hwf.
  - intros id'. rewrite Hq, elem_of_app, Hf. unfold queued.
    destruct (decide (id' = id)) as [-> | Hne].
    + rewrite moved_here. case_decide as Hd.
      * rewrite list_elem_of_singleton. naive_solver.
      * split; [intros [Hx%elem_of_nil | [? _]]; done | intros (r0 & [= <-] & Hst); done].
    + rewrite moved_elsewhere by done. split.
      * intros [Hx | [_ Hx]]; [| by apply (wf_queue s Hwf)].
        case_decide; [by apply list_elem_of_singleton in Hx | by apply elem_of_nil in Hx].
      * intros Hx. right. split; [done |]. by apply (wf_queue s Hwf).
Qed.

Lemma moved_terminal_wf : NoDup (in_terminal_runs s')
  /\ (forall id', id' ∈ in_terminal_runs s' -> run_is_terminal id' s' = true)
  /\ (forall id', run_is_terminal id' s' = true -> id' ∈ in_terminal_runs s'
       \/ exists key t, in_tree_reservations s' !! key = Some t /\ sk_root_run_id key = id').
Proof using Hwf Hm.
  rewrite (mv_terminal _ _ _ _ _ Hm), (mv_tree _ _ _ _ _ Hm).
  assert (id ∉ in_terminal_runs s) as Hnot.
  { intros Hin%(wf_terminal s Hwf). by rewrite moved_not_terminal_before in Hin. }
  split; [| split].
  - apply NoDup_app. split; [apply Hwf | split].
    + intros x Hx. destruct (turn_is_terminal (run_status r')); [| apply not_elem_of_nil].
      rewrite list_elem_of_singleton. by intros ->.
    + destruct (turn_is_terminal _); [apply NoDup_singleton | constructor].
  - intros id' Hin. rewrite moved_terminal_after. apply elem_of_app in Hin as [Hin | Hin].
    + rewrite decide_False; [by apply (wf_terminal s Hwf) | by intros ->].
    + destruct (turn_is_terminal (run_status r')); [| by apply elem_of_nil in Hin].
      apply list_elem_of_singleton in Hin. by rewrite decide_True.
  - intros id'. rewrite moved_terminal_after. case_decide as Hd.
    + subst id'. intros ->. left. apply elem_of_app. right. by apply list_elem_of_singleton.
    + intros Hx. destruct (wf_terminal_kept s Hwf _ Hx) as [Hin | Ht]; [left | by right].
      apply elem_of_app. by left.
Qed.

Lemma moved_admission_wf :
  (forall id' r1, in_records s' !! id' = Some r1 -> in_admission_reservations s' !! id' = Some
     {| res_run_id := id'; res_admission_class := rp_admission_class (run_profile r1);
        res_buckets := admission_buckets (run_scope r1) (run_actor r1) (rp_admission_class (run_profile r1));
        res_released := turn_is_terminal (run_status r1) |})
  /\ (forall id' res, in_admission_reservations s' !! id' = Some res -> is_Some (in_records s' !! id')).
Proof using Hwf Hm.
  rewrite (mv_admission _ _ _ _ _ Hm). pose proof (mv_static _ _ _ _ _ Hm) as Hst.
  unfold run_static in Hst. injection Hst as Hsc Hac _ _ Hpr _ _ _ _ _ _.
  pose proof (wf_admitted s Hwf id r (mv_before _ _ _ _ _ Hm)) as Hold. rewrite moved_live in Hold.
  split.
  - intros id' r1 Hr1. apply moved_after in Hr1 as [[-> ->] | [Hne Hr1]].
    + rewrite Hpr, Hsc, Hac. destruct (turn_is_terminal (run_status r')); [| done].
      unfold released. by rewrite lookup_alter_eq, Hold.
    + destruct (turn_is_terminal (run_status r')); unfold released;
        rewrite ?lookup_alter_ne by done; by apply (wf_admitted s Hwf).
  - intros id' res Hres. destruct (decide (id' = id)) as [-> | Hne]; [by rewrite moved_here |].
    rewrite moved_elsewhere by done. apply (wf_admission s Hwf id' res). revert Hres.
    destruct (turn_is_terminal (run_status r')); unfold released; by rewrite ?lookup_alter_ne by done.
Qed.

Lemma moved_counters_wf :
  lm_limits (in_concurrency s') = Some (tsl_concurrency (in_limits s'))
  /\ (forall k, counter_wf user_key (lm_running_by_user (in_concurrency s')) (in_records s')
        (max_concurrent_runs_per_user (tsl_concurrency (in_limits s'))) k)
  /\ (forall k, counter_wf origin_key (lm_running_by_origin_class (in_concurrency s'))
        (in_records s') (origin_cap (tsl_concurrency (in_limits s')) k.2) k).
Proof using Hwf Hm.
  rewrite (mv_limiter _ _ _ _ _ Hm), (mv_limits _ _ _ _ _ Hm), (mv_records _ _ _ _ _ Hm).
  pose proof (wf_limits s Hwf) as Hl. pose proof (wf_caps s Hwf) as [Hcu Hco].
  pose proof (mv_static _ _ _ _ _ Hm) as Hst. pose proof (mv_before _ _ _ _ _ Hm) as Hr.
  split_and!.
  - unfold limiter_after. by destruct (cell_transition _ _).
  - intros k. pose proof (counter_moved user_key user_key_static
      (lm_running_by_user (in_concurrency s)) (in_records s) _ id r r' k Hr Hst Hcu) as Hx.
    unfold limiter_after, user_key in *. destruct (cell_transition _ _); apply Hx; try apply Hwf;
      intros Hf Ht Hk c Hc; (eapply can_claim_user; [done | by apply Hm | done | done]).
  - intros k. pose proof (counter_moved origin_key origin_key_static
      (lm_running_by_origin_class (in_concurrency s)) (in_records s) _ id r r' k Hr Hst (Hco k.2)) as Hx.
    unfold limiter_after, origin_key in *. destruct (cell_transition _ _); apply Hx; try apply Hwf;
      intros Hf Ht Hk c Hc; (eapply can_claim_origin; [done | by apply Hm | done | done]).
Qed.

Lemma wf_moved : turns_wf s'.
Proof using Hwf Hm.
  destruct moved_queue_wf as [Hq1 Hq2]. destruct moved_terminal_wf as (Ht1 & Ht2 & Ht3).
  destruct moved_admission_wf as [Ha1 Ha2]. destruct moved_counters_wf as (Hc1 & Hc2 & Hc3).
  pose proof (mv_static _ _ _ _ _ Hm) as Hst. unfold run_static in Hst.
  split; auto using moved_lock_wf, moved_locked_wf.
  - intros id' r1 Hr1. apply moved_after in Hr1 as [[-> ->] | [_ Hr1]]; [apply moved_its_id | by apply Hwf].
  - intros id' r1 Hr1. apply moved_after in Hr1 as [[-> ->] | [_ Hr1]]; [apply Hm | by eapply (wf_lease s Hwf)].
  - intros id' r1 Hr1. rewrite (mv_turns _ _ _ _ _ Hm). apply moved_after in Hr1 as [[-> ->] | [_ Hr1]].
    + replace (run_turn_id r') with (run_turn_id r) by congruence.
      replace (run_actor r') with (run_actor r) by congruence. apply (wf_turn s Hwf _ _ (mv_before _ _ _ _ _ Hm)).
    + by apply (wf_turn s Hwf _ _ Hr1).
  - intros key t. rewrite (mv_tree _ _ _ _ _ Hm). intros Hk.
    destruct (wf_tree s Hwf _ _ Hk) as [Hpos (root & Hroot & Hkey)]. split; [done |].
    destruct (decide (sk_root_run_id key = id)) as [Heq | Hne].
    + exists r'. rewrite Heq, moved_here. split; [done |]. rewrite moved_its_scope. rewrite Heq in *.
      rewrite (mv_before _ _ _ _ _ Hm) in Hroot. by injection Hroot as <-.
    + exists root. by rewrite moved_elsewhere.
  - rewrite (mv_limits _ _ _ _ _ Hm). apply Hwf.
  - eapply log_step; [apply Hm | apply Hm | apply Hwf].
  - eapply memories_same; [apply Hm | apply Hm | apply Hwf].
  - destruct (wf_cursors s Hwf) as [Hb Hcur]. destruct (log_cursor s s' Hb (mv_log _ _ _ _ _ Hm)) as [Hle Hb'].
    split; [done |]. intros id' r1 Hr1. apply moved_after in Hr1 as [[-> ->] | [_ Hr1]].
    + destruct (mv_cursor _ _ _ _ _ Hm) as [| ->]; [done |].
      pose proof (Hcur _ _ (mv_before _ _ _ _ _ Hm)). lia.
    + specialize (Hcur _ _ Hr1). lia.
  - apply Hm, Hwf.
Qed.
End wf_moved.

(** ** A run is created *)

(** [r] is queued for the first time. *)
Record created (r : TurnRun) (s s' : Inner) : Prop := {
  cr_fresh : in_records s !! run_id r = None;
  cr_records : in_records s' = <[run_id r := r]> (in_records s);
  cr_status : run_status r = TurnQueued;
  cr_lease : lease_wf r;
  cr_busy : thread_busy (run_scope r) s = None;
  cr_locks : exists at_, in_active_locks s' =
    <[run_scope r := new_lock (run_scope r) (run_id r) at_]> (in_active_locks s);
  cr_queue : in_queued_runs s' = in_queued_runs s ++ [run_id r];
  cr_terminal : in_terminal_runs s' = in_terminal_runs s;
  cr_admission : in_admission_reservations s' = <[run_id r :=
    {| res_run_id := run_id r; res_admission_class := rp_admission_class (run_profile r);
       res_buckets := admission_buckets (run_scope r) (run_actor r) (rp_admission_class (run_profile r));
       res_released := false |}]> (in_admission_reservations s);
  cr_limiter : in_concurrency s' = in_concurrency s;
  cr_tree : in_tree_reservations s' = in_tree_reservations s;
  cr_turn : exists t, in_turns s' !! run_turn_id r = Some t /\ tr_actor t = run_actor r;
  cr_turns : forall turn, is_Some (in_turns s !! turn) -> in_turns s' !! turn = in_turns s !! turn;
  cr_limits : in_limits s' = in_limits s;
  cr_log : log_next s s';
  cr_memories : memories s' = memories s;
  cr_catalogs : catalogs_wf s -> catalogs_wf s';
  cr_cursor : run_event_cursor r <= in_cursor s';
}.

(** Without an active run a scope has no lock. *)
Lemma not_busy_no_lock s scope : turns_wf s -> thread_busy scope s = None ->
  in_active_locks s !! scope = None.
Proof.
  intros Hwf. unfold thread_busy. destruct (in_active_locks s !! scope) as [lock |] eqn:Hl; [| done].
  destruct (wf_lock s Hwf _ _ Hl) as (_ & r & Hr & _ & _ & Hlive). rewrite Hr.
  unfold keeps_active_lock. by rewrite Hlive.
Qed.

Section wf_created.
Context (r : TurnRun) (s s' : Inner).
Hypothesis (Hwf : turns_wf s) (Hc : created r s s').

Lemma created_after id' r1 : in_records s' !! id' = Some r1 ->
  (id' = run_id r /\ r1 = r) \/ (id' <> run_id r /\ in_records s !! id' = Some r1).
Proof using Hwf Hc. rewrite (cr_records _ _ _ Hc). apply lookup_moved. Qed.

Lemma created_here : in_records s' !! run_id r = Some r.
Proof using Hwf Hc. rewrite (cr_records _ _ _ Hc). apply lookup_insert_eq. Qed.

Lemma created_kept id' r1 : in_records s !! id' = Some r1 -> in_records s' !! id' = Some r1.
Proof using Hwf Hc.
  intros Hr. rewrite (cr_records _ _ _ Hc), lookup_insert_ne; [done |].
  intros <-. by rewrite (cr_fresh _ _ _ Hc) in Hr.
Qed.

Lemma created_terminal id' : run_is_terminal id' s' = run_is_terminal id' s.
Proof using Hwf Hc.
  unfold run_is_terminal. destruct (decide (id' = run_id r)) as [-> | Hne].
  - by rewrite created_here, (cr_fresh _ _ _ Hc), (cr_status _ _ _ Hc).
  - by rewrite (cr_records _ _ _ Hc), lookup_insert_ne.
Qed.

Lemma created_locks :
  (forall scope lock, in_active_locks s' !! scope = Some lock ->
     al_key lock = scope
     /\ exists r, in_records s' !! al_run_id lock = Some r /\ run_scope r = scope
          /\ al_status lock = run_status r /\ turn_is_terminal (run_status r) = false)
  /\ (forall id r, in_records s' !! id = Some r -> turn_is_terminal (run_status r) = false ->
       exists lock, in_active_locks s' !! run_scope r = Some lock /\ al_run_id lock = id).
Proof using Hwf Hc.
  destruct (cr_locks _ _ _ Hc) as [at_ ->]. pose proof (not_busy_no_lock _ _ Hwf (cr_busy _ _ _ Hc)) as Hno.
  pose proof (cr_status _ _ _ Hc) as Hq. split.
  - intros scope lock Hl. destruct (decide (scope = run_scope r)) as [-> | Hne].
    + rewrite lookup_insert_eq in Hl. injection Hl as <-. split; [done |]. exists r. simpl.
      by rewrite created_here, Hq.
    + rewrite lookup_insert_ne in Hl by done.
      destruct (wf_lock s Hwf _ _ Hl) as (Hk & r0 & Hr0 & Hrest). split; [done |].
      exists r0. split; [by apply created_kept | done].
  - intros id r0 Hr0 Hlive. apply created_after in Hr0 as [[-> ->] | [_ Hr0]].
    + eexists. by rewrite lookup_insert_eq.
    + destruct (wf_locked s Hwf _ _ Hr0 Hlive) as (lock & Hl & Hi). exists lock.
      rewrite lookup_insert_ne; [done |]. intros Heq. by rewrite Heq, Hl in Hno.
Qed.

Lemma created_queue :
  NoDup (in_queued_runs s') /\ forall id', id' ∈ in_queued_runs s' <-> queued s' id'.
Proof using Hwf Hc.
  rewrite (cr_queue _ _ _ Hc). split.
  - apply NoDup_app. split; [apply Hwf | split; [| apply NoDup_singleton]].
    intros x Hx ->%list_elem_of_singleton. apply (wf_queue s Hwf) in Hx as (r0 & Hr0 & _).
    by rewrite (cr_fresh _ _ _ Hc) in Hr0.
  - intros id'. rewrite elem_of_app, list_elem_of_singleton, (wf_queue s Hwf). unfold queued. split.
    + intros [(r0 & Hr0 & Hst) | ->]; [exists r0; split; [by apply created_kept | done] |].
      exists r. split; [apply created_here | apply Hc].
    + intros (r0 & Hr0 & Hst). apply created_after in Hr0 as [[-> ->] | [_ Hr0]]; [by right |].
      left. by exists r0.
Qed.

Lemma created_counter {K} `{Countable K} (key : TurnRun -> option K) counters cap k :
  counter_wf key counters (in_records s) cap k -> counter_wf key counters (in_records s') cap k.
Proof using Hwf Hc.
  unfold counter_wf, slots. rewrite (cr_records _ _ _ Hc).
  rewrite map_sum_insert_None by apply Hc. rewrite (cr_status _ _ _ Hc). done.
Qed.

Lemma wf_created : turns_wf s'.
Proof using Hwf Hc.
  destruct created_locks as [Hl1 Hl2]. destruct created_queue as [Hq1 Hq2].
  split; auto.
  - intros id' r1 Hr1. apply created_after in Hr1 as [[-> ->] | [_ Hr1]]; [done | by apply Hwf].
  - intros id' r1 Hr1. apply created_after in Hr1 as [[-> ->] | [_ Hr1]];
      [apply Hc | by apply (wf_lease s Hwf _ _ Hr1)].
  - rewrite (cr_terminal _ _ _ Hc). apply Hwf.
  - intros id'. rewrite (cr_terminal _ _ _ Hc), created_terminal. apply Hwf.
  - intros id'. rewrite created_terminal, (cr_terminal _ _ _ Hc), (cr_tree _ _ _ Hc). apply Hwf.
  - intros id' r1 Hr1. rewrite (cr_admission _ _ _ Hc). apply created_after in Hr1 as [[-> ->] | [Hne Hr1]].
    + by rewrite lookup_insert_eq, (cr_status _ _ _ Hc).
    + rewrite lookup_insert_ne by done. by apply Hwf.
  - intros id' res. rewrite (cr_admission _ _ _ Hc). destruct (decide (id' = run_id r)) as [-> | Hne].
    + intros _. by rewrite created_here.
    + rewrite lookup_insert_ne by done. intros [r0 Hr0]%(wf_admission s Hwf). exists r0.
      by apply created_kept.
  - intros id' r1 Hr1. apply created_after in Hr1 as [[-> ->] | [_ Hr1]]; [apply Hc |].
    destruct (wf_turn s Hwf _ _ Hr1) as (t & Ht & Ha). exists t. by rewrite (cr_turns _ _ _ Hc).
  - intros key t. rewrite (cr_tree _ _ _ Hc). intros Hk.
    destruct (wf_tree s Hwf _ _ Hk) as [Hpos (root & Hroot & Heq)]. split; [done |].
    exists root. split; [by apply created_kept | done].
  - rewrite (cr_limits _ _ _ Hc). apply Hwf.
  - rewrite (cr_limiter _ _ _ Hc), (cr_limits _ _ _ Hc). apply Hwf.
  - intros k. rewrite (cr_limiter _ _ _ Hc), (cr_limits _ _ _ Hc). apply created_counter, Hwf.
  - intros k. rewrite (cr_limiter _ _ _ Hc), (cr_limits _ _ _ Hc). apply created_counter, Hwf.
  - eapply log_step; [apply Hc | apply Hc | apply Hwf].
  - eapply memories_same; [apply Hc | apply Hc | apply Hwf].
  - destruct (wf_cursors s Hwf) as [Hb Hcur]. destruct (log_cursor s s' Hb (cr_log _ _ _ Hc)) as [Hle Hb'].
    split; [done |]. intros id' r1 Hr1. apply created_after in Hr1 as [[-> ->] | [_ Hr1]]; [apply Hc |].
    specialize (Hcur _ _ Hr1). lia.
  - apply Hc, Hwf.
Qed.
End wf_created.

(** ** Terminal runs leave, reservations of spawn trees change *)

(** A terminal run leaves, and with it its admission reservation. *)
Record removed (id : TurnRunId) (s s' : Inner) : Prop := {
  rm_terminal_run : run_is_terminal id s = true;
  rm_records : in_records s' = delete id (in_records s);
  rm_admission : in_admission_reservations s' = delete id (in_admission_reservations s);
  rm_terminal : NoDup (in_terminal_runs s')
    /\ forall x, x ∈ in_terminal_runs s' <-> x ∈ in_terminal_runs s /\ x <> id;
  rm_tree : forall key, in_tree_reservations s' !! key =
    if decide (sk_root_run_id key = id) then None else in_tree_reservations s !! key;
  rm_turns : forall id' r', id' <> id -> in_records s !! id' = Some r' ->
    in_turns s' !! run_turn_id r' = in_turns s !! run_turn_id r';
  rm_locks : in_active_locks s' = in_active_locks s;
  rm_queue : in_queued_runs s' = in_queued_runs s;
  rm_limiter : in_concurrency s' = in_concurrency s;
  rm_limits : in_limits s' = in_limits s;
  rm_log : quiet s s';
  rm_memories : memories s' = memories s;
  rm_catalogs : catalogs_wf s -> catalogs_wf s';
}.

Section wf_removed.
Context (id : TurnRunId) (s s' : Inner).
Hypothesis (Hwf : turns_wf s) (Hr : removed id s s').

Lemma removed_after id' r' : in_records s' !! id' = Some r' -> id' <> id /\ in_records s !! id' = Some r'.
Proof using Hwf Hr. rewrite (rm_records _ _ _ Hr), lookup_delete_Some. naive_solver. Qed.

Lemma removed_kept id' r' : id' <> id -> in_records s !! id' = Some r' -> in_records s' !! id' = Some r'.
Proof using Hwf Hr. intros Hne. by rewrite (rm_records _ _ _ Hr), lookup_delete_ne. Qed.

Lemma removed_live id' r' : in_records s !! id' = Some r' ->
  turn_is_terminal (run_status r') = false -> id' <> id.
Proof using Hwf Hr.
  intros Hr' Hlive ->. pose proof (rm_terminal_run _ _ _ Hr) as Ht. unfold run_is_terminal in Ht.
  rewrite Hr' in Ht. congruence.
Qed.

Lemma removed_terminal id' : run_is_terminal id' s' = if decide (id' = id) then false else run_is_terminal id' s.
Proof using Hwf Hr.
  unfold run_is_terminal. rewrite (rm_records _ _ _ Hr). case_decide as Hd.
  - by rewrite Hd, lookup_delete_eq.
  - by rewrite lookup_delete_ne.
Qed.

Lemma removed_counter {K} `{Countable K} (key : TurnRun -> option K) counters cap k :
  counter_wf key counters (in_records s) cap k -> counter_wf key counters (in_records s') cap k.
Proof using Hwf Hr.
  pose proof (rm_terminal_run _ _ _ Hr) as Ht. unfold run_is_terminal in Ht.
  destruct (in_records s !! id) as [r |] eqn:Hid; [| done].
  assert (slots key k (in_records s') = slots key k (in_records s)) as Hs.
  { unfold slots. rewrite (map_sum_lookup _ (in_records s) id r Hid), (rm_records _ _ _ Hr).
    by destruct (run_status r). }
  unfold counter_wf. by rewrite Hs.
Qed.

Lemma removed_queue id' : queued s' id' <-> queued s id'.
Proof using Hwf Hr.
  unfold queued. split; intros (r & Hid & Hst); exists r; (split; [| done]).
  - by apply removed_after in Hid as [_ Hid].
  - apply removed_kept; [| done]. apply (removed_live _ _ Hid). by rewrite Hst.
Qed.

Lemma wf_removed : turns_wf s'.
Proof using Hwf Hr.
  destruct (rm_terminal _ _ _ Hr) as [Hn Ht]. split; auto.
  - intros id' r' [_ Hr']%removed_after. by apply Hwf.
  - intros scope lock. rewrite (rm_locks _ _ _ Hr). intros Hl.
    destruct (wf_lock s Hwf _ _ Hl) as (Hk & r & Hrec & Hsc & Hst & Hlive). split; [done |].
    exists r. split_and!; try done. apply removed_kept; [by eapply removed_live | done].
  - intros id' r' [_ Hr']%removed_after Hlive. rewrite (rm_locks _ _ _ Hr). by apply (wf_locked s Hwf).
  - rewrite (rm_queue _ _ _ Hr). apply Hwf.
  - intros id'. rewrite (rm_queue _ _ _ Hr), removed_queue. apply Hwf.
  - intros id' r' [_ Hr']%removed_after. by apply (wf_lease s Hwf _ _ Hr').
  - intros id' Hin. apply Ht in Hin as [Hin Hne]. rewrite removed_terminal, decide_False by done.
    by apply (wf_terminal s Hwf).
  - intros id'. rewrite removed_terminal. case_decide as Hd; [done |].
    intros [Hin | (key & t & Hk & Hroot)]%(wf_terminal_kept s Hwf).
    + left. by apply Ht.
    + right. exists key, t. rewrite (rm_tree _ _ _ Hr), decide_False by congruence. done.
  - intros id' r' [Hne Hr']%removed_after. rewrite (rm_admission _ _ _ Hr), lookup_delete_ne by done.
    by apply (wf_admitted s Hwf).
  - intros id' res. rewrite (rm_admission _ _ _ Hr), lookup_delete_Some.
    intros [Hne [r' Hr']%(wf_admission s Hwf)]. exists r'. by apply removed_kept.
  - intros id' r' [Hne Hr']%removed_after. destruct (wf_turn s Hwf _ _ Hr') as (t & Htn & Ha).
    exists t. by rewrite (rm_turns _ _ _ Hr _ _ Hne Hr').
  - intros key t. rewrite (rm_tree _ _ _ Hr). case_decide as Hd; [done |]. intros Hk.
    destruct (wf_tree s Hwf _ _ Hk) as [Hpos (root & Hroot & Heq)]. split; [done |].
    exists root. split; [by apply removed_kept | done].
  - rewrite (rm_limits _ _ _ Hr). apply Hwf.
  - rewrite (rm_limiter _ _ _ Hr), (rm_limits _ _ _ Hr). apply Hwf.
  - intros k. rewrite (rm_limiter _ _ _ Hr), (rm_limits _ _ _ Hr). apply removed_counter, Hwf.
  - intros k. rewrite (rm_limiter _ _ _ Hr), (rm_limits _ _ _ Hr). apply removed_counter, Hwf.
  - eapply log_quiet; [apply Hr | apply Hr | apply Hwf].
  - eapply memories_same; [apply Hr | apply Hr | apply Hwf].
  - destruct (wf_cursors s Hwf) as [Hb Hcur]. destruct (rm_log _ _ _ Hr) as (Hc & _). split; rewrite Hc; [done |].
    intros id' r' [_ Hr']%removed_after. by apply (Hcur id').
  - apply Hr, Hwf.
Qed.
End wf_removed.

(** What most changes leave alone. *)
Record same_runs (s s' : Inner) : Prop := {
  sm_records : in_records s' = in_records s;
  sm_locks : in_active_locks s' = in_active_locks s;
  sm_queue : in_queued_runs s' = in_queued_runs s;
  sm_admission : in_admission_reservations s' = in_admission_reservations s;
  sm_turns : in_turns s' = in_turns s;
  sm_limiter : in_concurrency s' = in_concurrency s;
  sm_limits : in_limits s' = in_limits s;
  sm_log : quiet s s';
  sm_memories : memories_wf s -> memories_wf s';
  sm_catalogs : catalogs_wf s -> catalogs_wf s';
}.

(** Only terminal order and trees differ. *)
Lemma wf_same_runs s s' :
  turns_wf s -> same_runs s s' ->
  NoDup (in_terminal_runs s') ->
  (forall id, id ∈ in_terminal_runs s' -> run_is_terminal id s = true) ->
  (forall id, run_is_terminal id s = true -> id ∈ in_terminal_runs s'
     \/ exists key t, in_tree_reservations s' !! key = Some t /\ sk_root_run_id key = id) ->
  (forall key t, in_tree_reservations s' !! key = Some t -> 0 < tree_count t
     /\ exists root, in_records s !! sk_root_run_id key = Some root
          /\ key = tree_key_new (run_scope root) (sk_root_run_id key)) ->
  turns_wf s'.
Proof.
  intros Hwf Hs Hn Ht Hk Htree.
  assert (forall id, run_is_terminal id s' = run_is_terminal id s) as Hterm.
  { intros id. unfold run_is_terminal. by rewrite (sm_records _ _ Hs). }
  assert (forall id, queued s' id <-> queued s id) as Hq.
  { intros id. unfold queued. by rewrite (sm_records _ _ Hs). }
  split; rewrite ?(sm_records _ _ Hs), ?(sm_locks _ _ Hs), ?(sm_queue _ _ Hs), ?(sm_admission _ _ Hs),
    ?(sm_turns _ _ Hs), ?(sm_limiter _ _ Hs), ?(sm_limits _ _ Hs); auto; try apply Hwf.
  - intros id. rewrite Hq. apply Hwf.
  - intros id. rewrite Hterm. auto.
  - intros id. rewrite Hterm. auto.
  - eapply log_quiet; [apply Hs | apply Hs | apply Hwf].
  - apply Hs, Hwf.
  - destruct (sm_log _ _ Hs) as (Hc & _). unfold cursors_wf. rewrite Hc, (sm_records _ _ Hs). apply Hwf.
  - apply Hs, Hwf.
Qed.

(** Nothing the invariant speaks of differs. *)
Lemma wf_frame s s' :
  turns_wf s -> same_runs s s' -> in_terminal_runs s' = in_terminal_runs s ->
  in_tree_reservations s' = in_tree_reservations s -> turns_wf s'.
Proof.
  intros Hwf Hs Ht Htree. apply (wf_same_runs s s' Hwf Hs); rewrite ?Ht, ?Htree; apply Hwf.
Qed.

(** ** Pruning *)

Lemma tree_roots_In id s :
  existsb (fun key => sk_root_run_id key =? id) (map_to_list (in_tree_reservations s)).*1 = true
  <-> exists key t, in_tree_reservations s !! key = Some t /\ sk_root_run_id key = id.
Proof.
  rewrite existsb_exists. split.
  - intros (key & Hin & Heq). apply list_elem_of_In, list_elem_of_fmap in Hin as ([k t] & -> & Hin).
    apply elem_of_map_to_list in Hin. apply N.eqb_eq in Heq. by exists k, t.
  - intros (key & t & Hk & <-). exists key. split; [| apply N.eqb_refl].
    apply list_elem_of_In, list_elem_of_fmap. exists (key, t). split; [done |]. by apply elem_of_map_to_list.
Qed.

(** ** Changes

    Every operation is a sequence of these; bookkeeping changes the order of the terminal
    runs, the reservations of spawn trees, or nothing the invariant speaks of. *)

Definition memory_full (s : Inner) : Prop :=
  N.of_nat (size (in_submit_idempotency s)) = tsl_max_idempotency_records (in_limits s).

(** No reply to a submission is replaced, and one is dropped only from a full memory. *)
Definition replies_kept (s s' : Inner) : Prop :=
  forall key reply, in_submit_idempotency s !! key = Some reply ->
    in_submit_idempotency s' !! key = Some reply
    \/ (in_submit_idempotency s' !! key = None /\ memory_full s').

Lemma same_replies s s' : in_submit_idempotency s' = in_submit_idempotency s -> replies_kept s s'.
Proof. intros Heq key reply Hk. left. by rewrite Heq. Qed.

Inductive change (s s' : Inner) : Prop :=
  | by_move id r r' (Hm : moved id r r' s s')
  | by_creation r (Hc : created r s s')
  | by_removal id (Hr : removed id s s')
  | by_bookkeeping (Hs : same_runs s s') (Hk : replies_kept s s') (Hwf : turns_wf s').

Lemma wf_change s s' : turns_wf s -> change s s' -> turns_wf s'.
Proof. intros Hwf []; eauto using wf_moved, wf_created, wf_removed. Qed.

Definition changes : Inner -> Inner -> Prop := rtc change.

Lemma wf_changes s s' : turns_wf s -> changes s s' -> turns_wf s'.
Proof. intros Hwf. induction 1; eauto using wf_change. Qed.

Lemma changes_one s s' : change s s' -> changes s s'.
Proof. apply rtc_once. Qed.

Lemma change_replies s s' : change s s' -> replies_kept s s'.
Proof.
  assert (memories s' = memories s -> replies_kept s s') as Hsame.
  { intros Hm. apply same_replies. unfold memories in Hm. congruence. }
  intros [id r r' Hm | r Hc | id Hr | _ Hk _];
    [apply Hsame, Hm | apply Hsame, Hc | apply Hsame, Hr | done].
Qed.

(** A change of something else. *)
Lemma changes_frame s s' :
  turns_wf s -> same_runs s s' -> replies_kept s s' -> in_terminal_runs s' = in_terminal_runs s ->
  in_tree_reservations s' = in_tree_reservations s -> changes s s'.
Proof. intros. apply rtc_once, by_bookkeeping; [done | done | by eapply wf_frame]. Qed.

Lemma prune_one_change id rest s :
  turns_wf (s <| in_terminal_runs := id :: rest |>) ->
  change (s <| in_terminal_runs := id :: rest |>) (prune_one id s <| in_terminal_runs := rest |>).
Proof.
  intros Hwf. pose proof (wf_terminal_nodup _ Hwf) as Hn. cbn in Hn. apply NoDup_cons in Hn as [Hni Hn].
  pose proof (wf_terminal _ Hwf id (list_elem_of_here _ _)) as Ht. cbn in Ht.
  change (run_is_terminal id s = true) in Ht. unfold prune_one. rewrite Ht. simpl.
  destruct (existsb (fun key => sk_root_run_id key =? id) (map_to_list (in_tree_reservations s)).*1) eqn:Hx; simpl.
  - apply by_bookkeeping; [untouched | by apply same_replies |]. apply (wf_same_runs _ _ Hwf); cbn; try done; [untouched | | |].
    + intros id' Hin. apply (wf_terminal _ Hwf). cbn. by apply list_elem_of_further.
    + intros id' Hid. destruct (wf_terminal_kept _ Hwf _ Hid) as [Hin | Hk]; [| by right]. cbn in Hin.
      apply elem_of_cons in Hin as [-> | Hin]; [right | by left]. by apply tree_roots_In.
    + apply Hwf.
  - assert (~ exists key t, in_tree_reservations s !! key = Some t /\ sk_root_run_id key = id) as Hno.
    { rewrite <- tree_roots_In. congruence. }
    destruct (in_records s !! id) as [r |] eqn:Hr; [| unfold run_is_terminal in Ht; by rewrite Hr in Ht].
    set (shared := existsb _ _). apply (by_removal _ _ id).
    split; destruct shared eqn:Hsh; cbn; try done.
    + split; [done |]. intros x. rewrite elem_of_cons. naive_solver.
    + split; [done |]. intros x. rewrite elem_of_cons. naive_solver.
    + intros key. case_decide as Hd; [| done]. destruct (in_tree_reservations s !! key) eqn:Hk; [| done].
      exfalso. apply Hno. eauto.
    + intros key. case_decide as Hd; [| done]. destruct (in_tree_reservations s !! key) eqn:Hk; [| done].
      exfalso. apply Hno. eauto.
    + intros id' r' Hne Hr'. rewrite lookup_delete_ne; [done |]. intros Heq.
      assert (shared = true) as Hsh'; [| congruence]. unfold shared. apply existsb_exists. exists r'.
      split; [| by apply N.eqb_eq]. apply list_elem_of_In, elem_of_map_values. exists id'. cbn.
      by rewrite lookup_delete_ne.
    + intros [Hturns Hcps]. split; cbn; [| done]. intros turn t [_ Hturn]%lookup_delete_Some. by apply Hturns.
Qed.

Lemma prune_loop_changes l s :
  turns_wf (s <| in_terminal_runs := l |>) -> changes (s <| in_terminal_runs := l |>) (prune_loop l s).
Proof.
  revert s. induction l as [| id l IH]; intros s Hwf; simpl.
  - destruct (_ <=? _); constructor.
  - destruct (_ <=? _); [constructor |].
    pose proof (prune_one_change _ _ _ Hwf) as Hc. eapply rtc_l; [exact Hc |].
    apply IH. by eapply wf_change.
Qed.

Lemma prune_changes s : turns_wf s -> changes s (prune_terminal_records s).
Proof.
  intros Hwf. assert (s <| in_terminal_runs := in_terminal_runs s |> = s) as Heq by by destruct s.
  unfold prune_terminal_records. rewrite <- Heq at 1. apply prune_loop_changes. by rewrite Heq.
Qed.

(** At most so many terminal runs are kept for their own sake. *)
Lemma prune_loop_length l s :
  N.of_nat (length (in_terminal_runs (prune_loop l s))) <= tsl_max_terminal_records (in_limits s)
  /\ in_limits (prune_loop l s) = in_limits s.
Proof.
  revert s. induction l as [| id l IH]; intros s; simpl.
  - destruct (N.leb_spec (N.of_nat 0) (tsl_max_terminal_records (in_limits s))); cbn; (split; [lia | done]).
  - destruct (N.leb_spec (N.of_nat (S (length l))) (tsl_max_terminal_records (in_limits s))) as [Hle | Hlt].
    + cbn. split; [lia | done].
    + assert (in_limits (prune_one id s) = in_limits s) as Hl.
      { unfold prune_one. destruct (_ && _); [| done]. cbn. destruct (in_records s !! id); [| done].
        by destruct (existsb _ _). }
      rewrite <- Hl. apply IH.
Qed.
End moves.
