(* ===== verification/TurnOpsFacts.v ===== *)
(** * Every operation of the turn store keeps its invariant

    An operation takes a run's record out, works on it and puts it back ([body_ok]); each
    operation of the runner, each claim, resumption and cancellation is shown to be a
    sequence of [change]s of the store, and the pass over the queue to find the first
    [eligible] run. *)

From S2P Require Import Prelude Ids Platform HostApi Capability Obligations Collections Turns TurnLimiter TurnEvents TurnStore TurnOps TurnRunner TurnWf TurnMoves.
From Stdlib Require Import Lia.
Local Open Scope N_scope.
Local Open Scope record_scope.

Section bodies.
Context `{TurnPayload} `{Platform}.

(** ** Operations on one record *)

(** What the body of an operation on the run [id] yields, the record put back and [post]
    applied: everything as it was, or a change of the run. *)
Definition body_ok {T} (post : Result T TurnError -> Inner -> Inner) (id : TurnRunId) (r : TurnRun)
    (s : Inner) (out : Result T TurnError * TurnRun * Inner) : Prop :=
  (out = (out.1.1, r, s <| in_records ::= delete id |>) /\ post out.1.1 s = s)
  \/ moved id r out.1.2 s (post out.1.1 (out.2 <| in_records ::= insert (run_id out.1.2) out.1.2 |>)).

Lemma changed_ok {T} post id r s out (result : Result T TurnError) r' s' :
  out = (result, r', s') -> moved id r r' s (post result (s' <| in_records ::= insert (run_id r') r' |>)) ->
  body_ok post id r s out.
Proof. intros ->. by right. Qed.

Definition no_post {T} (_ : Result T TurnError) (s : Inner) : Inner := s.

Lemma with_record_post {T} post id (body : TurnRun -> Inner -> Result T TurnError * TurnRun * Inner) s :
  turns_wf s -> (forall e, post (Err e) s = s) ->
  (forall r, in_records s !! id = Some r ->
     body_ok post id r s (body r (s <| in_records ::= delete id |>))) ->
  changes s (post (with_record id body s).1 (with_record id body s).2).
Proof.
  intros Hwf He Hb. unfold with_record. destruct (in_records s !! id) as [r |] eqn:Hr;
    [| simpl; rewrite He; constructor].
  specialize (Hb r eq_refl). unfold body_ok in Hb. destruct (body r _) as [[result r'] s1] eqn:Hbody.
  cbn in *. destruct Hb as [[[= -> ->] Hp] | Hm]; [| by apply changes_one, (by_move _ _ id r r')].
  assert (s <| in_records ::= delete id |> <| in_records ::= insert (run_id r) r |> = s) as Heq.
  { rewrite (wf_key s Hwf _ _ Hr). destruct s. unfold set_field, set_in_records. cbn in *.
    by rewrite insert_delete_id. }
  change (changes s (post result (s <| in_records ::= delete id |> <| in_records ::= insert (run_id r) r |>))).
  rewrite Heq, Hp. constructor.
Qed.

Lemma with_record_changes {T} id (body : TurnRun -> Inner -> Result T TurnError * TurnRun * Inner) s :
  turns_wf s ->
  (forall r, in_records s !! id = Some r ->
     body_ok no_post id r s (body r (s <| in_records ::= delete id |>))) ->
  changes s (with_record id body s).2.
Proof. intros Hwf Hb. by apply (with_record_post no_post). Qed.

(** Only a run with a running slot has a lease to show. *)
Lemma lease_slot r runner token now :
  lease_wf r -> ensure_active_lease r runner token now = Ok tt ->
  holds_running_slot (run_status r) = true /\ run_runner_id r = Some runner
  /\ run_lease_token r = Some token.
Proof.
  unfold lease_wf, ensure_active_lease. intros Hw He.
  destruct (bool_decide_reflect (run_runner_id r <> Some runner)) as [| Hr]; [done |].
  destruct (bool_decide_reflect (run_lease_token r <> Some token)) as [| Ht]; [done |].
  apply dec_stable in Hr, Ht. destruct (holds_running_slot _); [done |]. destruct Hw as (Hr' & _). congruence.
Qed.

Lemma with_lease_post {T} post c now (body : TurnRun -> Inner -> Result T TurnError * TurnRun * Inner) s :
  turns_wf s -> (forall e, post (Err e) s = s) ->
  (forall r, in_records s !! lc_run_id c = Some r -> holds_running_slot (run_status r) = true ->
     body_ok post (lc_run_id c) r s (body r (s <| in_records ::= delete (lc_run_id c) |>))) ->
  changes s (post (with_lease c now body s).1 (with_lease c now body s).2).
Proof.
  intros Hwf He Hb. apply with_record_post; [done | done |]. intros r Hr.
  destruct (ensure_active_lease _ _ _ _) as [[] | e] eqn:Hl.
  - apply Hb; [done |]. eapply lease_slot; [by eapply (wf_lease s Hwf) | done].
  - left. split; [done | apply He].
Qed.

Lemma with_lease_changes {T} c now (body : TurnRun -> Inner -> Result T TurnError * TurnRun * Inner) s :
  turns_wf s ->
  (forall r, in_records s !! lc_run_id c = Some r -> holds_running_slot (run_status r) = true ->
     body_ok no_post (lc_run_id c) r s (body r (s <| in_records ::= delete (lc_run_id c) |>))) ->
  changes s (with_lease c now body s).2.
Proof. intros Hwf Hb. by apply (with_lease_post no_post). Qed.

Lemma prune_after {T} s (out : T * Inner) :
  turns_wf s -> changes s out.2 ->
  changes s (let '(result, s') := out in (result, prune_terminal_records s')).2.
Proof.
  intros Hwf Hc. destruct out as [result s']. cbn in *. etrans; [exact Hc |].
  apply prune_changes. by eapply wf_changes.
Qed.

Lemma commit_after s result s' :
  turns_wf s -> changes s s' -> changes s (commit_transition result s').2.
Proof.
  intros Hwf Hc. unfold commit_transition. cbn. destruct result as [state |]; [| done].
  destruct (turn_is_terminal _); [| done]. by apply (prune_after s (tt, s')).
Qed.

Lemma own_id s id r : turns_wf s -> in_records s !! id = Some r -> run_id r = id.
Proof. intros Hwf. apply (wf_key s Hwf). Qed.

(** Every lock change that follows the record. *)
Lemma update_follows to r r' now : run_status r' = to -> turn_is_terminal to = false ->
  lock_follows r r' (fun lock => Some
    {| al_key := al_key lock; al_run_id := al_run_id lock; al_status := to;
       al_lock_version := lock_version_incremented (al_lock_version lock);
       al_acquired_at := al_acquired_at lock; al_updated_at := now |}).
Proof. by intros <- Hl lock Hs. Qed.

Lemma touch_follows r r' now :
  turn_is_terminal (run_status r) = false -> run_status r' = run_status r ->
  lock_follows r r' (fun lock => Some
    {| al_key := al_key lock; al_run_id := al_run_id lock; al_status := al_status lock;
       al_lock_version := al_lock_version lock; al_acquired_at := al_acquired_at lock;
       al_updated_at := now |}).
Proof. intros Hl Heq lock Hs. simpl. rewrite Heq. by split_and!. Qed.

Lemma release_follows r r' : turn_is_terminal (run_status r') = true -> lock_follows r r' (fun _ => None).
Proof. by intros Ht lock _. Qed.

Lemma push_logged e (s s' : Inner) :
  in_cursor s' = sat_add64 (in_cursor s) 1 -> ev_cursor e = sat_add64 (in_cursor s) 1 ->
  in_events s' = (retain_events (tsl_max_events (in_limits s)) (in_events s ++ [e])
                    (in_event_retention_floor s)).1 ->
  in_event_retention_floor s' = (retain_events (tsl_max_events (in_limits s)) (in_events s ++ [e])
                    (in_event_retention_floor s)).2 -> logged s s'.
Proof.
  intros Hc He Hv Hf. split; [done |]. exists e. split; [congruence |]. rewrite Hv, Hf.
  by destruct (retain_events _ _ _).
Qed.

(** A queue without the run. *)
Lemma queue_without s id r :
  turns_wf s -> in_records s !! id = Some r -> run_status r <> TurnQueued ->
  List.filter (fun queued => negb (queued =? id)) (in_queued_runs s) = in_queued_runs s.
Proof.
  intros Hwf Hr Hst. assert (id ∉ in_queued_runs s) as Hni.
  { intros (r0 & Hr0 & Hq)%(wf_queue s Hwf). congruence. }
  induction (in_queued_runs s) as [| x l IH]; simpl; [done |].
  apply not_elem_of_cons in Hni as [Hne Hni]. destruct (N.eqb_spec x id); [congruence |].
  simpl. by rewrite IH.
Qed.

Lemma slot_info_static r r' : run_static r' = run_static r -> slot_info_for r' = slot_info_for r.
Proof. unfold run_static. intros [=]. unfold slot_info_for. congruence. Qed.

(** The limiter after [status_set] is the limiter of the change. *)
Lemma limiter_of_set from to r r1 r' l :
  slot_info_for r1 = slot_info_for r -> run_static r' = run_static r -> run_status r' = to ->
  match (if holds_running_slot from
         then if holds_running_slot to then StatusUnchanged else LeftRunning
         else if holds_running_slot to then EnteredRunning else StatusUnchanged) with
  | EnteredRunning => on_enter_running (slot_info_for r1)
  | LeftRunning => on_leave_running (slot_info_for r1)
  | StatusUnchanged => fun limiter => limiter
  end l = limiter_after from r' l.
Proof.
  intros -> Hst <-. unfold limiter_after, cell_transition. rewrite (slot_info_static _ _ Hst).
  by destruct (holds_running_slot from), (holds_running_slot (run_status r')).
Qed.
End bodies.

(** The limiter of a change between known statuses. *)
Ltac slot_change :=
  unfold limiter_after, cell_transition;
  repeat lazymatch goal with Hs : run_status ?r = _ |- context [run_status ?r] => rewrite Hs end;
  lazymatch goal with Hst : run_static _ = run_static _ |- _ => rewrite (slot_info_static _ _ Hst) end;
  reflexivity.

(** The routine fields of [moved]. *)
Ltac routine r :=
  lazymatch goal with
  | |- _ !! _ = _ => assumption
  | |- <[_ := _]> (delete _ _) = _ => apply insert_delete_eq
  | |- run_static _ = _ => first [assumption | reflexivity]
  | |- status_move _ _ = true => try assumption
  | |- log_next _ _ => left; eapply push_logged; cbn; [reflexivity | | reflexivity | reflexivity]; cbn; first [assumption | reflexivity]
  | |- _ = _ ++ [] => by rewrite app_nil_r
  | |- catalogs_wf _ -> catalogs_wf _ => exact (fun Hc => Hc)
  | |- (_ <= _)%N \/ _ =>
      first [left; apply N.eq_le_incl; assumption | left; apply N.eq_le_incl; reflexivity | right; reflexivity | right; assumption]
  | |- _ = limiter_after _ _ _ => first [apply (limiter_of_set _ _ r); first [assumption | reflexivity] | slot_change | idtac]
  | |- _ = _ => try reflexivity
  | |- _ => idtac
  end.

(** The changed run gets a name, [r2], and the body's reductions stop at it: its setters
    are nested records, which conversion must not compare. *)
Ltac start_moving Hwf Hr :=
  unfold status_set, next_cursor, drop_lease; eapply changed_ok; [cbn; reflexivity |]; unfold no_post;
  lazymatch goal with |- moved ?id ?r ?r' _ _ =>
    let r2 := fresh "r2" in
    set (r2 := r') in *;
    let Hs := fresh "Hstatic" in
    assert (run_static r2 = run_static r) as Hs by reflexivity;
    let Hi := fresh "Hid" in
    assert (run_id r2 = id) as Hi by exact (own_id _ _ _ Hwf Hr);
    let c := eval cbn in (run_event_cursor r2) in
    let Hc := fresh "Hcursor" in
    assert (run_event_cursor r2 = c) as Hc by reflexivity
  end.


Section facts.
Context `{TurnPayload} `{Platform}.

(** ** Finishing *)

Definition edit_ok (edit : TurnRun -> TurnRun) : Prop :=
  forall r, run_static (edit r) = run_static r /\ run_status (edit r) = run_status r.

Lemma no_failure_ok : edit_ok no_failure.
Proof. done. Qed.

Lemma fail_edit_ok failure s : edit_ok (fail_edit failure s).
Proof. done. Qed.

Lemma terminal_edit_ok status failure s : edit_ok (terminal_edit status failure s).
Proof. intros r. unfold terminal_edit. by case_decide. Qed.

Lemma finish_ok id r s status edit kind reason detail clk :
  turns_wf s -> in_records s !! id = Some r -> edit_ok edit ->
  turn_is_terminal status = true -> status_move (run_status r) status = true ->
  body_ok no_post id r s
    (finish_run status edit kind reason detail clk r (s <| in_records ::= delete id |>)).
Proof.
  intros Hwf Hr Hedit Ht Hmove. right. unfold no_post. pose proof (own_id _ _ _ Hwf Hr) as Hid.
  destruct (Hedit (r <| run_status := status |>)) as [Hst Hstat].
  unfold finish_run, status_set, next_cursor, drop_lease. cbn.
  set (r1 := edit _) in *. change (run_static r1 = run_static r) in Hst. change (run_status r1 = status) in Hstat.
  assert (run_id r1 = id) as Hi1 by (unfold run_static in Hst; congruence).
  assert (holds_running_slot status = false) as Hh by by destruct status.
  assert (status <> TurnQueued) as Hq by by intros ->.
  split; cbn; rewrite ?Hstat, ?Hi1, ?Ht; routine r.
  - exists (fun _ => None). split; [| done]. apply release_follows. change (turn_is_terminal (run_status r1) = true). by rewrite Hstat.
  - rewrite decide_False by done. done.
  - congruence.
  - unfold lease_wf. change (run_status _) with (run_status r1). by rewrite Hstat, Hh.
Qed.

Lemma unchanged_ok {T} post (result : Result T TurnError) id r s :
  post result s = s -> body_ok post id r s (result, r, s <| in_records ::= delete id |>).
Proof. intros Hp. by left. Qed.

(** A run with a slot that is not being cancelled is running. *)
Lemma slot_cases status : holds_running_slot status = true ->
  status = TurnRunning \/ status = TurnCancelRequested.
Proof. destruct status; auto; done. Qed.

Lemma terminal_transition_changes c status failure kind clk s :
  turns_wf s -> turn_is_terminal status = true -> status_move TurnRunning status = true ->
  changes s (terminal_transition c status failure kind clk s).2.
Proof.
  intros Hwf Ht Hm. unfold terminal_transition.
  destruct (in_records s !! lc_run_id c) as [r0 |] eqn:Hr0; [| constructor].
  apply prune_after; [done |]. apply with_lease_changes; [done |]. intros r Hr Hs.
  apply slot_cases in Hs as [Hs | Hs]; rewrite Hs; [| by apply unchanged_ok]. cbn.
  apply finish_ok; rewrite ?Hs; auto using terminal_edit_ok.
Qed.

Lemma complete_run_changes c clk s : turns_wf s -> changes s (complete_run c clk s).2.
Proof. intros Hwf. by apply terminal_transition_changes. Qed.

Lemma fail_run_changes c failure clk s : turns_wf s -> changes s (fail_run c failure clk s).2.
Proof. intros Hwf. by apply terminal_transition_changes. Qed.

Lemma finish_cancel_ok id r s clk :
  turns_wf s -> in_records s !! id = Some r -> run_status r = TurnCancelRequested ->
  body_ok no_post id r s (finish_run TurnCancelled no_failure EvCancelled None None clk r
    (s <| in_records ::= delete id |>)).
Proof. intros Hwf Hr Hs. apply finish_ok; rewrite ?Hs; auto using no_failure_ok. Qed.

Lemma cancel_claimed_ok id r s clk :
  turns_wf s -> in_records s !! id = Some r ->
  body_ok no_post id r s (cancel_claimed_record clk r (s <| in_records ::= delete id |>)).
Proof.
  intros Hwf Hr. unfold cancel_claimed_record.
  case_bool_decide; simpl; [by apply finish_cancel_ok | by apply unchanged_ok].
Qed.

Lemma cancel_run_changes c clk s : turns_wf s -> changes s (cancel_run c clk s).2.
Proof.
  intros Hwf. unfold cancel_run. destruct (in_records s !! lc_run_id c) eqn:Hr; [| constructor].
  apply prune_after, with_lease_changes; [done | done |]. intros r' Hr' _. by apply cancel_claimed_ok.
Qed.

Lemma complete_claimed_ok id r s clk :
  turns_wf s -> in_records s !! id = Some r ->
  body_ok no_post id r s (complete_claimed_record clk r (s <| in_records ::= delete id |>)).
Proof.
  intros Hwf Hr. unfold complete_claimed_record.
  case_bool_decide as Hs; simpl; [| by apply unchanged_ok].
  apply finish_ok; rewrite ?Hs; auto using no_failure_ok.
Qed.

Lemma fail_claimed_ok failure id r s clk :
  turns_wf s -> in_records s !! id = Some r ->
  body_ok no_post id r s (fail_claimed_record failure clk r (s <| in_records ::= delete id |>)).
Proof.
  intros Hwf Hr. unfold fail_claimed_record.
  case_bool_decide as Hs; simpl; [| by apply unchanged_ok].
  apply finish_ok; rewrite ?Hs; auto using fail_edit_ok.
Qed.

Lemma cancel_or_fail_ok failure id r s clk :
  turns_wf s -> in_records s !! id = Some r ->
  body_ok no_post id r s (cancel_or_fail_claimed_record failure clk r (s <| in_records ::= delete id |>)).
Proof.
  intros Hwf Hr. unfold cancel_or_fail_claimed_record.
  destruct (run_status r) eqn:Hs; auto using fail_claimed_ok, cancel_claimed_ok; by apply unchanged_ok.
Qed.

(** ** Parking *)

Lemma reason_status_blocked reason : turn_is_blocked (reason_status reason) = true.
Proof. by destruct reason. Qed.

Lemma park_ok checkpoint state_ref reason activity now at_ id r s :
  turns_wf s -> in_records s !! id = Some r ->
  body_ok no_post id r s (park_run checkpoint state_ref reason activity now at_ r
    (s <| in_records ::= delete id |>)).
Proof.
  intros Hwf Hr. unfold park_run. case_bool_decide as Hs; [| by apply unchanged_ok].
  start_moving Hwf Hr. assert (run_status r2 = reason_status reason) as Hst by done.
  assert (turn_is_terminal (reason_status reason) = false) as Ht by by destruct reason.
  assert (lease_wf r2) as Hl by (unfold lease_wf; rewrite Hst; by destruct reason). clearbody r2.
  split; cbn; rewrite ?Hid, ?Hst, ?Ht; routine r.
  - rewrite Hs. by destruct reason.
  - eexists. split; [by apply (update_follows _ r _ now Hst) | reflexivity].
  - rewrite decide_False by by destruct reason. simpl.
    rewrite (queue_without s id r Hwf Hr); [done | by rewrite Hs].
  - by destruct reason.
  - done.
Qed.

Lemma block_run_changes c checkpoint state_ref reason clk s :
  turns_wf s -> changes s (block_run c checkpoint state_ref reason clk s).2.
Proof. intros Hwf. apply with_lease_changes; [done |]. intros r Hr _. by apply park_ok. Qed.

Lemma apply_mapping_ok mapping clk id r s :
  turns_wf s -> in_records s !! id = Some r ->
  body_ok no_post id r s (apply_mapping mapping clk r (s <| in_records ::= delete id |>)).
Proof.
  intros Hwf Hr. destruct mapping as [[] |]; simpl;
    auto using complete_claimed_ok, cancel_or_fail_ok, park_ok, fail_claimed_ok.
Qed.

Lemma apply_validated_loop_exit_changes c mapping clk s :
  turns_wf s -> changes s (apply_validated_loop_exit c mapping clk s).2.
Proof.
  intros Hwf. unfold apply_validated_loop_exit. destruct (with_lease _ _ _ _) as [result s'] eqn:Hw.
  apply commit_after; [done |]. change s' with (result, s').2. rewrite <- Hw.
  apply with_lease_changes; [done |]. intros r Hr _. by apply apply_mapping_ok.
Qed.

Lemma record_runner_failure_changes c failure clk s :
  turns_wf s -> changes s (record_runner_failure c failure clk s).2.
Proof.
  intros Hwf. unfold record_runner_failure. destruct (with_lease _ _ _ _) as [result s'] eqn:Hw.
  apply commit_after; [done |]. change s' with (result, s').2. rewrite <- Hw.
  apply with_lease_changes; [done |]. intros r Hr _. by apply cancel_or_fail_ok.
Qed.

(** ** Heartbeats and routes *)

(** The run keeps its status, its lease and its slot. *)
Lemma kept_moved id r r' s s' f :
  turns_wf s -> in_records s !! id = Some r -> holds_running_slot (run_status r) = true ->
  run_static r' = run_static r -> run_status r' = run_status r ->
  run_runner_id r' = run_runner_id r -> run_lease_token r' = run_lease_token r ->
  in_records s' = <[id := r']> (in_records s) ->
  lock_follows r r' f -> in_active_locks s' = on_own_lock r' f (in_active_locks s) ->
  in_queued_runs s' = in_queued_runs s -> in_terminal_runs s' = in_terminal_runs s ->
  in_admission_reservations s' = in_admission_reservations s ->
  in_concurrency s' = in_concurrency s -> in_tree_reservations s' = in_tree_reservations s ->
  in_turns s' = in_turns s -> in_limits s' = in_limits s -> log_next s s' ->
  memories s' = memories s ->
  (run_event_cursor r' <= in_cursor s' \/ run_event_cursor r' = run_event_cursor r) ->
  (catalogs_wf s -> catalogs_wf s') -> moved id r r' s s'.
Proof.
  intros Hwf Hr Hslot Hst Heq Hrun Htok Hrec Hf Hlock Hq Ht Ha Hl Htree Hturn Hlim Hlog Hmem Hcur Hcat.
  pose proof (wf_lease _ Hwf _ _ Hr) as Hlease. unfold lease_wf in Hlease. rewrite Hslot in Hlease.
  assert (turn_is_terminal (run_status r) = false) as Hlive by by destruct (run_status r).
  assert (run_status r <> TurnQueued) as Hnq by by destruct (run_status r).
  split; rewrite ?Heq, ?Hlive, ?app_nil_r; try done.
  - by destruct (run_status r).
  - eauto.
  - rewrite decide_False, Hq by done. simpl. by rewrite (queue_without s id r Hwf Hr).
  - rewrite Hl. unfold limiter_after, cell_transition. by rewrite Heq, Hslot.
  - by rewrite Hslot.
  - unfold lease_wf. by rewrite Heq, Hslot, Hrun, Htok.
Qed.

Lemma own_lock_same r locks : on_own_lock r (fun lock => Some lock) locks = locks.
Proof.
  unfold on_own_lock. destruct (locks !! run_scope r) as [lock |] eqn:Hl; [| done].
  case_decide; [| done]. by rewrite insert_id.
Qed.

Lemma heartbeat_changes c clk s : turns_wf s -> changes s (heartbeat c clk s).2.
Proof.
  intros Hwf. apply with_lease_changes; [done |]. intros r Hr Hslot.
  case_bool_decide as Hs; [| by apply unchanged_ok]. cbv beta iota zeta delta [negb].
  start_moving Hwf Hr. assert (run_status r2 = run_status r) as Hst by done.
  assert (run_runner_id r2 = run_runner_id r) as Hrun by done.
  assert (run_lease_token r2 = run_lease_token r) as Htok by done. clearbody r2.
  eapply kept_moved; cbn; rewrite ?Hid; try routine r; try done.
  apply touch_follows; [by rewrite Hs | done].
Qed.

Lemma record_model_route_snapshot_changes c snapshot clk s :
  turns_wf s -> changes s (record_model_route_snapshot c snapshot clk s).2.
Proof.
  intros Hwf. apply with_lease_changes; [done |]. intros r Hr Hslot.
  case_bool_decide as Hs; [| by apply unchanged_ok]. cbv beta iota zeta delta [negb].
  destruct (route_validate snapshot); [| by apply unchanged_ok].
  destruct (run_resolved_model_route r); [case_decide; by apply unchanged_ok |].
  start_moving Hwf Hr. assert (run_status r2 = run_status r) as Hst by done.
  assert (run_runner_id r2 = run_runner_id r) as Hrun by done.
  assert (run_lease_token r2 = run_lease_token r) as Htok by done. clearbody r2.
  eapply kept_moved; cbn; rewrite ?Hid; try routine r; try done; [| by right].
  apply touch_follows; [by rewrite Hs | done].
Qed.

Lemma overlay_changes overlaid s : turns_wf s -> changes s (overlay_runner_lease_record overlaid s).2.
Proof.
  intros Hwf. unfold overlay_runner_lease_record.
  destruct (in_records s !! pr_run_id overlaid) as [r |] eqn:Hr; [| constructor].
  destruct (holds_running_slot (run_status r)) eqn:Hs; [cbn [negb orb] | constructor].
  destruct (_ || _); [constructor |].
  destruct (match run_last_heartbeat_at r with Some _ => _ | None => _ end); [constructor |].
  cbn. set (r2 := set_run_lease_expires_at _ _).
  apply changes_one, (by_move _ _ (pr_run_id overlaid) r r2).
  apply (kept_moved _ _ _ _ _ (fun lock => Some lock)); try done.
  - assert (turn_is_terminal (run_status r) = false) as Hlive by by destruct (run_status r).
    by intros lock Hl.
  - by rewrite own_lock_same.
  - by right.
  - by right.
Qed.

(** ** Relinquishing *)

Lemma body_ok_post {T} (post post' : Result T TurnError -> Inner -> Inner) id r s out :
  body_ok post id r s out -> (forall s', post' out.1.1 s' = post out.1.1 s') -> body_ok post' id r s out.
Proof. intros [[Ho Hp] | Hm] Heq; [left | right]; by rewrite Heq. Qed.

Lemma finish_result status edit kind reason detail clk r s : edit_ok edit ->
  exists state, rst_status state = status
    /\ (finish_run status edit kind reason detail clk r s).1.1 = Ok state.
Proof.
  intros He. destruct (He (r <| run_status := status |>)) as [_ Hst]. eexists. split; [| reflexivity].
  exact Hst.
Qed.

Definition requeue_post (id : TurnRunId) (result : Result TurnRunState TurnError) (s : Inner) : Inner :=
  match result with
  | Ok state => if decide (rst_status state = TurnQueued)
                then s <| in_queued_runs ::= fun queue => queue ++ [id] |> else s
  | Err _ => s
  end.

Lemma requeue_ok id r s clk :
  turns_wf s -> in_records s !! id = Some r -> run_status r = TurnRunning ->
  body_ok (requeue_post id) id r s (requeue_run clk r (s <| in_records ::= delete id |>)).
Proof.
  intros Hwf Hr Hs. unfold requeue_run. start_moving Hwf Hr.
  assert (run_status r2 = TurnQueued) as Hst by done.
  assert (lease_wf r2) as Hl by done. clearbody r2.
  assert (requeue_post id (Ok (run_state r2)) = fun s => s <| in_queued_runs ::= fun queue => queue ++ [id] |>) as Hp.
  { unfold requeue_post. assert (rst_status (run_state r2) = TurnQueued) as -> by done. done. }
  rewrite Hp. split; cbn; rewrite ?Hid, ?Hst; routine r.
  - by rewrite Hs.
  - eexists. split; [by apply (update_follows _ r _ (clk 0%nat) Hst) | reflexivity].
  - rewrite (queue_without s id r Hwf Hr) by by rewrite Hs. by rewrite Permutation_app_comm.
  - by rewrite app_nil_r.
  - done.
  - done.
Qed.

Lemma relinquish_run_changes c clk s : turns_wf s -> changes s (relinquish_run c clk s).2.
Proof.
  intros Hwf. unfold relinquish_run. destruct (with_lease _ _ _ _) as [result s1] eqn:Hw.
  apply commit_after; [done |].
  change (changes s (requeue_post (lc_run_id c) (result, s1).1 (result, s1).2)). rewrite <- Hw.
  apply with_lease_post; [done | done |]. intros r Hr Hslot. unfold relinquish_body.
  apply slot_cases in Hslot as [Hs | Hs]; rewrite Hs; [by apply requeue_ok |].
  apply (body_ok_post no_post); [by apply finish_cancel_ok |]. intros s'. unfold requeue_post, no_post.
  destruct (finish_result TurnCancelled no_failure EvCancelled None None clk r
    (s <| in_records ::= delete (lc_run_id c) |>) no_failure_ok) as (state & Hst & ->).
  by rewrite decide_False by congruence.
Qed.

(** ** Lease recovery *)

Lemma expire_ok id r s clk :
  turns_wf s -> in_records s !! id = Some r -> holds_running_slot (run_status r) = true ->
  body_ok no_post id r s (expire_run clk r (s <| in_records ::= delete id |>)).
Proof.
  intros Hwf Hr Hs. unfold expire_run.
  apply slot_cases in Hs as [Hs | Hs]; apply finish_ok; rewrite ?Hs; auto using terminal_edit_ok.
Qed.

(** The expiry of one run leaves the others. *)
Lemma expire_elsewhere id id' clk s : turns_wf s -> id' <> id ->
  in_records (with_record id (expire_run clk) s).2 !! id' = in_records s !! id'.
Proof.
  intros Hwf Hne. unfold with_record. destruct (in_records s !! id) as [r |] eqn:Hr; [| done].
  unfold expire_run, finish_run, status_set, next_cursor. cbn.
  match goal with |- <[?i := _]> _ !! _ = _ => assert (i = id) as Hi end.
  { rewrite <- (wf_key s Hwf _ _ Hr). unfold drop_lease, terminal_edit. cbn. by case_decide. }
  rewrite Hi. rewrite lookup_insert_ne by done. by rewrite lookup_delete_ne.
Qed.

Lemma recover_loop_changes ids clk s :
  turns_wf s -> NoDup ids ->
  (forall id r, id ∈ ids -> in_records s !! id = Some r -> holds_running_slot (run_status r) = true) ->
  changes s (recover_loop ids clk s).2.
Proof.
  revert clk s. induction ids as [| id ids IH]; intros clk s Hwf Hn Hs; [constructor |].
  apply NoDup_cons in Hn as [Hni Hn]. simpl.
  assert (changes s (with_record id (expire_run (clk 0%nat)) s).2) as Hc.
  { apply with_record_changes; [done |]. intros r Hr. apply expire_ok; [done | done |].
    eapply Hs; [apply list_elem_of_here | done]. }
  assert (forall id', id' ∈ ids -> in_records (with_record id (expire_run (clk 0%nat)) s).2 !! id'
    = in_records s !! id') as Hsame.
  { intros id' Hin. apply expire_elsewhere; [done | by intros ->]. }
  destruct (with_record _ _ _) as [result s1]. cbn in *.
  specialize (IH (fun i => clk (S i)) s1). destruct (recover_loop _ _ _) as [recovered s2]. cbn in *.
  etrans; [exact Hc |]. apply IH; [by eapply wf_changes | done |]. intros id' r Hin Hr.
  rewrite (Hsame _ Hin) in Hr. eapply Hs; [by apply list_elem_of_further | done].
Qed.

Lemma filter_fst_NoDup {A B} (f : A * B -> bool) l : NoDup l.*1 -> NoDup (List.filter f l).*1.
Proof.
  induction l as [| [a b] l IH]; simpl; [done |]. rewrite NoDup_cons. intros [Hni Hn].
  destruct (f (a, b)); simpl; [| by apply IH]. apply NoDup_cons. split; [| by apply IH].
  intros Hin. apply Hni. apply list_elem_of_fmap in Hin as ([a' b'] & -> & Hin).
  apply list_elem_of_In, filter_In in Hin as [Hin _]. apply list_elem_of_fmap.
  exists (a', b'). by rewrite list_elem_of_In.
Qed.

Lemma recover_expired_leases_changes q_now scope_filter clk s :
  turns_wf s -> changes s (recover_expired_leases q_now scope_filter clk s).2.
Proof.
  intros Hwf. unfold recover_expired_leases. apply prune_after; [done |].
  apply recover_loop_changes; [done | apply filter_fst_NoDup, NoDup_fst_map_to_list |].
  intros id r (p & -> & Hin)%list_elem_of_fmap Hr.
  apply list_elem_of_In, filter_In in Hin as [Hin Hx]. destruct p as [id' r'].
  apply list_elem_of_In, elem_of_map_to_list in Hin. cbn in *. rewrite Hin in Hr.
  injection Hr as <-. unfold lease_expired in Hx. by destruct (holds_running_slot _).
Qed.

End facts.


Section claims.
Context `{TurnPayload} `{Platform}.

(** ** The pass over the queue *)

(** A queued run may be claimed: it is in the scope asked for, and below the caps. *)
Definition eligible (scope_filter : option TurnScope) (s : Inner) (id : TurnRunId) : bool :=
  match in_records s !! id with
  | Some r => match scope_filter with
              | None => true | Some scope => bool_decide (scope = run_scope r)
              end && can_claim (in_concurrency s) (slot_info_for r)
  | None => false
  end.

Section pass.
Context (scope_filter : option TurnScope) (s : Inner).

Lemma pop_skips skipped rest n :
  (forall id, id ∈ skipped -> queued s id) ->
  (forall id, id ∈ skipped -> eligible scope_filter s id = false) ->
  pop_loop (length skipped + n) scope_filter s (skipped ++ rest)
  = pop_loop n scope_filter s (rest ++ skipped).
Proof.
  revert rest. induction skipped as [| id skipped IH]; intros rest Hq He; [by rewrite app_nil_r |].
  destruct (Hq id (list_elem_of_here _ _)) as (r & Hr & Hst).
  pose proof (He id (list_elem_of_here _ _)) as Hid. unfold eligible in Hid. rewrite Hr in Hid.
  cbn. rewrite Hr, decide_True, Hid by done.
  rewrite <- app_assoc. replace (rest ++ id :: skipped) with ((rest ++ [id]) ++ skipped) by by rewrite <- app_assoc.
  apply IH; intros id' Hin; [apply Hq | apply He]; by apply list_elem_of_further.
Qed.

(** Nothing is eligible: the queue comes back as it was. *)
Lemma pop_none queue :
  (forall id, id ∈ queue -> queued s id) ->
  (forall id, id ∈ queue -> eligible scope_filter s id = false) ->
  pop_loop (length queue) scope_filter s queue = (None, queue).
Proof.
  intros Hq He. pose proof (pop_skips queue [] 0 Hq He) as Hp.
  by rewrite app_nil_r, Nat.add_0_r in Hp.
Qed.

(** The first eligible run. *)
Lemma pop_first skipped id rest :
  (forall id', id' ∈ skipped ++ id :: rest -> queued s id') ->
  (forall id', id' ∈ skipped -> eligible scope_filter s id' = false) ->
  eligible scope_filter s id = true ->
  pop_loop (length (skipped ++ id :: rest)) scope_filter s (skipped ++ id :: rest)
  = (Some id, rest ++ skipped).
Proof.
  intros Hq He Hid. rewrite length_app, pop_skips; [| | done].
  - destruct (Hq id) as (r & Hr & Hst); [apply elem_of_app; right; apply list_elem_of_here |].
    unfold eligible in Hid. rewrite Hr in Hid. cbn. by rewrite Hr, decide_True, Hid by done.
  - intros id' Hin. apply Hq, elem_of_app. by left.
Qed.

Lemma split_first {A} (f : A -> bool) (l : list A) :
  (forall x, x ∈ l -> f x = false)
  \/ exists before x after, l = before ++ x :: after /\ f x = true /\ forall y, y ∈ before -> f y = false.
Proof.
  induction l as [| x l IH]; [left; by intros x ?%elem_of_nil |].
  destruct (f x) eqn:Hx.
  - right. exists [], x, l. split_and!; [done | done | by intros y ?%elem_of_nil].
  - destruct IH as [Hall | (before & y & after & -> & Hy & Hb)].
    + left. intros y [-> | Hin]%elem_of_cons; auto.
    + right. exists (x :: before), y, after. split_and!; [done | done |].
      intros z [-> | Hin]%elem_of_cons; auto.
Qed.
End pass.

(** What a pass over the queue does. *)
Lemma pop_cases scope_filter s : turns_wf s ->
  (pop_matching_queued_run scope_filter s = (None, s)
   /\ forall id, id ∈ in_queued_runs s -> eligible scope_filter s id = false)
  \/ exists before id after, in_queued_runs s = before ++ id :: after
       /\ (forall id', id' ∈ before -> eligible scope_filter s id' = false)
       /\ eligible scope_filter s id = true
       /\ pop_matching_queued_run scope_filter s
          = (Some id, s <| in_queued_runs := after ++ before |>).
Proof.
  intros Hwf. assert (forall id, id ∈ in_queued_runs s -> queued s id) as Hq by apply (wf_queue s Hwf).
  unfold pop_matching_queued_run.
  destruct (split_first (eligible scope_filter s) (in_queued_runs s)) as [He | (before & id & after & Hl & Hid & Hb)].
  - left. split; [| done]. rewrite pop_none by done. f_equal. by destruct s.
  - right. exists before, id, after. split_and!; [done | done | done |].
    rewrite Hl in Hq |- *. by rewrite pop_first.
Qed.
(** ** Claims *)

Lemma with_record_run {T} id (body : TurnRun -> Inner -> Result T TurnError * TurnRun * Inner) s r
    result r' s' :
  in_records s !! id = Some r -> body r (s <| in_records ::= delete id |>) = (result, r', s') ->
  with_record id body s = (result, s' <| in_records ::= insert (run_id r') r' |>).
Proof. intros Hr Hb. unfold with_record. by rewrite Hr, Hb. Qed.

Lemma filter_out (l : list TurnRunId) id : id ∉ l ->
  List.filter (fun queued => negb (queued =? id)) l = l.
Proof.
  induction l as [| x l IH]; simpl; [done |]. intros [Hne Hni]%not_elem_of_cons.
  destruct (N.eqb_spec x id); [congruence |]. simpl. by rewrite IH.
Qed.

Lemma filter_one (before after : list TurnRunId) id : NoDup (before ++ id :: after) ->
  List.filter (fun queued => negb (queued =? id)) (before ++ id :: after) = before ++ after.
Proof.
  intros (Hb & Hd & [Hni Ha]%NoDup_cons)%NoDup_app. rewrite List.filter_app. simpl.
  rewrite N.eqb_refl. simpl. rewrite !filter_out; [done | done |].
  intros Hin. apply (Hd id Hin). apply list_elem_of_here.
Qed.

Lemma claim_moved runner token scope_filter clk s id before after r :
  turns_wf s -> in_queued_runs s = before ++ id :: after -> in_records s !! id = Some r ->
  eligible scope_filter s id = true ->
  pop_matching_queued_run scope_filter s = (Some id, s <| in_queued_runs := after ++ before |>) ->
  exists r', moved id r r' s (claim_matching_queued_run runner token scope_filter clk s).2.
Proof.
  intros Hwf Hq Hr He Hpop. unfold claim_matching_queued_run. rewrite Hpop.
  pose proof (own_id _ _ _ Hwf Hr) as Hrid.
  assert (run_status r = TurnQueued) as Hs.
  { assert (queued s id) as (r0 & Hr0 & Hst); [| congruence].
    apply (wf_queue s Hwf). rewrite Hq. apply elem_of_app. right. apply list_elem_of_here. }
  erewrite with_record_run; [| exact Hr | cbn; reflexivity].
  match goal with |- context [insert (run_id ?x) ?x] => set (r2 := x) in *; exists r2 end.
  assert (run_static r2 = run_static r) as Hstatic by reflexivity.
  assert (run_id r2 = id) as Hid by exact Hrid.
  assert (run_event_cursor r2 = sat_add64 (in_cursor s) 1) as Hcursor by reflexivity.
  assert (run_status r2 = TurnRunning) as Hst by done.
  assert (lease_wf r2) as Hl by (unfold lease_wf; rewrite Hst; split; by eexists). clearbody r2.
  split; cbn; rewrite ?Hid, ?Hst, ?app_nil_r; routine r.
  - by rewrite Hs.
  - eexists. split; [by apply (update_follows _ r _ (clk 0%nat) Hst) | reflexivity].
  - pose proof (wf_queue_nodup s Hwf) as Hn. rewrite Hq in Hn |- *. rewrite filter_one by done.
    by rewrite Permutation_app_comm.
  - intros _ _. unfold eligible in He. rewrite Hr in He. by apply andb_prop in He as [_ He].
  - done.
Qed.

Lemma claim_matching_changes runner token scope_filter clk s :
  turns_wf s -> changes s (claim_matching_queued_run runner token scope_filter clk s).2.
Proof.
  intros Hwf. destruct (pop_cases scope_filter s Hwf) as [[Hp _] | (before & id & after & Hq & _ & He & Hp)].
  - unfold claim_matching_queued_run. rewrite Hp. constructor.
  - assert (queued s id) as (r & Hr & _).
    { apply (wf_queue s Hwf). rewrite Hq. apply elem_of_app. right. apply list_elem_of_here. }
    destruct (claim_moved runner token scope_filter clk s id before after r Hwf Hq Hr He Hp) as [r' Hm].
    by apply changes_one, (by_move _ _ id r r').
Qed.

Lemma claim_next_runs_changes runner scope_filter turns s :
  turns_wf s -> changes s (claim_next_runs runner scope_filter turns s).2.
Proof.
  revert s. induction turns as [| [token clk] turns IH]; intros s Hwf; [constructor |]. simpl.
  pose proof (claim_matching_changes runner token scope_filter clk s Hwf) as Hc.
  destruct (claim_matching_queued_run _ _ _ _ _) as [[[claimed |] | e] s']; [| done | done]. cbn in Hc.
  specialize (IH s' (wf_changes _ _ Hwf Hc)). destruct (claim_next_runs _ _ _ _) as [[claims | e] s''];
    by etrans.
Qed.

(** ** Resumption *)

Lemma resumed_from p status :
  match required_status p with Some required => bool_decide (status = required) | None => any_resumable status end
  = true -> turn_is_blocked status = true.
Proof. destruct p; cbn; destruct status; try done; by case_bool_decide. Qed.

Lemma resume_changes q clk s : turns_wf s -> changes s (resume_turn_once q clk s).2.
Proof.
  intros Hwf. apply with_record_changes; [done |]. intros r Hr.
  case_bool_decide as Hsc; [cbn [negb] | by apply unchanged_ok].
  destruct (match required_status _ with Some _ => _ | None => _ end) eqn:Hreq;
    cbn [negb]; [| by apply unchanged_ok].
  case_bool_decide as Ha; [cbn [negb] | by apply unchanged_ok].
  case_bool_decide as Hg; [cbn [negb] | by apply unchanged_ok].
  apply resumed_from in Hreq. pose proof (wf_lease _ Hwf _ _ Hr) as Hlr. unfold lease_wf in Hlr.
  start_moving Hwf Hr. assert (run_status r2 = TurnQueued) as Hst by done.
  assert (lease_wf r2) as Hl by (unfold lease_wf; rewrite Hst; destruct (run_status r); done). 
  clearbody r2. split; cbn; rewrite ?Hid, ?Hst, ?app_nil_r; routine r.
  - by destruct (run_status r).
  - eexists. split; [by apply (update_follows _ r _ (clk 0%nat) Hst) | reflexivity].
  - rewrite (own_id _ _ _ Hwf Hr), (queue_without s _ r Hwf Hr); [by rewrite Permutation_app_comm |].
    intros Hs. by rewrite Hs in Hreq.
  - unfold limiter_after, cell_transition. rewrite Hst. by destruct (run_status r).
  - done.
  - done.
Qed.

Lemma on_own_lock_static r r' f locks : run_static r' = run_static r ->
  on_own_lock r' f locks = on_own_lock r f locks.
Proof.
  unfold run_static. intros Hst. assert (run_scope r' = run_scope r) as Hs by congruence.
  assert (run_id r' = run_id r) as Hi by congruence. unfold on_own_lock. by rewrite Hs, Hi.
Qed.

Lemma request_cancel_once_changes q clk s : turns_wf s -> changes s (request_cancel_once q clk s).2.
Proof.
  intros Hwf. unfold request_cancel_once. destruct (in_records s !! cq_run_id q) as [r0 |] eqn:Hr0; [| constructor].
  apply prune_after, with_record_changes; [done | done |]. intros r Hr.
  case_bool_decide as Hsc; [cbn [negb] | by apply unchanged_ok].
  case_bool_decide as Ha; [cbn [negb] | by apply unchanged_ok].
  destruct (turn_is_terminal (run_status r)) eqn:Ht; [by apply unchanged_ok |].
  destruct (cancel_target (run_status r)) as [[next kind] |] eqn:Hc; [| by apply unchanged_ok].
  assert ((next = TurnCancelled /\ holds_running_slot (run_status r) = false
           \/ next = TurnCancelRequested /\ holds_running_slot (run_status r) = true)
    /\ status_move (run_status r) next = true) as [Hn Hmove].
  { destruct (run_status r); simplify_eq/=; auto. }
  destruct Hn as [[-> Hslot] | [-> Hslot]].
  - cbn [turn_is_terminal]. start_moving Hwf Hr. assert (run_status r2 = TurnCancelled) as Hst by done.
    assert (lease_wf r2) as Hl. { pose proof (wf_lease _ Hwf _ _ Hr) as Hl. unfold lease_wf in *. by rewrite Hslot in Hl. }
    clearbody r2. split; cbn; rewrite ?Hid, ?Hst, ?app_nil_r; routine r.
    + exists (fun _ => None). split; [by apply release_follows; rewrite Hst |].
      etrans; [by apply (on_own_lock_static r) |]. symmetry. by apply on_own_lock_static.
    + by rewrite (own_id _ _ _ Hwf Hr).
    + by rewrite (own_id _ _ _ Hwf Hr).
    + by rewrite (own_id _ _ _ Hwf Hr).
    + unfold limiter_after, cell_transition. by rewrite Hst, Hslot.
    + done.
    + done.
  - start_moving Hwf Hr. assert (run_status r2 = TurnCancelRequested) as Hst by done.
    assert (lease_wf r2) as Hl. { pose proof (wf_lease _ Hwf _ _ Hr) as Hl. unfold lease_wf in *. by rewrite Hslot in Hl. }
    clearbody r2. split; cbn; rewrite ?Hid, ?Hst, ?app_nil_r; routine r.
    + eexists. split; [by apply (update_follows _ r _ (clk 0%nat) Hst) |].
      etrans; [by apply (on_own_lock_static r) |]. symmetry. by apply on_own_lock_static.
    + rewrite (queue_without s _ r Hwf Hr); [done |]. intros Hs. by rewrite Hs in Hslot.
    + unfold limiter_after, cell_transition. by rewrite Hst, Hslot.
    + by rewrite Hslot.
    + done.
Qed.
End claims.
