(* ===== verification/TurnSubmits.v ===== *)
(** * Submissions, retries and spawn trees keep the invariant

    What only touches memories and claims is a frame ([framed]); a new run is [created]
    from the store prepared for it ([prepared]); reservations of descendants are
    [tree_set] and [tree_cleared]. *)

From S2P Require Import Prelude Collections Ids Platform HostApi Capability Obligations Turns TurnLimiter TurnEvents TurnStore TurnOps TurnRunner TurnWf TurnMoves TurnOpsFacts.
From Stdlib Require Import Lia.
Local Open Scope N_scope.
Local Open Scope record_scope.

Ltac frame := split; [untouched | reflexivity | reflexivity].

Section submits.
Context `{TurnPayload} `{Platform}.

(** ** What leaves the runs alone *)

(** A new reply enters a memory: the oldest leave when there are too many. *)
Lemma remember_reply_wf {K V} `{Countable K} max key (reply : V) order (replies : gmap K V) order' replies' removed :
  memory_wf max order replies ->
  remember_reply max key reply (order, replies) = (order', replies', removed) ->
  memory_wf max order' replies'
  /\ (forall k, k <> key -> replies' !! k = replies !! k \/ replies' !! k = None)
  /\ (0 < max -> replies' !! key = Some reply).
Proof.
  intros [Ho Hsize]. unfold remember_reply. intros Hp.
  pose proof (ordered_length _ _ Ho) as Hlo. pose proof (ordered_insert order replies key reply Ho) as Hoi.
  destruct (prune_ordered_map_spec _ _ _ _ _ _ Hoi Hp) as (Ho' & Happ & Hsz & Hlook & Hlen).
  split; [done | split].
  { intros k Hne. rewrite Hlook.
    destruct (decide (k ∈ removed)); [by right | left; by rewrite lookup_insert_ne]. }
  intros Hmax. assert (key ∈ order') as Hin.
  { revert Happ Hlen. destruct (decide (is_Some (replies !! key))) as [Hs | Hs].
    - rewrite map_size_insert_Some by done. intros Happ Hlen.
      assert (removed = []) as -> by (apply nil_length_inv; lia). simpl in Happ. rewrite <- Happ. by apply Ho.
    - rewrite map_size_insert_None by by apply eq_None_not_Some. intros Happ Hlen.
      assert ((removed ++ order') !! length order = Some key) as Hl.
      { rewrite <- Happ, lookup_app_r by done. by rewrite Nat.sub_diag. }
      rewrite lookup_app_r in Hl by lia. by eapply list_elem_of_lookup_2. }
  apply Ho' in Hin as [v Hv]. rewrite Hv. rewrite Hlook, lookup_insert_eq in Hv.
  by destruct (decide (key ∈ removed)).
Qed.

Record framed (s s' : Inner) : Prop := {
  fr_runs : same_runs s s';
  fr_terminal : in_terminal_runs s' = in_terminal_runs s;
  fr_tree : in_tree_reservations s' = in_tree_reservations s;
}.

Lemma framed_refl s : framed s s.
Proof. frame. Qed.

Lemma framed_trans s1 s2 s3 : framed s1 s2 -> framed s2 s3 -> framed s1 s3.
Proof.
  intros [[? ? ? ? ? ? ? (? & ? & ?) ?] ? ?] [[? ? ? ? ? ? ? (? & ? & ?) ?] ? ?].
  split; [split | |]; unfold quiet; split_and?; first [congruence | auto].
Qed.

Lemma framed_changes s s' : turns_wf s -> framed s s' -> replies_kept s s' -> changes s s'.
Proof. intros Hwf [] Hk. by apply changes_frame. Qed.

Lemma changes_framed s1 s2 s3 :
  turns_wf s1 -> changes s1 s2 -> framed s2 s3 -> in_submit_idempotency s3 = in_submit_idempotency s2 ->
  changes s1 s3.
Proof.
  intros Hwf Hc Hf Heq. etrans; [exact Hc |].
  apply framed_changes; [by eapply wf_changes | done | by apply same_replies].
Qed.

(** *** The durable records of the replies *)

#[local] Instance persisted_submit_inj : Inj (=) (=) persisted_submit_key.
Proof. intros [] [] [=]. by subst. Qed.
#[local] Instance persisted_run_inj op : Inj (=) (=) (persisted_run_key op).
Proof. intros [] [] [=]. by subst. Qed.

Definition forget_keys (keys : list PersistedIdempotencyKey)
    (records : gmap PersistedIdempotencyKey TurnIdempotencyRecord) :=
  fold_left (fun m k => delete k m) keys records.

Lemma forget_keys_lookup keys records k r :
  forget_keys keys records !! k = Some r -> (k ∉ keys) /\ records !! k = Some r.
Proof.
  revert records. induction keys as [| k0 keys IH]; intros records; simpl.
  - intros Hr. split; [apply not_elem_of_nil | done].
  - intros Hr. destruct (IH _ Hr) as [Hni [Hne Hr']%lookup_delete_Some].
    split; [| done]. rewrite elem_of_cons. naive_solver.
Qed.

Lemma prune_records_lookup max order (records : gmap PersistedIdempotencyKey TurnIdempotencyRecord) k r :
  (prune_ordered_map max order records).1.2 !! k = Some r -> records !! k = Some r.
Proof.
  unfold prune_ordered_map. destruct (prune_oldest max order records) as [[order' m'] removed] eqn:Hp. cbn.
  revert records order' m' removed Hp. induction order as [| k0 order IH]; intros records order' m' removed; simpl.
  - by destruct (_ <=? _); intros [= <- <- <-].
  - destruct (_ <=? _); [by intros [= <- <- <-] |].
    destruct (prune_oldest max order (delete k0 records)) as [[o1 m1] r1] eqn:Hp.
    intros [= <- <- <-] Hr. by apply (IH _ _ _ _ Hp), lookup_delete_Some in Hr as [_ Hr].
Qed.

(** Records that only leave keep what is filed. *)
Lemma filed_fewer {K T} `{Countable K} (persisted : K -> _) replay (replies : gmap K (Result T TurnError))
    records records' :
  (forall k r, records' !! persisted k = Some r -> records !! persisted k = Some r) ->
  filed_replies persisted replay replies records -> filed_replies persisted replay replies records'.
Proof. intros Hsub Hf k r reply Hr. by apply Hf, Hsub. Qed.

(** A reply enters its memory together with its record, and leaves it with its record. *)
Lemma filed_remembered {K T} `{Countable K} (persisted : K -> PersistedIdempotencyKey) `{!Inj (=) (=) persisted}
    replay max k0 (known : Result T TurnError) rec order replies order' replies' removed records :
  memory_wf max order replies ->
  remember_reply max k0 known (order, replies) = (order', replies', removed) ->
  (forall reply, replay rec = Some reply -> outcome_kept known reply) ->
  filed_replies persisted replay replies records ->
  filed_replies persisted replay replies' (forget_keys (persisted <$> removed) (<[persisted k0 := rec]> records)).
Proof.
  intros [Ho _] Hp Hrec Hf k r reply [Hni Hr]%forget_keys_lookup Hreply. unfold remember_reply in Hp.
  destruct (prune_ordered_map_spec _ _ _ _ _ _ (ordered_insert order replies k0 known Ho) Hp)
    as (_ & _ & _ & Hlook & _).
  rewrite Hlook, decide_False by (intros Hin; by apply Hni, list_elem_of_fmap_2).
  destruct (decide (k = k0)) as [-> | Hne].
  - rewrite lookup_insert_eq in Hr. injection Hr as <-. exists known. rewrite lookup_insert_eq. auto.
  - rewrite lookup_insert_ne in Hr by (intros Heq; by apply (inj persisted) in Heq).
    rewrite lookup_insert_ne by done. by apply (Hf k r).
Qed.

Lemma keys_entered rec records : filed_by_key records -> filed_by_key (<[persisted_key_for_record rec := rec]> records).
Proof.
  intros Hk k r Hr. destruct (decide (k = persisted_key_for_record rec)) as [-> | Hne].
  - rewrite lookup_insert_eq in Hr. by injection Hr as <-.
  - rewrite lookup_insert_ne in Hr by done. by apply Hk.
Qed.

Lemma prune_idempotency_framed s : framed s (prune_idempotency_records s).
Proof.
  unfold prune_idempotency_records. destruct (prune_ordered_map _ _ _) as [[order records] removed] eqn:Hp.
  pose proof (prune_records_lookup (N.min (4 * tsl_max_idempotency_records (in_limits s)) u64_max)
    (in_idempotency_record_order s) (in_idempotency_records s)) as Hsub. rewrite Hp in Hsub. cbn in Hsub.
  split; [split | |]; try reflexivity; [by repeat split | | exact (fun Hc => Hc)].
  intros [? ? ? ? Hk Hs Hr Hy Hc]. split; cbn; try assumption.
  - intros k r Hl. by apply Hk, Hsub.
  - eapply filed_fewer; [| exact Hs]. eauto.
  - eapply filed_fewer; [| exact Hr]. eauto.
  - eapply filed_fewer; [| exact Hy]. eauto.
  - eapply filed_fewer; [| exact Hc]. eauto.
Qed.

(** A record of another operation is in the way of none of these. *)
Lemma filed_other {K K' T} `{Countable K} (persisted : K -> PersistedIdempotencyKey)
    (persisted' : K' -> PersistedIdempotencyKey) replay (replies : gmap K (Result T TurnError)) k0 rec removed records :
  (forall k k', persisted k <> persisted' k') ->
  filed_replies persisted replay replies records ->
  filed_replies persisted replay replies (forget_keys (persisted' <$> removed) (<[persisted' k0 := rec]> records)).
Proof.
  intros Hne. apply filed_fewer. intros k r [_ Hr]%forget_keys_lookup.
  rewrite lookup_insert_ne in Hr; [done |]. intros Heq. by apply (Hne k k0).
Qed.

Lemma keys_remembered {K} (persisted : K -> PersistedIdempotencyKey) k0 rec removed records :
  persisted_key_for_record rec = persisted k0 -> filed_by_key records ->
  filed_by_key (forget_keys (persisted <$> removed) (<[persisted k0 := rec]> records)).
Proof. intros <- Hk k r [_ Hr]%forget_keys_lookup. by apply (keys_entered rec records). Qed.

Lemma submit_record_replay key result at_ reply :
  replay_submit (submit_idempotency_record key result at_) = Some reply -> outcome_kept result reply.
Proof. by destruct result as [? | []]; cbn; intros [= <-]. Qed.
Lemma resume_record_replay key result at_ reply :
  replay_resume (resume_idempotency_record key result at_) = Some reply -> outcome_kept result reply.
Proof. by destruct result as [? | []]; cbn; intros [= <-]. Qed.
Lemma retry_record_replay key result at_ reply :
  replay_retry (retry_idempotency_record key result at_) = Some reply -> outcome_kept result reply.
Proof. by destruct result as [? | []]; cbn; intros [= <-]. Qed.
Lemma cancel_record_replay key result at_ reply :
  replay_cancel (cancel_idempotency_record key result at_) = Some reply -> outcome_kept result reply.
Proof. by destruct result as [? | []]; cbn; intros [= <-]. Qed.

Lemma submit_record_key key result at_ :
  persisted_key_for_record (submit_idempotency_record key result at_) = persisted_submit_key key.
Proof. by destruct result as [? | []]. Qed.
Lemma resume_record_key key result at_ :
  persisted_key_for_record (resume_idempotency_record key result at_) = persisted_run_key OpResume key.
Proof. by destruct result. Qed.
Lemma retry_record_key key result at_ :
  persisted_key_for_record (retry_idempotency_record key result at_) = persisted_run_key OpRetry key.
Proof. by destruct result as [? | []]. Qed.
Lemma cancel_record_key key result at_ :
  persisted_key_for_record (cancel_idempotency_record key result at_) = persisted_run_key OpCancel key.
Proof. by destruct result. Qed.

(** What a memory of replies changes, and what it keeps. *)
Ltac remembered Hp Hreplay Hkey :=
  split; [split | |]; try reflexivity; [by repeat split | | exact (fun Hc => Hc)];
  intros [Hs Hr Hy Hc Hk Hfs Hfr Hfy Hfc]; split; cbn; rewrite ?Hkey; try assumption;
  first [ refine (proj1 (remember_reply_wf _ _ _ _ _ _ _ _ _ Hp)); assumption
        | apply keys_remembered; [apply Hkey | assumption]
        | eapply filed_remembered; [apply _ | | exact Hp | apply Hreplay |]; assumption
        | apply filed_other; [by intros | assumption] ].

Lemma remember_submit_framed key result at_ s : framed s (remember_submit_idempotency key result at_ s).
Proof.
  unfold remember_submit_idempotency. destruct (remember_reply _ _ _ _) as [[? ?] ?] eqn:Hp.
  eapply framed_trans; [| apply prune_idempotency_framed]. remembered Hp submit_record_replay submit_record_key.
Qed.

Lemma remember_resume_framed key result at_ s : framed s (remember_resume_idempotency key result at_ s).
Proof.
  unfold remember_resume_idempotency. destruct (remember_reply _ _ _ _) as [[? ?] ?] eqn:Hp.
  eapply framed_trans; [| apply prune_idempotency_framed]. remembered Hp resume_record_replay resume_record_key.
Qed.

Lemma remember_cancel_framed key result at_ s : framed s (remember_cancel_idempotency key result at_ s).
Proof.
  unfold remember_cancel_idempotency. destruct (remember_reply _ _ _ _) as [[? ?] ?] eqn:Hp.
  eapply framed_trans; [| apply prune_idempotency_framed]. remembered Hp cancel_record_replay cancel_record_key.
Qed.

(** The record of a busy thread is not replayed. *)
Lemma retry_busy_framed key busy at_ s :
  framed s (remember_persisted_idempotency (retry_idempotency_record key (Err (ThreadBusyError busy)) at_) s).
Proof.
  set (rec := retry_idempotency_record key (Err (ThreadBusyError busy)) at_).
  assert (persisted_key_for_record rec = persisted_run_key OpRetry key) as Hkey by apply retry_record_key.
  assert (replay_retry rec = None) as Hnone by done. clearbody rec.
  split; [split | |]; try reflexivity; [by repeat split | | exact (fun Hc => Hc)].
  intros [? ? ? ? Hk Hfs Hfr Hfy Hfc]. split; try assumption; [by apply keys_entered | ..];
    unfold remember_persisted_idempotency; cbn [in_idempotency_records set_field set_in_idempotency_records
      set_in_idempotency_record_order in_submit_idempotency in_resume_idempotency in_retry_idempotency
      in_cancel_idempotency]; rewrite Hkey; intros k r reply Hl.
  - rewrite lookup_insert_ne in Hl by done. by apply Hfs.
  - rewrite lookup_insert_ne in Hl by done. by apply Hfr.
  - destruct (decide (k = key)) as [-> | Hne].
    + rewrite lookup_insert_eq in Hl. injection Hl as <-. by rewrite Hnone.
    + rewrite lookup_insert_ne in Hl by (by intros [=]%(inj (persisted_run_key OpRetry))). by apply Hfy.
  - rewrite lookup_insert_ne in Hl by done. by apply Hfc.
Qed.

Lemma remember_retry_framed key result at_ s : framed s (remember_retry_idempotency key result at_ s).
Proof.
  unfold remember_retry_idempotency. eapply framed_trans; [| apply prune_idempotency_framed].
  destruct (match result with Err (ThreadBusyError _) | Err (AdmissionRejected _) => true | _ => false end) eqn:Hkind.
  - destruct result as [ok | []]; try discriminate Hkind; [apply retry_busy_framed | frame].
  - assert (forall A (x y : A), match result with Err (AdmissionRejected _) => x | _ => y end = y) as H1
      by by destruct result as [ok | []].
    assert (forall A (x y : A),
      match result with Err (ThreadBusyError _) | Err (AdmissionRejected _) => x | _ => y end = y) as H2
      by by destruct result as [ok | []].
    cbv zeta. rewrite H1, H2. clear H1 H2 Hkind.
    destruct (remember_reply _ _ _ _) as [[? ?] ?] eqn:Hp. remembered Hp retry_record_replay retry_record_key.
Qed.

Lemma prune_submits s : in_submit_idempotency (prune_idempotency_records s) = in_submit_idempotency s.
Proof. unfold prune_idempotency_records. by destruct (prune_ordered_map _ _ _) as [[? ?] ?]. Qed.

Lemma remember_resume_submits key result at_ s :
  in_submit_idempotency (remember_resume_idempotency key result at_ s) = in_submit_idempotency s.
Proof. unfold remember_resume_idempotency. destruct (remember_reply _ _ _ _) as [[? ?] ?]. by rewrite prune_submits. Qed.

Lemma remember_cancel_submits key result at_ s :
  in_submit_idempotency (remember_cancel_idempotency key result at_ s) = in_submit_idempotency s.
Proof. unfold remember_cancel_idempotency. destruct (remember_reply _ _ _ _) as [[? ?] ?]. by rewrite prune_submits. Qed.

Lemma remember_retry_submits key result at_ s :
  in_submit_idempotency (remember_retry_idempotency key result at_ s) = in_submit_idempotency s.
Proof.
  unfold remember_retry_idempotency. rewrite prune_submits.
  destruct result as [| []]; try done; by destruct (remember_reply _ _ _ _) as [[? ?] ?].
Qed.

Lemma conclude_framed key reply at_ s : framed s (conclude_submit key reply at_ s).2.
Proof. eapply framed_trans; [apply remember_submit_framed |]. frame. Qed.

Lemma conclude_limits key reply at_ s : in_limits (conclude_submit key reply at_ s).2 = in_limits s.
Proof. apply (sm_limits _ _ (fr_runs _ _ (conclude_framed key reply at_ s))). Qed.

Lemma conclude_submits key reply at_ s : in_submit_idempotency (conclude_submit key reply at_ s).2 =
  (remember_reply (tsl_max_idempotency_records (in_limits s)) key reply
     (in_submit_order s, in_submit_idempotency s)).1.2.
Proof.
  transitivity (in_submit_idempotency (remember_submit_idempotency key reply at_ s)); [reflexivity |].
  unfold remember_submit_idempotency.
  lazymatch goal with |- context [remember_reply (tsl_max_idempotency_records (in_limits ?s1))] =>
    change (in_limits s1) with (in_limits s); change (in_submit_order s1) with (in_submit_order s);
    change (in_submit_idempotency s1) with (in_submit_idempotency s) end.
  destruct (remember_reply _ _ _ _) as [[order replies] removed]. by rewrite prune_submits.
Qed.

(** A new reply replaces none, and the oldest leave when the memory is full. *)
Lemma conclude_kept key reply at_ s :
  turns_wf s -> in_submit_idempotency s !! key = None -> replies_kept s (conclude_submit key reply at_ s).2.
Proof.
  intros Hwf Hnone k known Hk. unfold memory_full. rewrite conclude_limits, conclude_submits.
  destruct (remember_reply _ _ _ _) as [[order replies] removed] eqn:Hp. cbn [fst snd].
  pose proof (mem_submit _ (wf_memories s Hwf)) as [Ho _]. unfold remember_reply in Hp. cbn in Hp.
  pose proof (ordered_insert _ _ key reply Ho) as Hoi.
  destruct (prune_ordered_map_spec _ _ _ _ _ _ Hoi Hp) as (Ho' & Happ & _ & Hlook & Hlen).
  rewrite Hlook. destruct (decide (k ∈ removed)) as [Hin | Hni].
  - right. split; [done |]. apply ordered_length in Hoi, Ho'. rewrite <- Ho'. rewrite Happ, length_app in Hoi.
    destruct removed; [by apply not_elem_of_nil in Hin | cbn in *; lia].
  - left. rewrite lookup_insert_ne; [done | congruence].
Qed.

Lemma concluded_changes key reply at_ s :
  turns_wf s -> in_submit_idempotency s !! key = None -> changes s (conclude_submit key reply at_ s).2.
Proof. intros. apply framed_changes; [done | apply conclude_framed | by apply conclude_kept]. Qed.

Lemma changes_concluded s s1 key reply at_ :
  turns_wf s -> changes s s1 -> in_submit_idempotency s1 !! key = None ->
  changes s (conclude_submit key reply at_ s1).2.
Proof. intros Hwf Hc Hk. etrans; [exact Hc |]. apply concluded_changes; [by eapply wf_changes | done]. Qed.

Lemma unless_replied_changes {T} key found (body : Inner -> T * Inner) s :
  turns_wf s -> (in_submit_idempotency s !! key = None -> changes s (body s).2) ->
  changes s (unless_replied key found body s).2.
Proof.
  intros Hwf Hb. unfold unless_replied. destruct (in_submit_idempotency s !! key); [| by apply Hb].
  apply framed_changes; [done | frame | by apply same_replies].
Qed.

(** ** Submission *)

Lemma claim_submit_framed key s : framed s (claim_submit key s).2.
Proof. unfold claim_submit. destruct (_ !! key); [apply framed_refl |]. case_decide; frame. Qed.

Lemma drop_submit_guard_framed key s : framed s (drop_submit_guard key s).
Proof. frame. Qed.

Lemma reject_lineage_changes q s : turns_wf s -> changes s (reject_lineage q s).2.
Proof.
  intros Hwf. apply unless_replied_changes; [done |]. intros Hnew. by apply concluded_changes.
Qed.

Lemma admit_submit_changes key admission at_ s : turns_wf s -> changes s (admit_submit key admission at_ s).2.
Proof.
  intros Hwf. apply unless_replied_changes; [done |]. intros Hnew. destruct admission as [| rejection]; [constructor |].
  by apply concluded_changes.
Qed.

Lemma reserve_cases id class scope actor limit_for s :
  (exists rejection, reserve_admission id class scope actor limit_for s = (Some rejection, s))
  \/ reserve_admission id class scope actor limit_for s = (None, s <| in_admission_reservations ::=
       insert id {| res_run_id := id; res_admission_class := class;
                    res_buckets := admission_buckets scope actor class; res_released := false |} |>).
Proof. unfold reserve_admission. destruct (check_buckets _ _ _); eauto. Qed.

(** The store just before a new run is queued: its admission is reserved, its cursor and
    its turn taken. *)
Record prepared (r : TurnRun) (s s1 : Inner) : Prop := {
  pp_fresh : in_records s !! run_id r = None;
  pp_busy : thread_busy (run_scope r) s = None;
  pp_queued : run_status r = TurnQueued /\ lease_wf r /\ run_event_cursor r = sat_add64 (in_cursor s) 1;
  pp_admission : in_admission_reservations s1 = <[run_id r :=
    {| res_run_id := run_id r; res_admission_class := rp_admission_class (run_profile r);
       res_buckets := admission_buckets (run_scope r) (run_actor r) (rp_admission_class (run_profile r));
       res_released := false |}]> (in_admission_reservations s);
  pp_turn : exists t, in_turns s1 !! run_turn_id r = Some t /\ tr_actor t = run_actor r;
  pp_turns : forall turn, is_Some (in_turns s !! turn) -> in_turns s1 !! turn = in_turns s !! turn;
  pp_records : in_records s1 = in_records s;
  pp_locks : in_active_locks s1 = in_active_locks s;
  pp_queue : in_queued_runs s1 = in_queued_runs s;
  pp_terminal : in_terminal_runs s1 = in_terminal_runs s;
  pp_limiter : in_concurrency s1 = in_concurrency s;
  pp_tree : in_tree_reservations s1 = in_tree_reservations s;
  pp_limits : in_limits s1 = in_limits s;
  pp_log : in_cursor s1 = sat_add64 (in_cursor s) 1 /\ in_events s1 = in_events s
    /\ in_event_retention_floor s1 = in_event_retention_floor s;
  pp_memories : memories s1 = memories s;
  pp_catalogs : catalogs_wf s -> catalogs_wf s1;
}.

Lemma enqueue_created r kind at_ s s1 : prepared r s s1 -> created r s (enqueue_new r kind at_ s1).
Proof.
  intros [Hfresh Hbusy (Hst & Hl & Hcur) Ha Ht Hts Hrec Hlock Hq Hterm Hlim Htree Hlimits (Hc & He & Hf) Hmem Hcat].
  unfold enqueue_new, push_event. split; cbn; rewrite ?Hrec, ?Hlock, ?Hq, ?Hterm, ?Hlim, ?Htree, ?Hlimits; try done.
  - eauto.
  - left. eapply push_logged; cbn; rewrite ?Hc, ?He, ?Hf, ?Hlimits; [reflexivity | | reflexivity | reflexivity].
    exact Hcur.
  - rewrite Hc, Hcur. lia.
Qed.

(** A fresh turn is taken. *)
Lemma turn_taken r (turns : gmap TurnId TurnRecord) : turns !! run_turn_id r = None ->
  (exists t, <[run_turn_id r := turn_record_of r]> turns !! run_turn_id r = Some t /\ tr_actor t = run_actor r)
  /\ forall turn, is_Some (turns !! turn) ->
       <[run_turn_id r := turn_record_of r]> turns !! turn = turns !! turn.
Proof.
  intros Hn. split.
  - exists (turn_record_of r). by rewrite lookup_insert_eq.
  - intros turn [t Ht]. rewrite lookup_insert_ne; [done |]. congruence.
Qed.

Lemma catalogs_turn r (turns : gmap TurnId TurnRecord) :
  (forall turn t, turns !! turn = Some t -> tr_turn_id t = turn) ->
  forall turn t, <[run_turn_id r := turn_record_of r]> turns !! turn = Some t -> tr_turn_id t = turn.
Proof.
  intros Hc turn t Hl. destruct (decide (turn = run_turn_id r)) as [-> | Hne].
  - rewrite lookup_insert_eq in Hl. by injection Hl as <-.
  - rewrite lookup_insert_ne in Hl by done. by apply Hc.
Qed.

Lemma commit_submit_changes limit_for q resolution fresh clk s :
  turns_wf s -> in_turns s !! fresh_turn fresh = None ->
  changes s (commit_submit limit_for q resolution fresh clk s).2.
Proof.
  intros Hwf Hfresh. apply unless_replied_changes; [done |]. intros Hnew.
  destruct resolution as [resolved | e]; [| by apply concluded_changes].
  destruct (thread_busy (sr_scope q) s) eqn:Hbusy; [apply framed_changes; [done | frame | by apply same_replies] |].
  cbn zeta. set (id := default (fresh_run fresh) (sr_requested_run_id q)).
  destruct (in_records s !! id) eqn:Hid; [by apply concluded_changes |].
  destruct (reserve_cases id (rp_admission_class (from_resolved resolved)) (sr_scope q) (sr_actor q) limit_for s)
    as [[rejection ->] | ->]; [by apply concluded_changes |].
  apply changes_concluded; [done | | exact Hnew]. apply changes_one.
  unfold next_cursor. cbn. set (r := queued_run _ _ _ _ _ _ _ _ _ _ _ _ _ _ _).
  apply (by_creation _ _ r), enqueue_created. destruct (turn_taken r (in_turns s) Hfresh) as [Ht Hts].
  split; try done. intros [Hturns Hcps]. split; [by apply (catalogs_turn r) | done].
Qed.

(** ** Spawn trees *)

Lemma envelope_key scope scope' root : same_scope_envelope scope scope' = true ->
  tree_key_new scope' root = tree_key_new scope root.
Proof.
  unfold same_scope_envelope, tree_key_new. rewrite !andb_true_iff, !bool_decide_eq_true.
  intros [[-> ->] ->]. done.
Qed.

(** A reservation of the tree whose root is [root_id] is set. *)
Lemma tree_set_changes scope root root_id state s :
  turns_wf s -> in_records s !! root_id = Some root -> same_scope_envelope (run_scope root) scope = true ->
  0 < tree_count state ->
  changes s (s <| in_tree_reservations ::= insert (tree_key_new scope root_id) state |>).
Proof.
  intros Hwf Hr He Hc. apply changes_one, by_bookkeeping; [untouched | by apply same_replies |].
  apply (wf_same_runs _ _ Hwf); cbn; [untouched | apply Hwf | apply Hwf | |].
  - intros id Hid. destruct (wf_terminal_kept _ Hwf _ Hid) as [Hin | (key & t & Hk & Heq)]; [by left | right].
    exists key. destruct (decide (key = tree_key_new scope root_id)) as [-> | Hne].
    + exists state. by rewrite lookup_insert_eq.
    + exists t. by rewrite lookup_insert_ne.
  - intros key t. destruct (decide (key = tree_key_new scope root_id)) as [-> | Hne].
    + rewrite lookup_insert_eq. intros [= <-]. split; [done |]. exists root. split; [done |].
      by apply envelope_key.
    + rewrite lookup_insert_ne by done. apply (wf_tree _ Hwf).
Qed.

Lemma tree_next_pos count delta cap next : 0 < delta -> tree_next count delta cap = Some next -> 0 < next.
Proof.
  unfold tree_next, checked_add. intros Hd. destruct (_ <=? _); [| done]. destruct (_ <=? _); [| done].
  intros [= <-]. lia.
Qed.

Lemma reserve_tree_changes scope root_id delta cap s :
  turns_wf s -> changes s (reserve_tree_descendants scope root_id delta cap s).2.
Proof.
  intros Hwf. unfold reserve_tree_descendants. destruct (N.eqb_spec delta 0) as [| Hd]; [constructor |].
  destruct (in_records s !! root_id) as [root |] eqn:Hr; [| constructor].
  destruct (same_scope_envelope _ _) eqn:He; [| constructor]. cbn [negb].
  destruct (N.eqb_spec (spawn_root root) (run_id root)) as [Hroot |]; [| constructor]. cbn [negb].
  destruct (tree_next _ _ _) as [next |] eqn:Hn; [| constructor]. cbn.
  rewrite Hroot, (wf_key s Hwf _ _ Hr). apply (tree_set_changes _ root); [done | done | done |]. simpl.
  eapply tree_next_pos; [| exact Hn]. lia.
Qed.

Lemma prune_released_child_changes scope root_id child s :
  turns_wf s -> changes s (prune_released_child scope root_id child s).2.
Proof.
  intros Hwf. unfold prune_released_child. destruct (in_records s !! root_id) as [root |]; [| constructor].
  destruct (same_scope_envelope _ _); [| constructor]. cbn [negb].
  destruct (in_tree_reservations s !! _) as [state |] eqn:Hk; [| constructor].
  destruct (wf_tree _ Hwf _ _ Hk) as [Hc (r & Hr & Hkey)]. cbn in *.
  set (key := tree_key_new scope (spawn_root root)) in *.
  set (state' := {| tree_count := _; tree_released_children := _ |}).
  replace key with (tree_key_new (run_scope r) (spawn_root root)) by done.
  apply (tree_set_changes _ r); [done | done | | done].
  unfold same_scope_envelope. by rewrite !bool_decide_true.
Qed.
(** The last reservation of a tree goes. *)
Section settle.
Context (scope : TurnScope) (root_id : TurnRunId) (root : TurnRun) (s : Inner).
Hypothesis (Hwf : turns_wf s) (Hroot : in_records s !! root_id = Some root).
Hypothesis (He : same_scope_envelope (run_scope root) scope = true).

Definition tree_dropped : Inner := s <| in_tree_reservations ::= delete (tree_key_new scope root_id) |>.

(** The tree of a root has one key. *)
Lemma tree_of_root key t : in_tree_reservations s !! key = Some t ->
  sk_root_run_id key = root_id -> key = tree_key_new scope root_id.
Proof using Hwf Hroot He.
  intros Hk <-. destruct (wf_tree _ Hwf _ _ Hk) as [_ (r & Hr & Hkey)].
  rewrite Hroot in Hr. injection Hr as <-. rewrite Hkey at 1. symmetry. by apply envelope_key.
Qed.

Lemma tree_dropped_wf terminal :
  NoDup terminal -> (forall id, id ∈ terminal -> run_is_terminal id s = true) ->
  (forall id, run_is_terminal id s = true -> id ∈ in_terminal_runs s \/ id = root_id -> id ∈ terminal) ->
  turns_wf (tree_dropped <| in_terminal_runs := terminal |>).
Proof using Hwf Hroot He.
  intros Hn Ht Hk. apply (wf_same_runs _ _ Hwf); cbn; [untouched | done | done | |].
  - intros id Hid. destruct (wf_terminal_kept _ Hwf _ Hid) as [Hin | (key & t & Hkey & Heq)].
    + left. auto.
    + destruct (decide (key = tree_key_new scope root_id)) as [-> | Hne].
      * left. apply Hk; [done |]. by right.
      * right. exists key, t. by rewrite lookup_delete_ne.
  - intros key t [_ Hkey]%lookup_delete_Some. by apply (wf_tree _ Hwf).
Qed.

Lemma tree_dropped_changes :
  (run_is_terminal root_id s = true -> root_id ∈ in_terminal_runs s) -> changes s tree_dropped.
Proof using Hwf Hroot He.
  intros Hk. apply changes_one, by_bookkeeping; [untouched | by apply same_replies |].
  apply (tree_dropped_wf (in_terminal_runs s)); [apply Hwf | apply Hwf |].
  intros id Hid [| ->]; [done | by apply Hk].
Qed.

Lemma root_removed : run_is_terminal root_id s = true -> root_id ∉ in_terminal_runs s ->
  removed root_id s (tree_dropped <| in_records ::= delete root_id |>
                       <| in_admission_reservations ::= delete root_id |>).
Proof using Hwf Hroot He.
  intros Ht Hni. unfold tree_dropped. split; cbn; try done.
  - split; [apply Hwf |]. intros x. split; [| tauto]. intros Hx. split; [done |]. congruence.
  - intros key. case_decide as Hd.
    + destruct (in_tree_reservations s !! key) as [t |] eqn:Hk; [| by rewrite lookup_delete_None; right].
      rewrite (tree_of_root _ _ Hk Hd). apply lookup_delete_eq.
    + rewrite lookup_delete_ne; [done |]. intros <-. by apply Hd.
Qed.

Lemma settle_changes : changes s (settle_released_root root_id tree_dropped).
Proof using Hwf Hroot He.
  unfold settle_released_root.
  change (run_is_terminal root_id tree_dropped) with (run_is_terminal root_id s).
  change (in_terminal_runs tree_dropped) with (in_terminal_runs s).
  change (in_limits tree_dropped) with (in_limits s).
  assert (existsb (N.eqb root_id) (in_terminal_runs s) = true <-> root_id ∈ in_terminal_runs s) as Hin.
  { rewrite existsb_exists. split.
    - intros (x & Hx & ->%N.eqb_eq). by apply list_elem_of_In.
    - intros Hx. exists root_id. split; [by apply list_elem_of_In | apply N.eqb_refl]. }
  destruct (run_is_terminal root_id s) eqn:Ht, (existsb _ _) eqn:Hx; cbn [andb negb].
  1, 3, 4: apply tree_dropped_changes; intros Hx'; first [by apply Hin | congruence].
  assert (root_id ∉ in_terminal_runs s) as Hni by (rewrite <- Hin; congruence).
  destruct (_ <=? _); [by apply changes_one, (by_removal _ _ root_id), root_removed |].
  set (s1 := tree_dropped <| in_terminal_runs ::= _ |>).
  assert (turns_wf s1) as Hwf1.
  { apply (tree_dropped_wf (in_terminal_runs s ++ [root_id])).
    - apply NoDup_app. split; [apply Hwf | split; [| apply NoDup_singleton]].
      intros x Hx1 ->%list_elem_of_singleton. done.
    - intros id [Hid | ->%list_elem_of_singleton]%elem_of_app; [by apply (wf_terminal _ Hwf) | done].
    - intros id _ [Hid | ->]; apply elem_of_app; [by left | right]. by apply list_elem_of_singleton. }
  etrans; [| by apply prune_changes]. apply changes_one, by_bookkeeping; [untouched | by apply same_replies | done].
Qed.
End settle.

Lemma release_tree_changes scope root_id delta child s :
  turns_wf s -> changes s (release_tree_descendants scope root_id delta child s).2.
Proof.
  intros Hwf. unfold release_tree_descendants.
  destruct (in_records s !! root_id) as [root |] eqn:Hr; [| constructor].
  destruct (same_scope_envelope _ _) eqn:He; [| constructor]. cbn [negb].
  destruct (N.eqb_spec (spawn_root root) (run_id root)) as [Hroot |]; [| constructor]. cbn [negb].
  rewrite Hroot, (wf_key s Hwf _ _ Hr).
  destruct (in_tree_reservations s !! _) as [state |] eqn:Hk; [| constructor].
  case_decide; [constructor |]. destruct (N.ltb_spec (tree_count state) delta); [constructor |].
  cbn zeta. destruct (N.eqb_spec (tree_count state - delta) 0) as [Hz | Hz]; cbn [snd].
  - by apply (settle_changes scope root_id root).
  - apply (tree_set_changes _ root); [done | done | done |]. simpl. lia.
Qed.
(** ** Child submission *)

Lemma child_template_changes q s : turns_wf s -> changes s (child_template q s).2.
Proof.
  intros Hwf. apply unless_replied_changes; [done |]. intros Hnew. destruct (check_parent q s); [constructor |].
  by apply concluded_changes.
Qed.

(** A refused admission puts the tree back. *)
Lemma tree_restored key next s : turns_wf s ->
  let previous := tree_state key s in
  let s1 := s <| in_tree_reservations ::= insert key next |> in
  framed s (if tree_count previous =? 0 then s1 <| in_tree_reservations ::= delete key |>
            else s1 <| in_tree_reservations ::= insert key previous |>).
Proof.
  intros Hwf. cbn zeta. unfold tree_state. destruct (in_tree_reservations s !! key) as [t |] eqn:Hk; simpl.
  - pose proof (proj1 (wf_tree _ Hwf _ _ Hk)) as Hpos. destruct (N.eqb_spec (tree_count t) 0); [lia |].
    split; [untouched | done |]. cbn. by rewrite insert_insert_eq, insert_id.
  - split; [untouched | done |]. cbn. by rewrite delete_insert_id.
Qed.

Lemma check_root_some parent child_scope s root : check_root parent child_scope s = Ok root ->
  in_records s !! spawn_root parent = Some root
  /\ same_scope_envelope (run_scope root) child_scope = true.
Proof.
  unfold check_root. destruct (in_records s !! _) as [root' |]; [| done].
  destruct (same_scope_envelope _ _) eqn:He; [| done]. simpl. destruct (_ =? _); [| done]. by intros [= <-].
Qed.

Lemma commit_child_changes limit_for q resolution fresh clk s :
  turns_wf s -> in_turns s !! fresh_turn fresh = None ->
  changes s (commit_child limit_for q resolution fresh clk s).2.
Proof.
  intros Hwf Hfresh. apply unless_replied_changes; [done |]. intros Hnew.
  destruct resolution as [resolved | e]; [| by apply concluded_changes].
  destruct (check_parent q s) as [parent |]; [| by apply concluded_changes].
  destruct (check_root parent (cr_child_scope q) s) as [root |] eqn:Hroot;
    [| by apply concluded_changes].
  destruct (thread_busy (cr_child_scope q) s) eqn:Hbusy; [apply framed_changes; [done | frame | by apply same_replies] |].
  cbn zeta. set (id := default (fresh_run fresh) (cr_requested_run_id q)).
  destruct (in_records s !! id) eqn:Hid; [by apply concluded_changes |].
  destruct (tree_next _ _ _) as [next |] eqn:Hnext; [| by apply concluded_changes].
  apply check_root_some in Hroot as [Hroot He].
  set (s1 := s <| in_tree_reservations ::= _ |>).
  destruct (reserve_cases id (rp_admission_class (from_resolved resolved)) (cr_child_scope q) (cr_actor q)
    limit_for s1) as [[rejection ->] | ->].
  { cbn [snd]. apply changes_concluded; [done | | by destruct (_ =? _)].
    apply framed_changes; [done | by apply tree_restored | apply same_replies; by destruct (_ =? _)]. }
  apply changes_concluded; [done | | exact Hnew].
  assert (changes s s1) as Hs1.
  { apply (tree_set_changes _ root); [done | done | done |]. simpl. by apply (tree_next_pos _ 1 _ _ ltac:(lia) Hnext). }
  etrans; [exact Hs1 |]. apply changes_one.
  unfold next_cursor. cbn. set (r := queued_run _ _ _ _ _ _ _ _ _ _ _ _ _ _ _).
  apply (by_creation _ _ r), enqueue_created. destruct (turn_taken r (in_turns s) Hfresh) as [Ht Hts].
  split; try done. intros [Hturns Hcps]. split; [by apply (catalogs_turn r) | done].
Qed.

(** ** Retry *)

Lemma draw_unused draws s id : draw_run_id draws s = Some id -> in_records s !! id = None.
Proof.
  intros Hd. apply find_some in Hd as [_ Hd]. destruct (in_records s !! id); [| done].
  by rewrite bool_decide_true in Hd.
Qed.

Lemma retry_once_changes limit_for q draws checkpoint clk s out :
  turns_wf s -> retry_turn_once limit_for q draws checkpoint clk s = Some out -> changes s out.2.
Proof.
  intros Hwf. unfold retry_turn_once.
  destruct (in_records s !! ry_run_id q) as [failed |] eqn:Hf; [| intros [= <-]; constructor].
  case_bool_decide; cbn [negb]; [| intros [= <-]; constructor].
  case_bool_decide; cbn [negb]; [| intros [= <-]; constructor].
  destruct (_ || _); [intros [= <-]; constructor |].
  destruct (run_checkpoint_id failed) as [source_id |]; [| intros [= <-]; constructor].
  destruct (retryable_loop_checkpoint _ _ _) as [source |]; [| intros [= <-]; constructor].
  destruct (thread_busy _ _) eqn:Hbusy; [intros [= <-]; constructor |].
  destruct (draw_run_id draws s) as [id |] eqn:Hid; [| done]. apply draw_unused in Hid.
  destruct (reserve_cases id (rp_admission_class (run_profile failed)) (run_scope failed) (run_actor failed)
    limit_for s) as [[rejection ->] | ->]; [intros [= <-]; constructor |].
  unfold next_cursor. cbn zeta. intros [= <-]. cbn [snd]. apply changes_one.
  set (r := queued_run _ _ _ _ _ _ _ _ _ _ _ _ _ _ _).
  apply (by_creation _ _ r), enqueue_created. destruct (wf_turn s Hwf _ _ Hf) as (t & Ht & Ha).
  split; try done; [by exists t |]. intros [Hturns Hcps]. split; [done |]. intros id' c. cbn.
  destruct (decide (id' = checkpoint)) as [-> | Hne].
  - rewrite lookup_insert_eq. by intros [= <-].
  - rewrite lookup_insert_ne by done. apply Hcps.
Qed.

Lemma retry_turn_changes limit_for q draws checkpoint clk s out :
  turns_wf s -> retry_turn limit_for q draws checkpoint clk s = Some out -> changes s out.2.
Proof.
  intros Hwf. unfold retry_turn. destruct (_ !! _); [intros [= <-]; constructor |].
  destruct (retry_turn_once _ _ _ _ _ _) as [[result s'] |] eqn:Hr; [| done]. simpl. intros [= <-].
  eapply changes_framed; [done | | apply remember_retry_framed | apply remember_retry_submits].
  by apply (retry_once_changes _ _ _ _ _ _ _ Hwf Hr).
Qed.

(** ** Resumption, cancellation, checkpoints *)

Lemma resume_turn_changes q clk s : turns_wf s -> changes s (resume_turn q clk s).2.
Proof.
  intros Hwf. unfold resume_turn. destruct (_ !! _); [constructor |].
  pose proof (resume_changes q clk s Hwf) as Hc. destruct (resume_turn_once q clk s) as [result s'].
  eapply changes_framed; [done | exact Hc | apply remember_resume_framed | apply remember_resume_submits].
Qed.

Lemma request_cancel_changes q clk s : turns_wf s -> changes s (request_cancel q clk s).2.
Proof.
  intros Hwf. unfold request_cancel. destruct (_ !! _); [constructor |].
  pose proof (request_cancel_once_changes q clk s Hwf) as Hc.
  destruct (request_cancel_once q clk s) as [result s'].
  eapply changes_framed; [done | exact Hc | apply remember_cancel_framed | apply remember_cancel_submits].
Qed.

Lemma put_loop_checkpoint_changes q fresh clk s :
  turns_wf s -> changes s (put_loop_checkpoint q fresh clk s).2.
Proof.
  intros Hwf. apply framed_changes; [done | | by apply same_replies]. split; [split | |]; try reflexivity; [by repeat split | |].
  - apply memories_same; reflexivity.
  - intros [Hturns Hcps]. split; [done |]. intros id' c. cbn. destruct (decide (id' = fresh)) as [-> | Hne].
    + rewrite lookup_insert_eq. by intros [= <-].
    + rewrite lookup_insert_ne by done. apply Hcps.
Qed.
End submits.
