(* ===== verification/TurnCalls.v ===== *)
(** * The turn store as a shared object

    Every region under the store's mutex is one call; [submit_turn] and
    [submit_child_turn] are programs of several such calls, with the admission policy and
    the profile resolver asked between them.  Any number of tasks, interleaved call by
    call, keep the store's invariant. *)

From stdpp Require Import relations.
From S2P Require Import Prelude Ids Platform HostApi Capability Obligations Programs Collections Turns TurnLimiter TurnEvents TurnStore TurnOps TurnRunner TurnSnapshot TurnWf TurnRestore TurnMoves TurnOpsFacts TurnSubmits.
From Stdlib Require Import Lia.
Local Open Scope N_scope.
Local Open Scope record_scope.

Section calls.
Context `{TurnPayload} `{Platform}.

Abbreviation TResult T := (Result T TurnError).

(** ** Calls *)

Inductive TurnCall :=
  (* of a submission *)
  | ClaimSubmit (key : SubmitIdempotencyKey)
  | DropSubmitGuard (key : SubmitIdempotencyKey)
  | RejectLineage (q : SubmitTurnRequest)
  | ChildTemplate (q : SubmitChildRunRequest)
  | CheckSubmit (q : SubmitTurnRequest)
  | AdmitSubmit (key : SubmitIdempotencyKey) (admission : Result unit AdmissionRejection)
      (received_at : TurnTimestamp)
  | ResolveProfile (requested : option RunProfileRequest)
  | CommitSubmit (q : SubmitTurnRequest) (resolution : Result ResolvedRunProfile RunProfileResolutionError)
  | CommitChild (q : SubmitChildRunRequest) (resolution : Result ResolvedRunProfile RunProfileResolutionError)
  (* of the other methods, one each *)
  | ResumeTurn (q : ResumeTurnRequest)
  | RetryTurn (q : RetryTurnRequest)
  | RequestCancel (q : CancelRunRequest)
  | PutLoopCheckpoint (q : PutLoopCheckpointRequest)
  | ReserveTree (scope : TurnScope) (root : TurnRunId) (delta cap : N)
  | ReleaseTree (scope : TurnScope) (root : TurnRunId) (delta : N) (child : TurnRunId)
  | PruneReleasedChild (scope : TurnScope) (root child : TurnRunId)
  | ReadStore (T : Type) (read : Inner -> T)
  (* of the runner *)
  | ClaimNextRun (runner : TurnRunnerId) (token : TurnLeaseToken) (scope_filter : option TurnScope)
  | ClaimNextRuns (runner : TurnRunnerId) (scope_filter : option TurnScope) (max_runs : nat)
  | Heartbeat (c : LeaseClaim)
  | RecordModelRoute (c : LeaseClaim) (snapshot : LoopModelRouteSnapshot)
  | OverlayLease (overlaid : TurnRunRecord)
  | BlockRun (c : LeaseClaim) (checkpoint : TurnCheckpointId) (state_ref : LoopCheckpointStateRef)
      (reason : BlockedReason)
  | CompleteRun (c : LeaseClaim)
  | CancelRun (c : LeaseClaim)
  | FailRun (c : LeaseClaim) (failure : SanitizedFailure)
  | RunnerFailure (c : LeaseClaim) (failure : SanitizedFailure)
  | RelinquishRun (c : LeaseClaim)
  | ApplyLoopExit (c : LeaseClaim) (mapping : LoopExitMapping)
  | RecoverExpired (q_now : TurnTimestamp) (scope_filter : option TurnScope).

Definition TurnAnswer (c : TurnCall) : Type :=
  match c with
  | ClaimSubmit _ => option (TResult SubmitTurnResponse)
  | DropSubmitGuard _ => unit
  | RejectLineage _ | CommitSubmit _ _ | CommitChild _ _ => TResult SubmitTurnResponse
  | ChildTemplate _ => (TResult SubmitTurnResponse + SubmitTurnRequest)%type
  | CheckSubmit _ => Result unit AdmissionRejection
  | AdmitSubmit _ _ _ => option (TResult SubmitTurnResponse)
  | ResolveProfile _ => Result ResolvedRunProfile RunProfileResolutionError
  | ResumeTurn _ => TResult ResumeTurnResponse
  | RetryTurn _ => TResult RetryTurnResponse
  | RequestCancel _ => TResult CancelRunResponse
  | PutLoopCheckpoint _ => TResult LoopCheckpointRecord
  | ReserveTree _ _ _ _ => TResult SpawnTreeReservation
  | ReleaseTree _ _ _ _ | PruneReleasedChild _ _ _ | OverlayLease _ => TResult unit
  | ReadStore T _ => T
  | ClaimNextRun _ _ _ => TResult (option ClaimedTurnRun)
  | ClaimNextRuns _ _ _ => TResult (list ClaimedTurnRun)
  | Heartbeat _ => TResult EventCursor
  | RecordModelRoute _ _ | BlockRun _ _ _ _ | CompleteRun _ | CancelRun _ | FailRun _ _
  | RunnerFailure _ _ | RelinquishRun _ | ApplyLoopExit _ _ => TResult TurnRunState
  | RecoverExpired _ _ => list TurnRunState
  end.

(** A turn's id is drawn by [TurnId::new] and not in use. *)
Definition fresh_turn_for (s : Inner) (fresh : FreshIds) : Prop := in_turns s !! fresh_turn fresh = None.

(** What a call may be answered, and the store after it: the regions' functions, at some
    readings of the clock and some fresh ids.  A claim of a key in flight is answered once
    it no longer is; the policy and the resolver are free. *)
Definition turn_answers (limit_for : LimitProvider) (c : TurnCall) (s : Inner) :
    TurnAnswer c -> Inner -> Prop :=
  match c return TurnAnswer c -> Inner -> Prop with
  | ClaimSubmit key => fun a s' => claim_submit key s =
      (match a with Some reply => SubmitReplay reply | None => SubmitClaimed end, s')
  | DropSubmitGuard key => fun _ s' => s' = drop_submit_guard key s
  | RejectLineage q => fun a s' => reject_lineage q s = (a, s')
  | ChildTemplate q => fun a s' => child_template q s = (a, s')
  | AdmitSubmit key admission at_ => fun a s' => admit_submit key admission at_ s = (a, s')
  | CommitSubmit q resolution => fun a s' => exists fresh clk, fresh_turn_for s fresh
      /\ commit_submit limit_for q resolution fresh clk s = (a, s')
  | CommitChild q resolution => fun a s' => exists fresh clk, fresh_turn_for s fresh
      /\ commit_child limit_for q resolution fresh clk s = (a, s')
  | ResumeTurn q => fun a s' => exists clk, resume_turn q clk s = (a, s')
  | RetryTurn q => fun a s' => exists draws checkpoint clk,
      retry_turn limit_for q draws checkpoint clk s = Some (a, s')
  | RequestCancel q => fun a s' => exists clk, request_cancel q clk s = (a, s')
  | PutLoopCheckpoint q => fun a s' => exists fresh clk, put_loop_checkpoint q fresh clk s = (a, s')
  | ReserveTree scope root delta cap => fun a s' => reserve_tree_descendants scope root delta cap s = (a, s')
  | ReleaseTree scope root delta child => fun a s' => release_tree_descendants scope root delta child s = (a, s')
  | PruneReleasedChild scope root child => fun a s' => prune_released_child scope root child s = (a, s')
  | ReadStore T read => fun a s' => a = read s /\ s' = s
  | CheckSubmit _ | ResolveProfile _ => fun _ s' => s' = s
  | ClaimNextRun runner token scope_filter => fun a s' => exists clk,
      claim_matching_queued_run runner token scope_filter clk s = (a, s')
  | ClaimNextRuns runner scope_filter max_runs => fun a s' => exists turns, length turns = max_runs
      /\ claim_next_runs runner scope_filter turns s = (a, s')
  | Heartbeat c => fun a s' => exists clk, heartbeat c clk s = (a, s')
  | RecordModelRoute c snapshot => fun a s' => exists clk,
      record_model_route_snapshot c snapshot clk s = (a, s')
  | OverlayLease overlaid => fun a s' => overlay_runner_lease_record overlaid s = (a, s')
  | BlockRun c checkpoint state_ref reason => fun a s' => exists clk,
      block_run c checkpoint state_ref reason clk s = (a, s')
  | CompleteRun c => fun a s' => exists clk, complete_run c clk s = (a, s')
  | CancelRun c => fun a s' => exists clk, cancel_run c clk s = (a, s')
  | FailRun c failure => fun a s' => exists clk, fail_run c failure clk s = (a, s')
  | RunnerFailure c failure => fun a s' => exists clk, record_runner_failure c failure clk s = (a, s')
  | RelinquishRun c => fun a s' => exists clk, relinquish_run c clk s = (a, s')
  | ApplyLoopExit c mapping => fun a s' => exists clk, apply_validated_loop_exit c mapping clk s = (a, s')
  | RecoverExpired q_now scope_filter => fun a s' => exists clk,
      recover_expired_leases q_now scope_filter clk s = (a, s')
  end.

(** Every call is a sequence of changes. *)
Lemma answered {T} s (out : T * Inner) a s' : out = (a, s') -> changes s out.2 -> changes s s'.
Proof. by intros ->. Qed.

Lemma call_changes limit_for c s a s' : turns_wf s -> turn_answers limit_for c s a s' -> changes s s'.
Proof.
  intros Hwf Ha. destruct c; simpl in Ha;
    repeat match type of Ha with
      | ex _ => destruct Ha as [? Ha] | fresh_turn_for _ _ /\ _ => destruct Ha as [? Ha]
      | length _ = _ /\ _ => destruct Ha as [? Ha] end;
    try (refine (answered _ _ _ _ Ha _); clear Ha).
  - apply framed_changes; [done | apply claim_submit_framed | apply same_replies].
    unfold claim_submit. destruct (_ !! key); [done |]. by case_decide.
  - subst s'. apply framed_changes; [done | apply drop_submit_guard_framed | by apply same_replies].
  - by apply reject_lineage_changes.
  - by apply child_template_changes.
  - subst s'. constructor.
  - by apply admit_submit_changes.
  - subst s'. constructor.
  - by apply commit_submit_changes.
  - by apply commit_child_changes.
  - by apply resume_turn_changes.
  - by apply (retry_turn_changes _ _ _ _ _ _ _ Hwf Ha).
  - by apply request_cancel_changes.
  - by apply put_loop_checkpoint_changes.
  - by apply reserve_tree_changes.
  - by apply release_tree_changes.
  - by apply prune_released_child_changes.
  - destruct Ha as [_ ->]. constructor.
  - by apply claim_matching_changes.
  - by apply claim_next_runs_changes.
  - by apply heartbeat_changes.
  - by apply record_model_route_snapshot_changes.
  - by apply overlay_changes.
  - by apply block_run_changes.
  - by apply complete_run_changes.
  - by apply cancel_run_changes.
  - by apply fail_run_changes.
  - by apply record_runner_failure_changes.
  - by apply relinquish_run_changes.
  - by apply apply_validated_loop_exit_changes.
  - by apply recover_expired_leases_changes.
Qed.
(** ** Programs *)

Abbreviation TurnProg R := (Prog (C := TurnCall) TurnAnswer R).

(** The claim is given up when the guard is dropped. *)
Definition submit_guarded (key : SubmitIdempotencyKey) (p : TurnProg (TResult SubmitTurnResponse)) :
    TurnProg (TResult SubmitTurnResponse) :=
  prog_bind p (fun reply => Ask (DropSubmitGuard key) (fun _ => Ret reply)).

(** From the policy's answer to the commit. *)
Definition admitted_submit (key : SubmitIdempotencyKey) (q : SubmitTurnRequest)
    (commit : Result ResolvedRunProfile RunProfileResolutionError ->
              TurnProg (TResult SubmitTurnResponse)) : TurnProg (TResult SubmitTurnResponse) :=
  Ask (CheckSubmit q) (fun admission =>
  Ask (AdmitSubmit key admission (sr_received_at q)) (fun early =>
    match early with
    | Some reply => Ret reply
    | None => Ask (ResolveProfile (sr_requested_run_profile q)) commit
    end)).

Definition submit_turn (q : SubmitTurnRequest) : TurnProg (TResult SubmitTurnResponse) :=
  let key := submit_key (sr_scope q) (sr_idempotency_key q) in
  Ask (ClaimSubmit key) (fun claim =>
    match claim with
    | Some reply => Ret reply
    | None => submit_guarded key
        (if has_lineage q then ask (RejectLineage q)
         else admitted_submit key q (fun resolution => ask (CommitSubmit q resolution)))
    end).

Definition submit_child_turn (q : SubmitChildRunRequest) : TurnProg (TResult SubmitTurnResponse) :=
  let key := submit_key (cr_child_scope q) (cr_idempotency_key q) in
  Ask (ClaimSubmit key) (fun claim =>
    match claim with
    | Some reply => Ret reply
    | None => submit_guarded key (Ask (ChildTemplate q) (fun template =>
        match template with
        | inl reply => Ret reply
        | inr template => admitted_submit key template (fun resolution => ask (CommitChild q resolution))
        end))
    end).

(** What a task does: submits, or any other method. *)
Inductive TurnTask :=
  | Submits (q : SubmitTurnRequest)
  | SubmitsChild (q : SubmitChildRunRequest)
  | Calls (c : TurnCall).

Definition task_program (t : TurnTask) : TurnProg unit :=
  match t with
  | Submits q => prog_map (fun _ => tt) (submit_turn q)
  | SubmitsChild q => prog_map (fun _ => tt) (submit_child_turn q)
  | Calls c => Ask c (fun _ => Ret tt)
  end.

Abbreviation turn_step limit_for :=
  (pool_step (R := unit) (turn_answers limit_for) (fun _ _ => False)).

(** The store after any number of steps of any tasks. *)
Lemma pool_changes limit_for pool pool' :
  turns_wf (pool_world pool) -> rtc (turn_step limit_for) pool pool' ->
  changes (pool_world pool) (pool_world pool').
Proof.
  intros Hwf Hrun. induction Hrun as [x | x y z Hstep _ IH]; [constructor |].
  destruct Hstep as [i c k h a threads w w' _ Ha | threads w w' []]; cbn in *.
  pose proof (call_changes _ _ _ _ _ Hwf Ha) as Hc. etrans; [exact Hc |].
  apply IH. by eapply wf_changes.
Qed.

(** A store reached from an empty one by any tasks and any restarts.  A restart reads a
    snapshot back, its entries in any order, under the same limits; the cursor has not
    used up its 64 bits. *)
Inductive reachable (limit_for : LimitProvider) : Inner -> Prop :=
  | store_new limits : caps_wf (tsl_concurrency limits) -> reachable limit_for (inner_with_limits limits)
  | store_run tasks threads s s' :
      reachable limit_for s ->
      rtc (turn_step limit_for) (pool_of (task_program <$> tasks) s)
        {| pool_threads := threads; pool_world := s' |} ->
      reachable limit_for s'
  | store_restarted s p s' :
      reachable limit_for s -> in_cursor s < u64_max ->
      same_entries p (persistence_snapshot s) -> from_persistence_snapshot p (in_limits s) = Ok s' ->
      reachable limit_for s'.

Lemma reachable_wf limit_for s : reachable limit_for s -> turns_wf s.
Proof.
  induction 1 as [limits Hcaps | tasks threads s s' _ Hwf Hrun | s p s' _ Hwf Hlt Hp Hload].
  - by apply turns_wf_init.
  - eapply wf_changes; [exact Hwf |].
    exact (pool_changes limit_for (pool_of (task_program <$> tasks) s) _ Hwf Hrun).
  - destruct (restore_total s p Hwf Hp Hlt) as (s1 & Hload1 & _ & Hwf1). rewrite Hload in Hload1.
    by injection Hload1 as ->.
Qed.

(** A submission is at most six calls of the store, the policy and the resolver. *)
Lemma submit_guarded_within n key p : within n p -> within (n + 1) (submit_guarded key p).
Proof. intros Hp. by apply within_bind. Qed.

Lemma submit_turn_within q : within 6 (submit_turn q).
Proof.
  intros [reply |]; [exact I |]. apply (submit_guarded_within 4).
  destruct (has_lineage q); [by intros ? |]. by intros admission [reply |].
Qed.

Lemma submit_child_turn_within q : within 7 (submit_child_turn q).
Proof.
  intros [reply |]; [exact I |]. apply (submit_guarded_within 5).
  intros [reply | template]; [exact I |]. by intros admission [reply |].
Qed.
End calls.
