(* ===== verification/TurnSafety.v ===== *)
(** * What the turn store promises: threads, runs, slots

    Statements about every store that any interleaving of tasks reaches
    ([TurnCalls.reachable]); last, where the store does something else than it says. *)

From stdpp Require Import relations sorting.
From S2P Require Import Prelude Ids Platform HostApi Capability Obligations Programs Collections Turns TurnLimiter TurnEvents TurnStore TurnOps TurnRunner TurnSnapshot TurnWf TurnRestore TurnMoves TurnOpsFacts TurnSubmits TurnCalls.
From Stdlib Require Import Lia.
Local Open Scope N_scope.
Local Open Scope record_scope.

Section safety.
Context `{TurnPayload} `{Platform}.
Context (limit_for : LimitProvider).

(** A run that still goes on. *)
Definition live_run (s : Inner) (id : TurnRunId) (r : TurnRun) : Prop :=
  in_records s !! id = Some r /\ turn_is_terminal (run_status r) = false.

(** [C6] One run per owned thread.  Whatever submissions, child submissions, resumptions,
    retries, cancellations, claims, transitions and lease recoveries run interleaved: a
    scope, that is a thread of a tenant, agent and project together with its owner, has at
    most one run that has not ended, and exactly the scopes with such a run have a lock,
    which names the run and shows its status.  The owner is part of the key (two owners
    run one thread at a time, [TurnDemo.owners_share_thread]), and a run whose lease
    expires has ended ([no_recovery_required], [TurnDemo.expired_lease_frees_thread]). *)
Theorem one_run_per_thread s :
  reachable limit_for s ->
  (forall id1 r1 id2 r2, live_run s id1 r1 -> live_run s id2 r2 -> run_scope r1 = run_scope r2 -> id1 = id2)
  /\ (forall scope, is_Some (in_active_locks s !! scope) <-> exists id r, live_run s id r /\ run_scope r = scope)
  /\ (forall id r lock, live_run s id r -> in_active_locks s !! run_scope r = Some lock ->
        al_run_id lock = id /\ al_status lock = run_status r).
Proof.
  intros Hwf%reachable_wf.
  assert (forall id r lock, live_run s id r -> in_active_locks s !! run_scope r = Some lock ->
    al_run_id lock = id /\ al_status lock = run_status r) as Hlock.
  { intros id r lock [Hr Hlive] Hl. destruct (wf_locked s Hwf _ _ Hr Hlive) as (lock' & Hl' & Hid).
    rewrite Hl in Hl'. injection Hl' as <-. split; [done |].
    destruct (wf_lock s Hwf _ _ Hl) as (_ & r' & Hr' & _ & Hst & _). congruence. }
  split_and!; [| | done].
  - intros id1 r1 id2 r2 H1 H2 Heq. destruct (wf_locked s Hwf _ _ (proj1 H1) (proj2 H1)) as (lock & Hl & <-).
    rewrite Heq in Hl. by destruct (Hlock id2 r2 lock H2 Hl).
  - intros scope. split.
    + intros [lock Hl]. destruct (wf_lock s Hwf _ _ Hl) as (_ & r & Hr & Hsc & _ & Hlive).
      by exists (al_run_id lock), r.
    + intros (id & r & [Hr Hlive] & <-). destruct (wf_locked s Hwf _ _ Hr Hlive) as (lock & Hl & _).
      by exists lock.
Qed.

(** [C7] Running caps.  In every reachable store the runs that hold a running slot
    against a user, and against a tenant's origin class, are at most the cap set for
    them, and the limiter's counter, the only thing a claim looks at, is their number. *)
Theorem running_caps_hold s :
  reachable limit_for s ->
  (forall k cap, max_concurrent_runs_per_user (tsl_concurrency (in_limits s)) = Some cap ->
     slots user_key k (in_records s) <= cap
     /\ count_for_user (in_concurrency s) k.1 k.2 = slots user_key k (in_records s))
  /\ (forall k cap, origin_cap (tsl_concurrency (in_limits s)) k.2 = Some cap ->
     slots origin_key k (in_records s) <= cap
     /\ default 0 (lm_running_by_origin_class (in_concurrency s) !! k) = slots origin_key k (in_records s)).
Proof.
  intros Hwf%reachable_wf. split; intros k cap Hcap.
  - destruct (wf_users s Hwf k cap Hcap) as [Hc Hle]. split; [done |].
    unfold count_for_user. rewrite <- surjective_pairing. by apply counted_default.
  - destruct (wf_origins s Hwf k cap Hcap) as [Hc Hle]. split; [done |]. by apply counted_default.
Qed.

(** ** The life of a run *)

Definition moves : TurnStatus -> TurnStatus -> Prop := rtc (fun from to => status_move from to = true).

Lemma change_fate s s' id r : turns_wf s -> change s s' -> in_records s !! id = Some r ->
  (exists r', in_records s' !! id = Some r' /\ run_static r' = run_static r
     /\ moves (run_status r) (run_status r')
     /\ (turn_is_terminal (run_status r) = true -> r' = r))
  \/ (in_records s' !! id = None /\ turn_is_terminal (run_status r) = true).
Proof.
  intros Hwf Hc Hr. destruct Hc as [id' r0 r1 Hm | r0 Hc | id' Hrm | Hs _].
  - left. rewrite (mv_records _ _ _ _ _ Hm). destruct (decide (id' = id)) as [-> | Hne].
    + pose proof (mv_before _ _ _ _ _ Hm) as Hb. rewrite Hr in Hb. injection Hb as ->.
      exists r1. rewrite lookup_insert_eq. split_and!; [done | apply Hm | by apply rtc_once, Hm |].
      intros Ht. pose proof (status_move_source _ _ (mv_status _ _ _ _ _ Hm)). congruence.
    + exists r. rewrite lookup_insert_ne by done. by split_and!; [| | constructor |].
  - left. exists r. split_and!; [| done | constructor | done].
    rewrite (cr_records _ _ _ Hc), lookup_insert_ne; [done |]. intros <-.
    by rewrite (cr_fresh _ _ _ Hc) in Hr.
  - rewrite (rm_records _ _ _ Hrm). destruct (decide (id' = id)) as [-> | Hne].
    + right. split; [apply lookup_delete_eq |]. pose proof (rm_terminal_run _ _ _ Hrm) as Ht.
      unfold run_is_terminal in Ht. by rewrite Hr in Ht.
    + left. exists r. rewrite lookup_delete_ne by done. by split_and!; [| | constructor |].
  - left. exists r. rewrite (sm_records _ _ Hs). by split_and!; [| | constructor |].
Qed.

(** What became of a run: it is there and moved on from where it was, or it had ended at
    some moment in between, and was then removed. *)
Definition run_goes (s : Inner) (id : TurnRunId) (r r' : TurnRun) : Prop :=
  in_records s !! id = Some r' /\ run_static r' = run_static r
  /\ moves (run_status r) (run_status r')
  /\ (turn_is_terminal (run_status r) = true -> r' = r).

Lemma run_fate s s' id r : turns_wf s -> changes s s' -> in_records s !! id = Some r ->
  (exists r', run_goes s' id r r')
  \/ exists s1 s2 r1, changes s s1 /\ change s1 s2 /\ changes s2 s' /\ run_goes s1 id r r1
       /\ turn_is_terminal (run_status r1) = true /\ in_records s2 !! id = None.
Proof.
  unfold run_goes. intros Hwf Hc. revert r. induction Hc as [s | s s1 s' Hone Hrest IH]; intros r Hr.
  - left. exists r. by split_and!; [| | constructor |].
  - pose proof (wf_change _ _ Hwf Hone) as Hwf1.
    destruct (change_fate _ _ _ _ Hwf Hone Hr) as [(r1 & Hr1 & Hst & Hmv & Hfin) | [Hgone Ht]].
    + destruct (IH Hwf1 r1 Hr1) as [(r' & Hr' & Hst' & Hmv' & Hfin')
        | (s2 & s3 & r2 & Hs1 & Hs2 & Hs3 & (Hr2 & Hst' & Hmv' & Hfin') & Ht & Hgone)].
      * left. exists r'. split_and!; [done | congruence | by etrans |].
        intros Ht. specialize (Hfin Ht). subst r1. by apply Hfin'.
      * right. exists s2, s3, r2. split_and!; [by eapply rtc_l | done | done | done | congruence | by etrans | | done | done].
        intros Ht'. specialize (Hfin Ht'). subst r1. by apply Hfin'.
    + right. exists s, s1, r. by split_and!; [constructor | | | | | constructor | | |].
Qed.

(** [C8] A run's life.  From any reachable store on, whatever the tasks do: a run keeps
    its scope, actor, turn, profile, message and lineage; its status only moves along
    [status_move] (a queued run is claimed or cancelled; a running one is blocked, put
    back into the queue, asked to cancel, completed or failed, the last also when its
    lease expires; a blocked one is queued again or cancelled; one asked to cancel is
    cancelled); a run that has ended never changes again; and a run leaves the store only
    when, at some moment in between, it had reached an end along these moves. *)
Theorem run_life s pool id r :
  reachable limit_for s -> pool_world pool = s ->
  in_records s !! id = Some r ->
  forall pool', rtc (pool_step (R := unit) (turn_answers limit_for) (fun _ _ => False)) pool pool' ->
  (exists r', run_goes (pool_world pool') id r r')
  \/ exists s1 s2 r1, changes s s1 /\ change s1 s2 /\ changes s2 (pool_world pool') /\ run_goes s1 id r r1
       /\ turn_is_terminal (run_status r1) = true /\ in_records s2 !! id = None.
Proof.
  intros Hwf%reachable_wf <- Hr pool' Hrun. apply run_fate; [done | by eapply pool_changes | done].
Qed.

(** ** Restarts *)

(** [C11] Restarts.  A snapshot of a reachable store whose cursor has not used up its 64
    bits, its entries in any order, is read back: the runs, turns, locks, reservations,
    loop checkpoints, events and the cursor are the same, the checkpoints and the
    replayable replies are there.  The queue holds the same runs, in the order in which
    the snapshot lists them, and the ended runs are pruned in that order; a snapshot as it
    is taken lists the runs by the cursors of their last events, so a run that was passed
    over by claims comes back to the place of its last event.  The store read back is
    reachable, and answers no submission with a success the old one did not have. *)
Theorem restart_restores s p :
  reachable limit_for s -> in_cursor s < u64_max -> same_entries p (persistence_snapshot s) ->
  exists s', from_persistence_snapshot p (in_limits s) = Ok s' /\ restored s s'
    /\ in_queued_runs s'
       = pr_run_id <$> List.filter (fun x => bool_decide (pr_run_status x = TurnQueued)) (tps_runs p)
    /\ in_terminal_runs s'
       = pr_run_id <$> List.filter (fun x => turn_is_terminal (pr_run_status x)) (tps_runs p)
    /\ StronglySorted (fun x y => pr_event_cursor x <= pr_event_cursor y) (tps_runs (persistence_snapshot s))
    /\ reachable limit_for s'
    /\ forall key resp, in_submit_idempotency s' !! key = Some (Ok resp) ->
         in_submit_idempotency s !! key = Some (Ok resp).
Proof.
  intros Hr Hlt Hp. pose proof (reachable_wf _ _ Hr) as Hwf.
  destruct (restore_total s p Hwf Hp Hlt) as (s' & Hload & Hre & _). exists s'.
  destruct (restored_order s p Hwf Hp _ _ Hload) as [Hq Ht].
  split_and!; [done | done | done | done | apply sort_by_N_sorted | by eapply store_restarted |].
  intros key resp Hk. rewrite (re_submit s s' Hre) in Hk.
  apply bind_Some in Hk as (r & Hr' & Hreply).
  destruct (mem_submit_filed s (wf_memories s Hwf) key r _ Hr' Hreply) as ([known |] & Hknown & Hkept); [| done].
  cbn in Hkept. by subst.
Qed.

(** ** Claims *)

(** [C36] The first that may run.  In a reachable store a runner's claim takes the first
    queued run that is in the scope asked for and below the running caps, and no other;
    the run is running under the runner's lease, counts one claim more, and the runs
    passed over go behind the rest of the queue in their order.  When no queued run
    qualifies, the claim answers none and changes nothing. *)
Theorem claim_takes_first runner token scope_filter clk s a s' :
  reachable limit_for s ->
  claim_matching_queued_run runner token scope_filter clk s = (a, s') ->
  (a = Ok None /\ s' = s
   /\ forall id r, in_records s !! id = Some r -> run_status r = TurnQueued ->
        eligible scope_filter s id = false)
  \/ exists before id after r r',
       in_queued_runs s = before ++ id :: after
       /\ (forall id', id' ∈ before -> eligible scope_filter s id' = false)
       /\ eligible scope_filter s id = true
       /\ in_records s !! id = Some r
       /\ in_records s' = <[id := r']> (in_records s)
       /\ in_queued_runs s' = after ++ before
       /\ a = Ok (Some {| cl_state := run_state r'; cl_resolved_run_profile := rp_resolved (run_profile r);
                          cl_runner_id := runner; cl_lease_token := token |})
       /\ run_static r' = run_static r /\ run_status r' = TurnRunning
       /\ run_runner_id r' = Some runner /\ run_lease_token r' = Some token
       /\ run_lease_expires_at r' = Some (next_lease_expiry s (clk 0%nat))
       /\ run_claim_count r' = sat_add64 (run_claim_count r) 1.
Proof.
  intros Hwf%reachable_wf Hc.
  destruct (pop_cases scope_filter s Hwf) as [[Hp Hall] | (before & id & after & Hq & Hb & He & Hp)].
  - left. unfold claim_matching_queued_run in Hc. rewrite Hp in Hc. injection Hc as <- <-.
    split_and!; [done | done |]. intros id r Hr Hst. apply Hall, (wf_queue s Hwf). by exists r.
  - right. assert (queued s id) as (r & Hr & Hst).
    { apply (wf_queue s Hwf). rewrite Hq. apply elem_of_app. right. apply list_elem_of_here. }
    exists before, id, after, r. unfold claim_matching_queued_run in Hc. rewrite Hp in Hc.
    erewrite with_record_run in Hc; [| exact Hr | cbn; reflexivity]. injection Hc as <- <-.
    eexists. split_and!; [done | done | done | done | | done | reflexivity | done | done | done | done | done | done].
    cbn. rewrite (wf_key s Hwf _ _ Hr). by rewrite insert_delete_eq.
Qed.
End safety.


Section findings.
Context `{TurnPayload} `{Platform}.

(** Nothing is pruned within the limit. *)
Lemma prune_within s : N.of_nat (length (in_terminal_runs s)) <= tsl_max_terminal_records (in_limits s) ->
  prune_terminal_records s = s.
Proof.
  intros Hlen. unfold prune_terminal_records. apply N.leb_le in Hlen.
  assert (prune_loop (in_terminal_runs s) s = s <| in_terminal_runs := in_terminal_runs s |>) as ->
    by (destruct (in_terminal_runs s); cbn [prune_loop]; by rewrite Hlen).
  by destruct s.
Qed.

(** No cancellation while an external tool is awaited.  A cancellation of a run that
    is parked on an external tool is answered with success and [already_terminal], with
    the status of a run that has not ended; the run stays parked, with its lock and its
    admission, and, when the terminal records are within their limit, nothing else
    changes. *)
Theorem external_tool_cancel_ignored limit_for s q clk r :
  reachable limit_for s -> in_records s !! cq_run_id q = Some r ->
  run_status r = TurnBlockedExternalTool -> run_scope r = cq_scope q -> run_actor r = cq_actor q ->
  N.of_nat (length (in_terminal_runs s)) <= tsl_max_terminal_records (in_limits s) ->
  request_cancel_once q clk s = (Ok (cancel_response r true), s)
  /\ cn_already_terminal (cancel_response r true) = true
  /\ turn_is_terminal (cn_status (cancel_response r true)) = false
  /\ is_Some (in_active_locks s !! run_scope r).
Proof.
  intros Hwf%reachable_wf Hr Hs Hsc Ha Hlen.
  assert (turn_is_terminal (run_status r) = false) as Hlive by by rewrite Hs.
  split_and!; [| done | done |].
  - unfold request_cancel_once, with_record. rewrite Hr.
    rewrite !bool_decide_true by done. cbn [negb]. rewrite Hlive, Hs. cbn [cancel_target].
    assert (s <| in_records ::= delete (cq_run_id q) |> <| in_records ::= insert (run_id r) r |> = s) as Heq.
    { rewrite (wf_key s Hwf _ _ Hr). destruct s. unfold set_field, set_in_records. cbn in *.
      by rewrite insert_delete_id. }
    rewrite Heq. by rewrite prune_within.
  - destruct (wf_locked s Hwf _ _ Hr Hlive) as (lock & Hl & _). by exists lock.
Qed.

(** No run is put up for recovery.  The contracts of the runner and of turn persistence
    say that a running or cancelling run whose lease expires moves to [RecoveryRequired],
    keeps its thread's lock, and ends only by an explicit cancellation.  In the code the
    expired lease ends the run at once ([expired_lease_terminal_outcome]), and in no
    reachable store is a run in [RecoveryRequired], which counts as an end anyway. *)
Theorem no_recovery_required limit_for s id r :
  reachable limit_for s -> in_records s !! id = Some r -> run_status r <> TurnRecoveryRequired.
Proof.
  intros Hs. revert id r. induction Hs as [limits | tasks threads s s' Hs IH Hrun | s p s' Hs IH Hlt Hp Hload].
  - intros id r Hr. cbn in Hr. by rewrite lookup_empty in Hr.
  - pose proof (pool_changes limit_for (pool_of (task_program <$> tasks) s) _ (reachable_wf _ _ Hs) Hrun) as Hc.
    cbn in Hc. clear Hrun Hs. revert IH. induction Hc as [| s s1 s2 Hone _ IHc]; [done |]. intros IH. apply IHc.
    intros id r Hr. destruct Hone as [id' r0 r1 Hm | r0 Hc | id' Hrm | Hsame _ _].
    + rewrite (mv_records _ _ _ _ _ Hm) in Hr. apply lookup_moved in Hr as [[-> ->] | [_ Hr]]; [| by eapply IH].
      pose proof (mv_status _ _ _ _ _ Hm) as Hst. intros Heq. rewrite Heq in Hst. by destruct (run_status r0).
    + rewrite (cr_records _ _ _ Hc) in Hr. apply lookup_moved in Hr as [[-> ->] | [_ Hr]]; [| by eapply IH].
      by rewrite (cr_status _ _ _ Hc).
    + rewrite (rm_records _ _ _ Hrm) in Hr. apply lookup_delete_Some in Hr as [_ Hr]. by eapply IH.
    + rewrite (sm_records _ _ Hsame) in Hr. by eapply IH.
  - destruct (restore_total s p (reachable_wf _ _ Hs) Hp Hlt) as (s1 & Hload1 & Hre & _).
    rewrite Hload in Hload1. injection Hload1 as <-. intros id r. rewrite (re_records _ _ Hre). by apply IH.
Qed.

(** Counters without caps.  A limiter without any cap counts every run that starts
    ([on_enter_running]), and forgets the count when the store is restored
    ([rebuild_from]): the same running run is counted once before a restart and not at
    all after it. *)
Lemma uncapped_counters_differ limits info key :
  any_cap_enabled limits = false -> user_key_from info = Some key ->
  count_for_user (on_enter_running info (with_limits limits)) key.1 key.2 = 1
  /\ count_for_user (rebuild_from limits [info]) key.1 key.2 = 0.
Proof.
  intros Hno Hk. unfold count_for_user. rewrite <- surjective_pairing. unfold rebuild_from. rewrite Hno.
  split; [| done]. cbn. rewrite Hk. cbn. unfold entry_update. rewrite lookup_empty. cbn.
  by rewrite lookup_insert_eq.
Qed.

(** A turn without a run.  When the terminal records are at their limit, giving back
    the last reservation of an ended root that the pruning had passed over removes the
    root's record and its admission, and leaves the root's turn behind, which the pruning
    of a record removes with its last run. *)
Lemma settled_root_leaves_turn s root_id root :
  in_records s !! root_id = Some root -> turn_is_terminal (run_status root) = true ->
  root_id ∉ in_terminal_runs s ->
  tsl_max_terminal_records (in_limits s) <= N.of_nat (length (in_terminal_runs s)) ->
  let s' := settle_released_root root_id s in
  in_records s' = delete root_id (in_records s)
  /\ in_turns s' = in_turns s.
Proof.
  intros Hr Ht Hni Hlen. unfold settle_released_root, run_is_terminal. rewrite Hr, Ht.
  assert (existsb (N.eqb root_id) (in_terminal_runs s) = false) as ->.
  { apply not_true_is_false. intros (x & Hx & ->%N.eqb_eq)%existsb_exists. by apply Hni, list_elem_of_In. }
  cbn [andb negb]. by destruct (N.leb_spec (tsl_max_terminal_records (in_limits s))
    (N.of_nat (length (in_terminal_runs s)))); [| lia].
Qed.
End findings.
