(* ===== verification/TurnLog.v ===== *)
(** * What the turn store promises: the event log

    The events of a reachable store are gap-free, and a consumer that reads page after
    page sees every event of its scope once, in order. *)

From stdpp Require Import relations sorting.
From S2P Require Import Prelude Ids Platform HostApi Capability Obligations Programs Collections Turns TurnLimiter TurnEvents TurnStore TurnOps TurnRunner TurnSnapshot TurnWf TurnRestore TurnMoves TurnOpsFacts TurnSubmits TurnCalls.
From Stdlib Require Import Lia Sorted.
Local Open Scope N_scope.
Local Open Scope record_scope.

Section log.
Context `{TurnPayload} `{Platform}.

Abbreviation earlier := (fun x y : TurnLifecycleEvent => ev_cursor x < ev_cursor y).

Lemma consecutive_sorted l b :
  (forall i e, l !! i = Some e -> ev_cursor e = b + N.of_nat i) -> StronglySorted earlier l.
Proof.
  revert b. induction l as [| x l IH]; intros b Hc; constructor.
  - apply (IH (b + 1)). intros i e Hi. rewrite (Hc (S i) e Hi). lia.
  - apply Forall_lookup. intros i e Hi. rewrite (Hc 0%nat x eq_refl), (Hc (S i) e Hi). lia.
Qed.

Lemma filter_sorted (f : TurnLifecycleEvent -> bool) l :
  StronglySorted earlier l -> StronglySorted earlier (List.filter f l).
Proof.
  induction 1 as [| x l _ IH Hx]; simpl; [constructor |]. destruct (f x); [| done].
  constructor; [done |]. apply Forall_forall. intros y Hy. apply list_elem_of_In, filter_In in Hy as [Hy _].
  rewrite Forall_forall in Hx. by apply Hx, list_elem_of_In.
Qed.
Section filters.
Context {A : Type}.
Implicit Types (f g : A -> bool) (l : list A).

Lemma filter_filter_implied f g l : (forall x, g x = true -> f x = true) ->
  List.filter g (List.filter f l) = List.filter g l.
Proof.
  intros Hi. induction l as [| x l IH]; simpl; [done |]. destruct (f x) eqn:Hf; simpl.
  - by rewrite IH.
  - destruct (g x) eqn:Hg; [| done]. by rewrite (Hi _ Hg) in Hf.
Qed.

Lemma filter_none f l : (forall x, x ∈ l -> f x = false) -> List.filter f l = [].
Proof.
  induction l as [| x l IH]; intros Hf; simpl; [done |]. rewrite (Hf x) by apply list_elem_of_here.
  apply IH. intros y Hy. by apply Hf, list_elem_of_further.
Qed.

Lemma filter_all f l : (forall x, x ∈ l -> f x = true) -> List.filter f l = l.
Proof.
  induction l as [| x l IH]; intros Hf; simpl; [done |]. rewrite (Hf x) by apply list_elem_of_here.
  rewrite IH; [done |]. intros y Hy. by apply Hf, list_elem_of_further.
Qed.
End filters.

(** ** Pages *)

(** What a consumer may see. *)
Definition visible_after (scope : TurnScope) (owner : option UserId) (after : EventCursor) (s : Inner) :
    list TurnLifecycleEvent :=
  List.filter (fun e => after <? ev_cursor e) (List.filter (event_in_scope scope owner) (in_events s)).

(** A consumer that reads page after page, at most so many: the entries in order; [None]
    when it is told to rebase, or is not at the end yet. *)
Fixpoint read_pages (pages : nat) (scope : TurnScope) (owner : option UserId) (limit : N) (s : Inner)
    (after : EventCursor) : option (list TurnLifecycleEvent) :=
  match pages with
  | O => None
  | S pages =>
      match read_turn_events_after scope owner (Some after) limit s with
      | Ok page =>
          match pg_rebase_required page with
          | Some _ => None
          | None => if pg_truncated page
                    then app (pg_entries page) <$> read_pages pages scope owner limit s (pg_next_cursor page)
                    else Some (pg_entries page)
          end
      | Err _ => None
      end
  end.

Section paging.
Context (scope : TurnScope) (owner : option UserId) (s : Inner).
Hypothesis Hsorted : StronglySorted earlier (in_events s).

Definition scoped : list TurnLifecycleEvent := List.filter (event_in_scope scope owner) (in_events s).

(** The cursor is one a consumer may go on from. *)
Definition resumable (after : EventCursor) : Prop :=
  in_event_retention_floor s <= after
  /\ match last scoped with Some e => after <= ev_cursor e | None => after = in_event_retention_floor s end.

Lemma scoped_sorted : StronglySorted earlier scoped.
Proof using Hsorted. by apply filter_sorted. Qed.

Lemma scoped_stable : sort_by_N ev_cursor scoped = scoped.
Proof using Hsorted.
  apply stable_sort_sorted. pose proof scoped_sorted as Hs.
  induction Hs as [| x l _ IH Hx]; constructor; [done |].
  eapply Forall_impl; [exact Hx |]. intros y Hy. cbn in *. apply N.leb_le. lia.
Qed.

(** What is visible after the last of the first [n] visible. *)
Lemma visible_rest after n e :
  last (take n (visible_after scope owner after s)) = Some e ->
  visible_after scope owner (ev_cursor e) s = drop n (visible_after scope owner after s)
  /\ after < ev_cursor e /\ e ∈ scoped.
Proof using Hsorted.
  intros [l Hl]%last_Some. set (M := visible_after scope owner after s) in *.
  assert (M = (l ++ [e]) ++ drop n M) as HM by by rewrite <- Hl, take_drop.
  assert (StronglySorted earlier M) as Hs by apply filter_sorted, scoped_sorted.
  rewrite HM in Hs. apply StronglySorted_app in Hs as (Hd & Hs & _).
  apply StronglySorted_app in Hs as (Hl' & _ & _).
  assert (e ∈ M) as HeM. { rewrite HM. apply elem_of_app. left. apply elem_of_app. right. by apply list_elem_of_singleton. }
  unfold M, visible_after in HeM. apply list_elem_of_In, filter_In in HeM as [Hin Ha].
  apply N.ltb_lt in Ha. split_and!; [| done | by apply list_elem_of_In].
  transitivity (List.filter (fun x => ev_cursor e <? ev_cursor x) M).
  { unfold M, visible_after. symmetry. apply filter_filter_implied. intros x Hx.
    apply N.ltb_lt in Hx. apply N.ltb_lt. lia. }
  rewrite HM at 1. rewrite List.filter_app, filter_none, filter_all; [done | |].
  - intros x Hx. apply N.ltb_lt, Hd; [| done]. apply elem_of_app. right. by apply list_elem_of_singleton.
  - intros x [Hx | ->%list_elem_of_singleton]%elem_of_app; apply N.ltb_ge; [| lia].
    apply N.lt_le_incl, Hl'; [done | by apply list_elem_of_singleton].
Qed.

Lemma next_resumable after n e : resumable after ->
  last (take n (visible_after scope owner after s)) = Some e -> resumable (ev_cursor e).
Proof using Hsorted.
  intros [Hf _] He. destruct (visible_rest _ _ _ He) as (_ & Ha & Hin). split; [lia |].
  pose proof scoped_sorted as Hs. destruct (last scoped) as [z |] eqn:Hz.
  - apply last_Some in Hz as [l Hl]. rewrite Hl in Hs, Hin. apply StronglySorted_app in Hs as (Hd & _ & _).
    apply elem_of_app in Hin as [Hin | ->%list_elem_of_singleton]; [| lia].
    apply N.lt_le_incl, Hd; [done | by apply list_elem_of_singleton].
  - apply last_None in Hz. rewrite Hz in Hin. by apply elem_of_nil in Hin.
Qed.

Context (limit : N) (Hlimit : 0 < limit).

Lemma page_of after : resumable after ->
  read_turn_events_after scope owner (Some after) limit s
  = Ok {| pg_entries := take (N.to_nat limit) (visible_after scope owner after s);
          pg_next_cursor := default after (ev_cursor <$> last (take (N.to_nat limit) (visible_after scope owner after s)));
          pg_truncated := limit <? N.of_nat (length (visible_after scope owner after s));
          pg_rebase_required := None |}.
Proof using Hsorted Hlimit.
  intros [Hf Hl]. unfold read_turn_events_after, project_turn_events. change (default 0 (Some after)) with after.
  cbv zeta. fold scoped.
  rewrite scoped_stable. destruct (N.ltb_spec after (in_event_retention_floor s)); [lia |].
  rewrite andb_false_r. destruct (last scoped) as [e |]; cbn [fmap option_fmap option_map].
  - destruct (N.ltb_spec (ev_cursor e) after); [lia | done].
  - destruct (N.ltb_spec (in_event_retention_floor s) after); [lia | done].
Qed.

(** Pages of at least one event reach the end. *)
Lemma read_pages_all pages after :
  resumable after -> (length (visible_after scope owner after s) < pages)%nat ->
  read_pages pages scope owner limit s after = Some (visible_after scope owner after s).
Proof using Hsorted Hlimit.
  revert after. induction pages as [| pages IH]; intros after Hr Hlen; [lia |].
  cbn [read_pages]. rewrite (page_of after Hr). cbn [pg_rebase_required pg_truncated pg_entries pg_next_cursor].
  destruct (N.ltb_spec limit (N.of_nat (length (visible_after scope owner after s)))) as [Hlt | Hge].
  - destruct (last (take (N.to_nat limit) (visible_after scope owner after s))) as [e |] eqn:He.
    + destruct (visible_rest _ _ _ He) as (Hrest & _ & _).
      change (default after (ev_cursor <$> Some e)) with (ev_cursor e). rewrite IH.
      * rewrite Hrest. cbn [fmap option_fmap option_map]. by rewrite take_drop.
      * by apply (next_resumable after (N.to_nat limit)).
      * rewrite Hrest, length_drop. lia.
    + apply last_None in He. apply (f_equal length) in He. rewrite length_take in He. simpl in He. lia.
  - rewrite take_ge by lia. done.
Qed.
End paging.

(** [C38] The event log.  In every reachable store whose cursor has not saturated, the log
    holds exactly the events numbered from the retention floor to the cursor, none
    missing, none twice, at most so many as configured; and a consumer that starts at a
    cursor it may resume from and reads pages of any size gets, in finitely many pages,
    exactly the later events of its scope and owner, in order. *)
Theorem event_log_complete limit_for s :
  reachable limit_for s -> in_cursor s < u64_max ->
  N.of_nat (length (in_events s)) <= tsl_max_events (in_limits s)
  /\ in_event_retention_floor s + N.of_nat (length (in_events s)) = in_cursor s
  /\ (forall i e, in_events s !! i = Some e -> ev_cursor e = in_event_retention_floor s + 1 + N.of_nat i)
  /\ forall scope owner limit after, 0 < limit -> resumable scope owner s after ->
       read_pages (S (length (visible_after scope owner after s))) scope owner limit s after
       = Some (visible_after scope owner after s).
Proof.
  intros Hwf%reachable_wf Hlt. destruct (wf_log s Hwf) as [Hlen Hlog]. destruct (Hlog Hlt) as [Hsum Hc].
  split_and!; [done | done | done |]. intros scope owner limit after Hl Hr.
  apply read_pages_all; [by eapply consecutive_sorted | done | done | lia].
Qed.
End log.
