(* ===== verification/TurnGuards.v ===== *)
(** * What the turn store promises: leases, admission, spawn trees, idempotency

    Refusals of stale leases, the limits of admission, the reservations of spawn trees,
    and the replay of remembered replies with the bound of their memory. *)

From stdpp Require Import relations.
From S2P Require Import Prelude Ids Platform HostApi Capability Obligations Programs Collections Turns TurnLimiter TurnEvents TurnStore TurnOps TurnRunner TurnSnapshot TurnWf TurnRestore TurnMoves TurnOpsFacts TurnSubmits TurnCalls TurnSafety.
From Stdlib Require Import Lia Sorted.
Local Open Scope N_scope.
Local Open Scope record_scope.

Section guards.
Context `{TurnPayload} `{Platform}.
Context (limit_for : LimitProvider).

(** ** Leases *)

Definition lease_of (c : TurnCall) : option LeaseClaim :=
  match c with
  | Heartbeat c | RecordModelRoute c _ | BlockRun c _ _ _ | CompleteRun c | CancelRun c
  | FailRun c _ | RunnerFailure c _ | RelinquishRun c | ApplyLoopExit c _ => Some c
  | _ => None
  end.

Definition answered_error (c : TurnCall) : TurnAnswer c -> Prop :=
  match c return TurnAnswer c -> Prop with
  | Heartbeat _ => fun a => exists e, a = Err e
  | RecordModelRoute _ _ | BlockRun _ _ _ _ | CompleteRun _ | CancelRun _ | FailRun _ _
  | RunnerFailure _ _ | RelinquishRun _ | ApplyLoopExit _ _ => fun a => exists e, a = Err e
  | _ => fun _ => False
  end.

(** The run's lease is the one claimed. *)
Definition holds_lease (c : LeaseClaim) (s : Inner) : Prop :=
  exists r, in_records s !! lc_run_id c = Some r
    /\ run_runner_id r = Some (lc_runner_id c) /\ run_lease_token r = Some (lc_lease_token c).

Lemma with_lease_refused {T} c now (body : TurnRun -> Inner -> Result T TurnError * TurnRun * Inner) s :
  turns_wf s -> ~ holds_lease c s -> exists e, with_lease c now body s = (Err e, s).
Proof.
  intros Hwf Hno. unfold with_lease, with_record.
  destruct (in_records s !! lc_run_id c) as [r |] eqn:Hr; [| by eexists].
  destruct (ensure_active_lease _ _ _ _) as [[] | e] eqn:He.
  - exfalso. apply Hno. exists r. split; [done |].
    by destruct (lease_slot _ _ _ _ (wf_lease s Hwf _ _ Hr) He) as (_ & ? & ?).
  - exists e. f_equal. rewrite (wf_key s Hwf _ _ Hr). destruct s. unfold set_field, set_in_records.
    cbn in *. by rewrite insert_delete_id.
Qed.

(** [C9] Fencing.  A runner whose lease of a run is not the run's current one - it was
    relinquished, recovered, claimed by another, or the run ended or is gone - gets an
    error from every call it makes under the lease, and changes nothing, save that
    terminal records over the limit are pruned. *)
Theorem stale_lease_fenced c claim s a s' :
  reachable limit_for s -> lease_of c = Some claim -> ~ holds_lease claim s ->
  turn_answers limit_for c s a s' ->
  answered_error c a /\ (s' = s \/ s' = prune_terminal_records s).
Proof.
  intros Hwf%reachable_wf Hc Hno Ha.
  destruct c; cbn in Hc; try discriminate; injection Hc as ->; destruct Ha as [clk Ha];
    unfold heartbeat, record_model_route_snapshot, block_run, complete_run, cancel_run, fail_run,
      terminal_transition, record_runner_failure, relinquish_run, apply_validated_loop_exit in Ha;
    try (destruct (in_records s !! lc_run_id claim); [| injection Ha as <- <-; cbn; eauto]);
    match type of Ha with context [with_lease claim ?now ?body s] =>
      destruct (with_lease_refused claim now body s Hwf Hno) as [e He]; rewrite He in Ha
    end; injection Ha as <- <-; cbn; eauto.
Qed.

(** ** Admission *)

Definition reservation_of (r : TurnRun) : TurnAdmissionReservationRecord :=
  {| res_run_id := run_id r; res_admission_class := rp_admission_class (run_profile r);
     res_buckets := admission_buckets (run_scope r) (run_actor r) (rp_admission_class (run_profile r));
     res_released := turn_is_terminal (run_status r) |}.

Lemma reservations_of_runs s : turns_wf s -> in_admission_reservations s = reservation_of <$> in_records s.
Proof.
  intros Hwf. apply map_eq. intros id. rewrite lookup_fmap.
  destruct (in_records s !! id) as [r |] eqn:Hr; simpl.
  - rewrite (wf_admitted s Hwf _ _ Hr). unfold reservation_of. by rewrite (wf_key s Hwf _ _ Hr).
  - destruct (in_admission_reservations s !! id) as [res |] eqn:Hres; [| done].
    destruct (wf_admission s Hwf _ _ Hres) as [r Hr']. congruence.
Qed.

Lemma filter_values_count {K V} `{Countable K} (f : V -> bool) (m : gmap K V) :
  N.of_nat (length (List.filter f (map_to_list m).*2)) = count_map f m.
Proof.
  unfold count_map, map_sum, sum_N. induction (map_to_list m) as [| [k v] l IH]; [done |].
  rewrite fmap_cons. cbn [List.filter foldr snd]. rewrite <- IH. destruct (f v); cbn [length]; lia.
Qed.

Lemma count_map_fmap {K V W} `{Countable K} (f : W -> bool) (g : V -> W) (m : gmap K V) :
  count_map f (g <$> m) = count_map (fun v => f (g v)) m.
Proof.
  unfold count_map, map_sum, sum_N. rewrite map_to_list_fmap.
  induction (map_to_list m) as [| [k v] l IH]; [done |].
  rewrite fmap_cons. cbn [foldr snd prod_map fst]. by rewrite IH.
Qed.

(** A run in the bucket that has not ended. *)
Definition occupies (bucket : TurnAdmissionBucket) (r : TurnRun) : bool :=
  negb (turn_is_terminal (run_status r))
  && existsb (fun reserved => bool_decide (reserved = bucket))
       (admission_buckets (run_scope r) (run_actor r) (rp_admission_class (run_profile r))).

Lemma active_count_runs bucket s : turns_wf s ->
  active_admission_count bucket s = count_map (occupies bucket) (in_records s).
Proof.
  intros Hwf. unfold active_admission_count.
  by rewrite filter_values_count, (reservations_of_runs s Hwf), count_map_fmap.
Qed.

Lemma check_buckets_room s buckets bucket limit max :
  check_buckets limit_for s buckets = None -> bucket ∈ buckets ->
  limit_for bucket = Ok limit -> tl_max_active limit = Some max ->
  active_admission_count bucket s < max.
Proof.
  intros Hc Hin Hl Hm. induction buckets as [| b buckets IH]; [by apply elem_of_nil in Hin |].
  simpl in Hc. apply elem_of_cons in Hin as [<- | Hin].
  - rewrite Hl, Hm in Hc. destruct (N.leb_spec max (active_admission_count bucket s)); [done | done].
  - apply IH; [| done]. destruct (limit_for b) as [limit' |]; [| done].
    destruct (tl_max_active limit'); [| done]. by destruct (_ <=? _).
Qed.
(** A submission that is accepted without a replay. *)
Lemma commit_accepted q resolution fresh clk s resp s' :
  let key := submit_key (sr_scope q) (sr_idempotency_key q) in
  in_submit_idempotency s !! key = None ->
  commit_submit limit_for q resolution fresh clk s = (Ok resp, s') ->
  exists r s1, resp = submit_accepted r
    /\ run_scope r = sr_scope q /\ run_actor r = sr_actor q /\ run_status r = TurnQueued
    /\ in_records s !! run_id r = None /\ thread_busy (sr_scope q) s = None
    /\ check_buckets limit_for s
         (admission_buckets (run_scope r) (run_actor r) (rp_admission_class (run_profile r))) = None
    /\ in_records s1 = <[run_id r := r]> (in_records s)
    /\ in_submit_idempotency s1 = in_submit_idempotency s
    /\ in_submit_order s1 = in_submit_order s /\ in_limits s1 = in_limits s
    /\ conclude_submit key (Ok resp) (sr_received_at q) s1 = (Ok resp, s').
Proof.
  intros key Hnone Ha. unfold commit_submit, unless_replied in Ha. fold key in Ha. rewrite Hnone in Ha.
  destruct resolution as [resolved |]; [| by injection Ha].
  destruct (thread_busy _ _) eqn:Hbusy; [by injection Ha |]. cbv zeta in Ha.
  set (id := default (fresh_run fresh) (sr_requested_run_id q)) in *.
  destruct (in_records s !! id) eqn:Hid; [by injection Ha |].
  unfold reserve_admission in Ha. destruct (check_buckets _ _ _) eqn:Hc; [by injection Ha |].
  unfold next_cursor in Ha. cbv beta iota zeta in Ha.
  set (r := queued_run _ _ _ _ _ _ _ _ _ _ _ _ _ _ _) in *.
  match type of Ha with conclude_submit _ _ _ ?s1 = _ => exists r, s1 end.
  assert (resp = submit_accepted r) as -> by by injection Ha. by split_and!.
Qed.

Lemma count_map_insert_new {K V} `{Countable K} (f : V -> bool) (m : gmap K V) k v :
  m !! k = None -> count_map f (<[k := v]> m) <= count_map f m + 1.
Proof. intros Hk. rewrite count_map_insert by done. destruct (f v); lia. Qed.

(** [C37] Admission limits.  When a reachable store commits a submission - it does not
    replay a remembered reply - then of the runs that have not ended, the new one
    included, at most so many occupy each of its tenant, actor, project and agent buckets
    as the limit provider allows for that bucket. *)
Theorem admission_within_limits q resolution s resp s' :
  reachable limit_for s ->
  turn_answers limit_for (CommitSubmit q resolution) s (Ok resp) s' ->
  in_submit_idempotency s !! submit_key (sr_scope q) (sr_idempotency_key q) = None ->
  exists r, in_records s' !! sa_run_id resp = Some r
    /\ in_records s' = <[sa_run_id resp := r]> (in_records s)
    /\ forall bucket limit max,
         bucket ∈ admission_buckets (run_scope r) (run_actor r) (rp_admission_class (run_profile r)) ->
         limit_for bucket = Ok limit -> tl_max_active limit = Some max ->
         count_map (occupies bucket) (in_records s') <= max.
Proof.
  intros Hwf%reachable_wf (fresh & clk & Hf & Ha) Hnone.
  destruct (commit_accepted _ _ _ _ _ _ _ Hnone Ha)
    as (r & s1 & -> & _ & _ & _ & Hid & _ & Hc & Hrec & _ & _ & _ & Hs').
  exists r. assert (in_records s' = <[run_id r := r]> (in_records s)) as Hr'.
  { rewrite <- Hrec. apply (f_equal snd) in Hs'. cbn in Hs'. rewrite <- Hs'. apply conclude_framed. }
  simpl. split_and!; [by rewrite Hr', lookup_insert_eq | done |].
  intros bucket limit max Hin Hl Hm. pose proof (check_buckets_room _ _ _ _ _ Hc Hin Hl Hm) as Hroom.
  rewrite (active_count_runs _ _ Hwf) in Hroom.
  pose proof (count_map_insert_new (occupies bucket) _ _ r Hid). rewrite Hr'. lia.
Qed.
End guards.


Section trees.
Context `{TurnPayload} `{Platform}.
Context (limit_for : LimitProvider).

(** ** Spawn trees *)

(** Reservations of descendants.  A reservation that is granted adds its delta to
    the count of its spawn tree, changes nothing else, and leaves the count within the
    cap; the capacity is only said to be exceeded when the count would leave the cap or
    overflow [u64]; a refusal changes nothing. *)
Theorem tree_reserve_bounded scope root_id delta cap s a s' :
  reachable limit_for s ->
  turn_answers limit_for (ReserveTree scope root_id delta cap) s a s' ->
  let key := tree_key_new scope root_id in
  let count := tree_count (tree_state key s) in
  match a with
  | Ok granted =>
      st_root_run_id granted = root_id /\ st_descendant_count granted = count + delta
      /\ 0 < delta /\ count + delta <= N.min cap u64_max
      /\ s' = s <| in_tree_reservations ::= insert key
           {| tree_count := count + delta;
              tree_released_children := tree_released_children (tree_state key s) |} |>
  | Err e => s' = s /\ (e = TurnCapacityExceeded SpawnTreeDescendants cap -> N.min cap u64_max < count + delta)
  end.
Proof.
  intros Hwf%reachable_wf Ha. cbn in Ha. unfold reserve_tree_descendants in Ha. cbv zeta in *.
  destruct (N.eqb_spec delta 0) as [| Hd]; [by injection Ha as <- <- |].
  destruct (in_records s !! root_id) as [root |] eqn:Hr; [| by injection Ha as <- <-].
  destruct (same_scope_envelope _ _); [| by injection Ha as <- <-]. cbn [negb] in Ha.
  destruct (N.eqb_spec (spawn_root root) (run_id root)) as [Hroot |]; [| by injection Ha as <- <-].
  cbn [negb] in Ha. rewrite Hroot, (wf_key s Hwf _ _ Hr) in Ha.
  set (count := tree_count (tree_state (tree_key_new scope root_id) s)) in *.
  unfold tree_next, checked_add in Ha. destruct (N.leb_spec (count + delta) u64_max) as [H1 | H1].
  - destruct (N.leb_spec (count + delta) cap) as [H2 | H2]; injection Ha as <- <-.
    + split_and!; [done | done | lia | lia | done].
    + split; [done |]. intros _. lia.
  - injection Ha as <- <-. split; [done |]. intros _. lia.
Qed.

Lemma prune_one_tree id s : in_tree_reservations (prune_one id s) = in_tree_reservations s.
Proof.
  unfold prune_one. destruct (_ && _); [| done]. cbn. destruct (in_records s !! id); [| done].
  by destruct (existsb _ _).
Qed.

Lemma prune_one_records id s id' r : in_records (prune_one id s) !! id' = Some r -> in_records s !! id' = Some r.
Proof.
  unfold prune_one. destruct (_ && _); [| done]. cbn. destruct (in_records s !! id) as [r0 |]; [| done].
  destruct (existsb _ _); cbn; by intros [_ Hr]%lookup_delete_Some.
Qed.

Lemma prune_loop_tree l s : in_tree_reservations (prune_loop l s) = in_tree_reservations s
  /\ forall id r, in_records (prune_loop l s) !! id = Some r -> in_records s !! id = Some r.
Proof.
  revert s. induction l as [| id l IH]; intros s; simpl; destruct (_ <=? _); try done.
  destruct (IH (prune_one id s)) as [Ht Hr]. rewrite Ht. split; [apply prune_one_tree |].
  intros id' r Hr'. eapply prune_one_records, Hr, Hr'.
Qed.

Lemma settle_tree root_id s : in_tree_reservations (settle_released_root root_id s) = in_tree_reservations s
  /\ forall id r, in_records (settle_released_root root_id s) !! id = Some r -> in_records s !! id = Some r.
Proof.
  unfold settle_released_root. destruct (_ && _); [| done]. destruct (_ <=? _).
  - split; [done |]. intros id r. cbn. by intros [_ Hr]%lookup_delete_Some.
  - unfold prune_terminal_records. split; [by rewrite (proj1 (prune_loop_tree _ _)) |].
    intros id r Hr. by apply (proj2 (prune_loop_tree _ _)) in Hr.
Qed.

(** Release once.  Once the release of a child has succeeded, releasing the child
    again, with whatever delta, changes nothing: a child's reservation is given back at
    most once. *)
Theorem tree_release_once scope root_id delta delta' child s s' a s'' :
  turn_answers limit_for (ReleaseTree scope root_id delta child) s (Ok tt) s' ->
  turn_answers limit_for (ReleaseTree scope root_id delta' child) s' a s'' ->
  s'' = s'.
Proof.
  cbn. intros H1 H2. unfold release_tree_descendants in H1.
  destruct (in_records s !! root_id) as [root |] eqn:Hr; [| done].
  destruct (same_scope_envelope _ _) eqn:He; [| done]. cbn [negb] in H1.
  destruct (spawn_root root =? run_id root) eqn:Hroot; [| done]. cbn [negb] in H1.
  set (key := tree_key_new scope (spawn_root root)) in *.
  assert (forall s1, (forall id r, in_records s1 !! id = Some r -> in_records s !! id = Some r) ->
    match in_tree_reservations s1 !! key with
    | None => True | Some state => child ∈ tree_released_children state end ->
    (release_tree_descendants scope root_id delta' child s1).2 = s1) as Hagain.
  { intros s1 Hrec Htree. unfold release_tree_descendants.
    destruct (in_records s1 !! root_id) as [root1 |] eqn:Hr1; [| done].
    pose proof (Hrec _ _ Hr1) as Hsame. rewrite Hr in Hsame. injection Hsame as <-. rewrite He, Hroot.
    cbn [negb]. fold key. destruct (in_tree_reservations s1 !! key); [| done]. by rewrite decide_True. }
  apply (f_equal snd) in H2. cbn in H2. rewrite <- H2. clear H2 a s''.
  destruct (in_tree_reservations s !! key) as [state |] eqn:Hk.
  - case_decide as Hin; [injection H1 as <-; apply Hagain; [done | by rewrite Hk] |].
    destruct (_ <? _); [done |]. cbv zeta in H1. destruct (_ =? 0); injection H1 as <-.
    + match goal with |- context [settle_released_root ?x ?y] => destruct (settle_tree x y) as [Ht Hrec] end.
      apply Hagain; [done |]. rewrite Ht. cbn. by rewrite lookup_delete_eq.
    + apply Hagain; [done |]. cbn. rewrite lookup_insert_eq. simpl. set_solver.
  - injection H1 as <-. apply Hagain; [done | by rewrite Hk].
Qed.
End trees.


Section replay.
Context `{TurnPayload} `{Platform}.
Context (limit_for : LimitProvider).

Lemma remembered_submit key reply at_ s :
  memory_wf (tsl_max_idempotency_records (in_limits s)) (in_submit_order s) (in_submit_idempotency s) ->
  0 < tsl_max_idempotency_records (in_limits s) ->
  in_submit_idempotency (remember_submit_idempotency key reply at_ s) !! key = Some reply.
Proof.
  intros Hm Hmax. unfold remember_submit_idempotency.
  destruct (remember_reply _ _ _ _) as [[order replies] removed] eqn:Hp.
  pose proof (remember_reply_wf _ _ _ _ _ _ _ _ Hm Hp) as (_ & _ & Hk).
  unfold prune_idempotency_records. destruct (prune_ordered_map _ _ _) as [[? ?] ?]. by apply Hk.
Qed.

(** The calls of a submission, what each answers when the key's reply is known. *)
Definition submission_key (c : TurnCall) : option SubmitIdempotencyKey :=
  match c with
  | ClaimSubmit key | AdmitSubmit key _ _ => Some key
  | RejectLineage q | CommitSubmit q _ => Some (submit_key (sr_scope q) (sr_idempotency_key q))
  | ChildTemplate q | CommitChild q _ => Some (submit_key (cr_child_scope q) (cr_idempotency_key q))
  | _ => None
  end.

Definition replayed (reply : Result SubmitTurnResponse TurnError) (c : TurnCall) : TurnAnswer c -> Prop :=
  match c return TurnAnswer c -> Prop with
  | ClaimSubmit _ => fun a => a = Some reply
  | AdmitSubmit _ _ _ => fun a => a = Some reply
  | RejectLineage _ | CommitSubmit _ _ | CommitChild _ _ => fun a => a = reply
  | ChildTemplate _ => fun a => a = inl reply
  | _ => fun _ => True
  end.

Lemma submission_replays key reply c s a s' :
  in_submit_idempotency s !! key = Some reply -> submission_key c = Some key ->
  turn_answers limit_for c s a s' ->
  replayed reply c a /\ in_records s' = in_records s
  /\ in_submit_idempotency s' = in_submit_idempotency s.
Proof.
  intros Hr Hc Ha. destruct c; cbn in Hc; try discriminate; injection Hc as Hk; cbn in Ha;
    repeat match type of Ha with ex _ => destruct Ha as [? Ha] | fresh_turn_for _ _ /\ _ => destruct Ha as [_ Ha] end.
  - subst. unfold claim_submit in Ha. rewrite Hr in Ha. destruct a as [r |]; [| done].
    by injection Ha as <- <-.
  - unfold reject_lineage, unless_replied in Ha. rewrite Hk, Hr in Ha. by injection Ha as <- <-.
  - unfold child_template, unless_replied in Ha. rewrite Hk, Hr in Ha. by injection Ha as <- <-.
  - unfold admit_submit, unless_replied in Ha. rewrite Hk, Hr in Ha. by injection Ha as <- <-.
  - unfold commit_submit, unless_replied in Ha. rewrite Hk, Hr in Ha. by injection Ha as <- <-.
  - unfold commit_child, unless_replied in Ha. rewrite Hk, Hr in Ha. by injection Ha as <- <-.
Qed.

Lemma accepted_remembered q resolution s resp s' :
  turns_wf s -> 0 < tsl_max_idempotency_records (in_limits s) ->
  turn_answers limit_for (CommitSubmit q resolution) s (Ok resp) s' ->
  in_submit_idempotency s' !! submit_key (sr_scope q) (sr_idempotency_key q) = Some (Ok resp).
Proof.
  intros Hwf Hmax Ha. set (key := submit_key _ _).
 destruct (in_submit_idempotency s !! key) as [reply |] eqn:Hr.
  - destruct (submission_replays key reply (CommitSubmit q resolution) _ _ _ Hr eq_refl Ha) as (Hreply & _ & Hm).
    cbn in Hreply. subst reply. by rewrite Hm.
  - destruct Ha as (fresh & clk & Hf & Ha).
    destruct (commit_accepted limit_for _ _ _ _ _ _ _ Hr Ha)
      as (r & s1 & _ & _ & _ & _ & _ & _ & _ & _ & Hm1 & Ho1 & Hl1 & Hs').
    apply (f_equal snd) in Hs'. cbn in Hs'. rewrite <- Hs'.
    apply remembered_submit; [| by rewrite Hl1]. rewrite Hl1, Hm1, Ho1. apply (wf_memories s Hwf).
Qed.

(** A reply stays as it is until it is dropped from a full memory. *)
Lemma reply_remembered s s' key reply :
  changes s s' -> in_submit_idempotency s !! key = Some reply ->
  in_submit_idempotency s' !! key = Some reply
  \/ exists s1, changes s s1 /\ changes s1 s' /\ in_submit_idempotency s1 !! key = None /\ memory_full s1.
Proof.
  induction 1 as [s | s s1 s' Hone Hrest IH]; intros Hk; [by left |].
  destruct (change_replies _ _ Hone key reply Hk) as [Hk1 | [Hno Hfull]].
  - destruct (IH Hk1) as [| (s2 & Hs1 & Hs2 & Hno)]; [by left | right].
    exists s2. split; [by eapply rtc_l | done].
  - right. exists s1. by split; [apply rtc_once |].
Qed.

(** [C10] Submitted once.  When a reachable store that keeps replies at all accepts a
    submission, it remembers the reply under the submission's scope and idempotency key.
    From then on, whatever the tasks do until the store is restarted: either the reply
    is still remembered, and every call of a submission under the key, by whatever task
    and with whatever request, is answered with that reply, creates no run and leaves the
    memory as it is; or at some moment in between the reply had been dropped from a memory
    that was full, holding as many replies of other submissions as configured. *)
Theorem submitted_once q resolution s resp s' pool pool' :
  reachable limit_for s -> 0 < tsl_max_idempotency_records (in_limits s) ->
  turn_answers limit_for (CommitSubmit q resolution) s (Ok resp) s' ->
  pool_world pool = s' -> rtc (pool_step (R := unit) (turn_answers limit_for) (fun _ _ => False)) pool pool' ->
  let key := submit_key (sr_scope q) (sr_idempotency_key q) in
  let later := pool_world pool' in
  in_submit_idempotency s' !! key = Some (Ok resp)
  /\ ((in_submit_idempotency later !! key = Some (Ok resp)
       /\ forall c a s'', submission_key c = Some key -> turn_answers limit_for c later a s'' ->
            replayed (Ok resp) c a /\ in_records s'' = in_records later
            /\ in_submit_idempotency s'' = in_submit_idempotency later)
      \/ exists s1, changes s' s1 /\ changes s1 later
           /\ in_submit_idempotency s1 !! key = None /\ memory_full s1).
Proof.
  intros Hwf%reachable_wf Hmax Ha <- Hrun key later.
  assert (turns_wf (pool_world pool)) as Hwf' by (eapply wf_changes; [exact Hwf | by eapply call_changes]).
  pose proof (accepted_remembered q resolution s resp _ Hwf Hmax Ha) as Hk. split; [done |].
  destruct (reply_remembered _ later key _ (pool_changes _ _ _ Hwf' Hrun) Hk) as [Hl | Hgone]; [left | by right].
  split; [done |]. intros c a s'' Hc Ha'. by apply (submission_replays key).
Qed.
End replay.
