(* ===== verification/TurnCoordinator.v ===== *)
(** * Turn coordination

    Models [ironclaw_turns/src/lifecycle.rs] and [coordinator.rs]: the event bus, the store
    that publishes what was committed, and the coordinator over either store.  The methods
    are programs: their calls are the regions of the turn store, the subscribers, the two
    mutexes of the publishing store, the clock, the prepared run ids and the notifier.  A
    poisoned mutex is not modelled. *)

From S2P Require Import Prelude Ids Platform HostApi Capability Obligations Programs Collections Turns TurnLimiter TurnEvents TurnStore TurnOps TurnRunner TurnCalls.
Local Open Scope N_scope.
Local Open Scope record_scope.
Local Open Scope prog_scope.

(** A subscriber is a shared object; here the number it is known by. *)
Abbreviation TurnObserver := N.
Abbreviation TurnSink := N.

Section coordination.
Context `{TurnPayload} `{Platform}.

Abbreviation TResult T := (Result T TurnError).

Definition MAX_DELIVERED_EVENT_CURSORS : N := 4096.
Definition MAX_PREPARED_RUN_IDS : N := 4096.

(** ** Subscribers and wakes *)

(** [TurnLifecycleEventSubscribers] *)
Record Subscribers := { sub_required : list TurnObserver; sub_best_effort : list TurnSink }.

Definition subscribe_required (observer : TurnObserver) (subs : Subscribers) : Subscribers :=
  {| sub_required := sub_required subs ++ [observer]; sub_best_effort := sub_best_effort subs |}.

Definition subscribe_best_effort (sink : TurnSink) (subs : Subscribers) : Subscribers :=
  {| sub_required := sub_required subs; sub_best_effort := sub_best_effort subs ++ [sink] |}.

Record TurnRunWake := {
  wk_scope : TurnScope;
  wk_run_id : TurnRunId;
  wk_status : TurnStatus;
  wk_event_cursor : EventCursor;
}.

(** What [notify_queued_run] comes to; a panic is caught. *)
Inductive WakeOutcome := WakeSent | WakeDeliveryUnavailable | WakePanicked.

(** ** The shared state *)

Record CoordWorld := {
  cw_store : Inner;
  cw_subscribers : Subscribers;
  cw_delivered : gset EventCursor;
  cw_deferred : gmap EventCursor TurnError;
  cw_prepared : gmap TurnRunId TurnScope;
}.

#[export] Instance CoordWorld_eta : Eta CoordWorld := fun w => {|
  cw_store := cw_store w; cw_subscribers := cw_subscribers w; cw_delivered := cw_delivered w;
  cw_deferred := cw_deferred w; cw_prepared := cw_prepared w |}.

#[export] Instance set_cw_store : Setter cw_store := ltac:(setter).
#[export] Instance set_cw_subscribers : Setter cw_subscribers := ltac:(setter).
#[export] Instance set_cw_delivered : Setter cw_delivered := ltac:(setter).
#[export] Instance set_cw_deferred : Setter cw_deferred := ltac:(setter).
#[export] Instance set_cw_prepared : Setter cw_prepared := ltac:(setter).

(** A new coordinator over a store, without subscribers. *)
Definition new_coordinator (s : Inner) : CoordWorld := {|
  cw_store := s; cw_subscribers := {| sub_required := []; sub_best_effort := [] |};
  cw_delivered := ∅; cw_deferred := ∅; cw_prepared := ∅ |}.

Definition try_begin_publish (cursor : EventCursor) (delivered : gset EventCursor) : bool :=
  negb (bool_decide (cursor ∈ delivered)).

(** A full set is emptied first. *)
Definition mark_event_cursor_delivered (cursor : EventCursor) (delivered : gset EventCursor) :
    gset EventCursor :=
  {[cursor]} ∪ (if MAX_DELIVERED_EVENT_CURSORS <=? N.of_nat (size delivered) then ∅ else delivered).

Definition take_lifecycle_publication_error (cursor : EventCursor)
    (errors : gmap EventCursor TurnError) : option TurnError * gmap EventCursor TurnError :=
  (errors !! cursor, delete cursor errors).

Definition record_prepared_run_id (id : TurnRunId) (scope : TurnScope)
    (prepared : gmap TurnRunId TurnScope) : TResult unit * gmap TurnRunId TurnScope :=
  if MAX_PREPARED_RUN_IDS <=? N.of_nat (size prepared)
  then (Err (TurnCapacityExceeded SubmitTurnCapacity MAX_PREPARED_RUN_IDS), prepared)
  else (Ok tt, <[id := scope]> prepared).

Definition consume_prepared_run_id (id : TurnRunId) (prepared : gmap TurnRunId TurnScope) :
    option TurnScope * gmap TurnRunId TurnScope :=
  (prepared !! id, delete id prepared).

(** ** Calls *)

Inductive CoordCall :=
  (* of the store behind *)
  | StoreCall (c : TurnCall)
  (* of the event bus and its subscribers *)
  | SubscribeRequired (observer : TurnObserver)
  | SubscribeBestEffort (sink : TurnSink)
  | SubscriberSnapshot
  | ObservesEvent (observer : TurnObserver) (e : TurnLifecycleEvent)
  | ObserveEvent (observer : TurnObserver) (e : TurnLifecycleEvent)
  | ObservesState (observer : TurnObserver) (state : TurnRunState)
  | ObserveState (observer : TurnObserver) (state : TurnRunState)
  | SinkPublish (sink : TurnSink) (e : TurnLifecycleEvent)
  (* of the publishing store *)
  | TryBeginPublish (cursor : EventCursor)
  | MarkDelivered (cursor : EventCursor)
  | DeferError (cursor : EventCursor) (e : TurnError)
  | TakeError (cursor : EventCursor)
  | ReadNow
  (* of the coordinator *)
  | NewRunId
  | RecordPrepared (id : TurnRunId) (scope : TurnScope)
  | ConsumePrepared (id : TurnRunId)
  | NotifyQueuedRun (wake : TurnRunWake).

Definition CoordAnswer (c : CoordCall) : Type :=
  match c with
  | StoreCall c => TurnAnswer c
  | SubscribeRequired _ | SubscribeBestEffort _ | MarkDelivered _ | DeferError _ _ => unit
  | SubscriberSnapshot => Subscribers
  | ObservesEvent _ _ | ObservesState _ _ | TryBeginPublish _ => bool
  | ObserveEvent _ _ | ObserveState _ _ | SinkPublish _ _ | RecordPrepared _ _ => TResult unit
  | TakeError _ => option TurnError
  | ReadNow => TurnTimestamp
  | NewRunId => TurnRunId
  | ConsumePrepared _ => option TurnScope
  | NotifyQueuedRun _ => WakeOutcome
  end.

(** What a call may be answered, and the world after it.  Subscribers, clock, new ids and
    notifier are free; what a subscriber itself calls is a step of another task. *)
Definition coord_answers (limit_for : LimitProvider) (c : CoordCall) (w : CoordWorld) :
    CoordAnswer c -> CoordWorld -> Prop :=
  match c return CoordAnswer c -> CoordWorld -> Prop with
  | StoreCall c => fun a w' => exists s',
      turn_answers limit_for c (cw_store w) a s' /\ w' = w <| cw_store := s' |>
  | SubscribeRequired o => fun _ w' => w' = w <| cw_subscribers ::= subscribe_required o |>
  | SubscribeBestEffort k => fun _ w' => w' = w <| cw_subscribers ::= subscribe_best_effort k |>
  | SubscriberSnapshot => fun a w' => a = cw_subscribers w /\ w' = w
  | TryBeginPublish cursor => fun a w' => a = try_begin_publish cursor (cw_delivered w) /\ w' = w
  | MarkDelivered cursor => fun _ w' =>
      w' = w <| cw_delivered ::= mark_event_cursor_delivered cursor |>
  | DeferError cursor e => fun _ w' => w' = w <| cw_deferred ::= insert cursor e |>
  | TakeError cursor => fun a w' => exists errors,
      take_lifecycle_publication_error cursor (cw_deferred w) = (a, errors)
      /\ w' = w <| cw_deferred := errors |>
  | RecordPrepared id scope => fun a w' => exists prepared,
      record_prepared_run_id id scope (cw_prepared w) = (a, prepared)
      /\ w' = w <| cw_prepared := prepared |>
  | ConsumePrepared id => fun a w' => exists prepared,
      consume_prepared_run_id id (cw_prepared w) = (a, prepared)
      /\ w' = w <| cw_prepared := prepared |>
  | ObservesEvent _ _ | ObserveEvent _ _ | ObservesState _ _ | ObserveState _ _ | SinkPublish _ _
  | ReadNow | NewRunId | NotifyQueuedRun _ => fun _ w' => w' = w
  end.

Abbreviation CoordProg R := (Prog (C := CoordCall) CoordAnswer R).

(** A program of the turn store, its regions now calls of the store behind. *)
Fixpoint on_store {R} (p : Prog (C := TurnCall) TurnAnswer R) : CoordProg R :=
  match p with
  | Ret r => Ret r
  | Ask c k => Ask (StoreCall c) (fun a => on_store (k a))
  end.

Definition store_ask (c : TurnCall) : CoordProg (TurnAnswer c) := on_store (ask c).

(** ** The event bus *)

(** The loop over the required observers: all are asked, the first error is kept. *)
Fixpoint run_observers (observes : TurnObserver -> CoordProg bool)
    (observe : TurnObserver -> CoordProg (TResult unit)) (observers : list TurnObserver)
    (first : option TurnError) : CoordProg (option TurnError) :=
  match observers with
  | [] => Ret first
  | o :: rest =>
      let* wanted := observes o in
      if wanted
      then let* r := observe o in
           run_observers observes observe rest
             match r, first with Err e, None => Some e | _, _ => first end
      else run_observers observes observe rest first
  end.

Fixpoint fanout_best_effort (sinks : list TurnSink) (e : TurnLifecycleEvent) : CoordProg unit :=
  match sinks with
  | [] => Ret tt
  | k :: rest => Ask (SinkPublish k e) (fun _ => fanout_best_effort rest e)
  end.

(** What [publish_event] and [publish_state] share. *)
Definition fan_out (observes : TurnObserver -> CoordProg bool)
    (observe : TurnObserver -> CoordProg (TResult unit)) (e : TurnLifecycleEvent) :
    CoordProg (TResult unit) :=
  Ask SubscriberSnapshot (fun subs =>
    let* first := run_observers observes observe (sub_required subs) None in
    let* _ := fanout_best_effort (sub_best_effort subs) e in
    Ret match first with Some error => Err error | None => Ok tt end).

Definition publish_event (e : TurnLifecycleEvent) : CoordProg (TResult unit) :=
  fan_out (fun o => ask (ObservesEvent o e)) (fun o => ask (ObserveEvent o e)) e.

Definition publish_state (state : TurnRunState) (e : TurnLifecycleEvent) : CoordProg (TResult unit) :=
  fan_out (fun o => ask (ObservesState o state)) (fun o => ask (ObserveState o state)) e.

(** ** The publishing store *)

(** Its errors are those of a poisoned mutex. *)
Definition publish_event_once_deferred (e : TurnLifecycleEvent) : CoordProg unit :=
  Ask (TryBeginPublish (ev_cursor e)) (fun should_publish : bool =>
    if should_publish
    then let* r := publish_event e in
         match r with
         | Ok _ => ask (MarkDelivered (ev_cursor e))
         | Err error => ask (DeferError (ev_cursor e) error)
         end
    else Ret tt).

Definition publish_state_once (state : TurnRunState) (e : TurnLifecycleEvent) :
    CoordProg (TResult unit) :=
  Ask (TryBeginPublish (ev_cursor e)) (fun should_publish : bool =>
    if should_publish
    then let* r := publish_state state e in
         match r with
         | Ok _ => Ask (MarkDelivered (ev_cursor e)) (fun _ => Ret (Ok tt))
         | Err error => Ret (Err error)
         end
    else Ret (Ok tt)).

Definition publish_state_once_best_effort (state : TurnRunState) (e : TurnLifecycleEvent) :
    CoordProg unit :=
  prog_map (fun _ => tt) (publish_state_once state e).

(** *** The events *)

(** The event of a coordinator's operation: no gate, no retry flag, no detail. *)
Definition coordinator_event (cursor : EventCursor) (scope : TurnScope) (at_ : TurnTimestamp)
    (actor : option TurnActor) (id : TurnRunId) (status : TurnStatus) (kind : TurnEventKind)
    (reason : option string) : TurnLifecycleEvent := {|
  ev_cursor := cursor; ev_scope := scope; ev_occurred_at := Some at_;
  ev_owner_user_id := lifecycle_owner_user_id scope (ta_user_id <$> actor);
  ev_run_id := id; ev_status := status; ev_kind := kind; ev_blocked_gate := None;
  ev_sanitized_reason := reason; ev_retryable := None; ev_detail := None |}.

Definition submit_event (q : SubmitTurnRequest) (r : SubmitTurnResponse) : TurnLifecycleEvent :=
  coordinator_event (sa_event_cursor r) (sr_scope q) (sr_received_at q) (Some (sr_actor q))
    (sa_run_id r) (sa_status r) EvSubmitted None.

Definition child_submit_event (q : SubmitChildRunRequest) (r : SubmitTurnResponse) :
    TurnLifecycleEvent :=
  coordinator_event (sa_event_cursor r) (cr_child_scope q) (cr_received_at q) (Some (cr_actor q))
    (sa_run_id r) (sa_status r) EvSubmitted None.

Definition resume_event (q : ResumeTurnRequest) (r : ResumeTurnResponse) (now : TurnTimestamp) :
    TurnLifecycleEvent :=
  coordinator_event (rs_event_cursor r) (rq_scope q) now (Some (rq_actor q))
    (rs_run_id r) (rs_status r) EvResumed None.

Definition retry_event (q : RetryTurnRequest) (r : RetryTurnResponse) (now : TurnTimestamp) :
    TurnLifecycleEvent :=
  coordinator_event (rt_event_cursor r) (ry_scope q) now (Some (ry_actor q))
    (rt_run_id r) (rt_status r) EvResumed None.

Definition cancel_event (q : CancelRunRequest) (r : CancelRunResponse) (now : TurnTimestamp) :
    option TurnLifecycleEvent :=
  if cn_already_terminal r then None
  else Some (coordinator_event (cn_event_cursor r) (cq_scope q) now (cn_actor r)
    (cn_run_id r) (cn_status r)
    (if decide (cn_status r = TurnCancelRequested) then EvCancelRequested else EvCancelled)
    (Some (cancel_reason_category (cq_reason q)))).

Definition event_kind_for_state (state : TurnRunState) : TurnEventKind :=
  match rst_status state with
  | TurnRunning => EvRunnerClaimed
  | TurnBlockedApproval | TurnBlockedAuth | TurnBlockedResource | TurnBlockedDependentRun
  | TurnBlockedExternalTool => EvBlocked
  | TurnCompleted => EvCompleted
  | TurnCancelled => EvCancelled
  | TurnFailed => EvFailed
  | TurnRecoveryRequired => EvRecoveryRequired
  | TurnQueued | TurnCancelRequested => EvRunnerHeartbeat
  end.

Definition sanitized_reason_for_state (state : TurnRunState) : option string :=
  match rst_status state with
  | TurnFailed | TurnRecoveryRequired => sf_category <$> rst_failure state
  | _ => None
  end.

(** The event for whatever state a transition led to. *)
Definition event_for_state (state : TurnRunState) (now : TurnTimestamp) : TurnLifecycleEvent :=
  event_from_run_state state (event_kind_for_state state) (sanitized_reason_for_state state) now.

(** *** The interfaces *)

(** [TurnStateStore] with [TurnSpawnTreeStateStore]. *)
Class TurnStateStore := {
  store_submit_turn : SubmitTurnRequest -> CoordProg (TResult SubmitTurnResponse);
  store_resume_turn : ResumeTurnRequest -> CoordProg (TResult ResumeTurnResponse);
  store_retry_turn : RetryTurnRequest -> CoordProg (TResult RetryTurnResponse);
  store_request_cancel : CancelRunRequest -> CoordProg (TResult CancelRunResponse);
  store_get_run_state : TurnScope -> TurnRunId -> CoordProg (TResult TurnRunState);
  store_submit_child_turn : SubmitChildRunRequest -> CoordProg (TResult SubmitTurnResponse);
  store_get_run_state_for_cancellation : TurnScope -> TurnRunId -> CoordProg (TResult TurnRunState);
  store_children_of : TurnScope -> TurnRunId -> CoordProg (TResult (list TurnRunRecord));
  store_get_run_record : TurnScope -> TurnRunId -> CoordProg (TResult (option TurnRunRecord));
  store_reserve_tree_descendants : TurnScope -> TurnRunId -> N -> N -> CoordProg (TResult SpawnTreeReservation);
  store_release_tree_descendants : TurnScope -> TurnRunId -> N -> TurnRunId -> CoordProg (TResult unit);
  store_prune_released_child : TurnScope -> TurnRunId -> TurnRunId -> CoordProg (TResult unit);
}.

(** [TurnRunTransitionPort] *)
Class TurnRunTransitionPort := {
  port_claim_next_run : TurnRunnerId -> TurnLeaseToken -> option TurnScope ->
    CoordProg (TResult (option ClaimedTurnRun));
  port_claim_next_runs : TurnRunnerId -> option TurnScope -> nat ->
    CoordProg (TResult (list ClaimedTurnRun));
  port_heartbeat : LeaseClaim -> CoordProg (TResult EventCursor);
  port_recover_expired_leases : TurnTimestamp -> option TurnScope -> CoordProg (list TurnRunState);
  port_latest_resumable_checkpoint : TurnScope -> TurnId -> TurnRunId ->
    CoordProg (TResult (option TurnCheckpointId));
  port_record_model_route_snapshot : LeaseClaim -> LoopModelRouteSnapshot ->
    CoordProg (TResult TurnRunState);
  port_block_run : LeaseClaim -> TurnCheckpointId -> LoopCheckpointStateRef -> BlockedReason ->
    CoordProg (TResult TurnRunState);
  port_complete_run : LeaseClaim -> CoordProg (TResult TurnRunState);
  port_cancel_run : LeaseClaim -> CoordProg (TResult TurnRunState);
  port_fail_run : LeaseClaim -> SanitizedFailure -> CoordProg (TResult TurnRunState);
  port_record_runner_failure : LeaseClaim -> SanitizedFailure -> CoordProg (TResult TurnRunState);
  port_relinquish_run : LeaseClaim -> CoordProg (TResult TurnRunState);
  port_apply_validated_loop_exit : LeaseClaim -> LoopExitMapping -> CoordProg (TResult TurnRunState);
}.

Class LifecyclePublicationErrorPort :=
  take_publication_error : EventCursor -> CoordProg (option TurnError).

(** The in-memory store itself, with [NoopLifecyclePublicationErrorPort]. *)
Definition plain_store : TurnStateStore := {|
  store_submit_turn := fun q => on_store (submit_turn q);
  store_resume_turn := fun q => store_ask (ResumeTurn q);
  store_retry_turn := fun q => store_ask (RetryTurn q);
  store_request_cancel := fun q => store_ask (RequestCancel q);
  store_get_run_state := fun scope id => store_ask (ReadStore _ (get_run_state scope id));
  store_submit_child_turn := fun q => on_store (submit_child_turn q);
  store_get_run_state_for_cancellation := fun scope id => store_ask (ReadStore _ (get_run_state scope id));
  store_children_of := fun scope id => store_ask (ReadStore _ (children_of scope id));
  store_get_run_record := fun scope id => store_ask (ReadStore _ (get_run_record scope id));
  store_reserve_tree_descendants := fun scope root delta cap => store_ask (ReserveTree scope root delta cap);
  store_release_tree_descendants := fun scope root delta child => store_ask (ReleaseTree scope root delta child);
  store_prune_released_child := fun scope root child => store_ask (PruneReleasedChild scope root child) |}.

Definition plain_port : TurnRunTransitionPort := {|
  port_claim_next_run := fun runner token scope => store_ask (ClaimNextRun runner token scope);
  port_claim_next_runs := fun runner scope max => store_ask (ClaimNextRuns runner scope max);
  port_heartbeat := fun c => store_ask (Heartbeat c);
  port_recover_expired_leases := fun now scope => store_ask (RecoverExpired now scope);
  port_latest_resumable_checkpoint := fun scope turn id =>
    store_ask (ReadStore _ (fun s => Ok (latest_resumable_loop_checkpoint scope turn id s)));
  port_record_model_route_snapshot := fun c snapshot => store_ask (RecordModelRoute c snapshot);
  port_block_run := fun c checkpoint state_ref reason => store_ask (BlockRun c checkpoint state_ref reason);
  port_complete_run := fun c => store_ask (CompleteRun c);
  port_cancel_run := fun c => store_ask (CancelRun c);
  port_fail_run := fun c failure => store_ask (FailRun c failure);
  port_record_runner_failure := fun c failure => store_ask (RunnerFailure c failure);
  port_relinquish_run := fun c => store_ask (RelinquishRun c);
  port_apply_validated_loop_exit := fun c mapping => store_ask (ApplyLoopExit c mapping) |}.

Definition noop_error_port : LifecyclePublicationErrorPort := fun _ => Ret None.

(** *** The decorator *)

(** An operation of the store, then the publication of what it announces. *)
Definition then_publish {T} (operation : CoordProg (TResult T))
    (publish : T -> CoordProg unit) : CoordProg (TResult T) :=
  let* result := operation in
  match result with
  | Ok response => let* _ := publish response in Ret (Ok response)
  | Err e => Ret (Err e)
  end.

(** A loop over states that were committed together: each is published at its own reading
    of the clock, whatever becomes of the others. *)
Definition publish_each {A} (state_of : A -> TurnRunState)
    (event : A -> TurnTimestamp -> TurnLifecycleEvent) (items : list A) : CoordProg unit :=
  foldr (fun x rest => Ask ReadNow (fun now =>
    let* _ := publish_state_once_best_effort (state_of x) (event x now) in rest)) (Ret tt) items.

Definition publish_claims : list ClaimedTurnRun -> CoordProg unit :=
  publish_each cl_state (fun claimed => event_from_run_state (cl_state claimed) EvRunnerClaimed None).

Definition publish_recovered : list TurnRunState -> CoordProg unit :=
  publish_each (fun state => state) event_for_state.

(** A transition, then its state published; an observer's error is the answer. *)
Definition publish_transition (operation : CoordProg (TResult TurnRunState))
    (event : TurnRunState -> TurnTimestamp -> TurnLifecycleEvent) : CoordProg (TResult TurnRunState) :=
  let* result := operation in
  match result with
  | Ok state => Ask ReadNow (fun now =>
      let* published := publish_state_once state (event state now) in
      match published with
      | Ok _ => Ret (Ok state)
      | Err e => Ret (Err e)
      end)
  | Err e => Ret (Err e)
  end.

Section publishing.
Variable inner : TurnStateStore.
Variable inner_port : TurnRunTransitionPort.

Definition publishing_store : TurnStateStore := {|
  store_submit_turn := fun q => then_publish (@store_submit_turn inner q) (fun r =>
    publish_event_once_deferred (submit_event q r));
  store_resume_turn := fun q => then_publish (@store_resume_turn inner q) (fun r =>
    Ask ReadNow (fun now => publish_event_once_deferred (resume_event q r now)));
  store_retry_turn := fun q => then_publish (@store_retry_turn inner q) (fun r =>
    Ask ReadNow (fun now => publish_event_once_deferred (retry_event q r now)));
  store_request_cancel := fun q => then_publish (@store_request_cancel inner q) (fun r =>
    Ask ReadNow (fun now => match cancel_event q r now with
                            | Some e => publish_event_once_deferred e
                            | None => Ret tt
                            end));
  store_get_run_state := @store_get_run_state inner;
  store_submit_child_turn := fun q => then_publish (@store_submit_child_turn inner q) (fun r =>
    publish_event_once_deferred (child_submit_event q r));
  store_get_run_state_for_cancellation := @store_get_run_state_for_cancellation inner;
  store_children_of := @store_children_of inner;
  store_get_run_record := @store_get_run_record inner;
  store_reserve_tree_descendants := @store_reserve_tree_descendants inner;
  store_release_tree_descendants := @store_release_tree_descendants inner;
  store_prune_released_child := @store_prune_released_child inner |}.

Definition publishing_port : TurnRunTransitionPort := {|
  port_claim_next_run := fun runner token scope =>
    then_publish (@port_claim_next_run inner_port runner token scope) (fun claimed =>
      publish_claims (match claimed with Some c => [c] | None => [] end));
  port_claim_next_runs := fun runner scope max =>
    then_publish (@port_claim_next_runs inner_port runner scope max) publish_claims;
  port_heartbeat := @port_heartbeat inner_port;
  port_recover_expired_leases := fun q_now scope =>
    let* recovered := @port_recover_expired_leases inner_port q_now scope in
    let* _ := publish_recovered recovered in Ret recovered;
  port_latest_resumable_checkpoint := @port_latest_resumable_checkpoint inner_port;
  port_record_model_route_snapshot := @port_record_model_route_snapshot inner_port;
  port_block_run := fun c checkpoint state_ref reason =>
    publish_transition (@port_block_run inner_port c checkpoint state_ref reason)
      (fun state => event_from_run_state state EvBlocked None);
  port_complete_run := fun c => publish_transition (@port_complete_run inner_port c)
      (fun state => event_from_run_state state EvCompleted None);
  port_cancel_run := fun c => publish_transition (@port_cancel_run inner_port c)
      (fun state => event_from_run_state state EvCancelled None);
  port_fail_run := fun c failure => publish_transition (@port_fail_run inner_port c failure)
      (fun state => event_from_run_state state EvFailed (sanitized_reason_for_state state));
  port_record_runner_failure := fun c failure =>
    publish_transition (@port_record_runner_failure inner_port c failure) event_for_state;
  port_relinquish_run := fun c =>
    publish_transition (@port_relinquish_run inner_port c) event_for_state;
  port_apply_validated_loop_exit := fun c mapping =>
    publish_transition (@port_apply_validated_loop_exit inner_port c mapping) event_for_state |}.
End publishing.

Definition deferred_error_port : LifecyclePublicationErrorPort := fun cursor => ask (TakeError cursor).

(** ** The coordinator *)

Definition submit_wake (scope : TurnScope) (r : SubmitTurnResponse) : TurnRunWake := {|
  wk_scope := scope; wk_run_id := sa_run_id r; wk_status := sa_status r;
  wk_event_cursor := sa_event_cursor r |}.

Definition resume_wake (scope : TurnScope) (r : ResumeTurnResponse) : TurnRunWake := {|
  wk_scope := scope; wk_run_id := rs_run_id r; wk_status := rs_status r;
  wk_event_cursor := rs_event_cursor r |}.

Definition retry_wake (scope : TurnScope) (r : RetryTurnResponse) : TurnRunWake := {|
  wk_scope := scope; wk_run_id := rt_run_id r; wk_status := rt_status r;
  wk_event_cursor := rt_event_cursor r |}.

Definition cancel_wake (scope : TurnScope) (r : CancelRunResponse) : TurnRunWake := {|
  wk_scope := scope; wk_run_id := cn_run_id r; wk_status := cn_status r;
  wk_event_cursor := cn_event_cursor r |}.

(** An error or a panic of the notifier is logged and no more. *)
Definition notify_queued_run_best_effort (wake : TurnRunWake) : CoordProg unit :=
  Ask (NotifyQueuedRun wake) (fun _ => Ret tt).

Section coordinator.
Variable store : TurnStateStore.
Variable port : LifecyclePublicationErrorPort.

Definition deferred_publication_error (cursor : EventCursor) : CoordProg (TResult unit) :=
  let* error := take_publication_error cursor in
  Ret match error with Some e => Err e | None => Ok tt end.

(** What follows a committed operation: the wake, then the error kept for its cursor. *)
Definition concluded {T} (wake : option TurnRunWake) (cursor : option EventCursor) (response : T) :
    CoordProg (TResult T) :=
  let* _ := match wake with Some wake => notify_queued_run_best_effort wake | None => Ret tt end in
  match cursor with
  | Some cursor =>
      let* deferred := deferred_publication_error cursor in
      Ret match deferred with Ok _ => Ok response | Err e => Err e end
  | None => Ret (Ok response)
  end.

Definition then_conclude {T} (operation : CoordProg (TResult T))
    (conclude : T -> CoordProg (TResult T)) : CoordProg (TResult T) :=
  let* result := operation in
  match result with
  | Ok response => conclude response
  | Err e => Ret (Err e)
  end.

Definition prepare_turn (scope : TurnScope) : CoordProg (TResult TurnRunId) :=
  Ask NewRunId (fun id : TurnRunId =>
  Ask (RecordPrepared id scope) (fun recorded : TResult unit =>
    Ret match recorded with Ok _ => Ok id | Err e => Err e end)).

Definition abort_prepared_turn (id : TurnRunId) : CoordProg (TResult unit) :=
  Ask (ConsumePrepared id) (fun _ => Ret (Ok tt)).

(** An id prepared under another scope may only name a child run. *)
Definition prepared_elsewhere (q : SubmitTurnRequest) (prepared : option TurnScope) : bool :=
  match prepared with
  | Some scope => negb (bool_decide (is_Some (sr_parent_run_id q)))
                  && negb (bool_decide (scope = sr_scope q))
  | None => false
  end.

Definition submit_and_wake (q : SubmitTurnRequest) : CoordProg (TResult SubmitTurnResponse) :=
  then_conclude (store_submit_turn q) (fun r =>
    concluded (Some (submit_wake (sr_scope q) r)) (Some (sa_event_cursor r)) r).

Definition coordinator_submit_turn (q : SubmitTurnRequest) : CoordProg (TResult SubmitTurnResponse) :=
  let* prepared := (match sr_requested_run_id q with
                    | Some requested => ask (ConsumePrepared requested)
                    | None => Ret None
                    end : CoordProg (option TurnScope)) in
  if prepared_elsewhere q prepared then Ret (Err TurnUnauthorized) else submit_and_wake q.

Definition coordinator_resume_turn (q : ResumeTurnRequest) : CoordProg (TResult ResumeTurnResponse) :=
  then_conclude (store_resume_turn q) (fun r =>
    concluded (Some (resume_wake (rq_scope q) r)) (Some (rs_event_cursor r)) r).

Definition coordinator_retry_turn (q : RetryTurnRequest) : CoordProg (TResult RetryTurnResponse) :=
  then_conclude (store_retry_turn q) (fun r =>
    concluded (Some (retry_wake (ry_scope q) r)) (Some (rt_event_cursor r)) r).

Definition coordinator_cancel_run (q : CancelRunRequest) : CoordProg (TResult CancelRunResponse) :=
  then_conclude (store_request_cancel q) (fun r =>
    concluded
      (if bool_decide (cn_status r = TurnCancelRequested) || turn_is_terminal (cn_status r)
       then Some (cancel_wake (cq_scope q) r) else None)
      (if cn_already_terminal r then None else Some (cn_event_cursor r)) r).

Definition coordinator_get_run_state : TurnScope -> TurnRunId -> CoordProg (TResult TurnRunState) :=
  store_get_run_state.

Definition submit_child_run (q : SubmitChildRunRequest) : CoordProg (TResult SubmitTurnResponse) :=
  then_conclude (store_submit_child_turn q) (fun r =>
    concluded (Some (submit_wake (cr_child_scope q) r)) (Some (sa_event_cursor r)) r).
End coordinator.

(** ** What a task does

    The production runtime puts the coordinator and the runner over one publishing store. *)

Definition published_store : TurnStateStore := publishing_store plain_store.
Definition published_port : TurnRunTransitionPort := publishing_port plain_port.

Inductive CoordTask :=
  | Subscribes (observer : TurnObserver)
  | SubscribesSink (sink : TurnSink)
  | PreparesTurn (scope : TurnScope)
  | AbortsPrepared (id : TurnRunId)
  | SubmitsTurn (q : SubmitTurnRequest)
  | SubmitsChildRun (q : SubmitChildRunRequest)
  | ResumesTurn (q : ResumeTurnRequest)
  | RetriesTurn (q : RetryTurnRequest)
  | CancelsTurn (q : CancelRunRequest)
  | RunnerClaims (runner : TurnRunnerId) (token : TurnLeaseToken) (scope : option TurnScope)
  | RunnerClaimsMany (runner : TurnRunnerId) (scope : option TurnScope) (max : nat)
  | RunnerBlocks (c : LeaseClaim) (checkpoint : TurnCheckpointId) (state_ref : LoopCheckpointStateRef)
      (reason : BlockedReason)
  | RunnerCompletes (c : LeaseClaim)
  | RunnerCancels (c : LeaseClaim)
  | RunnerFails (c : LeaseClaim) (failure : SanitizedFailure)
  | RunnerRecordsFailure (c : LeaseClaim) (failure : SanitizedFailure)
  | RunnerRelinquishes (c : LeaseClaim)
  | RunnerExits (c : LeaseClaim) (mapping : LoopExitMapping)
  | RecoversLeases (q_now : TurnTimestamp) (scope : option TurnScope)
  (* any other region of the store, which publishes nothing *)
  | OtherStoreCall (c : TurnCall).

Definition finished {T} (p : CoordProg T) : CoordProg unit := prog_map (fun _ => tt) p.

Definition coord_program (t : CoordTask) : CoordProg unit :=
  match t with
  | Subscribes o => ask (SubscribeRequired o)
  | SubscribesSink k => ask (SubscribeBestEffort k)
  | PreparesTurn scope => finished (prepare_turn scope)
  | AbortsPrepared id => finished (abort_prepared_turn id)
  | SubmitsTurn q => finished (coordinator_submit_turn published_store deferred_error_port q)
  | SubmitsChildRun q => finished (submit_child_run published_store deferred_error_port q)
  | ResumesTurn q => finished (coordinator_resume_turn published_store deferred_error_port q)
  | RetriesTurn q => finished (coordinator_retry_turn published_store deferred_error_port q)
  | CancelsTurn q => finished (coordinator_cancel_run published_store deferred_error_port q)
  | RunnerClaims runner token scope => finished (@port_claim_next_run published_port runner token scope)
  | RunnerClaimsMany runner scope max => finished (@port_claim_next_runs published_port runner scope max)
  | RunnerBlocks c checkpoint state_ref reason =>
      finished (@port_block_run published_port c checkpoint state_ref reason)
  | RunnerCompletes c => finished (@port_complete_run published_port c)
  | RunnerCancels c => finished (@port_cancel_run published_port c)
  | RunnerFails c failure => finished (@port_fail_run published_port c failure)
  | RunnerRecordsFailure c failure => finished (@port_record_runner_failure published_port c failure)
  | RunnerRelinquishes c => finished (@port_relinquish_run published_port c)
  | RunnerExits c mapping => finished (@port_apply_validated_loop_exit published_port c mapping)
  | RecoversLeases q_now scope => finished (@port_recover_expired_leases published_port q_now scope)
  | OtherStoreCall c => finished (store_ask c)
  end.
End coordination.

Abbreviation CoordProg R := (Prog (C := CoordCall) CoordAnswer R).
