(* ===== verification/TurnPublish.v ===== *)
(** * The event log is what is announced

    Every region of the turn store adds to its event log exactly the events that the
    publishing store announces for its answer, up to the reading of the clock; a replay
    adds none, a heartbeat is logged and not announced. *)

From stdpp Require Import relations.
From S2P Require Import Prelude Ids Platform HostApi Capability Obligations Programs Collections Turns TurnLimiter TurnEvents TurnStore TurnOps TurnRunner TurnSnapshot TurnWf TurnRestore TurnMoves TurnOpsFacts TurnSubmits TurnCalls TurnCoordinator.
From Stdlib Require Import Lia.
Local Open Scope N_scope.
Local Open Scope record_scope.

Section publish.
Context `{TurnPayload} `{Platform}.

Abbreviation TResult T := (Result T TurnError).

(** ** How the log grows *)

(** The event without the reading of the clock. *)
Definition timeless (e : TurnLifecycleEvent) : TurnLifecycleEvent := {|
  ev_cursor := ev_cursor e; ev_scope := ev_scope e; ev_occurred_at := None;
  ev_owner_user_id := ev_owner_user_id e; ev_run_id := ev_run_id e; ev_status := ev_status e;
  ev_kind := ev_kind e; ev_blocked_gate := ev_blocked_gate e;
  ev_sanitized_reason := ev_sanitized_reason e; ev_retryable := ev_retryable e;
  ev_detail := ev_detail e |}.

(** The log got these events, in this order, and may have lost some of the oldest for
    them. *)
Definition log_grew (es : list TurnLifecycleEvent) (s s' : Inner) : Prop :=
  exists dropped, in_events s ++ es = dropped ++ in_events s' /\ (es = [] -> dropped = []).

(** The same, up to the clock. *)
Definition log_tells (es : list TurnLifecycleEvent) (s s' : Inner) : Prop :=
  exists logged, log_grew logged s s' /\ timeless <$> logged = timeless <$> es.

Lemma log_still s s' : in_events s' = in_events s -> log_grew [] s s'.
Proof. intros He. exists []. by rewrite app_nil_r, He. Qed.

Lemma log_same s s' : in_events s' = in_events s -> log_tells [] s s'.
Proof. intros He. exists []. split; [| done]. by apply log_still. Qed.

Lemma retain_suffix max events floor :
  exists dropped, events = dropped ++ (retain_events max events floor).1.
Proof.
  unfold retain_events. destruct (_ <? _); cbn; [| by exists []].
  eexists. symmetry. apply take_drop.
Qed.

Lemma log_pushed max e e' floor s s' :
  in_events s' = (retain_events max (in_events s ++ [e]) floor).1 ->
  timeless e = timeless e' -> log_tells [e'] s s'.
Proof.
  intros He Ht. exists [e]. split; [| cbn; by rewrite Ht].
  destruct (retain_suffix max (in_events s ++ [e]) floor) as [dropped Hd].
  exists dropped. by rewrite He.
Qed.

Lemma log_after es s s1 s2 : in_events s2 = in_events s1 -> log_tells es s s1 -> log_tells es s s2.
Proof. intros He (logged & [dropped [Hd Hn]] & Ht). exists logged. split; [exists dropped; by rewrite He | done]. Qed.

Lemma log_before es s s1 s2 : in_events s1 = in_events s -> log_tells es s1 s2 -> log_tells es s s2.
Proof. intros He (logged & [dropped [Hd Hn]] & Ht). exists logged. split; [exists dropped; by rewrite <- He | done]. Qed.

Lemma log_then es1 es2 s s1 s2 : log_tells es1 s s1 -> log_tells es2 s1 s2 -> log_tells (es1 ++ es2) s s2.
Proof.
  intros (l1 & (d1 & H1 & N1) & T1) (l2 & (d2 & H2 & N2) & T2). exists (l1 ++ l2). split.
  - exists (d1 ++ d2). split; [by rewrite app_assoc, H1, <- !app_assoc, H2 |].
    intros [-> ->]%app_eq_nil. by rewrite N1, N2.
  - by rewrite !fmap_app, T1, T2.
Qed.

(** ** The event of a run and of its state *)

Lemma event_agrees r kind reason detail at_ now :
  detail = failure_detail_for_event kind (run_failure r) ->
  timeless (event_of_run r kind reason detail at_)
  = timeless (event_from_run_state (run_state r) kind reason now).
Proof. by intros ->. Qed.

Lemma state_event_agrees r kind reason detail at_ now :
  kind = event_kind_for_state (run_state r) -> reason = sanitized_reason_for_state (run_state r) ->
  detail = failure_detail_for_event kind (run_failure r) ->
  timeless (event_of_run r kind reason detail at_) = timeless (event_for_state (run_state r) now).
Proof. intros -> -> ->. by apply event_agrees. Qed.

Definition told {T} (f : T -> list TurnLifecycleEvent) (result : TResult T) : list TurnLifecycleEvent :=
  match result with Ok v => f v | Err _ => [] end.

Lemma with_record_tells {T} (f : T -> list TurnLifecycleEvent) id
    (body : TurnRun -> Inner -> TResult T * TurnRun * Inner) s :
  (forall r, in_records s !! id = Some r ->
     log_tells (told f (body r (s <| in_records ::= delete id |>)).1.1) s
       (body r (s <| in_records ::= delete id |>)).2) ->
  log_tells (told f (with_record id body s).1) s (with_record id body s).2.
Proof.
  intros Hb. unfold with_record. destruct (in_records s !! id) as [r |] eqn:Hr; [| by apply log_same].
  specialize (Hb r eq_refl). destruct (body r _) as [[result r'] s1]. cbn in *.
  by eapply log_after; [| exact Hb].
Qed.

Lemma with_lease_tells {T} (f : T -> list TurnLifecycleEvent) c now
    (body : TurnRun -> Inner -> TResult T * TurnRun * Inner) s :
  (forall r, in_records s !! lc_run_id c = Some r ->
     log_tells (told f (body r (s <| in_records ::= delete (lc_run_id c) |>)).1.1) s
       (body r (s <| in_records ::= delete (lc_run_id c) |>)).2) ->
  log_tells (told f (with_lease c now body s).1) s (with_lease c now body s).2.
Proof.
  intros Hb. apply with_record_tells. intros r Hr.
  destruct (ensure_active_lease _ _ _ _); [by apply Hb | by apply log_same].
Qed.

Lemma prune_one_events id s : in_events (prune_one id s) = in_events s.
Proof.
  unfold prune_one. destruct (_ && _); [| done]. cbn. destruct (in_records s !! id); [| done].
  by destruct (existsb _ _).
Qed.

Lemma prune_events s : in_events (prune_terminal_records s) = in_events s.
Proof.
  unfold prune_terminal_records. generalize (in_terminal_runs s) as l. intros l. revert s.
  induction l as [| id l IH]; intros s; simpl; destruct (_ <=? _); try done.
  by rewrite IH, prune_one_events.
Qed.

Lemma pruned_tells {T} (f : T -> list TurnLifecycleEvent) s (out : TResult T * Inner) :
  log_tells (told f out.1) s out.2 ->
  log_tells (told f (let '(result, s') := out in (result, prune_terminal_records s')).1) s
    (let '(result, s') := out in (result, prune_terminal_records s')).2.
Proof. intros Hl. destruct out as [result s']. eapply log_after; [apply prune_events | exact Hl]. Qed.

Lemma commit_tells f s out : log_tells (told f out.1) s out.2 ->
  log_tells (told f (commit_transition out.1 out.2).1) s (commit_transition out.1 out.2).2.
Proof.
  intros Hl. unfold commit_transition. cbn. eapply log_after; [| exact Hl].
  destruct (out.1); [| done]. destruct (turn_is_terminal _); [apply prune_events | done].
Qed.

(** ** The runner's transitions *)

Abbreviation told_state := (fun f => told (fun state : TurnRunState => [f state])).

(** The end of a run is told as its state reads. *)
Lemma finish_tells f status edit kind reason detail clk r s id :
  (forall cursor, let r2 := drop_lease (edit (r <| run_status := status |>)) <| run_event_cursor := cursor |> in
     timeless (event_of_run r2 kind reason detail (clk 1%nat)) = timeless (f (run_state r2))) ->
  log_tells (told_state f (finish_run status edit kind reason detail clk r (s <| in_records ::= delete id |>)).1.1)
    s (finish_run status edit kind reason detail clk r (s <| in_records ::= delete id |>)).2.
Proof.
  intros He. unfold finish_run, status_set, next_cursor. cbn -[drop_lease run_state event_of_run].
  eapply log_pushed; [reflexivity | apply He].
Qed.

Lemma rejected_tells f r to s id :
  log_tells (told_state f (rejected r to (s <| in_records ::= delete id |>)).1.1) s
    (rejected r to (s <| in_records ::= delete id |>)).2.
Proof. by apply log_same. Qed.

Lemma terminal_transition_tells f c status failure kind clk s :
  (forall r cursor, let r2 := drop_lease (terminal_edit status failure (s <| in_records ::= delete (lc_run_id c) |>)
                      (r <| run_status := status |>)) <| run_event_cursor := cursor |> in
     timeless (event_of_run r2 kind (sf_category <$> failure) (failure_detail_for_event kind failure) (clk 1%nat))
     = timeless (f (run_state r2))) ->
  log_tells (told_state f (terminal_transition c status failure kind clk s).1) s
    (terminal_transition c status failure kind clk s).2.
Proof.
  intros He. unfold terminal_transition. destruct (in_records s !! lc_run_id c); [| by apply log_same].
  apply pruned_tells, with_lease_tells. intros r _.
  destruct (_ || _); [apply rejected_tells | apply finish_tells, He].
Qed.

Lemma complete_run_tells c clk s now :
  log_tells (told_state (fun state => event_from_run_state state EvCompleted None now) (complete_run c clk s).1)
    s (complete_run c clk s).2.
Proof. apply terminal_transition_tells. intros r cursor r2. by apply event_agrees. Qed.

Lemma fail_run_tells c failure clk s now :
  log_tells (told_state (fun state => event_from_run_state state EvFailed (sanitized_reason_for_state state) now)
               (fail_run c failure clk s).1)
    s (fail_run c failure clk s).2.
Proof. apply terminal_transition_tells. intros r cursor r2. by apply event_agrees. Qed.

(** A cancellation is told the same way by both. *)
Lemma finish_cancel_tells f clk r s id now :
  (forall state, rst_status state = TurnCancelled ->
     timeless (f state) = timeless (event_from_run_state state EvCancelled None now)) ->
  log_tells (told_state f (finish_run TurnCancelled no_failure EvCancelled None None clk r
                             (s <| in_records ::= delete id |>)).1.1) s
    (finish_run TurnCancelled no_failure EvCancelled None None clk r (s <| in_records ::= delete id |>)).2.
Proof. intros Hf. apply finish_tells. intros cursor r2. rewrite Hf by reflexivity. by apply event_agrees. Qed.

Lemma cancel_run_tells c clk s now :
  log_tells (told_state (fun state => event_from_run_state state EvCancelled None now) (cancel_run c clk s).1)
    s (cancel_run c clk s).2.
Proof.
  unfold cancel_run. destruct (in_records s !! lc_run_id c); [| by apply log_same].
  apply pruned_tells, with_lease_tells. intros r _.
  destruct (negb _); [apply rejected_tells | by apply (finish_cancel_tells _ _ _ _ _ now)].
Qed.

Section transitions.
Context (now : TurnTimestamp) (clk : Clock) (id : TurnRunId) (r : TurnRun) (s : Inner).

(** The body of a transition adds what its state announces. *)
Definition tells (body : TurnRun -> Inner -> TResult TurnRunState * TurnRun * Inner) : Prop :=
  log_tells (told_state (fun state => event_for_state state now)
               (body r (s <| in_records ::= delete id |>)).1.1) s
    (body r (s <| in_records ::= delete id |>)).2.

Lemma complete_claimed_tells : tells (complete_claimed_record clk).
Proof.
  unfold tells, complete_claimed_record. destruct (negb _); [apply rejected_tells | apply finish_tells; intros cursor r2; by apply state_event_agrees].
Qed.

Lemma cancel_claimed_tells : tells (cancel_claimed_record clk).
Proof.
  unfold tells, cancel_claimed_record.
  destruct (negb _); [apply rejected_tells | apply finish_tells; intros cursor r2; by apply state_event_agrees].
Qed.

Lemma fail_claimed_tells failure : tells (fail_claimed_record failure clk).
Proof.
  unfold tells, fail_claimed_record. destruct (negb _); [apply rejected_tells | apply finish_tells; intros cursor r2; by apply state_event_agrees].
Qed.

Lemma cancel_or_fail_tells failure : tells (cancel_or_fail_claimed_record failure clk).
Proof.
  unfold tells, cancel_or_fail_claimed_record.
  destruct (run_status r); auto using rejected_tells.
  - apply fail_claimed_tells.
  - apply cancel_claimed_tells.
Qed.

Lemma park_logs f checkpoint state_ref reason activity at_ :
  (forall state, rst_status state = reason_status reason ->
     timeless (f state) = timeless (event_from_run_state state EvBlocked None now)) ->
  forall blocked_at, log_tells (told_state f (park_run checkpoint state_ref reason activity blocked_at at_ r
                        (s <| in_records ::= delete id |>)).1.1) s
    (park_run checkpoint state_ref reason activity blocked_at at_ r (s <| in_records ::= delete id |>)).2.
Proof using.
  intros Hf blocked_at. unfold park_run. destruct (negb _); [apply rejected_tells |].
  unfold status_set, next_cursor. cbn -[drop_lease run_state event_of_run].
  eapply log_pushed; [reflexivity |]. rewrite Hf by reflexivity. by apply event_agrees.
Qed.

Lemma park_tells checkpoint state_ref reason activity blocked_at at_ :
  tells (park_run checkpoint state_ref reason activity blocked_at at_).
Proof.
  apply park_logs. intros state Hs. unfold event_for_state, event_kind_for_state, sanitized_reason_for_state.
  rewrite Hs. by destruct reason.
Qed.

Lemma apply_mapping_tells mapping : tells (apply_mapping mapping clk).
Proof.
  destruct mapping as [[| | checkpoint state_ref reason activity | failure] | failure]; cbn.
  all: eauto using complete_claimed_tells, cancel_or_fail_tells, park_tells, fail_claimed_tells.
Qed.

Lemma relinquish_tells : tells (relinquish_body clk).
Proof.
  unfold tells, relinquish_body. destruct (run_status r) eqn:Hs; auto using rejected_tells.
  - unfold requeue_run, status_set, next_cursor. cbn -[drop_lease run_state event_of_run event_for_state].
    eapply log_pushed; [reflexivity | by apply state_event_agrees].
  - apply finish_tells; intros cursor r2; by apply state_event_agrees.
Qed.

Lemma expire_tells : tells (expire_run clk).
Proof.
  unfold tells, expire_run. destruct (run_status r); apply finish_tells; intros cursor r2; by apply state_event_agrees.
Qed.
End transitions.

(** *** Under a lease *)

Section leased.
Context (c : LeaseClaim) (now : TurnTimestamp) (clk : Clock) (s : Inner).

Abbreviation tells_state := (fun out : TResult TurnRunState * Inner =>
  log_tells (told_state (fun state => event_for_state state now) out.1) s out.2).

Lemma block_run_tells checkpoint state_ref reason :
  log_tells (told_state (fun state => event_from_run_state state EvBlocked None now)
               (block_run c checkpoint state_ref reason clk s).1) s
    (block_run c checkpoint state_ref reason clk s).2.
Proof. apply with_lease_tells. intros r _. by apply (park_logs now). Qed.

Lemma apply_exit_tells mapping : tells_state (apply_validated_loop_exit c mapping clk s).
Proof.
  unfold apply_validated_loop_exit.
  pose proof (with_lease_tells (fun state => [event_for_state state now]) c (clk 0%nat) (apply_mapping mapping clk) s) as Hl.
  destruct (with_lease _ _ _ _) as [result s']. apply (commit_tells _ _ (result, s')), Hl.
  intros r _. apply apply_mapping_tells.
Qed.

Lemma record_runner_failure_tells failure : tells_state (record_runner_failure c failure clk s).
Proof.
  unfold record_runner_failure.
  pose proof (with_lease_tells (fun state => [event_for_state state now]) c (clk 0%nat)
                (cancel_or_fail_claimed_record failure clk) s) as Hl.
  destruct (with_lease _ _ _ _) as [result s']. apply (commit_tells _ _ (result, s')), Hl.
  intros r _. apply cancel_or_fail_tells.
Qed.

Lemma relinquish_run_tells : tells_state (relinquish_run c clk s).
Proof.
  unfold relinquish_run.
  pose proof (with_lease_tells (fun state => [event_for_state state now]) c (clk 0%nat) (relinquish_body clk) s) as Hl.
  destruct (with_lease _ _ _ _) as [result s1]. cbv zeta.
  match goal with |- context [commit_transition result ?s2] =>
    apply (commit_tells _ _ (result, s2)); eapply log_after; [| apply Hl] end.
  - destruct result as [state |]; [| done]. by case_decide.
  - intros r _. apply relinquish_tells.
Qed.
End leased.

(** *** Claims and recovery *)

Abbreviation claim_event := (fun now (claimed : ClaimedTurnRun) =>
  event_from_run_state (cl_state claimed) EvRunnerClaimed None now).

Definition claimed_list (claimed : option ClaimedTurnRun) : list ClaimedTurnRun :=
  match claimed with Some c => [c] | None => [] end.

Lemma claim_tells runner token scope_filter clk s now :
  log_tells (told (fun claimed => claim_event now <$> claimed_list claimed)
               (claim_matching_queued_run runner token scope_filter clk s).1) s
    (claim_matching_queued_run runner token scope_filter clk s).2.
Proof.
  unfold claim_matching_queued_run, pop_matching_queued_run.
  destruct (pop_loop _ _ _ _) as [[id |] queue]; [| by apply log_same].
  eapply log_before; [| apply with_record_tells]; [done |]. intros r _.
  unfold status_set, next_cursor. cbn -[run_state event_of_run].
  eapply log_pushed; [reflexivity | by apply event_agrees].
Qed.

Lemma pop_loop_found n scope_filter s queue id rest :
  pop_loop n scope_filter s queue = (Some id, rest) -> is_Some (in_records s !! id).
Proof.
  revert queue. induction n as [| n IH]; intros [| x queue] Hp; simpl in Hp; try done.
  destruct (in_records s !! x) as [r |] eqn:Hx; [| by apply (IH queue)].
  case_decide; [| by apply (IH queue)]. destruct (_ && _); [| by apply (IH (queue ++ [x]))].
  injection Hp as <- _. eauto.
Qed.

Lemma claim_never_fails runner token scope_filter clk s :
  is_ok (claim_matching_queued_run runner token scope_filter clk s).1 = true.
Proof.
  unfold claim_matching_queued_run, pop_matching_queued_run.
  destruct (pop_loop _ _ _ _) as [[id |] queue] eqn:Hp; [| done].
  apply pop_loop_found in Hp as [r Hr]. unfold with_record. cbn [in_records set_field set_in_queued_runs].
  by rewrite Hr.
Qed.

Lemma claims_tell runner scope_filter turns s now :
  is_ok (claim_next_runs runner scope_filter turns s).1 = true
  /\ log_tells (told (fun claimed => claim_event now <$> claimed)
                  (claim_next_runs runner scope_filter turns s).1) s
       (claim_next_runs runner scope_filter turns s).2.
Proof.
  revert s. induction turns as [| [token clk] rest IH]; intros s; cbn [claim_next_runs];
    [split; [done | by apply log_same] |].
  pose proof (claim_never_fails runner token scope_filter clk s) as Hok.
  pose proof (claim_tells runner token scope_filter clk s now) as Hl.
  destruct (claim_matching_queued_run _ _ _ _ _) as [[[claimed |] | e] s'];
    cbn [fst snd] in *; [| by split | done].
  specialize (IH s'). destruct (claim_next_runs runner scope_filter rest s') as [[claims | e] s''];
    cbn [fst snd is_ok] in *; destruct IH as [Hok' IH]; [| done].
  split; [done |]. exact (log_then [claim_event now claimed] (claim_event now <$> claims) _ _ _ Hl IH).
Qed.

Lemma recover_loop_tells ids clk s now :
  log_tells ((fun state => event_for_state state now) <$> (recover_loop ids clk s).1) s
    (recover_loop ids clk s).2.
Proof.
  revert clk s. induction ids as [| id rest IH]; intros clk s; cbn [recover_loop]; [by apply log_same |].
  pose proof (with_record_tells (fun state => [event_for_state state now]) id (expire_run (clk 0%nat)) s) as Hl.
  destruct (with_record id _ s) as [result s1]. cbn [fst snd] in Hl.
  specialize (IH (fun i => clk (S i)) s1). destruct (recover_loop rest _ s1) as [recovered s2].
  assert (log_tells (told_state (fun state => event_for_state state now) result) s s1) as Hone.
  { apply Hl. intros r _. apply expire_tells. }
  pose proof (log_then _ _ _ _ _ Hone IH) as Hboth. by destruct result.
Qed.

Lemma recover_tells q_now scope_filter clk s now :
  log_tells ((fun state => event_for_state state now) <$> (recover_expired_leases q_now scope_filter clk s).1) s
    (recover_expired_leases q_now scope_filter clk s).2.
Proof.
  unfold recover_expired_leases. pose proof (fun ids => recover_loop_tells ids clk s now) as Hl.
  match goal with |- context [recover_loop ?ids clk s] => specialize (Hl ids);
    destruct (recover_loop ids clk s) as [recovered s'] end.
  eapply log_after; [apply prune_events | exact Hl].
Qed.

(** *** The coordinator's operations *)

Lemma coordinator_event_agrees r kind reason at_ now :
  kind <> EvBlocked -> kind <> EvFailed ->
  timeless (event_of_run r kind reason None at_)
  = timeless (coordinator_event (run_event_cursor r) (run_scope r) now (Some (run_actor r)) (run_id r)
                (run_status r) kind reason).
Proof.
  intros Hb Hf. unfold timeless, event_of_run, coordinator_event, blocked_gate_of. cbn.
  by rewrite !decide_False.
Qed.

Lemma framed_events s s' : framed s s' -> in_events s' = in_events s.
Proof. intros [Hs _ _]. apply (sm_log _ _ Hs). Qed.

Lemma concluded_tells es key reply at_ s s1 :
  log_tells es s s1 -> log_tells es s (conclude_submit key reply at_ s1).2.
Proof. intros Hl. eapply log_after; [apply framed_events, conclude_framed | exact Hl]. Qed.

Lemma reserve_events id class scope actor limit_for s :
  in_events (reserve_admission id class scope actor limit_for s).2 = in_events s.
Proof. by destruct (reserve_cases id class scope actor limit_for s) as [[rejection ->] | ->]. Qed.

(** A run put into the queue is told by its own event. *)
Lemma enqueue_tells r kind at_ e s s1 : in_events s1 = in_events s -> kind <> EvBlocked -> kind <> EvFailed ->
  timeless e = timeless (coordinator_event (run_event_cursor r) (run_scope r) at_ (Some (run_actor r)) (run_id r)
                           (run_status r) kind None) ->
  log_tells [e] s (enqueue_new r kind at_ s1).
Proof.
  intros He Hb Hf Ht. eapply log_pushed; [cbn -[event_of_run]; by rewrite He |].
  rewrite Ht. by apply coordinator_event_agrees.
Qed.

(** An operation of the store that is answered from memory, or tells what it announces. *)
Definition tells_or_replays {T} (f : T -> list TurnLifecycleEvent) (memory : option (TResult T))
    (s : Inner) (out : TResult T * Inner) : Prop :=
  (memory = Some out.1 /\ in_events out.2 = in_events s) \/ log_tells (told f out.1) s out.2.

Lemma unless_replied_tells f key (body : Inner -> TResult SubmitTurnResponse * Inner) s :
  log_tells (told f (body s).1) s (body s).2 ->
  tells_or_replays f (in_submit_idempotency s !! key) s (unless_replied key id body s).
Proof.
  intros Hl. unfold unless_replied. destruct (in_submit_idempotency s !! key); [by left | by right].
Qed.

Lemma commit_submit_tells limit_for q resolution fresh clk s :
  tells_or_replays (fun r => [submit_event q r])
    (in_submit_idempotency s !! submit_key (sr_scope q) (sr_idempotency_key q)) s
    (commit_submit limit_for q resolution fresh clk s).
Proof.
  apply unless_replied_tells. destruct resolution as [resolved | e]; [| by apply concluded_tells, log_same].
  destruct (thread_busy _ _); [by apply log_same |]. cbn zeta.
  destruct (in_records s !! _); [by apply concluded_tells, log_same |].
  set (id := default _ _).
  destruct (reserve_cases id (rp_admission_class (from_resolved resolved)) (sr_scope q) (sr_actor q) limit_for s)
    as [[rejection ->] | ->]; [by apply concluded_tells, log_same |].
  unfold next_cursor. cbn [fst snd]. apply concluded_tells. by apply enqueue_tells.
Qed.

Lemma commit_child_tells limit_for q resolution fresh clk s :
  tells_or_replays (fun r => [child_submit_event q r])
    (in_submit_idempotency s !! submit_key (cr_child_scope q) (cr_idempotency_key q)) s
    (commit_child limit_for q resolution fresh clk s).
Proof.
  apply unless_replied_tells. destruct resolution as [resolved | e]; [| by apply concluded_tells, log_same].
  destruct (check_parent q s) as [parent | e]; [| by apply concluded_tells, log_same].
  destruct (check_root _ _ s) as [root | e]; [| by apply concluded_tells, log_same].
  destruct (thread_busy _ _); [by apply log_same |]. cbn zeta.
  destruct (in_records s !! _); [by apply concluded_tells, log_same |].
  destruct (tree_next _ _ _) as [next |]; [| by apply concluded_tells, log_same].
  set (id := default _ _). set (s1 := s <| in_tree_reservations ::= _ |>).
  destruct (reserve_cases id (rp_admission_class (from_resolved resolved)) (cr_child_scope q) (cr_actor q) limit_for s1)
    as [[rejection ->] | ->].
  - apply concluded_tells, log_same. by destruct (_ =? 0).
  - unfold next_cursor. cbn [fst snd]. apply concluded_tells. by apply enqueue_tells.
Qed.

Definition resume_key (q : ResumeTurnRequest) : RunIdempotencyKey :=
  {| rik_scope := rq_scope q; rik_run_id := rq_run_id q; rik_key := rq_idempotency_key q |}.
Definition retry_key (q : RetryTurnRequest) : RunIdempotencyKey :=
  {| rik_scope := ry_scope q; rik_run_id := ry_run_id q; rik_key := ry_idempotency_key q |}.
Definition cancel_key (q : CancelRunRequest) : RunIdempotencyKey :=
  {| rik_scope := cq_scope q; rik_run_id := cq_run_id q; rik_key := cq_idempotency_key q |}.

Lemma resume_turn_tells q clk s now :
  tells_or_replays (fun r => [resume_event q r now]) (in_resume_idempotency s !! resume_key q) s
    (resume_turn q clk s).
Proof.
  unfold resume_turn. fold (resume_key q). destruct (in_resume_idempotency s !! resume_key q); [by left | right].
  pose proof (with_record_tells (fun r => [resume_event q r now]) (rq_run_id q)) as Hw.
  unfold resume_turn_once.
  match goal with |- context [with_record ?id ?body s] => specialize (Hw body s);
    destruct (with_record id body s) as [result s'] end.
  eapply log_after; [apply framed_events, remember_resume_framed |]. apply Hw. intros r _.
  case_bool_decide as Hsc; [cbn [negb] | by apply log_same].
  destruct (match required_status _ with Some _ => _ | None => _ end); cbn [negb]; [| by apply log_same].
  case_bool_decide as Ha; [cbn [negb] | by apply log_same].
  case_bool_decide as Hg; [cbn [negb] | by apply log_same].
  unfold status_set, next_cursor. cbn -[event_of_run resume_event].
  eapply log_pushed; [reflexivity |]. rewrite coordinator_event_agrees with (now := now) by done.
  unfold resume_event. by rewrite <- Hsc, <- Ha.
Qed.

Lemma retry_turn_tells limit_for q draws checkpoint clk s out now :
  retry_turn limit_for q draws checkpoint clk s = Some out ->
  tells_or_replays (fun r => [retry_event q r now]) (in_retry_idempotency s !! retry_key q) s out.
Proof.
  unfold retry_turn. fold (retry_key q). destruct (in_retry_idempotency s !! retry_key q);
    [intros [= <-]; by left | intros Ho; right].
  destruct (retry_turn_once limit_for q draws checkpoint clk s) as [[result s'] |] eqn:Hr; [| done].
  injection Ho as <-. eapply log_after; [apply framed_events, remember_retry_framed |].
  revert Hr. unfold retry_turn_once.
  destruct (in_records s !! ry_run_id q) as [failed |]; [| intros [= <- <-]; by apply log_same].
  case_bool_decide as Hsc; [cbn [negb] | intros [= <- <-]; by apply log_same].
  case_bool_decide as Ha; [cbn [negb] | intros [= <- <-]; by apply log_same].
  destruct (_ || _); [intros [= <- <-]; by apply log_same |].
  destruct (run_checkpoint_id failed) as [source_id |]; [| intros [= <- <-]; by apply log_same].
  destruct (retryable_loop_checkpoint _ _ _); [| intros [= <- <-]; by apply log_same].
  destruct (thread_busy _ _); [intros [= <- <-]; by apply log_same |].
  destruct (draw_run_id draws s) as [id |]; [| done].
  destruct (reserve_cases id (rp_admission_class (run_profile failed)) (run_scope failed) (run_actor failed) limit_for s)
    as [[rejection ->] | ->]; [intros [= <- <-]; by apply log_same |].
  unfold next_cursor. intros Heq. injection Heq as Hres Hs. rewrite <- Hs, <- Hres.
  apply enqueue_tells; [done | done | done |]. unfold retry_event. by rewrite <- Hsc, <- Ha.
Qed.

(** The event of a cancellation, if it announces one. *)
Definition cancel_events (q : CancelRunRequest) (now : TurnTimestamp) (r : CancelRunResponse) :
    list TurnLifecycleEvent :=
  match cancel_event q r now with Some e => [e] | None => [] end.

Lemma request_cancel_tells q clk s now :
  tells_or_replays (cancel_events q now) (in_cancel_idempotency s !! cancel_key q) s (request_cancel q clk s).
Proof.
  unfold request_cancel. fold (cancel_key q). destruct (in_cancel_idempotency s !! cancel_key q); [by left | right].
  assert (log_tells (told (cancel_events q now) (request_cancel_once q clk s).1) s (request_cancel_once q clk s).2)
    as Hl.
  { unfold request_cancel_once. destruct (in_records s !! cq_run_id q); [| by apply log_same].
    apply pruned_tells, with_record_tells. intros r _.
    case_bool_decide as Hsc; [cbn [negb] | by apply log_same].
    case_bool_decide as Ha; [cbn [negb] | by apply log_same].
    destruct (turn_is_terminal (run_status r)) eqn:Ht; [by apply log_same |].
    destruct (cancel_target (run_status r)) as [[next kind] |] eqn:Hc; [| by apply log_same].
    assert (next = TurnCancelled /\ kind = EvCancelled \/ next = TurnCancelRequested /\ kind = EvCancelRequested)
      as [[-> ->] | [-> ->]] by (destruct (run_status r); simplify_eq/=; auto).
    all: unfold status_set, next_cursor; cbn -[event_of_run cancel_response cancel_events];
      eapply log_pushed; [reflexivity |];
      rewrite coordinator_event_agrees with (now := now) by done; unfold coordinator_event; cbn; by rewrite Hsc. }
  destruct (request_cancel_once q clk s) as [result s'].
  eapply log_after; [apply framed_events, remember_cancel_framed | exact Hl].
Qed.

(** ** The log and what is announced *)

(** The events the publishing store publishes after a call of the store behind it is
    answered, [now] its reading of the clock. *)
Definition announced (now : TurnTimestamp) (c : TurnCall) : TurnAnswer c -> list TurnLifecycleEvent :=
  match c return TurnAnswer c -> list TurnLifecycleEvent with
  | CommitSubmit q _ => told (fun r => [submit_event q r])
  | CommitChild q _ => told (fun r => [child_submit_event q r])
  | ResumeTurn q => told (fun r => [resume_event q r now])
  | RetryTurn q => told (fun r => [retry_event q r now])
  | RequestCancel q => told (cancel_events q now)
  | ClaimNextRun _ _ _ => told (fun claimed => claim_event now <$> claimed_list claimed)
  | ClaimNextRuns _ _ _ => told (fun claimed => claim_event now <$> claimed)
  | BlockRun _ _ _ _ => told_state (fun state => event_from_run_state state EvBlocked None now)
  | CompleteRun _ => told_state (fun state => event_from_run_state state EvCompleted None now)
  | CancelRun _ => told_state (fun state => event_from_run_state state EvCancelled None now)
  | FailRun _ _ => told_state (fun state =>
      event_from_run_state state EvFailed (sanitized_reason_for_state state) now)
  | RunnerFailure _ _ | RelinquishRun _ | ApplyLoopExit _ _ =>
      told_state (fun state => event_for_state state now)
  | RecoverExpired _ _ => fmap (fun state => event_for_state state now)
  | _ => fun _ => []
  end.

(** The answer was remembered under the request's key. *)
Definition replayed_answer (s : Inner) (c : TurnCall) : TurnAnswer c -> Prop :=
  match c return TurnAnswer c -> Prop with
  | CommitSubmit q _ => fun a =>
      in_submit_idempotency s !! submit_key (sr_scope q) (sr_idempotency_key q) = Some a
  | CommitChild q _ => fun a =>
      in_submit_idempotency s !! submit_key (cr_child_scope q) (cr_idempotency_key q) = Some a
  | ResumeTurn q => fun a => in_resume_idempotency s !! resume_key q = Some a
  | RetryTurn q => fun a => in_retry_idempotency s !! retry_key q = Some a
  | RequestCancel q => fun a => in_cancel_idempotency s !! cancel_key q = Some a
  | _ => fun _ => False
  end.

Lemma heartbeat_logs c clk s : exists logged, log_grew logged s (heartbeat c clk s).2
  /\ (logged = [] \/ exists e, logged = [e] /\ ev_kind e = EvRunnerHeartbeat).
Proof.
  assert (forall s', in_events s' = in_events s ->
    exists logged, log_grew logged s s' /\ (logged = [] \/ exists e, logged = [e] /\ ev_kind e = EvRunnerHeartbeat))
    as Hnone.
  { intros s' He. exists []. split; [by apply log_still | by left]. }
  unfold heartbeat, with_lease, with_record. destruct (in_records s !! lc_run_id c) as [r |]; [| by apply Hnone].
  destruct (ensure_active_lease _ _ _ _); [| by apply Hnone].
  destruct (negb _); [by apply Hnone |]. unfold next_cursor, push_event. cbn -[event_of_run retain_events].
  match goal with |- context [retain_events ?max (?l ++ [?e]) ?floor] =>
    exists [e]; split; [destruct (retain_suffix max (l ++ [e]) floor) as [d Hd]; by exists d | right; by exists e] end.
Qed.

(** The calls that neither log nor announce. *)
Definition silent (c : TurnCall) : bool :=
  match c with
  | ClaimSubmit _ | DropSubmitGuard _ | RejectLineage _ | ChildTemplate _ | CheckSubmit _
  | AdmitSubmit _ _ _ | ResolveProfile _ | PutLoopCheckpoint _ | ReserveTree _ _ _ _
  | ReleaseTree _ _ _ _ | PruneReleasedChild _ _ _ | ReadStore _ _ | RecordModelRoute _ _
  | OverlayLease _ => true
  | _ => false
  end.

Lemma settle_events root s : in_events (settle_released_root root s) = in_events s.
Proof.
  unfold settle_released_root. destruct (_ && _); [| done]. destruct (_ <=? _); [done |]. by rewrite prune_events.
Qed.

Lemma answered_events {T} s (out : T * Inner) a s' : out = (a, s') ->
  in_events out.2 = in_events s -> in_events s' = in_events s.
Proof. by intros ->. Qed.

Lemma unless_replied_events {T} key found (body : Inner -> T * Inner) s :
  in_events (body s).2 = in_events s -> in_events (unless_replied key found body s).2 = in_events s.
Proof. unfold unless_replied. by destruct (in_submit_idempotency s !! key). Qed.

Lemma concluded_events key reply at_ s : in_events (conclude_submit key reply at_ s).2 = in_events s.
Proof. apply framed_events, conclude_framed. Qed.

Lemma release_tree_events scope root_id delta child s :
  in_events (release_tree_descendants scope root_id delta child s).2 = in_events s.
Proof.
  unfold release_tree_descendants. repeat case_match; try done. cbn. by rewrite settle_events.
Qed.

Lemma silent_events limit_for c s a s' :
  silent c = true -> turn_answers limit_for c s a s' -> in_events s' = in_events s.
Proof.
  intros Hc Ha. destruct c; try discriminate Hc; simpl in Ha;
    repeat match type of Ha with ex _ => destruct Ha as [? Ha] end;
    try (refine (answered_events _ _ _ _ Ha _); clear Ha).
  - apply framed_events, claim_submit_framed.
  - by subst s'.
  - apply unless_replied_events, concluded_events.
  - apply unless_replied_events. destruct (check_parent q s) as [| e]; [done |].
    exact (concluded_events _ (Err e) _ s).
  - by subst s'.
  - apply unless_replied_events. destruct admission as [| rejection]; [done |].
    exact (concluded_events _ (Err (AdmissionRejected rejection)) _ s).
  - by subst s'.
  - done.
  - unfold reserve_tree_descendants. by repeat case_match.
  - apply release_tree_events.
  - unfold prune_released_child. by repeat case_match.
  - by destruct Ha as [_ ->].
  - unfold record_model_route_snapshot, with_lease, with_record. by repeat case_match; simplify_eq.
  - unfold overlay_runner_lease_record. by repeat case_match.
Qed.

Definition is_heartbeat (c : TurnCall) : bool := match c with Heartbeat _ => true | _ => false end.

(** What a call leaves in the log. *)
Definition explained (now : TurnTimestamp) (c : TurnCall) (a : TurnAnswer c) (s s' : Inner) : Prop :=
  log_tells (announced now c a) s s' \/ (replayed_answer s c a /\ in_events s' = in_events s).

Lemma told_or_replayed {T} (f : T -> list TurnLifecycleEvent) memory s result s' (replayed : Prop) :
  tells_or_replays f memory s (result, s') -> (memory = Some result -> replayed) ->
  log_tells (told f result) s s' \/ (replayed /\ in_events s' = in_events s).
Proof. intros [[Hm He] | Hl] Hr; [right; eauto | by left]. Qed.

Lemma call_explained limit_for c s a s' now :
  turn_answers limit_for c s a s' -> is_heartbeat c = false -> explained now c a s s'.
Proof.
  intros Ha Hh. destruct (silent c) eqn:Hsilent.
  { left. pose proof (silent_events _ _ _ _ _ Hsilent Ha) as He.
    destruct c; try discriminate Hsilent; exact (log_same _ _ He). }
  destruct c; try discriminate Hsilent; try discriminate Hh; simpl in Ha;
    repeat match type of Ha with
      | ex _ => destruct Ha as [? Ha] | fresh_turn_for _ _ /\ _ => destruct Ha as [_ Ha]
      | length _ = _ /\ _ => destruct Ha as [_ Ha] end.
  - eapply told_or_replayed; [| done]. rewrite <- Ha. apply commit_submit_tells.
  - eapply told_or_replayed; [| done]. rewrite <- Ha. apply commit_child_tells.
  - eapply told_or_replayed; [| done]. rewrite <- Ha. apply resume_turn_tells.
  - eapply told_or_replayed; [| done]. eapply retry_turn_tells, Ha.
  - eapply told_or_replayed; [| done]. rewrite <- Ha. apply request_cancel_tells.
  - left. pose proof (claim_tells runner token scope_filter x s now) as Hl. by rewrite Ha in Hl.
  - left. pose proof (claims_tell runner scope_filter x s now) as [_ Hl]. by rewrite Ha in Hl.
  - left. pose proof (block_run_tells c now x s checkpoint state_ref reason) as Hl. by rewrite Ha in Hl.
  - left. pose proof (complete_run_tells c x s now) as Hl. by rewrite Ha in Hl.
  - left. pose proof (cancel_run_tells c x s now) as Hl. by rewrite Ha in Hl.
  - left. pose proof (fail_run_tells c failure x s now) as Hl. by rewrite Ha in Hl.
  - left. pose proof (record_runner_failure_tells c now x s failure) as Hl. by rewrite Ha in Hl.
  - left. pose proof (relinquish_run_tells c now x s) as Hl. by rewrite Ha in Hl.
  - left. pose proof (apply_exit_tells c now x s mapping) as Hl. by rewrite Ha in Hl.
  - left. pose proof (recover_tells q_now scope_filter x s now) as Hl. by rewrite Ha in Hl.
Qed.

(** [C12] The log is what is announced.  Whatever region of the turn store is run, on any
    state, its event log grows by exactly the events that the publishing store announces
    for the answer, in the same order and equal but for the reading of the clock (the
    oldest events may leave the log); or the answer is a remembered reply and the log
    stays as it is; or the call is a heartbeat, which logs at most one heartbeat event
    and announces nothing. *)
Theorem log_is_announced limit_for c s a s' now :
  turn_answers limit_for c s a s' ->
  exists logged, log_grew logged s s'
    /\ (timeless <$> logged = timeless <$> announced now c a
        \/ logged = [] /\ replayed_answer s c a
        \/ is_heartbeat c = true
           /\ announced now c a = [] /\ (length logged <= 1)%nat
           /\ Forall (fun e => ev_kind e = EvRunnerHeartbeat) logged).
Proof.
  intros Ha. destruct (is_heartbeat c) eqn:Hh.
  - destruct c as [| | | | | | | | | | | | | | | | | | | claim | | | | | | | | | |]; try discriminate Hh.
    destruct Ha as [clk Ha]. destruct (heartbeat_logs claim clk s) as (logged & Hg & Hk).
    rewrite Ha in Hg. exists logged. split; [done |]. right; right.
    destruct Hk as [-> | (e & -> & He)]; cbn; split_and!; try done; [lia |]. by repeat constructor.
  - destruct (call_explained _ _ _ _ _ now Ha Hh) as [(logged & Hg & Ht) | [Hr He]].
    + exists logged. split; [done | by left].
    + exists []. split; [by apply log_still | right; by left].
Qed.
End publish.
