(* ===== verification/TurnDelivery.v ===== *)
(** * What the publishing store and the coordinator promise

    However the tasks of a coordinator and a runner interleave: what subscribers are given
    was announced by the store; a cursor counts as delivered only once every required
    observer has taken its event; a prepared run id is held for one scope and used once.
    Undisturbed, an operation that succeeds has been delivered. *)

From stdpp Require Import relations.
From S2P Require Import Prelude Ids Platform HostApi Capability Obligations Programs Collections Turns TurnLimiter TurnEvents TurnStore TurnOps TurnRunner TurnCalls TurnCoordinator TurnPublish.
From Stdlib Require Import Lia.
Local Open Scope N_scope.
Local Open Scope record_scope.

Section delivery.
Context `{TurnPayload} `{Platform}.

Abbreviation TResult T := (Result T TurnError).
Abbreviation History := (list (Event CoordAnswer)).

(** ** What a history shows *)

Definition asked_of (h : History) (c : CoordCall) (a : CoordAnswer c) : Prop := event c a ∈ h.

(** The observer declined the event, or took it. *)
Definition took_event (e : TurnLifecycleEvent) (h : History) (o : TurnObserver) : Prop :=
  asked_of h (ObservesEvent o e) false \/ asked_of h (ObserveEvent o e) (Ok tt).

Definition took_state (state : TurnRunState) (h : History) (o : TurnObserver) : Prop :=
  asked_of h (ObservesState o state) false \/ asked_of h (ObserveState o state) (Ok tt).

(** A complete publication: every required observer took it, every sink was given the event. *)
Definition published (took : History -> TurnObserver -> Prop) (e : TurnLifecycleEvent) (h : History) : Prop :=
  exists subs, asked_of h SubscriberSnapshot subs
    /\ (forall o, o ∈ sub_required subs -> took h o)
    /\ forall k, k ∈ sub_best_effort subs -> exists r, asked_of h (SinkPublish k e) r.

Definition acknowledged (h : History) (cursor : EventCursor) : Prop :=
  exists e, ev_cursor e = cursor
    /\ (published (took_event e) e h \/ exists state, published (took_state state) e h).

(** The submission that a call of the store answers, if it does. *)
Definition submission_reply (c : TurnCall) : TurnAnswer c -> option (SubmitIdempotencyKey * SubmitTurnResponse) :=
  let accepted key (reply : TResult SubmitTurnResponse) :=
    match reply with Ok r => Some (key, r) | Err _ => None end in
  match c return TurnAnswer c -> option (SubmitIdempotencyKey * SubmitTurnResponse) with
  | ClaimSubmit key => fun a => a ≫= accepted key
  | RejectLineage q => accepted (submit_key (sr_scope q) (sr_idempotency_key q))
  | ChildTemplate q => fun a =>
      match a with inl reply => accepted (submit_key (cr_child_scope q) (cr_idempotency_key q)) reply | inr _ => None end
  | AdmitSubmit key _ _ => fun a => a ≫= accepted key
  | CommitSubmit q _ => accepted (submit_key (sr_scope q) (sr_idempotency_key q))
  | CommitChild q _ => accepted (submit_key (cr_child_scope q) (cr_idempotency_key q))
  | _ => fun _ => None
  end.

Definition submission_of (h : History) (key : SubmitIdempotencyKey) (r : SubmitTurnResponse) : Prop :=
  exists c a, asked_of h (StoreCall c) a /\ submission_reply c a = Some (key, r).

(** The event is announced by an answer of the store. *)
Definition announced_in (h : History) (e : TurnLifecycleEvent) : Prop :=
  (exists now c a, asked_of h (StoreCall c) a /\ e ∈ announced now c a)
  \/ (exists q r, submission_of h (submit_key (sr_scope q) (sr_idempotency_key q)) r /\ e = submit_event q r)
  \/ (exists q r, submission_of h (submit_key (cr_child_scope q) (cr_idempotency_key q)) r
                  /\ e = child_submit_event q r).

(** The states a call of the store answers. *)
Definition answered_states (c : TurnCall) : TurnAnswer c -> list TurnRunState :=
  match c return TurnAnswer c -> list TurnRunState with
  | ClaimNextRun _ _ _ => fun a => match a with Ok (Some claimed) => [cl_state claimed] | _ => [] end
  | ClaimNextRuns _ _ _ => fun a => match a with Ok claimed => cl_state <$> claimed | _ => [] end
  | BlockRun _ _ _ _ | CompleteRun _ | CancelRun _ | FailRun _ _ | RunnerFailure _ _
  | RelinquishRun _ | ApplyLoopExit _ _ => fun a => match a with Ok state => [state] | Err _ => [] end
  | RecoverExpired _ _ => fun states => states
  | _ => fun _ => []
  end.

Definition state_in (h : History) (state : TurnRunState) : Prop :=
  exists c a, asked_of h (StoreCall c) a /\ state ∈ answered_states c a.

(** What every call of a publishing program guarantees. *)
Definition publishes (h : History) (c : CoordCall) : Prop :=
  match c with
  | ObserveEvent _ e | SinkPublish _ e => announced_in h e
  | ObserveState _ state => state_in h state
  | MarkDelivered cursor => acknowledged h cursor
  | _ => True
  end.

(** ** Histories grow *)

Lemma asked_later h h' c a : h `suffix_of` h' -> asked_of h c a -> asked_of h' c a.
Proof. intros [l ->] Ha. apply elem_of_app. by right. Qed.

Lemma submission_later h h' key r : h `suffix_of` h' -> submission_of h key r -> submission_of h' key r.
Proof. intros Hs (c & a & Ha & Hr). exists c, a. eauto using asked_later. Qed.

Lemma announced_later h h' e : h `suffix_of` h' -> announced_in h e -> announced_in h' e.
Proof.
  intros Hs [(now & c & a & Ha & He) | [(q & r & Hq & He) | (q & r & Hq & He)]].
  - left. exists now, c, a. eauto using asked_later.
  - right; left. exists q, r. eauto using submission_later.
  - right; right. exists q, r. eauto using submission_later.
Qed.

Lemma state_later h h' state : h `suffix_of` h' -> state_in h state -> state_in h' state.
Proof. intros Hs (c & a & Ha & He). exists c, a. eauto using asked_later. Qed.

Lemma took_event_later e h h' o : h `suffix_of` h' -> took_event e h o -> took_event e h' o.
Proof. intros Hs [Ha | Ha]; [left | right]; by eapply asked_later. Qed.

Lemma took_state_later state h h' o : h `suffix_of` h' -> took_state state h o -> took_state state h' o.
Proof. intros Hs [Ha | Ha]; [left | right]; by eapply asked_later. Qed.

Lemma published_later took e h h' :
  (forall o, took h o -> took h' o) -> h `suffix_of` h' -> published took e h -> published took e h'.
Proof.
  intros Ht Hs (subs & Hsub & Ho & Hk). exists subs. split_and!; [by eapply asked_later | eauto |].
  intros k Hin. destruct (Hk k Hin) as [r Hr]. exists r. by eapply asked_later.
Qed.

Lemma acknowledged_later h h' cursor : h `suffix_of` h' -> acknowledged h cursor -> acknowledged h' cursor.
Proof.
  intros Hs (e & He & [Hp | [state Hp]]); exists e; (split; [done |]); [left | right; exists state];
    (eapply published_later; [| done | exact Hp]); eauto using took_event_later, took_state_later.
Qed.

(** ** The event bus *)

Section fan_out.
Context (e : TurnLifecycleEvent) (took : History -> TurnObserver -> Prop).
Context (observes : TurnObserver -> CoordProg bool) (observe : TurnObserver -> CoordProg (TResult unit)).
Context (h0 : History).
Hypothesis Hannounced : announced_in h0 e.
Hypothesis Hlater : forall h h' o, h `suffix_of` h' -> took h o -> took h' o.
Hypothesis Hobserves : forall h o, h0 `suffix_of` h ->
  wp publishes (observes o) h (fun h' wanted => wanted = false -> took h' o).
Hypothesis Hobserve : forall h o, h0 `suffix_of` h ->
  wp publishes (observe o) h (fun h' r => r = Ok tt -> took h' o).

(** No error is left only if there was none and every observer took the event. *)
Lemma run_observers_wp observers first h : h0 `suffix_of` h ->
  wp publishes (run_observers observes observe observers first) h
    (fun h' r => r = None -> first = None /\ forall o, o ∈ observers -> took h' o).
Proof using Hlater Hobserves Hobserve.
  revert first h. induction observers as [| o rest IH]; intros first h Hs; simpl.
  { intros ->. split; [done |]. by intros o Ho%elem_of_nil. }
  assert (forall h1 first1, h0 `suffix_of` h1 -> took h1 o \/ is_Some first1 ->
    (first1 = None -> first = None) ->
    wp publishes (run_observers observes observe rest first1) h1
      (fun h' r => r = None -> first = None /\ forall o', o' ∈ o :: rest -> took h' o')) as Hrest.
  { intros h1 first1 Hs1 Ht Hf. eapply wp_mono; [apply wp_history, IH, Hs1 |].
    intros h2 r [Hq Hs2] Hr. destruct (Hq Hr) as [Hn Hall]. split; [by apply Hf |].
    destruct Ht as [Ht | [? Ht]]; [| congruence].
    intros o' [-> | Ho']%elem_of_cons; [by eapply Hlater | by apply Hall]. }
  eapply wp_then; [apply Hobserves, Hs |]. intros h1 wanted Hs1 Hw.
  assert (h0 `suffix_of` h1) as Hs01 by by etrans. destruct wanted.
  - eapply wp_then; [apply Hobserve, Hs01 |]. intros h2 r Hs2 Hr.
    assert (h0 `suffix_of` h2) as Hs02 by by etrans.
    apply Hrest; [done | |]; destruct r as [[] | error]; destruct first; eauto; done.
  - apply Hrest; [done | by left; apply Hw | done].
Qed.

Lemma fanout_wp sinks h : h0 `suffix_of` h ->
  wp publishes (fanout_best_effort sinks e) h
    (fun h' _ => forall k, k ∈ sinks -> exists r, asked_of h' (SinkPublish k e) r).
Proof using Hannounced.
  revert h. induction sinks as [| k rest IH]; intros h Hs; simpl; [by intros k Hk%elem_of_nil |].
  split; [by eapply announced_later |]. intros a.
  eapply wp_mono; [apply wp_history, IH; by apply suffix_cons_r |].
  intros h' u [Hall Hs'] k' [-> | Hk']%elem_of_cons; [| by apply Hall].
  exists a. eapply asked_later; [exact Hs' | apply list_elem_of_here].
Qed.

Lemma fan_out_wp :
  wp publishes (fan_out observes observe e) h0 (fun h' r => r = Ok tt -> published took e h').
Proof using Hannounced Hlater Hobserves Hobserve.
  split; [exact I |]. intros subs. set (h1 := event SubscriberSnapshot subs :: h0).
  assert (h0 `suffix_of` h1) as Hs1 by by apply suffix_cons_r.
  eapply wp_then; [by apply run_observers_wp |]. intros h2 first Hs2 Hfirst.
  eapply wp_then; [apply fanout_wp; by etrans |]. intros h3 u Hs3 Hsinks Hok.
  destruct first; [done |]. destruct (Hfirst eq_refl) as [_ Hall]. exists subs. split_and!; [| | done].
  - eapply asked_later; [| apply list_elem_of_here]. by etrans.
  - intros o Ho. eapply Hlater; [exact Hs3 | by apply Hall].
Qed.
End fan_out.

Lemma publish_event_wp e h : announced_in h e ->
  wp publishes (publish_event e) h (fun h' r => r = Ok tt -> published (took_event e) e h').
Proof.
  intros Ha. apply fan_out_wp; [done | by intros; eapply took_event_later | |];
    intros h' o Hs; (split; [first [exact I | by eapply announced_later] |]); intros a Ha';
    [left | right]; rewrite Ha'; apply list_elem_of_here.
Qed.

Lemma publish_state_wp state e h : announced_in h e -> state_in h state ->
  wp publishes (publish_state state e) h (fun h' r => r = Ok tt -> published (took_state state) e h').
Proof.
  intros Ha Hst. apply fan_out_wp; [done | by intros; eapply took_state_later | |];
    intros h' o Hs; (split; [first [exact I | by eapply state_later] |]); intros a Ha';
    [left | right]; rewrite Ha'; apply list_elem_of_here.
Qed.

Abbreviation silently := (fun p h => wp publishes p h (fun _ _ => True)).

Lemma publish_event_once_wp e h : announced_in h e -> silently (publish_event_once_deferred e) h.
Proof.
  intros Ha. split; [exact I |]. intros [|]; [| exact I].
  eapply wp_then; [apply publish_event_wp; by eapply announced_later, Ha; apply suffix_cons_r |].
  intros h' [[] | error] Hs Hp; (split; [| done]); [| exact I]. exists e. split; [done | left; by apply Hp].
Qed.

Lemma publish_state_once_wp state e h : announced_in h e -> state_in h state ->
  silently (publish_state_once state e) h.
Proof.
  intros Ha Hst. split; [exact I |]. intros [|]; [| exact I].
  assert (h `suffix_of` event (TryBeginPublish (ev_cursor e)) true :: h) as Hs1 by by apply suffix_cons_r.
  eapply wp_then; [apply publish_state_wp; [by eapply announced_later | by eapply state_later] |].
  intros h' [[] | error] Hs Hp; [| exact I]. split; [| done].
  exists e. split; [done | right; exists state; by apply Hp].
Qed.

(** ** The operations *)

Lemma finished_wp {T} (p : CoordProg T) h : silently p h -> silently (finished p) h.
Proof. intros Hp. apply wp_bind. eapply wp_mono; [exact Hp |]. by intros. Qed.

Lemma then_publish_wp {T} (operation : CoordProg (TResult T)) (publish : T -> CoordProg unit) h
    (P : History -> T -> Prop) :
  wp publishes operation h (fun h' result => forall r, result = Ok r -> P h' r) ->
  (forall h' r, P h' r -> silently (publish r) h') -> silently (then_publish operation publish) h.
Proof.
  intros Ho Hp. eapply wp_then; [exact Ho |]. intros h' [r | error] _ Hr; [| exact I].
  eapply wp_then; [by apply Hp, Hr |]. done.
Qed.

Lemma concluded_wp {T} wake cursor (response : T) h :
  silently (concluded deferred_error_port wake cursor response) h.
Proof. destruct wake, cursor; cbn; repeat first [exact I | split | intros ?]. Qed.

Lemma then_conclude_wp {T} (operation : CoordProg (TResult T)) conclude h :
  silently operation h -> (forall h' r, silently (conclude r) h') ->
  silently (then_conclude operation conclude) h.
Proof.
  intros Ho Hc. eapply wp_then; [exact Ho |]. by intros h' [r | error] _ _; [apply Hc | exact I].
Qed.

(** Every answered call of the store may announce. *)
Lemma store_ask_wp {T} (c : TurnCall) h (f : T -> TurnAnswer c) (P : History -> TurnAnswer c -> Prop) :
  (forall a, P (event (StoreCall c) a :: h) a) -> wp publishes (store_ask c) h P.
Proof. intros Hp. split; [exact I |]. exact Hp. Qed.

(** *** Submissions *)

Abbreviation submits key := (fun (h : History) (result : TResult SubmitTurnResponse) =>
  forall r, result = Ok r -> submission_of h key r).

Lemma reply_found c a h key r : submission_reply c a = Some (key, r) ->
  submission_of (event (StoreCall c) a :: h) key r.
Proof. intros Hr. exists c, a. split; [apply list_elem_of_here | done]. Qed.

(** The last call of a submission is that of its guard. *)
Lemma guarded_wp key p h : wp publishes (on_store p) h (submits key) ->
  wp publishes (on_store (submit_guarded key p)) h (submits key).
Proof.
  intros Hp. assert (forall (f : TResult SubmitTurnResponse -> Prog TurnAnswer (TResult SubmitTurnResponse)) h Q,
    wp publishes (on_store (prog_bind p f)) h Q <->
    wp publishes (prog_bind (on_store p) (fun r => on_store (f r))) h Q) as Hbind.
  { intros f. clear Hp. induction p as [r | c k IH]; intros h' Q; simpl; [done |].
    split; intros [_ Hk]; (split; [exact I |]); intros a; by apply IH. }
  apply Hbind. eapply wp_then; [exact Hp |]. intros h' reply Hs Hr. split; [exact I |]. intros a r Heq.
  apply (submission_later h'); [by apply suffix_cons_r | by apply Hr].
Qed.

Lemma admitted_wp key q commit h :
  (forall resolution h', wp publishes (on_store (commit resolution)) h' (submits key)) ->
  wp publishes (on_store (admitted_submit key q commit)) h (submits key).
Proof.
  intros Hc. split; [exact I |]. intros admission. split; [exact I |]. intros [early |].
  - intros r Hr. apply reply_found. cbn. by rewrite Hr.
  - split; [exact I |]. intros resolution. apply Hc.
Qed.

Lemma submit_turn_wp q h :
  wp publishes (on_store (submit_turn q)) h (submits (submit_key (sr_scope q) (sr_idempotency_key q))).
Proof.
  split; [exact I |]. intros [reply |]; [intros r Hr; apply reply_found; cbn; by rewrite Hr |].
  apply guarded_wp. destruct (has_lineage q).
  - split; [exact I |]. intros a r Hr. apply reply_found. cbn. by rewrite Hr.
  - apply admitted_wp. intros resolution h'. split; [exact I |]. intros a r Hr. apply reply_found. cbn. by rewrite Hr.
Qed.

Lemma submit_child_turn_wp q h :
  wp publishes (on_store (submit_child_turn q)) h
    (submits (submit_key (cr_child_scope q) (cr_idempotency_key q))).
Proof.
  split; [exact I |]. intros [reply |]; [intros r Hr; apply reply_found; cbn; by rewrite Hr |].
  apply guarded_wp. split; [exact I |]. intros [reply | template].
  - intros r Hr. apply reply_found. cbn. by rewrite Hr.
  - apply admitted_wp. intros resolution h'. split; [exact I |]. intros a r Hr. apply reply_found. cbn. by rewrite Hr.
Qed.

(** *** Tasks *)

(** What was just asked of the store announces it. *)
Lemma announced_now now c a h e : e ∈ announced now c a -> announced_in (event (StoreCall c) a :: h) e.
Proof. intros He. left. exists now, c, a. split; [apply list_elem_of_here | done]. Qed.

Lemma state_now c a h state : state ∈ answered_states c a -> state_in (event (StoreCall c) a :: h) state.
Proof. intros Hst. exists c, a. split; [apply list_elem_of_here | done]. Qed.

Lemma published_submit_wp q h : silently (@store_submit_turn _ published_store q) h.
Proof.
  apply (then_publish_wp _ _ _ (fun h' r => submission_of h' (submit_key (sr_scope q) (sr_idempotency_key q)) r));
    [apply submit_turn_wp |]. intros h' r Hr. apply publish_event_once_wp.
  right; left. exists q, r. by split.
Qed.

Lemma published_child_wp q h : silently (@store_submit_child_turn _ published_store q) h.
Proof.
  apply (then_publish_wp _ _ _ (fun h' r => submission_of h' (submit_key (cr_child_scope q) (cr_idempotency_key q)) r));
    [apply submit_child_turn_wp |]. intros h' r Hr. apply publish_event_once_wp.
  right; right. exists q, r. by split.
Qed.

(** An operation of one call, and a publication at the next reading of the clock. *)
Lemma then_publish_now_wp {T} (operation : CoordProg (TResult T)) (publish : T -> TurnTimestamp -> CoordProg unit) h :
  wp publishes operation h (fun h' result => forall r, result = Ok r ->
    forall now h'', h' `suffix_of` h'' -> silently (publish r now) h'') ->
  silently (then_publish operation (fun r => Ask ReadNow (fun now => publish r now))) h.
Proof.
  intros Ho. eapply (then_publish_wp _ _ _ (fun h' r => forall now h'', h' `suffix_of` h'' -> silently (publish r now) h''));
    [exact Ho |]. intros h' r Hr. split; [exact I |]. intros now. apply Hr. by apply suffix_cons_r.
Qed.

Lemma published_resume_wp q h : silently (@store_resume_turn _ published_store q) h.
Proof.
  apply then_publish_now_wp. split; [exact I |]. intros a r -> now h'' Hs. apply publish_event_once_wp.
  eapply announced_later, (announced_now now); [exact Hs |]. by apply list_elem_of_singleton.
Qed.

Lemma published_retry_wp q h : silently (@store_retry_turn _ published_store q) h.
Proof.
  apply then_publish_now_wp. split; [exact I |]. intros a r -> now h'' Hs. apply publish_event_once_wp.
  eapply announced_later, (announced_now now); [exact Hs |]. by apply list_elem_of_singleton.
Qed.

Lemma published_cancel_wp q h : silently (@store_request_cancel _ published_store q) h.
Proof.
  apply then_publish_now_wp. split; [exact I |]. intros a r -> now h'' Hs.
  destruct (cancel_event q r now) as [e |] eqn:He; [| exact I]. apply publish_event_once_wp.
  eapply announced_later, (announced_now now); [exact Hs |]. cbn. unfold cancel_events. rewrite He.
  by apply list_elem_of_singleton.
Qed.

Lemma publish_transition_wp operation event h :
  wp publishes operation h (fun h' result => forall state, result = Ok state ->
    state_in h' state /\ forall now, announced_in h' (event state now)) ->
  silently (publish_transition operation event) h.
Proof.
  intros Ho. eapply wp_then; [exact Ho |]. intros h' [state | error] _ Hst; [| exact I].
  destruct (Hst state eq_refl) as [Hin Ha]. split; [exact I |]. intros now.
  eapply wp_then; [apply publish_state_once_wp |].
  - eapply announced_later, Ha. by apply suffix_cons_r.
  - eapply state_later, Hin. by apply suffix_cons_r.
  - by intros h2 [? | ?] _ _.
Qed.

(** Committed states are published one by one. *)
Lemma publish_each_wp {A} (state_of : A -> TurnRunState) event (items : list A) h :
  (forall x, x ∈ items -> state_in h (state_of x) /\ forall now, announced_in h (event x now)) ->
  silently (publish_each state_of event items) h.
Proof.
  revert h. induction items as [| x rest IH]; intros h Hall; [exact I |].
  split; [exact I |]. intros now. destruct (Hall x (list_elem_of_here _ _)) as [Hst Ha].
  assert (h `suffix_of` Programs.event ReadNow now :: h) as Hs by by apply suffix_cons_r.
  eapply wp_then.
  - apply finished_wp, publish_state_once_wp; [by eapply announced_later | by eapply state_later].
  - intros h' _ Hs' _. apply IH. intros y Hin. destruct (Hall y) as [Hst' Ha'];
      [by apply list_elem_of_further |].
    assert (h `suffix_of` h') as Hs2 by by etrans.
    split; [by eapply state_later | intros now'; by eapply announced_later].
Qed.

Lemma task_publishes t : silently (coord_program t) [].
Proof.
  destruct t; cbn [coord_program]; try (by split);
    try (apply finished_wp, then_conclude_wp; [| intros; apply concluded_wp]);
    try (apply finished_wp, publish_transition_wp; (split; [exact I |]); intros a state ->;
         split; [apply state_now | intros now; apply (announced_now now)]; by apply list_elem_of_singleton);
    eauto using published_child_wp, published_resume_wp, published_retry_wp, published_cancel_wp.
  - apply finished_wp. eapply wp_then with (Q := fun _ _ => True); [by destruct (sr_requested_run_id q) |].
    intros h' prepared _ _. destruct (prepared_elsewhere q prepared); [exact I |].
    apply then_conclude_wp; [apply published_submit_wp | intros; apply concluded_wp].
  - apply finished_wp. eapply (then_publish_wp _ _ _ (fun h' claimed => forall c, c ∈ claimed_list claimed ->
      state_in h' (cl_state c) /\ forall now, announced_in h' (event_from_run_state (cl_state c) EvRunnerClaimed None now)));
      [| intros h' claimed Hc; by apply publish_each_wp].
    split; [exact I |]. intros a claimed -> c Hc. destruct claimed as [c' |]; [| by apply elem_of_nil in Hc].
    apply list_elem_of_singleton in Hc as ->.
    split; [apply state_now | intros now; apply (announced_now now)]; by apply list_elem_of_singleton.
  - apply finished_wp. eapply (then_publish_wp _ _ _ (fun h' claimed => forall c, c ∈ claimed ->
      state_in h' (cl_state c) /\ forall now, announced_in h' (event_from_run_state (cl_state c) EvRunnerClaimed None now)));
      [| intros h' claimed Hc; by apply publish_each_wp].
    split; [exact I |]. intros a claimed -> c Hc.
    split; [apply state_now | intros now; apply (announced_now now)]; cbn; apply list_elem_of_fmap; by exists c.
  - apply finished_wp. eapply wp_then with (Q := fun h' states => forall state, state ∈ states ->
      state_in h' state /\ forall now, announced_in h' (event_for_state state now)).
    + split; [exact I |]. intros states state Hst. split; [by apply state_now |]. intros now.
      apply (announced_now now), list_elem_of_fmap. by exists state.
    + intros h' states _ Hst. eapply wp_then; [by apply publish_each_wp | by intros].
Qed.

(** ** Tasks together *)

Abbreviation coord_step limit_for :=
  (pool_step (R := unit) (coord_answers limit_for) (fun _ _ => False)).

Lemma mark_in cursor x delivered :
  x ∈ mark_event_cursor_delivered cursor delivered -> x = cursor \/ x ∈ delivered.
Proof. unfold mark_event_cursor_delivered. destruct (_ <=? _); set_solver. Qed.

(** Only [MarkDelivered] adds to the delivered cursors. *)
Lemma delivered_by limit_for c w a w' cursor : coord_answers limit_for c w a w' ->
  cursor ∈ cw_delivered w' -> cursor ∈ cw_delivered w \/ c = MarkDelivered cursor.
Proof.
  intros Ha Hc. destruct c; simpl in Ha;
    repeat match type of Ha with ex _ => destruct Ha as [? Ha] | _ /\ _ => destruct Ha as [_ Ha] end;
    subst w'; cbn in Hc; auto.
  apply mark_in in Hc as [-> | Hc]; auto.
Qed.

Definition all_observed (w : CoordWorld) (hs : list History) : Prop :=
  forall cursor, cursor ∈ cw_delivered w -> exists i h, hs !! i = Some h /\ acknowledged h cursor.

Lemma observed_step limit_for w hs i h c a w' :
  all_observed w hs -> hs !! i = Some h -> publishes h c -> coord_answers limit_for c w a w' ->
  all_observed w' (<[i := event c a :: h]> hs).
Proof.
  intros Hj Hi Hg Ha cursor Hc.
  assert (exists j h', hs !! j = Some h' /\ acknowledged h' cursor) as (j & h' & Hj' & Hack).
  { destruct (delivered_by _ _ _ _ _ _ Ha Hc) as [Hc' | ->]; [by apply Hj | by exists i, h]. }
  destruct (decide (j = i)) as [-> | Hne].
  - exists i, (event c a :: h). rewrite list_lookup_insert_eq by (by eapply lookup_lt_Some). split; [done |].
    rewrite Hi in Hj'. injection Hj' as ->. eapply acknowledged_later, Hack. by apply suffix_cons_r.
  - exists j, h'. by rewrite list_lookup_insert_ne.
Qed.

(** [C13] What is delivered was observed.  However submissions, resumptions, retries,
    cancellations, claims, transitions, lease recoveries and subscriptions interleave call
    by call over one publishing store: every event and state given to a subscriber was
    announced by an answer of the store that the publishing task got before; and a cursor
    counts as delivered only if some task published an event with that cursor, every
    required observer of its snapshot declined or accepted it, and every sink was given it. *)
Theorem delivered_was_observed limit_for tasks s pool :
  rtc (coord_step limit_for) (pool_of (coord_program <$> tasks) (new_coordinator s)) pool ->
  (forall i p h, pool_threads pool !! i = Some (p, h) -> guaranteed publishes h)
  /\ forall cursor, cursor ∈ cw_delivered (pool_world pool) ->
       exists i p h, pool_threads pool !! i = Some (p, h) /\ acknowledged h cursor.
Proof.
  intros Hrun.
  assert (Forall (fun p => silently p []) (coord_program <$> tasks)) as Hp
    by (apply Forall_fmap, Forall_true; intros t; apply task_publishes).
  split.
  - intros i p h Hi. pose proof (pool_length _ _ _ _ _ Hrun) as Hlen.
    assert (is_Some ((coord_program <$> tasks) !! i)) as [p0 Hp0].
    { apply lookup_lt_is_Some_2. rewrite <- Hlen. by eapply lookup_lt_Some. }
    eapply (runs_guaranteed publishes p0); [exact (Forall_lookup_1 _ _ _ _ Hp Hp0) | by eapply pool_runs].
  - assert (all_observed (pool_world pool) (snd <$> pool_threads pool)) as Hall.
    { eapply (pool_induction (coord_answers limit_for) (fun _ _ => False) all_observed publishes);
        [| by intros | exact Hp | | exact Hrun].
      - intros w hs i h c a w' Hj Hi Hg Ha. by eapply observed_step.
      - by intros x Hx%elem_of_empty. }
    intros cursor Hc. destruct (Hall cursor Hc) as (i & h & Hi & Hack). rewrite list_lookup_fmap in Hi.
    destruct (pool_threads pool !! i) as [[p h'] |] eqn:Ht; [| done]. injection Hi as ->. by exists i, p, h.
Qed.

(** ** Undisturbed *)

Abbreviation runs_alone limit_for := (alone (coord_answers limit_for)).

Lemma published_alone limit_for e w w' u :
  runs_alone limit_for (publish_event_once_deferred e) w u w' ->
  ev_cursor e ∈ cw_delivered w' \/ is_Some (cw_deferred w' !! ev_cursor e).
Proof.
  intros (should & w1 & [-> ->] & Hp). unfold try_begin_publish in Hp.
  destruct (bool_decide_reflect (ev_cursor e ∈ cw_delivered w)); cbn [negb] in Hp; [destruct Hp as [_ ->]; by left |].
  apply alone_bind in Hp as (r & w2 & _ & Hp). destruct r as [| error].
  - destruct Hp as (a & w3 & -> & _ & ->). left. cbn. unfold mark_event_cursor_delivered. set_solver.
  - destruct Hp as (a & w3 & -> & _ & ->). right. cbn. rewrite lookup_insert_eq. eauto.
Qed.

(** A wake changes nothing; the answer is good only if no error was kept. *)
Lemma concluded_alone {T} limit_for wake cursor (response r : T) w w' :
  runs_alone limit_for (concluded deferred_error_port wake (Some cursor) response) w (Ok r) w' ->
  r = response /\ cw_deferred w !! cursor = None /\ cw_delivered w' = cw_delivered w.
Proof.
  intros (u & w1 & Hw & Hc)%alone_bind.
  assert (w1 = w) as ->. { destruct wake; [by destruct Hw as (a & w2 & -> & _ & ->) | by destruct Hw as [_ ->]]. }
  apply alone_bind in Hc as (deferred & w2 & Hd & [Hr ->]). destruct Hd as (a & w3 & (errors & Ht & ->) & [-> ->]).
  injection Ht as <- <-. cbn in Hr. by destruct (cw_deferred w !! cursor); simplify_eq.
Qed.

Lemma concluded_answer {T} limit_for wake cursor (response r : T) w w' :
  runs_alone limit_for (concluded deferred_error_port wake cursor response) w (Ok r) w' -> response = r.
Proof.
  intros (u & w1 & Hw & Hc)%alone_bind. destruct cursor as [cursor |]; [| by destruct Hc as [[= ->] _]].
  apply alone_bind in Hc as (deferred & w2 & Hd & [Hr ->]). by destruct deferred; simplify_eq.
Qed.

Lemma then_publish_alone {T} limit_for (operation : CoordProg (TResult T)) publish w (r : T) w' :
  runs_alone limit_for (then_publish operation publish) w (Ok r) w' ->
  exists w1 u, runs_alone limit_for (publish r) w1 u w'.
Proof.
  intros ([r' | e] & w1 & _ & Hp)%alone_bind; [| by destruct Hp].
  apply alone_bind in Hp as (u & w2 & Hp & [[= ->] ->]). eauto.
Qed.

(** An operation whose publication concerns the cursor it is concluded with. *)
Lemma delivered_alone {T} limit_for (operation : CoordProg (TResult T)) publish wake cursor w (r : T) w' :
  runs_alone limit_for (then_conclude (then_publish operation publish) (fun r =>
    concluded deferred_error_port (wake r) (Some (cursor r)) r)) w (Ok r) w' ->
  (forall w1 u w2, runs_alone limit_for (publish r) w1 u w2 ->
     cursor r ∈ cw_delivered w2 \/ is_Some (cw_deferred w2 !! cursor r)) ->
  cursor r ∈ cw_delivered w'.
Proof.
  intros ([r' | e] & w1 & Ho & Hc)%alone_bind Hp; [| by destruct Hc].
  apply concluded_alone in Hc as (-> & Hn & ->). apply then_publish_alone in Ho as (w2 & u & Ho).
  destruct (Hp _ _ _ Ho) as [Hin | Hs]; [done |]. rewrite Hn in Hs. by destruct Hs.
Qed.

Lemma published_now_alone limit_for (event : TurnTimestamp -> TurnLifecycleEvent) cursor w u w' :
  (forall now, ev_cursor (event now) = cursor) ->
  runs_alone limit_for (Ask ReadNow (fun now => publish_event_once_deferred (event now))) w u w' ->
  cursor ∈ cw_delivered w' \/ is_Some (cw_deferred w' !! cursor).
Proof. intros Hc (now & w1 & -> & Hp). rewrite <- (Hc now). by eapply published_alone. Qed.

(** [C39] Success means delivered.  A submission, child submission, resumption, retry or
    cancellation through the coordinator over the publishing store, in any state of the
    coordinator and the store and with subscribers that answer as they like, that no other
    task disturbs and that succeeds, leaves the cursor of its event delivered; the one
    exception is a cancellation answered [already_terminal], which publishes nothing: the
    run had ended, or it waits for an external tool and cannot be cancelled
    ([TurnSafety.external_tool_cancel_ignored]). *)
Theorem success_is_delivered limit_for w w' :
  (forall q r, runs_alone limit_for (coordinator_submit_turn published_store deferred_error_port q) w (Ok r) w' ->
     sa_event_cursor r ∈ cw_delivered w')
  /\ (forall q r, runs_alone limit_for (submit_child_run published_store deferred_error_port q) w (Ok r) w' ->
     sa_event_cursor r ∈ cw_delivered w')
  /\ (forall q r, runs_alone limit_for (coordinator_resume_turn published_store deferred_error_port q) w (Ok r) w' ->
     rs_event_cursor r ∈ cw_delivered w')
  /\ (forall q r, runs_alone limit_for (coordinator_retry_turn published_store deferred_error_port q) w (Ok r) w' ->
     rt_event_cursor r ∈ cw_delivered w')
  /\ (forall q r, runs_alone limit_for (coordinator_cancel_run published_store deferred_error_port q) w (Ok r) w' ->
     cn_already_terminal r = false -> cn_event_cursor r ∈ cw_delivered w').
Proof.
  split_and!; intros q r.
  - intros (prepared & w1 & _ & Hs)%alone_bind. destruct (prepared_elsewhere q prepared); [by destruct Hs |].
    eapply (delivered_alone _ _ _ _ sa_event_cursor) in Hs; [done |]. intros w2 u w3 Hp.
    exact (published_alone _ _ _ _ _ Hp).
  - intros Hs. eapply (delivered_alone _ _ _ _ sa_event_cursor) in Hs; [done |]. intros w2 u w3 Hp.
    exact (published_alone _ _ _ _ _ Hp).
  - intros Hs. eapply (delivered_alone _ _ _ _ rs_event_cursor) in Hs; [done |]. intros w2 u w3.
    by apply published_now_alone.
  - intros Hs. eapply (delivered_alone _ _ _ _ rt_event_cursor) in Hs; [done |]. intros w2 u w3.
    by apply published_now_alone.
  - intros ([r' | e] & w1 & Ho & Hc)%alone_bind; [| by destruct Hc]. intros Ht.
    assert (r' = r) as -> by by eapply concluded_answer.
    rewrite Ht in Hc. apply concluded_alone in Hc as (_ & Hn & ->). apply then_publish_alone in Ho as (w2 & u & Ho).
    destruct Ho as (now & w3 & -> & Ho). unfold cancel_event in Ho. rewrite Ht in Ho.
    apply published_alone in Ho as [Hin | Hs]; [done |]. cbn in Hs. rewrite Hn in Hs. by destruct Hs.
Qed.

(** ** Prepared run ids *)

Definition records_id (id : TurnRunId) (e : Event CoordAnswer) : nat :=
  match e with
  | event c a =>
      match c return CoordAnswer c -> nat with
      | RecordPrepared id' _ => fun a => if (id' =? id) && is_ok a then 1%nat else 0%nat
      | _ => fun _ => 0%nat
      end a
  end.

Definition consumes_id (id : TurnRunId) (e : Event CoordAnswer) : nat :=
  match e with
  | event c a =>
      match c return CoordAnswer c -> nat with
      | ConsumePrepared id' => fun a => if (id' =? id) && bool_decide (is_Some a) then 1%nat else 0%nat
      | _ => fun _ => 0%nat
      end a
  end.

(** How often something happened in all histories. *)
Abbreviation times f := (total (total f)).

Lemma times_none {A B} (f : B -> nat) (l : list A) : times f ((fun _ => [] : list B) <$> l) = 0%nat.
Proof. by induction l. Qed.

Definition held (id : TurnRunId) (w : CoordWorld) : nat :=
  if decide (is_Some (cw_prepared w !! id)) then 1%nat else 0%nat.

Definition reservations_ok (w : CoordWorld) (hs : list History) : Prop :=
  N.of_nat (size (cw_prepared w)) <= MAX_PREPARED_RUN_IDS
  /\ forall id, (times (consumes_id id) hs + held id w <= times (records_id id) hs)%nat.

Lemma reservations_step limit_for w hs i h c a w' :
  reservations_ok w hs -> hs !! i = Some h -> coord_answers limit_for c w a w' ->
  reservations_ok w' (<[i := event c a :: h]> hs).
Proof.
  intros [Hsize Hcount] Hi Ha. unfold reservations_ok.
  assert (cw_prepared w' = cw_prepared w -> (forall id, consumes_id id (event c a) = 0%nat) ->
    N.of_nat (size (cw_prepared w')) <= MAX_PREPARED_RUN_IDS
    /\ forall id, (times (consumes_id id) (<[i := event c a :: h]> hs) + held id w'
                  <= times (records_id id) (<[i := event c a :: h]> hs))%nat) as Hsame.
  { intros Hp Hz. rewrite Hp. split; [done |]. intros id. rewrite !(total_insert _ _ _ _ _ Hi), Hz.
    specialize (Hcount id). unfold held in *. rewrite Hp. lia. }
  destruct c; simpl in Ha;
    repeat match type of Ha with
      | ex _ => destruct Ha as [? Ha] | _ /\ _ = _ => let Heq := fresh "Heq" in destruct Ha as [Heq Ha] end;
    subst w'; try (by apply Hsame); clear Hsame.
  - unfold record_prepared_run_id in Heq.
    destruct (N.leb_spec MAX_PREPARED_RUN_IDS (N.of_nat (size (cw_prepared w)))) as [Hle | Hlt]; injection Heq as <- <-.
    + split; [done |]. intros id'. rewrite !(total_insert _ _ _ _ _ Hi). cbn. rewrite andb_false_r. apply Hcount.
    + split.
      * cbn. destruct (cw_prepared w !! id) eqn:Hid.
        -- rewrite map_size_insert_Some by eauto. lia.
        -- rewrite map_size_insert_None by done. lia.
      * intros id'. rewrite !(total_insert _ _ _ _ _ Hi). cbn. specialize (Hcount id'). unfold held in *. cbn.
        destruct (N.eqb_spec id id') as [-> | Hne]; cbn.
        -- rewrite lookup_insert_eq, decide_True by eauto. destruct (decide _); lia.
        -- rewrite lookup_insert_ne by done. lia.
  - unfold consume_prepared_run_id in Heq. injection Heq as <- <-. split.
    + cbn. destruct (cw_prepared w !! id) eqn:Hid; [| by rewrite delete_id].
      rewrite map_size_delete_Some by eauto. lia.
    + intros id'. rewrite !(total_insert _ _ _ _ _ Hi). cbn. specialize (Hcount id'). unfold held in *. cbn.
      destruct (N.eqb_spec id id') as [-> | Hne]; cbn.
      * rewrite lookup_delete_eq, decide_False by by intros []. case_bool_decide; case_decide; try done; lia.
      * rewrite lookup_delete_ne by done. lia.
Qed.

(** A submission that reaches the store names no id that was prepared elsewhere. *)
Definition rightly_named (q : SubmitTurnRequest) (h : History) (c : CoordCall) : Prop :=
  match c with
  | StoreCall _ => forall id, sr_requested_run_id q = Some id -> sr_parent_run_id q = None ->
      exists found, asked_of h (ConsumePrepared id) found /\ (found = None \/ found = Some (sr_scope q))
  | _ => True
  end.

(** A guarantee of every call after some history. *)
Lemma wp_any {R} (G : History -> CoordCall -> Prop) (p : CoordProg R) h0 h :
  (forall h c, h0 `suffix_of` h -> G h c) -> h0 `suffix_of` h -> wp G p h (fun _ _ => True).
Proof.
  intros Hg. revert h. induction p as [r | c k IH]; intros h Hs; simpl; [done |].
  split; [by apply Hg |]. intros a. apply IH. by apply suffix_cons_r.
Qed.

Lemma submit_rightly_named q : wp (rightly_named q) (coord_program (SubmitsTurn q)) [] (fun _ _ => True).
Proof.
  cbn [coord_program]. apply wp_bind. eapply wp_mono with (Q := fun _ _ => True); [| by intros].
  unfold coordinator_submit_turn. destruct (sr_requested_run_id q) as [id |] eqn:Hid.
  - split; [exact I |]. intros found. cbn [prog_bind]. unfold prepared_elsewhere.
    assert (forall h c, [event (ConsumePrepared id) found] `suffix_of` h ->
      (sr_parent_run_id q = None -> found = None \/ found = Some (sr_scope q)) -> rightly_named q h c) as Hg.
    { intros h c Hs Hf. destruct c; try exact I. intros id' Hid' Hp. rewrite Hid in Hid'. injection Hid' as <-.
      exists found. split; [| by apply Hf]. eapply asked_later; [exact Hs | apply list_elem_of_here]. }
    destruct found as [scope |]; [| eapply wp_any; [intros h c Hs; apply Hg; [exact Hs | auto] | done]].
    destruct (sr_parent_run_id q) as [parent |] eqn:Hp.
    + rewrite bool_decide_true by eauto. cbn [negb andb].
      eapply wp_any; [intros h c Hs; by apply Hg | done].
    + rewrite (bool_decide_false (is_Some None)) by (by intros []). cbn [negb andb].
      case_bool_decide as Hsc; cbn [negb]; [| exact I]. subst scope.
      eapply wp_any; [intros h c Hs; apply Hg; [exact Hs | auto] | done].
  - apply (wp_any _ _ []); [| done]. intros h c _. destruct c; try exact I. intros id' Hid'. congruence.
Qed.

(** [C40] Prepared ids are held once and for one scope.  However tasks interleave: at most
    4096 prepared ids are held; every reservation is used up at most once, by a submission
    or by an abort; and a submission without a parent that names an id reaches the store
    only when the id was not reserved, or reserved for its own scope. *)
Theorem prepared_used_once limit_for tasks s pool :
  rtc (coord_step limit_for) (pool_of (coord_program <$> tasks) (new_coordinator s)) pool ->
  N.of_nat (size (cw_prepared (pool_world pool))) <= MAX_PREPARED_RUN_IDS
  /\ (forall id, (times (consumes_id id) (snd <$> pool_threads pool)
                 <= times (records_id id) (snd <$> pool_threads pool))%nat)
  /\ forall i q p h, tasks !! i = Some (SubmitsTurn q) -> pool_threads pool !! i = Some (p, h) ->
       guaranteed (rightly_named q) h.
Proof.
  intros Hrun.
  assert (reservations_ok (pool_world pool) (snd <$> pool_threads pool)) as [Hsize Hcount].
  { eapply (pool_induction (coord_answers limit_for) (fun _ _ => False) reservations_ok (fun _ _ => True));
      [| by intros | | | exact Hrun].
    - intros w hs i h c a w' Hj Hi _ Ha. by eapply reservations_step.
    - apply Forall_fmap, Forall_true. intros t. by apply (wp_any _ _ []).
    - split; [done |]. intros id. unfold held. cbn [new_coordinator cw_prepared].
      rewrite lookup_empty, decide_False by by intros [].
      by rewrite !times_none. }
  split_and!; [done | intros id; specialize (Hcount id); lia |].
  intros i q p h Hi Ht. eapply runs_guaranteed; [apply (submit_rightly_named q) |].
  eapply pool_runs; [exact Hrun | | exact Ht]. by rewrite list_lookup_fmap, Hi.
Qed.

(** *** What the reservations do not cover *)

(** A submission of an id prepared elsewhere is refused, and uses the reservation up: the
    same submission again is not compared with any scope. *)
Theorem second_attempt_unchecked limit_for store port q id scope w :
  sr_requested_run_id q = Some id -> sr_parent_run_id q = None ->
  cw_prepared w !! id = Some scope -> scope <> sr_scope q ->
  let w1 := w <| cw_prepared ::= delete id |> in
  runs_alone limit_for (coordinator_submit_turn store port q) w (Err TurnUnauthorized) w1
  /\ forall r w', runs_alone limit_for (submit_and_wake store port q) w1 r w' ->
       runs_alone limit_for (coordinator_submit_turn store port q) w1 r w'.
Proof.
  intros Hid Hp Hw Hne w1. unfold coordinator_submit_turn. rewrite Hid. split.
  - apply alone_bind. exists (Some scope), w1. split.
    + exists (Some scope), w1. split; [| done]. exists (delete id (cw_prepared w)). split; [| done].
      unfold consume_prepared_run_id. by rewrite Hw.
    + unfold prepared_elsewhere. rewrite Hp. cbn. by rewrite bool_decide_false.
  - intros r w' Hr. apply alone_bind. exists None, w1. split; [| done].
    exists None, w1. split; [| done]. exists (delete id (cw_prepared w1)). cbn. split.
    + unfold consume_prepared_run_id. by rewrite lookup_delete_eq.
    + unfold w1. destruct w. cbn. unfold set_field, set_cw_prepared. cbn. by rewrite delete_delete_eq.
Qed.

(** A child submission never touches the reservations. *)
Definition spares_prepared (h : History) (c : CoordCall) : Prop :=
  match c with RecordPrepared _ _ | ConsumePrepared _ => False | _ => True end.

Abbreviation sparing := (fun p h => wp spares_prepared p h (fun _ _ => True)).

Lemma sparing_then {R T} (p : CoordProg R) (f : R -> CoordProg T) h :
  sparing p h -> (forall r h', sparing (f r) h') -> sparing (prog_bind p f) h.
Proof. intros Hp Hf. eapply wp_then; [exact Hp |]. auto. Qed.

Lemma on_store_sparing {R} (p : Prog TurnAnswer R) h : sparing (on_store p) h.
Proof. revert h. induction p as [r | c k IH]; intros h; simpl; [done | split; [exact I | auto]]. Qed.

Lemma publish_once_sparing e h : sparing (publish_event_once_deferred e) h.
Proof.
  split; [exact I |]. intros [|]; [| exact I]. apply sparing_then.
  - split; [exact I |]. intros subs. apply sparing_then; [| intros first h'; apply sparing_then].
    + generalize (@None TurnError). generalize (event SubscriberSnapshot subs :: event (TryBeginPublish (ev_cursor e)) true :: h).
      induction (sub_required subs) as [| o rest IH]; intros h' first; simpl; [done |].
      split; [exact I |]. intros [|]; [| apply IH]. split; [exact I |]. intros r. apply IH.
    + revert h'. induction (sub_best_effort subs) as [| k rest IH]; intros h'; simpl; [done |].
      split; [exact I |]. intros r. apply IH.
    + by intros.
  - intros [? | ?] h'; by split.
Qed.

Lemma alone_spares {R} limit_for (p : CoordProg R) h w r w' :
  sparing p h -> runs_alone limit_for p w r w' -> cw_prepared w' = cw_prepared w.
Proof.
  revert h w. induction p as [x | c k IH]; intros h w Hs Hr; [by destruct Hr as [_ ->] |].
  destruct Hs as [Hc Hs]. destruct Hr as (a & w1 & Ha & Hr). rewrite (IH a _ _ (Hs a) Hr).
  destruct c; simpl in Ha;
    repeat match type of Ha with ex _ => destruct Ha as [? Ha] | _ /\ _ => destruct Ha as [_ Ha] end;
    try (by rewrite Ha); done.
Qed.

Theorem child_keeps_reservation limit_for q r w w' :
  runs_alone limit_for (submit_child_run published_store deferred_error_port q) w r w' ->
  cw_prepared w' = cw_prepared w.
Proof.
  apply (alone_spares _ _ []). apply sparing_then.
  - apply sparing_then; [apply on_store_sparing |]. intros [reply | e] h; [| done].
    apply sparing_then; [apply publish_once_sparing | done].
  - intros [reply | e] h; [| done]. cbn. by repeat (split; [exact I |]; intros ?).
Qed.

(** *** A lost error *)

Section two_tasks.
Context {R : Type} (limit_for : LimitProvider).

Abbreviation reaches := (rtc (pool_step (R := R) (coord_answers limit_for) (fun _ _ => False))).
Abbreviation two x y w := {| pool_threads := [x; y]; pool_world := w |}.

Lemma first_turn c k a h x w w' goal : coord_answers limit_for c w a w' ->
  reaches (two (k a, event c a :: h) x w') goal -> reaches (two (Ask c k, h) x w) goal.
Proof. intros Ha Hr. eapply rtc_l, Hr. by apply (turn _ _ 0 c k h a [(Ask c k, h); x]). Qed.

Lemma second_turn c k a h x w w' goal : coord_answers limit_for c w a w' ->
  reaches (two x (k a, event c a :: h) w') goal -> reaches (two x (Ask c k, h) w) goal.
Proof. intros Ha Hr. eapply rtc_l, Hr. by apply (turn _ _ 1 c k h a [x; (Ask c k, h)]). Qed.
End two_tasks.

(** A submission whose reply is remembered is replayed. *)
Lemma replay_answers limit_for q (r : SubmitTurnResponse) w :
  in_submit_idempotency (cw_store w) !! submit_key (sr_scope q) (sr_idempotency_key q) = Some (Ok r) ->
  coord_answers limit_for (StoreCall (ClaimSubmit (submit_key (sr_scope q) (sr_idempotency_key q)))) w (Some (Ok r)) w.
Proof.
  intros Hr. exists (cw_store w). split; [| by destruct w]. cbn. unfold claim_submit. by rewrite Hr.
Qed.

Lemma nothing_delivered cursor : true = try_begin_publish cursor ∅.
Proof. unfold try_begin_publish. by rewrite bool_decide_false by set_solver. Qed.

(** Two submissions of an accepted request, while its observer fails: the error of both is
    kept under one cursor, and only the first to ask gets it.  The other is answered with
    success, although its observer refused the event and no cursor is delivered. *)
Theorem concurrent_error_lost limit_for q r s o error :
  sr_requested_run_id q = None ->
  in_submit_idempotency s !! submit_key (sr_scope q) (sr_idempotency_key q) = Some (Ok r) ->
  let w := new_coordinator s <| cw_subscribers ::= subscribe_required o |> in
  let p := coordinator_submit_turn published_store deferred_error_port q in
  exists h1 h2 w',
    rtc (pool_step (coord_answers limit_for) (fun _ _ => False)) (pool_of [p; p] w)
      {| pool_threads := [(Ret (Err error), h1); (Ret (Ok r), h2)]; pool_world := w' |}
    /\ asked_of h2 (ObserveEvent o (submit_event q r)) (Err error)
    /\ sa_event_cursor r ∉ cw_delivered w'.
Proof.
  intros Hid Hr w p. unfold p, coordinator_submit_turn. rewrite Hid. do 3 eexists. split.
  - unfold pool_of. cbn [fmap list_fmap].
    eapply first_turn; [by apply replay_answers |].
    eapply (first_turn _ (TryBeginPublish (sa_event_cursor r)) _ true); [split; [apply nothing_delivered | done] |]. eapply first_turn; [by split |].
    eapply (first_turn _ (ObservesEvent o (submit_event q r)) _ true); [reflexivity |]. eapply (first_turn _ (ObserveEvent o (submit_event q r)) _ (Err error)); [reflexivity |].
    eapply (first_turn _ (DeferError (sa_event_cursor r) error) _ tt); [reflexivity |].
    eapply second_turn; [by apply replay_answers |].
    eapply (second_turn _ (TryBeginPublish (sa_event_cursor r)) _ true); [split; [apply nothing_delivered | done] |]. eapply second_turn; [by split |].
    eapply (second_turn _ (ObservesEvent o (submit_event q r)) _ true); [reflexivity |]. eapply (second_turn _ (ObserveEvent o (submit_event q r)) _ (Err error)); [reflexivity |].
    eapply (second_turn _ (DeferError (sa_event_cursor r) error) _ tt); [reflexivity |].
    eapply (first_turn _ (NotifyQueuedRun _) _ WakeSent); [reflexivity |].
    eapply (first_turn _ (TakeError (sa_event_cursor r)) _ (Some error)).
    { eexists. split; [| reflexivity]. unfold take_lifecycle_publication_error. cbn. by rewrite lookup_insert_eq. }
    eapply (second_turn _ (NotifyQueuedRun _) _ WakeSent); [reflexivity |].
    eapply (second_turn _ (TakeError (sa_event_cursor r)) _ None).
    { eexists. split; [| reflexivity]. unfold take_lifecycle_publication_error. cbn. by rewrite lookup_delete_eq. }
    apply rtc_refl.
  - split; [| apply not_elem_of_empty]. repeat first [apply list_elem_of_here | apply list_elem_of_further].
Qed.

(** The set of delivered cursors is emptied when it is full: a cursor that was published
    successfully is then published again when its operation is replayed. *)
Theorem full_set_forgets cursor other delivered :
  MAX_DELIVERED_EVENT_CURSORS <= N.of_nat (size delivered) -> other <> cursor ->
  try_begin_publish other (mark_event_cursor_delivered cursor delivered) = true.
Proof.
  intros Hfull Hne. unfold try_begin_publish, mark_event_cursor_delivered.
  apply N.leb_le in Hfull. rewrite Hfull, bool_decide_false; [done | set_solver].
Qed.

(** ** Concrete runs *)

Section runs.
Context (limit_for : LimitProvider) (q : SubmitTurnRequest) (r : SubmitTurnResponse) (s : Inner).
Hypothesis Hr : in_submit_idempotency s !! submit_key (sr_scope q) (sr_idempotency_key q) = Some (Ok r).

(** An observer subscribes; then a submission is replayed, and the observer takes it. *)
Lemma delivered_run o : sr_requested_run_id q = None ->
  exists pool,
    rtc (coord_step limit_for) (pool_of (coord_program <$> [SubmitsTurn q; Subscribes o]) (new_coordinator s)) pool
    /\ sa_event_cursor r ∈ cw_delivered (pool_world pool).
Proof using Hr.
  intros Hid. eexists. split.
  - unfold pool_of. cbn [fmap list_fmap coord_program]. unfold coordinator_submit_turn. rewrite Hid.
    eapply (second_turn _ (SubscribeRequired o) _ tt); [reflexivity |].
    eapply first_turn; [by apply replay_answers |].
    eapply (first_turn _ (TryBeginPublish (sa_event_cursor r)) _ true); [split; [apply nothing_delivered | done] |].
    eapply first_turn; [by split |].
    eapply (first_turn _ (ObservesEvent o (submit_event q r)) _ true); [reflexivity |].
    eapply (first_turn _ (ObserveEvent o (submit_event q r)) _ (Ok tt)); [reflexivity |].
    eapply (first_turn _ (MarkDelivered (sa_event_cursor r)) _ tt); [reflexivity |].
    apply rtc_refl.
  - cbn. unfold mark_event_cursor_delivered. set_solver.
Qed.

(** The same submission alone, nobody subscribed. *)
Lemma lone_run : sr_requested_run_id q = None ->
  exists w', runs_alone limit_for (coordinator_submit_turn published_store deferred_error_port q)
               (new_coordinator s) (Ok r) w'.
Proof using Hr.
  intros Hid. eexists. unfold coordinator_submit_turn. rewrite Hid.
  exists (Some (Ok r)), (new_coordinator s). split; [by apply replay_answers |].
  exists true. eexists. split; [split; [apply nothing_delivered | reflexivity] |].
  eexists _, _. split; [split; reflexivity |].
  exists tt. eexists. split; [reflexivity |].
  exists WakeSent. eexists. split; [reflexivity |].
  exists None. eexists. split; [eexists; split; reflexivity |]. by split.
Qed.

(** An id is prepared, then named by a submission of the same scope. *)
Lemma prepared_run id : sr_requested_run_id q = Some id ->
  exists pool,
    rtc (coord_step limit_for) (pool_of (coord_program <$> [PreparesTurn (sr_scope q); SubmitsTurn q])
                                 (new_coordinator s)) pool
    /\ times (consumes_id id) (snd <$> pool_threads pool) = 1%nat.
Proof.
  intros Hid. eexists. split.
  - unfold pool_of. cbn [fmap list_fmap coord_program]. unfold coordinator_submit_turn. rewrite Hid.
    eapply (first_turn _ NewRunId _ id); [reflexivity |].
    eapply (first_turn _ (RecordPrepared id (sr_scope q)) _ (Ok tt)); [eexists; split; reflexivity |].
    eapply (second_turn _ (ConsumePrepared id) _ (Some (sr_scope q))).
    { eexists. split; [| reflexivity]. unfold consume_prepared_run_id. cbn. by rewrite lookup_insert_eq. }
    apply rtc_refl.
  - cbn. by rewrite N.eqb_refl.
Qed.
End runs.
End delivery.
