(* ===== verification/TurnDemo.v ===== *)
(** * The turn store: a concrete run of it

    Two submissions on two threads, and a claim under a cap of one running run per user;
    the theorems about reachable stores, at that store. *)

From stdpp Require Import relations.
From S2P Require Import Prelude Ids Platform HostApi Capability Obligations Programs Collections Turns TurnLimiter TurnEvents TurnStore TurnOps TurnRunner TurnSnapshot TurnWf TurnRestore TurnMoves TurnOpsFacts TurnSubmits TurnCalls TurnSafety TurnLog TurnGuards TurnCoordinator TurnPublish TurnDelivery.
From Stdlib Require Import Lia.
Local Open Scope N_scope.
Local Open Scope record_scope.

Section demo.
#[local] Existing Instance TestPlatform.
#[local] Instance UnitPayload : TurnPayload := {|
  ResolvedRunProfile := unit; rp_profile_id := fun _ => "interactive_default";
  rp_profile_version := fun _ => 1; rp_allow_steering := fun _ => true;
  route_validate := fun _ => Ok tt |}.

Definition turn_limits : TurnStoreLimits := {|
  tsl_max_events := 100; tsl_max_terminal_records := 10; tsl_max_idempotency_records := 10;
  tsl_runner_lease_ttl := 60;
  tsl_concurrency := {| max_concurrent_runs_per_user := Some 1; max_concurrent_trigger_runs := None;
                        max_concurrent_conversation_runs := None |} |}.

(** At most two runs of a tenant at a time. *)
Definition tenant_limit : LimitProvider :=
  static_limit_for (with_total_limit TenantAxis 2 {| sl_limits := []; sl_unavailable := false |}).

Definition thread_scope (thread : ThreadId) : TurnScope := {|
  ts_tenant_id := "acme"; ts_agent_id := None; ts_project_id := None; ts_thread_id := thread;
  ts_thread_owner := ActorFallback |}.

Definition turn_request (thread : ThreadId) (key : IdempotencyKey) : SubmitTurnRequest := {|
  sr_scope := thread_scope thread; sr_actor := {| ta_user_id := "alice" |};
  sr_accepted_message_ref := "m"; sr_source_binding_ref := "s"; sr_reply_target_binding_ref := "t";
  sr_requested_run_profile := None; sr_idempotency_key := key; sr_received_at := 5%Z;
  sr_requested_run_id := None; sr_parent_run_id := None; sr_subagent_depth := 0;
  sr_spawn_tree_root_run_id := None; sr_product_context := None |}.

Definition clock : Clock := fun i => Z.of_nat i.
Definition profile_ok : Result ResolvedRunProfile RunProfileResolutionError := Ok tt.

Definition fresh_a : FreshIds := {| fresh_turn := 100; fresh_run := 1 |}.
Definition fresh_b : FreshIds := {| fresh_turn := 200; fresh_run := 2 |}.

Definition store0 : Inner := inner_with_limits turn_limits.
Definition out1 := commit_submit tenant_limit (turn_request "a" "k1") profile_ok fresh_a clock store0.
Definition out2 := commit_submit tenant_limit (turn_request "b" "k2") profile_ok fresh_b clock out1.2.
Definition out3 := claim_matching_queued_run 7 70 None clock out2.2.
Abbreviation store1 := (out1.2).
Abbreviation store2 := (out2.2).
Abbreviation store3 := (out3.2).

Definition response_of (o : Result SubmitTurnResponse TurnError) : SubmitTurnResponse :=
  match o with
  | Ok r => r
  | Err _ => submit_accepted (queued_run (thread_scope "") {| ta_user_id := "" |} 0 0 (from_resolved tt)
               "" "" "" None 0 0%Z None 0 None None)
  end.

(** Facts about the stores are evaluated as tests that come out [true]. *)
Definition accepted (o : Result SubmitTurnResponse TurnError) : bool :=
  match o with Ok _ => true | Err _ => false end.

Lemma accepted_response o : accepted o = true -> o = Ok (response_of o).
Proof. by destruct o. Qed.

Lemma out2_accepted : accepted out2.1 = true.
Proof. vm_refl. Qed.
Lemma out2_ok : out2.1 = Ok (response_of out2.1).
Proof. apply accepted_response, out2_accepted. Qed.

Lemma fresh1 : in_turns store0 !! fresh_turn fresh_a = None.
Proof. vm_refl. Qed.
Lemma fresh2 : in_turns store1 !! fresh_turn fresh_b = None.
Proof. vm_refl. Qed.

Lemma answer1 : turn_answers tenant_limit (CommitSubmit (turn_request "a" "k1") profile_ok) store0 out1.1 store1.
Proof. exists fresh_a, clock. split; [exact fresh1 | apply surjective_pairing]. Qed.
Lemma answer2 : turn_answers tenant_limit (CommitSubmit (turn_request "b" "k2") profile_ok) store1 out2.1 store2.
Proof. exists fresh_b, clock. split; [exact fresh2 | apply surjective_pairing]. Qed.
Lemma answer3 : turn_answers tenant_limit (ClaimNextRun 7 70 None) store2 out3.1 store3.
Proof. exists clock. apply surjective_pairing. Qed.

Lemma out3_eq : claim_matching_queued_run 7 70 None clock store2 = (out3.1, store3).
Proof. apply surjective_pairing. Qed.

Lemma turn_limits_wf : caps_wf (tsl_concurrency turn_limits).
Proof. split; [by intros c [= <-] | by intros [] c]. Qed.

Lemma one_more task s c k a s' : reachable tenant_limit s -> task_program task = Ask c k ->
  turn_answers tenant_limit c s a s' -> reachable tenant_limit s'.
Proof.
  intros Hs Hc Ha. eapply (store_run _ [task] _ s); [exact Hs |]. apply rtc_once.
  unfold pool_of. cbn [fmap list_fmap]. rewrite Hc.
  exact (turn (turn_answers tenant_limit) (fun _ _ => False) 0 c k [] a [(Ask c k, [])] s s' eq_refl Ha).
Qed.

Lemma store0_reachable : reachable tenant_limit store0.
Proof. apply store_new, turn_limits_wf. Qed.

Lemma store1_reachable : reachable tenant_limit store1.
Proof.
  exact (one_more (Calls (CommitSubmit (turn_request "a" "k1") profile_ok)) _ _ _ _ _ store0_reachable eq_refl answer1).
Qed.

Lemma store2_reachable : reachable tenant_limit store2.
Proof.
  exact (one_more (Calls (CommitSubmit (turn_request "b" "k2") profile_ok)) _ _ _ _ _ store1_reachable eq_refl answer2).
Qed.

Lemma store3_reachable : reachable tenant_limit store3.
Proof. exact (one_more (Calls (ClaimNextRun 7 70 None)) _ _ _ _ _ store2_reachable eq_refl answer3). Qed.
(** The stores stay as they are from here on. *)
#[local] Opaque out1 out2 out3.

(** ** Threads, caps, lives *)

Lemma one_run_per_thread_witness :
  is_Some (in_active_locks store3 !! thread_scope "a")
  <-> exists id r, live_run store3 id r /\ run_scope r = thread_scope "a".
Proof.
  exact (proj1 (proj2 (one_run_per_thread tenant_limit store3 store3_reachable)) (thread_scope "a")).
Defined.

Lemma cap_of_store3 : max_concurrent_runs_per_user (tsl_concurrency (in_limits store3)) = Some 1.
Proof. vm_refl. Qed.

Lemma running_caps_hold_witness :
  slots user_key ("acme", "alice") (in_records store3) <= 1
  /\ count_for_user (in_concurrency store3) "acme" "alice"
     = slots user_key ("acme", "alice") (in_records store3).
Proof.
  exact (proj1 (running_caps_hold tenant_limit store3 store3_reachable) ("acme", "alice") 1 cap_of_store3).
Defined.

Definition no_run : TurnRun := queued_run (thread_scope "") {| ta_user_id := "" |} 0 0 (from_resolved tt)
  "" "" "" None 0 0%Z None 0 None None.
Definition run_at (id : TurnRunId) (s : Inner) : TurnRun := default no_run (in_records s !! id).

Definition found (id : TurnRunId) (s : Inner) : bool :=
  match in_records s !! id with Some _ => true | None => false end.

Lemma found_run id s : found id s = true -> in_records s !! id = Some (run_at id s).
Proof. unfold found, run_at. by destruct (in_records s !! id). Qed.

Lemma found1 : found 1 store2 = true.
Proof. vm_refl. Qed.
Lemma run1_found : in_records store2 !! 1 = Some (run_at 1 store2).
Proof. apply found_run, found1. Qed.

Definition claim_pool : Pool (C := TurnCall) (Answer := TurnAnswer) :=
  {| pool_threads := [(Ask (ClaimNextRun 7 70 None) (fun _ => Ret tt), [])]; pool_world := store2 |}.
Definition claimed_pool : Pool (C := TurnCall) (Answer := TurnAnswer) :=
  {| pool_threads := [(Ret tt, [event (ClaimNextRun 7 70 None) out3.1])]; pool_world := store3 |}.

Lemma claim_step : rtc (pool_step (R := unit) (turn_answers tenant_limit) (fun _ _ => False)) claim_pool claimed_pool.
Proof.
  apply rtc_once. exact (turn (turn_answers tenant_limit) (fun _ _ => False) 0 (ClaimNextRun 7 70 None)
    (fun _ => Ret tt) [] out3.1 (pool_threads claim_pool) store2 store3 eq_refl answer3).
Qed.

Lemma run_life_witness :
  (exists r', run_goes store3 1 (run_at 1 store2) r')
  \/ exists s1 s2 r1, changes store2 s1 /\ change s1 s2 /\ changes s2 store3 /\ run_goes s1 1 (run_at 1 store2) r1
       /\ turn_is_terminal (run_status r1) = true /\ in_records s2 !! 1 = None.
Proof.
  exact (run_life tenant_limit store2 claim_pool 1 (run_at 1 store2) store2_reachable eq_refl run1_found
    claimed_pool claim_step).
Defined.

Lemma out3_claimed : match out3.1 with Ok (Some _) => true | _ => false end = true.
Proof. vm_refl. Qed.

Lemma claim_takes_first_witness :
  exists before id after r', in_queued_runs store2 = before ++ id :: after
    /\ in_records store3 = <[id := r']> (in_records store2)
    /\ in_queued_runs store3 = after ++ before /\ run_lease_token r' = Some 70.
Proof.
  destruct (claim_takes_first tenant_limit 7 70 None clock store2 out3.1 store3 store2_reachable
    out3_eq) as [(Hnone & _) | (before & id & after & r & r' & H1 & _ & _ & _ & H2 & H3 & _ & _ & _ & _ & H4 & _)].
  - pose proof out3_claimed as Hc. by rewrite Hnone in Hc.
  - exists before, id, after, r'. exact (conj H1 (conj H2 (conj H3 H4))).
Defined.

(** ** Leases, admission, trees *)

Definition stale_claim : LeaseClaim := {| lc_run_id := 1; lc_runner_id := 7; lc_lease_token := 71 |}.
Definition out4 := heartbeat stale_claim clock store3.

Lemma token_of_run1 : run_lease_token (run_at 1 store3) = Some 70.
Proof. vm_refl. Qed.
Lemma claimed1 : found 1 store3 = true.
Proof. vm_refl. Qed.
Lemma run1_claimed : in_records store3 !! 1 = Some (run_at 1 store3).
Proof. apply found_run, claimed1. Qed.

Lemma stale_claim_not_held : ~ holds_lease stale_claim store3.
Proof.
  intros (r & Hr & _ & Ht). cbn in Hr. rewrite run1_claimed in Hr. apply (inj Some) in Hr. subst r.
  by rewrite token_of_run1 in Ht.
Qed.

Lemma stale_lease_fenced_witness :
  answered_error (Heartbeat stale_claim) out4.1
  /\ (out4.2 = store3 \/ out4.2 = prune_terminal_records store3).
Proof.
  apply (stale_lease_fenced tenant_limit (Heartbeat stale_claim) stale_claim store3 out4.1 out4.2
    store3_reachable eq_refl stale_claim_not_held). exists clock. apply surjective_pairing.
Defined.

Lemma no_reply_yet : in_submit_idempotency store1 !! submit_key (thread_scope "b") "k2" = None.
Proof. vm_refl. Qed.

Lemma answer2_ok : turn_answers tenant_limit (CommitSubmit (turn_request "b" "k2") profile_ok) store1
  (Ok (response_of out2.1)) store2.
Proof. rewrite <- out2_ok. exact answer2. Qed.

Lemma admission_within_limits_witness :
  exists r, in_records store2 = <[sa_run_id (response_of out2.1) := r]> (in_records store1)
    /\ forall bucket limit max,
         bucket ∈ admission_buckets (run_scope r) (run_actor r) (rp_admission_class (run_profile r)) ->
         tenant_limit bucket = Ok limit -> tl_max_active limit = Some max ->
         count_map (occupies bucket) (in_records store2) <= max.
Proof.
  destruct (admission_within_limits tenant_limit (turn_request "b" "k2") profile_ok store1
    (response_of out2.1) store2 store1_reachable answer2_ok no_reply_yet) as (r & _ & Hr & Hb).
  exists r. exact (conj Hr Hb).
Defined.

Definition out5 := reserve_tree_descendants (thread_scope "a") 1 2 5 store3.

Lemma tree_reserve_bounded_witness :
  match out5.1 with
  | Ok granted => st_descendant_count granted = tree_count (tree_state (tree_key_new (thread_scope "a") 1) store3) + 2
  | Err _ => out5.2 = store3
  end.
Proof.
  pose proof (tree_reserve_bounded tenant_limit (thread_scope "a") 1 2 5 store3 out5.1 out5.2 store3_reachable
    (surjective_pairing out5)) as Hb. destruct out5.1; [apply Hb | apply Hb].
Defined.

Definition out6 := release_tree_descendants (thread_scope "a") 1 1 42 out5.2.
Definition out7 := release_tree_descendants (thread_scope "a") 1 1 42 out6.2.

Lemma out6_released : match out6.1 with Ok _ => true | Err _ => false end = true.
Proof. vm_refl. Qed.
Lemma out6_ok : out6 = (Ok tt, out6.2).
Proof. pose proof out6_released as Hok. by destruct out6 as [[[] |] s]. Qed.

Lemma tree_release_once_witness : out7.2 = out6.2.
Proof.
  apply (tree_release_once tenant_limit (thread_scope "a") 1 1 1 42 out5.2 out6.2 out7.1 out7.2 out6_ok).
  apply surjective_pairing.
Defined.

(** ** Replies and events *)

Lemma memory_of_store1 : 0 < tsl_max_idempotency_records (in_limits store1).
Proof. apply N.ltb_lt. vm_refl. Qed.

Lemma submitted_once_witness :
  in_submit_idempotency store2 !! submit_key (thread_scope "b") "k2" = Some (Ok (response_of out2.1)).
Proof.
  exact (proj1 (submitted_once tenant_limit (turn_request "b" "k2") profile_ok store1 (response_of out2.1)
    store2 claim_pool claimed_pool store1_reachable memory_of_store1 answer2_ok eq_refl claim_step)).
Defined.

(** ** Coordination over the second store *)

Lemma remembered2 :
  in_submit_idempotency store2 !! submit_key (thread_scope "b") "k2" = Some (Ok (response_of out2.1)).
Proof.
  exact (accepted_remembered tenant_limit (turn_request "b" "k2") profile_ok store1 (response_of out2.1) store2
    (reachable_wf _ _ store1_reachable) memory_of_store1 answer2_ok).
Qed.

Lemma log_is_announced_witness : exists logged, log_grew logged store1 store2
  /\ (timeless <$> logged = timeless <$> announced 9%Z (CommitSubmit (turn_request "b" "k2") profile_ok) out2.1
      \/ logged = [] /\ replayed_answer store1 (CommitSubmit (turn_request "b" "k2") profile_ok) out2.1
      \/ false = true /\ announced 9%Z (CommitSubmit (turn_request "b" "k2") profile_ok) out2.1 = []
         /\ (length logged <= 1)%nat /\ Forall (fun e => ev_kind e = EvRunnerHeartbeat) logged).
Proof.
  exact (log_is_announced tenant_limit (CommitSubmit (turn_request "b" "k2") profile_ok) store1 out2.1 store2 9%Z
    answer2).
Defined.

Lemma delivered_was_observed_witness :
  exists pool i p h, pool_threads (R := unit) (W := CoordWorld) pool !! i = Some (p, h)
    /\ acknowledged h (sa_event_cursor (response_of out2.1)).
Proof.
  destruct (delivered_run tenant_limit (turn_request "b" "k2") _ store2 remembered2 0 eq_refl) as (pool & Hrun & Hin).
  exists pool. exact (proj2 (delivered_was_observed tenant_limit _ store2 pool Hrun) _ Hin).
Defined.

Lemma success_is_delivered_witness : exists w', sa_event_cursor (response_of out2.1) ∈ cw_delivered w'.
Proof.
  destruct (lone_run tenant_limit (turn_request "b" "k2") _ store2 remembered2 eq_refl) as [w' Hw].
  exists w'. exact (proj1 (success_is_delivered tenant_limit _ w') _ _ Hw).
Defined.

(** The same request, for a run id that was prepared. *)
Definition named_request : SubmitTurnRequest := {|
  sr_scope := thread_scope "b"; sr_actor := {| ta_user_id := "alice" |};
  sr_accepted_message_ref := "m"; sr_source_binding_ref := "s"; sr_reply_target_binding_ref := "t";
  sr_requested_run_profile := None; sr_idempotency_key := "k3"; sr_received_at := 5%Z;
  sr_requested_run_id := Some 9; sr_parent_run_id := None; sr_subagent_depth := 0;
  sr_spawn_tree_root_run_id := None; sr_product_context := None |}.

Lemma prepared_used_once_witness : exists pool,
  total (total (consumes_id 9)) (snd <$> pool_threads (R := unit) (W := CoordWorld) pool) = 1%nat
  /\ (1 <= total (total (records_id 9)) (snd <$> pool_threads pool))%nat.
Proof.
  destruct (prepared_run tenant_limit named_request store2 9 eq_refl) as (pool & Hrun & Hone).
  exists pool. split; [exact Hone |]. rewrite <- Hone.
  exact (proj1 (proj2 (prepared_used_once tenant_limit _ store2 pool Hrun)) 9).
Defined.

Lemma cursor_of_store3 : in_cursor store3 < u64_max.
Proof. apply N.ltb_lt. vm_refl. Qed.

Lemma event_log_complete_witness :
  in_event_retention_floor store3 + N.of_nat (length (in_events store3)) = in_cursor store3.
Proof.
  exact (proj1 (proj2 (event_log_complete tenant_limit store3 store3_reachable cursor_of_store3))).
Defined.

Lemma restart_restores_witness :
  exists s', from_persistence_snapshot (persistence_snapshot store3) (in_limits store3) = Ok s'
    /\ restored store3 s'.
Proof.
  destruct (restart_restores tenant_limit store3 (persistence_snapshot store3) store3_reachable cursor_of_store3
    (same_entries_refl _)) as (s' & Hload & Hre & _). exact (ex_intro _ s' (conj Hload Hre)).
Defined.

(** ** Where the store differs from its contracts *)

Definition owned_request (owner : UserId) (key : IdempotencyKey) : SubmitTurnRequest := {|
  sr_scope := {| ts_tenant_id := "acme"; ts_agent_id := None; ts_project_id := None; ts_thread_id := "a";
                 ts_thread_owner := ExplicitUser owner |};
  sr_actor := {| ta_user_id := owner |};
  sr_accepted_message_ref := "m"; sr_source_binding_ref := "s"; sr_reply_target_binding_ref := "t";
  sr_requested_run_profile := None; sr_idempotency_key := key; sr_received_at := 5%Z;
  sr_requested_run_id := None; sr_parent_run_id := None; sr_subagent_depth := 0;
  sr_spawn_tree_root_run_id := None; sr_product_context := None |}.

Definition out_alice := commit_submit tenant_limit (owned_request "alice" "k1") profile_ok fresh_a clock store0.
Definition out_bob := commit_submit tenant_limit (owned_request "bob" "k2") profile_ok fresh_b clock out_alice.2.

Definition goes_on (id : TurnRunId) (s : Inner) : bool :=
  found id s && negb (turn_is_terminal (run_status (run_at id s))).

Lemma goes_on_live id s : goes_on id s = true -> live_run s id (run_at id s).
Proof. intros [Hf Ht%negb_true_iff]%andb_true_iff. split; [by apply found_run | done]. Qed.

(** Two owners, one thread.  The lock of a scope is kept per owner of the thread, while
    the contract of turn persistence and [same_thread] name tenant, agent, project and
    thread only: two runs on one such thread go on at once. *)
Lemma owners_share_thread :
  reachable tenant_limit out_bob.2
  /\ live_run out_bob.2 1 (run_at 1 out_bob.2) /\ live_run out_bob.2 2 (run_at 2 out_bob.2)
  /\ same_thread (run_scope (run_at 1 out_bob.2)) (run_scope (run_at 2 out_bob.2)) = true.
Proof.
  split; [| split; [by apply goes_on_live; vm_refl | split; [by apply goes_on_live; vm_refl | by vm_refl]]].
  assert (turn_answers tenant_limit (CommitSubmit (owned_request "alice" "k1") profile_ok) store0 out_alice.1 out_alice.2) as H1
    by (exists fresh_a, clock; split; [unfold fresh_turn_for; vm_refl | apply surjective_pairing]).
  assert (turn_answers tenant_limit (CommitSubmit (owned_request "bob" "k2") profile_ok) out_alice.2 out_bob.1 out_bob.2) as H2
    by (exists fresh_b, clock; split; [unfold fresh_turn_for; vm_refl | apply surjective_pairing]).
  eapply (one_more (Calls (CommitSubmit (owned_request "bob" "k2") profile_ok))); [| reflexivity | exact H2].
  by eapply (one_more (Calls (CommitSubmit (owned_request "alice" "k1") profile_ok))); [exact store0_reachable | | exact H1].
Qed.

Definition out_recovered := recover_expired_leases 1000%Z None (fun _ => clock) store3.
Definition out_next := commit_submit tenant_limit (turn_request "a" "k3") profile_ok
  {| fresh_turn := 300; fresh_run := 3 |} clock out_recovered.2.

(** An expired lease frees the thread.  The run the claim of [store3] started is failed
    by the recovery once its lease has expired; its thread is not busy any more, and
    accepts the next submission. *)
Lemma expired_lease_frees_thread :
  reachable tenant_limit out_recovered.2
  /\ live_run store3 1 (run_at 1 store3) /\ run_status (run_at 1 store3) = TurnRunning
  /\ run_status (run_at 1 out_recovered.2) = TurnFailed
  /\ in_active_locks out_recovered.2 !! thread_scope "a" = None
  /\ accepted out_next.1 = true.
Proof.
  split; [| split_and!; [apply goes_on_live; by vm_refl | by vm_refl..]].
  eapply (one_more (Calls (RecoverExpired 1000%Z None))); [exact store3_reachable | reflexivity |].
  exists (fun _ => clock). apply surjective_pairing.
Qed.

(** ** A run parked on an external tool *)

Definition held_claim : LeaseClaim := {| lc_run_id := 1; lc_runner_id := 7; lc_lease_token := 70 |}.
Definition park_call : TurnCall := BlockRun held_claim 55 "state" (BlockExternalTool "tool").
Definition out8 := block_run held_claim 55 "state" (BlockExternalTool "tool") clock store3.
Abbreviation parked_store := (out8.2).

Lemma answer8 : turn_answers tenant_limit park_call store3 out8.1 parked_store.
Proof. exists clock. apply surjective_pairing. Qed.

Lemma parked_reachable : reachable tenant_limit parked_store.
Proof. exact (one_more (Calls park_call) _ _ _ _ _ store3_reachable eq_refl answer8). Qed.
#[local] Opaque out8.

Definition impatient : CancelRunRequest := {|
  cq_scope := thread_scope "a"; cq_actor := {| ta_user_id := "alice" |}; cq_run_id := 1;
  cq_reason := CancelUserRequested; cq_idempotency_key := "c1" |}.

Lemma parked1 : found 1 parked_store = true.
Proof. vm_refl. Qed.
Lemma parked_found : in_records parked_store !! 1 = Some (run_at 1 parked_store).
Proof. apply found_run, parked1. Qed.
Lemma parked_status : run_status (run_at 1 parked_store) = TurnBlockedExternalTool.
Proof. vm_refl. Qed.
Lemma parked_scope_decided : bool_decide (run_scope (run_at 1 parked_store) = cq_scope impatient) = true.
Proof. vm_refl. Qed.
Lemma parked_scope : run_scope (run_at 1 parked_store) = cq_scope impatient.
Proof. exact (bool_decide_eq_true_1 _ parked_scope_decided). Qed.
Lemma parked_actor_decided : bool_decide (run_actor (run_at 1 parked_store) = cq_actor impatient) = true.
Proof. vm_refl. Qed.
Lemma parked_actor : run_actor (run_at 1 parked_store) = cq_actor impatient.
Proof. exact (bool_decide_eq_true_1 _ parked_actor_decided). Qed.
Lemma parked_terminal :
  N.of_nat (length (in_terminal_runs parked_store)) <= tsl_max_terminal_records (in_limits parked_store).
Proof. apply N.leb_le. vm_refl. Qed.

Lemma external_tool_cancel_ignored_witness :
  request_cancel_once impatient clock parked_store
  = (Ok (cancel_response (run_at 1 parked_store) true), parked_store).
Proof.
  exact (proj1 (external_tool_cancel_ignored tenant_limit parked_store impatient clock (run_at 1 parked_store)
    parked_reachable parked_found parked_status parked_scope parked_actor parked_terminal)).
Defined.

Definition no_caps : ConcurrencyLimits := {|
  max_concurrent_runs_per_user := None; max_concurrent_trigger_runs := None;
  max_concurrent_conversation_runs := None |}.

(** ** Retries on a busy thread push out durable replies

    Each retry that finds its thread busy leaves a record that no memory accounts for.
    With one reply to remember per operation, and so four records: the fourth such retry
    pushes out the record of a submission that is still in memory, so that the submission
    is new again after a restart. *)
Definition small_limits : TurnStoreLimits := {|
  tsl_max_events := 100; tsl_max_terminal_records := 10; tsl_max_idempotency_records := 1;
  tsl_runner_lease_ttl := 60; tsl_concurrency := no_caps |}.

Definition busy_retry (key : IdempotencyKey) : RetryTurnRequest := {|
  ry_scope := thread_scope "a"; ry_actor := {| ta_user_id := "alice" |}; ry_run_id := 1;
  ry_source_binding_ref := "s"; ry_reply_target_binding_ref := "t"; ry_idempotency_key := key |}.

(** The first run fails with a checkpoint, the second keeps the thread busy. *)
Definition busy_store : Inner :=
  let s := (commit_submit allow_all_limits (turn_request "a" "k1") profile_ok fresh_a clock
              (inner_with_limits small_limits)).2 in
  let s := (claim_matching_queued_run 7 70 None clock s).2 in
  let s := (put_loop_checkpoint {| pl_scope := thread_scope "a"; pl_turn_id := 100; pl_run_id := 1;
              pl_state_ref := "state"; pl_schema_id := "schema"; pl_schema_version := 1;
              pl_kind := BeforeModel; pl_gate_ref := None |} 90 clock s).2 in
  let s := (fail_run held_claim (from_trusted_static "model_error") clock s).2 in
  (commit_submit allow_all_limits (turn_request "a" "k2") profile_ok fresh_b clock s).2.

Definition after_retries (keys : list IdempotencyKey) : Inner :=
  fold_left (fun s key => match retry_turn allow_all_limits (busy_retry key) [3] 91 clock s with
                          | Some (_, s') => s' | None => s end) keys busy_store.

Definition remembered_k2 (s : Inner) : bool :=
  match in_submit_idempotency s !! submit_key (thread_scope "a") "k2" with Some (Ok _) => true | _ => false end.
Definition recorded_k2 (s : Inner) : bool :=
  bool_decide (is_Some (in_idempotency_records s !! persisted_submit_key (submit_key (thread_scope "a") "k2"))).

Lemma busy_retries_evict :
  remembered_k2 (after_retries ["r1"; "r2"; "r3"]) && recorded_k2 (after_retries ["r1"; "r2"; "r3"])
  && remembered_k2 (after_retries ["r1"; "r2"; "r3"; "r4"])
  && negb (recorded_k2 (after_retries ["r1"; "r2"; "r3"; "r4"])) = true.
Proof. vm_refl. Qed.
End demo.
